(* ===== verification/_CoqProject ===== *)
-Q . S2P
Prelude.v
GoStr.v
Trim.v
GoValue.v
Expr.v
ExprTheory.v
ExprSpec.v
LexSpec.v
GoSort.v
Json.v
Model.v
Store.v
StoreSpec.v
StoreProps.v
Graph.v
GraphSpec.v
SideEffects.v
GoFmt.v
Mcp.v
Engine.v
EngineTheory.v
EngineProps.v
Auth.v
Hub.v
History.v
Sampler.v
Decomposer.v
Threads.v
Orchestrator.v
OrchestratorTheory.v
OrchestratorProps.v
DistributeProps.v
Config.v
Codec.v
Traces.v
Rpc.v
Cgo.v
Sql.v
Pg.v
PgJson.v
PgTheory.v
PgProps.v
PgFrame.v
PgLaws.v
PgSim.v
PgStore.v
PgRuns.v
Api.v
Socket.v
Tenants.v
ApiTheory.v
ApiSamples.v
ApiProps.v
ApiRoundtrips.v
ApiTasks.v
PoolTenants.v
Dashboard.v
PgTenants.v
Migrations.v
Encode.v
OpenApi.v
ApiTypes.v
Metrics.v
Writer.v
Middleware.v
Routes.v
RoutesProps.v
ServerProps.v
Main.v
