(* ===== verification/Prelude.v ===== *)
(** * agent-hub-core: verification library (root file)

    agent-hub-core is a server that keeps, for each tenant, agents, MCP
    servers, flows, runs, tasks and users; executes flows, which are graphs of
    nodes that call MCP tools, evaluate conditions and write side effects;
    spreads tasks over agents with a pool of workers; and serves all of this
    over HTTP and WebSockets.  This library models its Go code as executable
    definitions and proves what makes each part correct.  Paths below are
    under src/internal.

    ** How code becomes definitions

    A Go function with errors and panics is an [outcome]; a method with state
    is a computation [M S A = S → outcome A * S], so that the state at an
    error or a panic is visible.  Go strings are bytes, integers [Z] with
    their width written out where it matters, float64 [SpecFloat] numbers
    (GoValue), maps [gmap]s whose iteration order is a parameter
    ([MapOrder], GoSort), JSON documents syntax trees (Json).  Concurrent
    code is an [Inductive] step relation over the shared state: the worker
    pool (Threads, Orchestrator), the sampler (Sampler), the hub (Hub), the
    pumps of a WebSocket (Socket), the program with its signals (Main).
    Methods that hold one lock from start to end are one step.

    Interfaces of the program are type classes, and clients are proved
    against the class: [Store] with [StoreLaws] (StoreSpec; implemented by
    [Memory]) and with the weaker [TenantLaws] (Tenants; implemented by every
    lawful store and by [PG_Store]), [Client]
    with [ClientLaws] (Mcp; implemented by [MockClient], [goClient] and
    [cgoClient]), [SideEffectStore] with [SideEffectLaws] (SideEffects;
    implemented by [MemorySideEffectStore]).  Code outside the repository is
    a class too, with the documented behaviour that is relied on as laws:
    [JWT]/[JWTLaws], [Bcrypt], [Net]/[NetLaws] (os/exec and the websocket
    library), [CEngine] (the C interface of libmcpengine), [Pgx]/[PgxLaws] and
    [Database]/[DatabaseLaws] (the PostgreSQL driver and server),
    [PgxPool]/[PoolAnswers] (the pool of its connections), [MigrationFS] (the
    embedded files), [Prometheus]/[PrometheusLaws], [Chi]/[ChiLaws] and
    [Recovering]/[RecoveringLaws] (the router and its Recoverer), [FmtQuote]
    (strconv.Quote).  [TaskSlices] says how a store that keeps the slice it is
    given sees later writes to it.

    ** The files

    - Prelude, GoStr, Trim, GoValue, GoSort, GoFmt, Json, Codec: errors,
      outcomes, the monad and its tactics; strings, splitting and trimming,
      values, sorting, error texts, encoding/json and the decoding of the
      structs by their tags.
    - Expr (flow/expr.go): lexer and one-pass evaluator of conditions.
      ExprTheory: it terminates, and panics only in a skipped operand.
      ExprSpec, LexSpec: a reference semantics and a printer, and that
      [evalExpression] computes the denotation of everything that can be
      written; the panics and oddities of malformed or skipped operands.
    - Model, Store (store/models.go, store.go, memory.go): the data and the
      in-memory store.  StoreSpec: the specification of every call and
      [memory_refines].  StoreProps: histories, tenant isolation, create /
      read / update / delete, failures change nothing.
    - Sql, Pg (migrations/0001_init.sql, store/pgx.go, json_helpers.go): the
      schema, what a statement does to the tables, and every method with its
      statement, parameters and scan.  PgJson: documents survive a jsonb
      column.  PgTheory, PgProps: what each way of calling the database does;
      created and updated rows are read back.  PgFrame, PgLaws: a call
      concerns the rows of its tenant, and runs one statement at most.  PgRuns:
      every run keeps a flow of its own tenant.  PgSim: a small database with
      the laws.  PgStore: the guarantees.  A statement is done or not; an
      error says that it was not done if the server is [reachable], and
      otherwise it may have been done and its answer lost.
    - Migrations (store/migrations.go, the head of pgx.go): the statements of
      the embedded files, and that a start on PostgreSQL either runs them all
      or leaves nothing open.
    - Graph, GraphSpec (flow/graph.go): [buildGraph] accepts exactly the valid
      acyclic definitions and returns a topological order.
    - SideEffects (flow/rollback.go): the rollback log and the in-memory
      side-effect store, what it holds after a rollback, and the lost update
      between runs that share it.
    - Mcp, Traces, Rpc, Cgo (mcp/client.go, mock.go, client_go.go,
      client_cgo.go): the protocol's types, the mock, the JSON-RPC client over
      [Net] (one connection and at most one exchange per call; the goroutine
      that reads and the [select] that waits for it or for the context; the
      first line read is the answer) and the client over [CEngine] (what is taken from
      the engine is given back exactly once).  Traces relates a computation
      over such an interface to its traced copy.
    - Engine, EngineTheory, EngineProps (flow/nodes.go, engine.go): executing
      a flow ends, restores the side effects when it fails, runs exactly the
      nodes its outputs lead to, and has only the effects of these nodes, inside
      the permissions of the flow ([boundary], written apart from the code).
    - Auth (auth/): the role matrix, tokens, the middlewares and the group of
      protected routes.
    - Hub (ws/hub.go): registration, broadcast and the channels.
    - History, Sampler, Dashboard (api/dashboard_history.go, dashboard.go):
      the ring of samples (whose allocation panics when it is too large), the
      goroutine that fills it with Start and Stop, the counts of the dashboard,
      and the readiness check with and without a store.
    - Decomposer (orchestrator/decomposer.go): which agents get which subtask.
    - Threads, Orchestrator, OrchestratorTheory, OrchestratorProps,
      DistributeProps (orchestrator/task_distribution.go): the worker pool as
      an interleaving of goroutines and of the rest of the program; it does
      not deadlock, ends, bounds its workers, its semaphore and wait group count
      exactly the goroutines they stand for, and its task agrees with what
      happened.
    - Config (config/config.go, logging/logging.go, NewServer): the
      environment, its parsers, validation and the services made from it.
    - Api, ApiTheory, ApiSamples, ApiProps, ApiRoundtrips, ApiTasks
      (api/*.go): every handler over any lawful store; requests are confined
      to the tenant of their token; login, seeding, running a flow, creating a
      task.  Tenants, PoolTenants, PgTenants: the confinement of handlers,
      login and worker pool over what [TenantLaws] promises, and so over
      PostgreSQL.
    - Socket (api/ws.go, chat.go): the two pumps of a connection as steps with
      the hub and the peer; its messages are forwarded once and in order, and
      once the peer has gone it ends.
    - Encode, OpenApi, ApiTypes (the tags of store/models.go, writeJSON,
      openapi/openapi.yaml): the JSON of every answer; the paths, statuses and
      schemas of the document; every answer held to them, with where they
      depart ([openapi_departures]); what is shown can be sent back.
    - Metrics (metrics/metrics.go), Writer (the response recorder of
      api/router.go over a response of net/http), Middleware (the three
      middlewares and Recoverer: a request is counted and logged once with
      the status that was sent).
    - Routes, RoutesProps, ServerProps (Router in api/router.go): the table of
      routes, dispatch, and a request from the first middleware to the wire,
      which does what [Api.handle] says.
    - Main (cmd/hub/main.go): the program as an interleaving, its exit codes
      (0 after a shutdown, 1 for a failure, 2 for a panic of NewServer), what is
      open when it ends, and that it can always end.

    How they are composed: [Main] starts a store (Migrations, PgStore or
    Store), the sampler and the server; a request passes [Middleware.chain] to
    the [mux] of Routes, which for a guarded route goes through the
    middlewares of Auth to a handler of Api ([Api.handle]), whose state is a [World] (store, MCP client,
    side effects, clock) with the hub; [runFlow] calls [Engine.Execute] on
    that world, [createTask] is a relation over [Orchestrator.distributes],
    and both broadcast through Hub.

    ** Bounds and fuel

    The evaluator of conditions recurses with a fuel that [eval_tokens]
    computes from the number of tokens, which [evalExpression_total] shows to
    be enough; the lexer's is the length of the text.  Kahn's algorithm and
    the walk of an execution get one more than the number of nodes ([buildGraph_accepts],
    [Execute_terminates] say that [NoFuel] is never the answer);
    [duration_sum] gets the length of the text ([duration_sum_fuel]).  Other
    loops are structural; the chain of cascading deletes gets the number of
    tables, and the references of the schema are two deep ([delete_flows]).  The pool has a measure that each of its own steps
    decreases ([execute_terminates]).

    ** Not modelled

    - What PostgreSQL does is not proved but stated, as [DatabaseLaws]:
      transactions, locks and concurrent sessions are left out, as every
      method is one statement.  The laws say nothing of what a statement did
      when its connection is lost.
    - The middlewares' refusals are plain text ([http_error]); other headers
      of the responses than those of Writer are not modelled.
    - The text of the metrics page (promhttp), the matching of escaped paths
      ([chi] is asked for the decoded path), and what ListenAndServe and
      Shutdown do inside: Main has their outcomes.
    - In Routes the handlers of the metrics page, of the socket, of creating a
      task and of the dashboard are parameters: [ApiTasks] and [Socket] model
      two of them as relations, [Dashboard] over a state with the history.
    - In parts that are modelled: cancellation inside the engine (the context
      is only passed on to the store and the client), the counter of tasks in
      createTask, the texts of encoding/json's errors, and the time of
      anything.

    ** Plan

    One state for all handlers, so that the [mux] needs no parameter; requests
    that interleave between their calls of the store. *)
From Stdlib Require Export ZArith Lia.
From stdpp Require Export base gmap strings list fin_maps pretty.

#[global] Open Scope Z_scope.
#[global] Open Scope nat_scope.

(** ** Errors

    A Go [error] is kept as the value its constructor built: the text of an
    [errors.New], or the format string of a [fmt.Errorf] with its operands,
    and the error wrapped by [%w] where there is one. *)
Inductive fmt_arg :=
  | FStr (s : string)
  | FInt (z : Z).

Inductive error :=
  | ErrorsNew (msg : string)
  | Errorf (format : string) (args : list fmt_arg)
  | Wrapf (format : string) (args : list fmt_arg) (wrapped : error).

#[export] Instance fmt_arg_eq_dec : EqDecision fmt_arg.
Proof. solve_decision. Defined.
#[export] Instance error_eq_dec : EqDecision error.
Proof. solve_decision. Defined.

(** [errors.Is] against a sentinel built by [errors.New]. *)
Fixpoint errors_is (e : error) (target : string) : bool :=
  match e with
  | ErrorsNew m => bool_decide (m = target)
  | Errorf _ _ => false
  | Wrapf _ _ e' => errors_is e' target
  end.

(** ** Outcomes of Go code

    [Ok] is a normal return, [Err] a return with a non-nil error, [Panic] a
    run-time panic (an index out of range), [NoFuel] says that the bound of a
    modelled loop was reached; the theorems show the last never happens. *)
Inductive outcome (A : Type) :=
  | Ok (a : A)
  | Err (e : error)
  | Panic (why : string)
  | NoFuel.
Arguments Ok {A} _.
Arguments Err {A} _.
Arguments Panic {A} _.
Arguments NoFuel {A}.

(** Code without state of its own: sequencing of outcomes. *)
#[export] Instance outcome_ret : MRet outcome := λ A, Ok.
#[export] Instance outcome_bind : MBind outcome := λ A B k o,
  match o with
  | Ok a => k a
  | Err e => Err e
  | Panic w => Panic w
  | NoFuel => NoFuel
  end.

(** [Ok], or an error: neither a panic nor out of fuel. *)
Definition proper_outcome {A} (o : outcome A) : Prop :=
  match o with Ok _ | Err _ => True | Panic _ | NoFuel => False end.

Lemma outcome_bind_Ok {A B} (o : outcome A) (k : A → outcome B) b :
  o ≫= k = Ok b → ∃ a, o = Ok a ∧ k a = Ok b.
Proof. destruct o; naive_solver. Qed.

Lemma outcome_bind_Err {A B} (o : outcome A) (k : A → outcome B) e :
  o ≫= k = Err e → o = Err e ∨ ∃ a, o = Ok a ∧ k a = Err e.
Proof. destruct o; naive_solver. Qed.

Lemma proper_bind {A B} (o : outcome A) (k : A → outcome B) :
  proper_outcome o → (∀ a, o = Ok a → proper_outcome (k a)) → proper_outcome (o ≫= k).
Proof. destruct o; naive_solver. Qed.

(** State passing with an outcome: the state survives errors and panics, as
    the heap of the Go program does. *)
Definition M (S A : Type) : Type := S → outcome A * S.

#[export] Instance M_ret S : MRet (M S) := λ A a s, (Ok a, s).
#[export] Instance M_bind S : MBind (M S) := λ A B k m s,
  match m s with
  | (Ok a, s') => k a s'
  | (Err e, s') => (Err e, s')
  | (Panic w, s') => (Panic w, s')
  | (NoFuel, s') => (NoFuel, s')
  end.

Section Monad.
Context {S A : Type}.

Definition mthrow (e : error) : M S A := λ s, (Err e, s).
Definition mpanic (w : string) : M S A := λ s, (Panic w, s).
Definition mnofuel : M S A := λ s, (NoFuel, s).
Definition mget : M S S := λ s, (Ok s, s).
Definition mmodify (f : S → S) : M S unit := λ s, (Ok tt, f s).
Definition mgets (f : S → A) : M S A := λ s, (Ok (f s), s).
(** [v, err := m], where the code goes on with the error in hand. *)
Definition mtry (m : M S A) : M S (A + error) := λ s,
  match m s with
  | (Ok a, s') => (Ok (inl a), s')
  | (Err e, s') => (Ok (inr e), s')
  | (Panic w, s') => (Panic w, s')
  | (NoFuel, s') => (NoFuel, s')
  end.
(** [if bad { return ..., err }]. *)
Definition mguard (ok : bool) (e : error) : M S unit :=
  if ok then mret tt else λ s, (Err e, s).
End Monad.

Section MonadLaws.
Context {S A B : Type}.
Implicit Types (m : M S A) (k : A → M S B) (s : S).

Lemma bind_ok m k s s' a : m s = (Ok a, s') → (m ≫= k) s = k a s'.
Proof. intros E. unfold mbind, M_bind. by rewrite E. Qed.

Lemma bind_err m k s s' e : m s = (Err e, s') → (m ≫= k) s = (Err e, s').
Proof. intros E. unfold mbind, M_bind. by rewrite E. Qed.

Lemma bind_panic m k s s' w : m s = (Panic w, s') → (m ≫= k) s = (Panic w, s').
Proof. intros E. unfold mbind, M_bind. by rewrite E. Qed.

Lemma bind_ret_l a k : mret a ≫= k = k a.
Proof. done. Qed.

Lemma bind_assoc {C} m k (k2 : B → M S C) s :
  ((m ≫= k) ≫= k2) s = (m ≫= λ a, k a ≫= k2) s.
Proof. unfold mbind, M_bind. by destruct (m s) as [[] ?]. Qed.

Lemma bind_ext m k1 k2 s :
  (∀ a s', k1 a s' = k2 a s') → (m ≫= k1) s = (m ≫= k2 : M S B) s.
Proof. intros H. unfold mbind, M_bind. by destruct (m s) as [[] ?]. Qed.

(** A successful sequence is a successful first step and a successful rest. *)
Lemma bind_Ok_inv m k s s2 b :
  (m ≫= k) s = (Ok b, s2) → ∃ a s1, m s = (Ok a, s1) ∧ k a s1 = (Ok b, s2).
Proof.
  unfold mbind, M_bind. destruct (m s) as [[a|e|w|] s1]; [|done..]. eauto.
Qed.

(** A failing sequence failed in the first step or in the rest. *)
Lemma bind_Err_inv m k s s2 e :
  (m ≫= k) s = (Err e, s2) →
  m s = (Err e, s2) ∨ ∃ a s1, m s = (Ok a, s1) ∧ k a s1 = (Err e, s2).
Proof.
  unfold mbind, M_bind. destruct (m s) as [[a|e'|w|] s1]; [eauto| |done..].
  intros [= -> ->]. auto.
Qed.
End MonadLaws.

(** ** Fuel: a computation that ran out of fuel approximates any other *)
Definition approx {S A} (m1 m2 : M S A) : Prop :=
  ∀ s, (m1 s).1 = NoFuel ∨ m1 s = m2 s.

Create HintDb approx.

Section Approx.
Context {S A B : Type}.

Lemma approx_refl (m : M S A) : approx m m.
Proof. by right. Qed.

Lemma approx_nofuel (m : M S A) : approx mnofuel m.
Proof. by left. Qed.

Lemma approx_bind (m1 m2 : M S A) (k1 k2 : A → M S B) :
  approx m1 m2 → (∀ a, approx (k1 a) (k2 a)) → approx (m1 ≫= k1) (m2 ≫= k2).
Proof.
  intros Hm Hk s. unfold mbind, M_bind.
  destruct (Hm s) as [E|E].
  - left. by destruct (m1 s) as [[]]; simplify_eq/=.
  - rewrite <- E. destruct (m1 s) as [[a|e|w|] s']; [apply Hk|by right..].
Qed.

Lemma approx_if (b : bool) (m1 m2 n1 n2 : M S A) :
  approx m1 n1 → approx m2 n2 →
  approx (if b then m1 else m2) (if b then n1 else n2).
Proof. by destruct b. Qed.

Lemma approx_elim (m1 m2 : M S A) s : approx m1 m2 → (m1 s).1 ≠ NoFuel → m2 s = m1 s.
Proof. intros H Hs. by destruct (H s) as [?|<-]. Qed.
End Approx.
#[export] Hint Resolve approx_refl approx_nofuel approx_bind approx_if : approx.

(** "For all large enough fuel the result is [o] in state [s']". *)
Definition eventually {S A} (mk : nat → M S A) (s : S) (o : outcome A) (s' : S) : Prop :=
  ∃ f0, ∀ f, f0 ≤ f → mk f s = (o, s').

Section Eventually.
Context {S A B : Type}.
Implicit Types (s : S).

Lemma ev_const (mk : nat → M S A) s o s' :
  (∀ f, mk f s = (o, s')) → eventually mk s o s'.
Proof. intros H. by exists 0. Qed.

Lemma ev_step (mk' mk : nat → M S A) s o s' :
  (∀ f, mk (Datatypes.S f) s = mk' f s) → eventually mk' s o s' → eventually mk s o s'.
Proof.
  intros H [f0 Hf]. exists (Datatypes.S f0). intros [|f] ?; [lia|].
  rewrite H. apply Hf. lia.
Qed.

Lemma ev_unfold (mk : nat → M S A) (body : nat → M S A) s o s' :
  (∀ f, mk (Datatypes.S f) = body f) → eventually body s o s' → eventually mk s o s'.
Proof. intros H. apply ev_step. intros f. by rewrite H. Qed.

Lemma ev_ext (mk' mk : nat → M S A) s o s' :
  (∀ f, mk f s = mk' f s) → eventually mk' s o s' → eventually mk s o s'.
Proof. intros H [f0 Hf]. exists f0. intros f ?. rewrite H. auto. Qed.

Lemma ev_bind (mk : nat → M S A) (k : nat → A → M S B) s a s1 o s2 :
  eventually mk s (Ok a) s1 → eventually (λ f, k f a) s1 o s2 →
  eventually (λ f, mk f ≫= k f) s o s2.
Proof.
  intros [f1 H1] [f2 H2]. exists (f1 `max` f2). intros f Hf.
  erewrite bind_ok by (apply H1; lia). apply H2. lia.
Qed.

Lemma ev_bind_err (mk : nat → M S A) (k : nat → A → M S B) s e s1 :
  eventually mk s (Err e) s1 → eventually (λ f, mk f ≫= k f) s (Err e) s1.
Proof.
  intros [f1 H1]. exists f1. intros f Hf. erewrite bind_err by (apply H1; lia). done.
Qed.

Lemma ev_bind_panic (mk : nat → M S A) (k : nat → A → M S B) s w s1 :
  eventually mk s (Panic w) s1 → eventually (λ f, mk f ≫= k f) s (Panic w) s1.
Proof.
  intros [f1 H1]. exists f1. intros f Hf. erewrite bind_panic by (apply H1; lia). done.
Qed.

(** What holds eventually holds at any fuel that gives a result. *)
Lemma ev_at (mk : nat → M S A) s o s' f :
  (∀ f1 f2, f1 ≤ f2 → approx (mk f1) (mk f2)) →
  eventually mk s o s' → (mk f s).1 ≠ NoFuel → mk f s = (o, s').
Proof.
  intros Hmono [f0 Hf0] Hf. rewrite <- (Hf0 (f0 `max` f)) by lia.
  symmetry. apply approx_elim; [apply Hmono; lia|done].
Qed.
End Eventually.

(** ** Postconditions

    [terminates m s Q]: [m] does not run out of fuel from [s], and a normal
    return satisfies [Q].  [safe m s Q]: [m] does not panic from [s], and a
    normal return satisfies [Q]. *)
Definition terminates {S A} (m : M S A) (s : S) (Q : A → S → Prop) : Prop :=
  match m s with (Ok a, s') => Q a s' | (NoFuel, _) => False | _ => True end.

Definition safe {S A} (m : M S A) (s : S) (Q : A → S → Prop) : Prop :=
  match m s with (Ok a, s') => Q a s' | (Panic _, _) => False | _ => True end.

Section Post.
Context {S A B : Type}.
Implicit Types (s : S).

Lemma term_bind (m : M S A) (k : A → M S B) s Q R :
  terminates m s R → (∀ a s', R a s' → terminates (k a) s' Q) →
  terminates (m ≫= k) s Q.
Proof.
  unfold terminates, mbind, M_bind. destruct (m s) as [[] ?]; naive_solver.
Qed.

Lemma term_mono (m : M S A) s (Q R : A → S → Prop) :
  terminates m s R → (∀ a s', R a s' → Q a s') → terminates m s Q.
Proof. unfold terminates. destruct (m s) as [[] ?]; naive_solver. Qed.

Lemma term_ret (a : A) s (Q : A → S → Prop) : Q a s → terminates (mret a) s Q.
Proof. done. Qed.

Lemma term_throw e s (Q : A → S → Prop) : terminates (mthrow e) s Q.
Proof. done. Qed.

Lemma term_fuel (m : M S A) s Q : terminates m s Q → (m s).1 ≠ NoFuel.
Proof. unfold terminates. by destruct (m s) as [[] ?]. Qed.

Lemma safe_bind (m : M S A) (k : A → M S B) s Q R :
  safe m s R → (∀ a s', R a s' → safe (k a) s' Q) → safe (m ≫= k) s Q.
Proof.
  unfold safe, mbind, M_bind. destruct (m s) as [[] ?]; naive_solver.
Qed.

Lemma safe_mono (m : M S A) s (Q R : A → S → Prop) :
  safe m s R → (∀ a s', R a s' → Q a s') → safe m s Q.
Proof. unfold safe. destruct (m s) as [[] ?]; naive_solver. Qed.

Lemma safe_no_panic (m : M S A) s Q w : safe m s Q → (m s).1 ≠ Panic w.
Proof. unfold safe. by destruct (m s) as [[] ?]. Qed.
End Post.

(** ** Tactics *)

(** Split a successful run of a sequence into its steps. *)
Ltac inv_ok :=
  repeat match goal with
  | H : (_ ≫= _) _ = (Ok _, _) |- _ =>
      let a := fresh "a" in let s := fresh "s" in let E := fresh "E" in
      apply bind_Ok_inv in H as (a & s & E & H); cbn beta in H
  | H : mret _ _ = (Ok _, _) |- _ => injection H as ? ?; subst
  | H : mthrow _ _ = (Ok _, _) |- _ => discriminate H
  | H : mpanic _ _ = (Ok _, _) |- _ => discriminate H
  | H : mnofuel _ = (Ok _, _) |- _ => discriminate H
  end.

Ltac case_if :=
  match goal with
  | |- context [if ?b then _ else _] => let E := fresh "E" in destruct b eqn:E
  | H : context [if ?b then _ else _] |- _ => let E := fresh "E" in destruct b eqn:E
  end.

(** Booleans to propositions. *)
Ltac bool_to_prop :=
  repeat match goal with
  | H : _ && _ = true |- _ => apply andb_prop in H as [? ?]
  | H : _ || _ = false |- _ => apply orb_false_elim in H as [? ?]
  | H : negb _ = true |- _ => apply negb_true_iff in H
  | H : negb _ = false |- _ => apply negb_false_iff in H
  | H : bool_decide _ = true |- _ => apply bool_decide_eq_true in H
  | H : bool_decide _ = false |- _ => apply bool_decide_eq_false in H
  end.
