(* ===== verification/GoStr.v ===== *)
(** * Go strings

    The operations of Go's [strings] package (and of [<] on strings) that the
    sources use.  A Go string is its bytes: a [string] of 8-bit [ascii]. *)
From Stdlib Require Import Ascii.
From S2P Require Import Prelude.
From Stdlib Require String.

#[local] Arguments String.append !_ _ / : simpl nomatch.

Definition byte_val (c : ascii) : nat := nat_of_ascii c.

(** ** [strings.HasPrefix], [HasSuffix], [Contains], [IndexByte] *)
Definition has_prefix (s p : string) : bool := String.prefix p s.

Fixpoint has_suffix (s p : string) : bool :=
  bool_decide (s = p) ||
  match s with
  | EmptyString => false
  | String _ s' => has_suffix s' p
  end.

Fixpoint contains (s sub : string) : bool :=
  String.prefix sub s ||
  match s with
  | EmptyString => false
  | String _ s' => contains s' sub
  end.

(** [path[:strings.IndexByte(path, c)]] when the byte occurs, else [path]. *)
Fixpoint before_byte (c : ascii) (s : string) : string :=
  match s with
  | EmptyString => EmptyString
  | String d s' => if bool_decide (d = c) then EmptyString
                   else String d (before_byte c s')
  end.

(** [strings.SplitN(s, sep, 2)] for a one-byte separator: the two parts, or
    [None] when the separator does not occur (the result has one element). *)
Fixpoint split2 (sep : ascii) (s : string) : option (string * string) :=
  match s with
  | EmptyString => None
  | String d s' =>
      if bool_decide (d = sep) then Some (EmptyString, s')
      else '(a, b) ← split2 sep s'; Some (String d a, b)
  end.

Definition newline : string := String "010"%char EmptyString.

(** [strings.Join] *)
Fixpoint join (parts : list string) (sep : string) : string :=
  match parts with
  | [] => ""
  | [p] => p
  | p :: ps => p +:+ sep +:+ join ps sep
  end.

(** ** Case *)
Definition lower_byte (c : ascii) : ascii :=
  if (65 <=? byte_val c) && (byte_val c <=? 90)
  then ascii_of_nat (byte_val c + 32) else c.

Fixpoint str_map (f : ascii → ascii) (s : string) : string :=
  match s with
  | EmptyString => EmptyString
  | String c s' => String (f c) (str_map f s')
  end.

Definition is_ascii_byte (c : ascii) : bool := byte_val c <? 128.

Fixpoint is_ascii (s : string) : bool :=
  match s with
  | EmptyString => true
  | String c s' => is_ascii_byte c && is_ascii s'
  end.

Definition lower_ascii : string → string := str_map lower_byte.

(** [strings.ToLower]: byte-wise on ASCII strings; on the others it maps
    [unicode.ToLower] over the runes, and [unicode_lower] stands for the
    Unicode tables. *)
Definition to_lower (unicode_lower : string → string) (s : string) : string :=
  if is_ascii s then lower_ascii s else unicode_lower s.

(** [strings.EqualFold(s, t)] for an ASCII [t] without the letters K and S
    (the only ones with a non-ASCII case variant). *)
Definition equal_fold_ascii (s t : string) : bool :=
  bool_decide (lower_ascii s = lower_ascii t).

(** ** [strings.TrimSpace]

    The UTF-8 encodings of the runes of [unicode.IsSpace]. *)
Definition bytes (l : list nat) : string :=
  foldr (λ n s, String (ascii_of_nat n) s) EmptyString l.

Definition space_runes : list (list nat) :=
  [ [32]; [9]; [10]; [11]; [12]; [13]; [194; 133]; [194; 160];
    [225; 154; 128]; [226; 128; 128]; [226; 128; 129]; [226; 128; 130];
    [226; 128; 131]; [226; 128; 132]; [226; 128; 133]; [226; 128; 134];
    [226; 128; 135]; [226; 128; 136]; [226; 128; 137]; [226; 128; 138];
    [226; 128; 168]; [226; 128; 169]; [226; 128; 175]; [226; 129; 159];
    [227; 128; 128] ].

Fixpoint str_rev (s acc : string) : string :=
  match s with
  | EmptyString => acc
  | String c s' => str_rev s' (String c acc)
  end.

Fixpoint str_drop (n : nat) (s : string) : string :=
  match n, s with
  | 0, _ | _, EmptyString => s
  | S n', String _ s' => str_drop n' s'
  end.

(** Strip the first rune when it is one of [runes]. *)
Definition strip_rune (runes : list string) (s : string) : option string :=
  match filter (λ r, has_prefix s r = true) runes with
  | r :: _ => Some (str_drop (String.length r) s)
  | [] => None
  end.

Fixpoint trim_left (fuel : nat) (runes : list string) (s : string) : string :=
  match fuel with
  | 0 => s
  | S f => match strip_rune runes s with
           | Some s' => trim_left f runes s'
           | None => s
           end
  end.

Definition trim_space (s : string) : string :=
  let l := trim_left (String.length s) (bytes <$> space_runes) s in
  let r := trim_left (String.length l) ((λ r, bytes (rev r)) <$> space_runes)
             (str_rev l EmptyString) in
  str_rev r EmptyString.

(** ** Byte-wise order, Go's [<] on strings *)
Definition str_ltb (a b : string) : bool :=
  match String.compare a b with Lt => true | _ => false end.
Definition str_leb (a b : string) : bool :=
  match String.compare a b with Gt => false | _ => true end.

(** ** Facts *)
Lemma str_length_app (a b : string) :
  String.length (a +:+ b) = String.length a + String.length b.
Proof. induction a as [|c a IH]; simpl; [done|by rewrite IH]. Qed.

Lemma str_app_assoc (a b c : string) : (a +:+ b) +:+ c = a +:+ (b +:+ c).
Proof. induction a as [|x a IH]; simpl; [done|by rewrite IH]. Qed.

Lemma str_app_nil_r (a : string) : a +:+ "" = a.
Proof. induction a as [|c a IH]; simpl; [done|by rewrite IH]. Qed.

Lemma prefix_app (p s : string) : String.prefix p (p +:+ s) = true.
Proof.
  induction p as [|c p IH]; simpl; [by destruct s|].
  by destruct (ascii_dec c c).
Qed.

Lemma prefix_inv (p s : string) :
  String.prefix p s = true → ∃ t, s = p +:+ t.
Proof.
  revert s; induction p as [|c p IH]; intros s; simpl; [by exists s|].
  destruct s as [|d s]; [done|]; simpl. destruct (ascii_dec c d) as [->|]; [|done].
  intros [t ->]%IH. by exists t.
Qed.

Lemma contains_unfold (s sub : string) :
  contains s sub = String.prefix sub s ||
    match s with EmptyString => false | String _ s' => contains s' sub end.
Proof. by destruct s. Qed.

(** [Contains] finds exactly the substrings. *)
Lemma contains_spec (s sub : string) :
  contains s sub = true ↔ ∃ a b, s = a +:+ sub +:+ b.
Proof.
  split.
  - induction s as [|c s IH]; rewrite contains_unfold; intros [H|H]%orb_true_iff;
      [apply prefix_inv in H as [t Ht]; by exists "", t|done|
       apply prefix_inv in H as [t Ht]; by exists "", t|].
    destruct (IH H) as (a & b & ->). by exists (String c a), b.
  - intros (a & b & ->). induction a as [|c a IH]; simpl.
    + by rewrite contains_unfold, prefix_app.
    + by rewrite IH, orb_true_r.
Qed.

Lemma has_suffix_unfold (s p : string) :
  has_suffix s p = bool_decide (s = p) ||
    match s with EmptyString => false | String _ s' => has_suffix s' p end.
Proof. by destruct s. Qed.

Lemma has_suffix_spec (s p : string) : has_suffix s p = true ↔ ∃ a, s = a +:+ p.
Proof.
  split.
  - induction s as [|c s IH]; rewrite has_suffix_unfold;
      intros [H|H]%orb_true_iff; [apply bool_decide_eq_true in H; by exists ""|done|
      apply bool_decide_eq_true in H; by exists ""|].
    destruct (IH H) as [a ->]. by exists (String c a).
  - intros [a ->]. induction a as [|c a IH]; rewrite has_suffix_unfold.
    + by rewrite bool_decide_eq_true_2.
    + simpl. by rewrite IH, orb_true_r.
Qed.

Lemma has_prefix_spec (s p : string) : has_prefix s p = true ↔ ∃ t, s = p +:+ t.
Proof.
  split; [apply prefix_inv|]. intros [t ->]. apply prefix_app.
Qed.

Lemma ascii_compare_refl c : Ascii.compare c c = Eq.
Proof. unfold Ascii.compare. apply N.compare_refl. Qed.

Lemma str_compare_refl (a : string) : String.compare a a = Eq.
Proof. induction a as [|c a IH]; simpl; [done|]. by rewrite ascii_compare_refl. Qed.

Lemma str_compare_trans_lt (a b c : string) :
  String.compare a b = Lt → String.compare b c = Lt → String.compare a c = Lt.
Proof.
  revert b c; induction a as [|x a IH]; intros [|y b] [|z c]; simpl; try done.
  unfold Ascii.compare.
  destruct (N.compare_spec (N_of_ascii x) (N_of_ascii y)) as [E1|L1|G1]; [|intros _|done];
  destruct (N.compare_spec (N_of_ascii y) (N_of_ascii z)) as [E2|L2|G2]; try done.
  - rewrite E1, E2, N.compare_refl. apply IH.
  - intros _ _. rewrite E1. by apply N.compare_lt_iff in L2 as ->.
  - intros _. rewrite <- E2. by apply N.compare_lt_iff in L1 as ->.
  - intros _. assert (L : (N_of_ascii x < N_of_ascii z)%N) by lia.
    by apply N.compare_lt_iff in L as ->.
Qed.

Lemma str_leb_ltb (a b : string) : str_leb a b = negb (str_ltb b a).
Proof.
  unfold str_leb, str_ltb. rewrite (String.compare_antisym a b).
  by destruct (String.compare b a).
Qed.

Lemma str_ltb_irrefl (a : string) : str_ltb a a = false.
Proof. unfold str_ltb. by rewrite str_compare_refl. Qed.

Lemma str_ltb_trans (a b c : string) :
  str_ltb a b = true → str_ltb b c = true → str_ltb a c = true.
Proof.
  unfold str_ltb.
  destruct (String.compare a b) eqn:E1; [done| |done].
  destruct (String.compare b c) eqn:E2; [done| |done]. intros _ _.
  by rewrite (str_compare_trans_lt a b c).
Qed.

(** Two strings are ordered one way, the other way, or equal. *)
Lemma str_ltb_trichotomy (a b : string) :
  str_ltb a b = false → str_ltb b a = false → a = b.
Proof.
  unfold str_ltb. rewrite (String.compare_antisym a b).
  destruct (String.compare b a) eqn:E; simpl; [|done..].
  intros _ _. symmetry. by apply String.compare_eq_iff.
Qed.
