(* ===== verification/Trim.v ===== *)
(** * Splitting at a byte, and what TrimSpace leaves

    [strings.Split] for a one-byte separator, with its inverse [join], and
    the specification of [trim_space]: the longest part of the text without
    white space at its ends. *)
From Stdlib Require Import Ascii.
From S2P Require Import Prelude GoStr.

#[local] Arguments String.append !_ _ / : simpl nomatch.

(** ** strings.Split *)
Fixpoint split_byte (sep : ascii) (s : string) : list string :=
  match s with
  | EmptyString => [EmptyString]
  | String d s' =>
      if bool_decide (d = sep) then EmptyString :: split_byte sep s'
      else match split_byte sep s' with
           | p :: ps => String d p :: ps
           | [] => [String d EmptyString]
           end
  end.

Fixpoint has_byte (c : ascii) (s : string) : bool :=
  match s with
  | EmptyString => false
  | String d s' => bool_decide (d = c) || has_byte c s'
  end.

Lemma has_byte_app c a b : has_byte c (a +:+ b) = has_byte c a || has_byte c b.
Proof. induction a as [|d a IH]; simpl; [done|]. by rewrite IH, orb_assoc. Qed.

Lemma split_byte_cons sep s : ∃ p ps, split_byte sep s = p :: ps.
Proof. destruct s as [|d s]; simpl; [eauto|]. case_if; [eauto|]. case_match; eauto. Qed.

(** No part has the separator, and the parts joined by it are the text. *)
Lemma split_byte_spec sep s :
  Forall (λ p, has_byte sep p = false) (split_byte sep s) ∧
  join (split_byte sep s) (String sep EmptyString) = s.
Proof.
  induction s as [|d s [IHf IHj]]; simpl; [by repeat constructor|].
  case_bool_decide as Hd.
  - subst. split; [by constructor|]. destruct (split_byte_cons sep s) as (p & ps & E).
    rewrite E in *. simpl in *. by rewrite IHj.
  - destruct (split_byte_cons sep s) as (p & ps & E). rewrite E in *.
    apply Forall_cons in IHf as [Hp Hps]. split.
    + constructor; [|done]. simpl. by rewrite bool_decide_eq_false_2.
    + rewrite <- IHj. by destruct ps.
Qed.

Lemma split_byte_none sep s : has_byte sep s = false → split_byte sep s = [s].
Proof.
  induction s as [|d s IH]; simpl; [done|]. intros [Hd Hs]%orb_false_iff.
  by rewrite Hd, IH.
Qed.

Lemma split_byte_app sep a b :
  has_byte sep a = false → split_byte sep (a +:+ String sep b) = a :: split_byte sep b.
Proof.
  induction a as [|d a IH]; simpl.
  - intros _. by rewrite bool_decide_eq_true_2.
  - intros [Hd Ha]%orb_false_iff. by rewrite Hd, IH.
Qed.

(** ** Reversal *)
Lemma str_rev_acc s acc : str_rev s acc = str_rev s "" +:+ acc.
Proof.
  revert acc. induction s as [|c s IH]; intros acc; simpl; [done|].
  by rewrite IH, (IH (String c "")), str_app_assoc.
Qed.

Lemma str_rev_cons c s : str_rev (String c s) "" = str_rev s "" +:+ String c "".
Proof. simpl. apply str_rev_acc. Qed.

Lemma str_rev_app a b : str_rev (a +:+ b) "" = str_rev b "" +:+ str_rev a "".
Proof.
  induction a as [|c a IH]; [by rewrite str_app_nil_r|].
  change (String c a +:+ b) with (String c (a +:+ b)).
  by rewrite !str_rev_cons, IH, str_app_assoc.
Qed.

Lemma str_rev_involutive s : str_rev (str_rev s "") "" = s.
Proof.
  induction s as [|c s IH]; [done|]. by rewrite str_rev_cons, str_rev_app, IH.
Qed.

Lemma str_drop_app p s : str_drop (String.length p) (p +:+ s) = s.
Proof. induction p as [|c p IH]; simpl; [by destruct s|done]. Qed.

Lemma str_app_length_nil a : String.length a = 0 → a = "".
Proof. by destruct a. Qed.

(** ** One end *)
Definition all_bytes (P : ascii → bool) : string → bool :=
  fix go s := match s with EmptyString => true | String c s' => P c && go s' end.

Definition ascii_space (c : ascii) : bool := bool_decide (byte_val c ∈ [32; 9; 10; 11; 12; 13]).
Definition blank (s : string) : bool := all_bytes ascii_space s.
Definition high_byte (c : ascii) : bool := 128 <=? byte_val c.

Lemma all_bytes_app P a b : all_bytes P (a +:+ b) = all_bytes P a && all_bytes P b.
Proof. induction a as [|c a IH]; simpl; [done|]. by rewrite IH, andb_assoc. Qed.

Lemma blank_rev s : blank s = true → blank (str_rev s "") = true.
Proof.
  induction s as [|c s IH]; [done|]. rewrite str_rev_cons. unfold blank in *. simpl.
  rewrite all_bytes_app. simpl. intros [-> Hs]%andb_prop. by rewrite (IH Hs).
Qed.

(** A table of the runes to strip: the white space of ASCII, and sequences of
    bytes outside ASCII. *)
Definition rune_ok (r : string) : bool :=
  match r with
  | EmptyString => false
  | String c EmptyString => ascii_space c
  | _ => all_bytes high_byte r
  end.

Record rune_table (runes : list string) : Prop := {
  rt_ok : forallb rune_ok runes = true;
  rt_spaces : ∀ c, ascii_space c = true → String c "" ∈ runes
}.

Section OneEnd.
Context (runes : list string) (table : rune_table runes).

Lemma strip_rune_None s : strip_rune runes s = None ↔ ∀ r, r ∈ runes → has_prefix s r = false.
Proof.
  unfold strip_rune. split.
  - intros H r Hr. apply not_true_is_false. intros Hp.
    assert (r ∈ filter (λ r, has_prefix s r = true) runes) as Hf by (by apply list_elem_of_filter).
    destruct (filter _ runes); [by apply elem_of_nil in Hf|done].
  - intros H. destruct (filter _ runes) as [|r l] eqn:E; [done|].
    assert (r ∈ filter (λ r, has_prefix s r = true) runes) as Hf by (rewrite E; left).
    apply list_elem_of_filter in Hf as [Hp Hr]. by rewrite H in Hp.
Qed.

Lemma strip_rune_Some s s' :
  strip_rune runes s = Some s' → ∃ r, r ∈ runes ∧ r ≠ "" ∧ s = r +:+ s'.
Proof.
  unfold strip_rune. destruct (filter _ runes) as [|r l] eqn:E; [done|]. intros [= <-].
  assert (r ∈ filter (λ r, has_prefix s r = true) runes) as Hf by (rewrite E; left).
  apply list_elem_of_filter in Hf as [Hp Hr]. apply has_prefix_spec in Hp as [t ->].
  exists r. rewrite str_drop_app. split_and!; [done| |done]. intros ->.
  pose proof (rt_ok _ table) as Hok. rewrite forallb_forall in Hok.
  apply list_elem_of_In in Hr. by apply Hok in Hr.
Qed.

(** What is left starts with none of them; something was cut off the front. *)
Lemma trim_left_spec f s : String.length s ≤ f →
  strip_rune runes (trim_left f runes s) = None ∧ ∃ a, s = a +:+ trim_left f runes s.
Proof.
  revert s. induction f as [|f IH]; intros s Hf; cbn [trim_left].
  - assert (s = "") as -> by (apply str_app_length_nil; lia). split; [|by exists ""].
    destruct (strip_rune runes "") as [s'|] eqn:E; [|done].
    apply strip_rune_Some in E as (r & _ & Hr & E). by destruct r.
  - destruct (strip_rune runes s) as [s'|] eqn:E; [|split; [done|by exists ""]].
    apply strip_rune_Some in E as (r & _ & Hr & ->). rewrite str_length_app in Hf.
    destruct (IH s') as [Hn [a Ha]]; [destruct r; [done|simpl in Hf; lia]|].
    split; [done|]. exists (r +:+ a). by rewrite str_app_assoc, <- Ha.
Qed.

Lemma trim_left_none f s : strip_rune runes s = None → trim_left f runes s = s.
Proof. intros H. destruct f; simpl; [done|]. by rewrite H. Qed.

Lemma ascii_not_high c : ascii_space c = true → high_byte c = false.
Proof.
  unfold ascii_space, high_byte. rewrite bool_decide_eq_true. intros H.
  apply Nat.leb_gt. set_unfold. lia.
Qed.

(** A rune at the front of a text that starts with a space is that space. *)
Lemma strip_space c s : ascii_space c = true → strip_rune runes (String c s) = Some s.
Proof.
  intros Hc. destruct (strip_rune runes (String c s)) as [s'|] eqn:E.
  - apply strip_rune_Some in E as (r & Hr & Hne & E).
    destruct r as [|d r]; [done|]. injection E as <- E.
    pose proof (rt_ok _ table) as Hok. rewrite forallb_forall in Hok.
    apply list_elem_of_In, Hok in Hr. destruct r as [|e r]; [by rewrite E|].
    change (high_byte c && all_bytes high_byte (String e r) = true) in Hr.
    by rewrite ascii_not_high in Hr.
  - rewrite strip_rune_None in E. specialize (E _ (rt_spaces _ table c Hc)).
    unfold has_prefix in E. simpl in E. by destruct (ascii_dec c c), s.
Qed.

Lemma trim_left_blank f ws s : blank ws = true → strip_rune runes s = None →
  String.length ws ≤ f → trim_left f runes (ws +:+ s) = s.
Proof.
  revert f. induction ws as [|c ws IH]; intros f Hws Hs Hf; [by apply trim_left_none|].
  simpl in Hws. apply andb_prop in Hws as [Hc Hws]. destruct f as [|f]; simpl in Hf; [lia|].
  cbn [trim_left String.append]. rewrite strip_space by done. apply IH; [done..|lia].
Qed.

Lemma all_high_app_space a c b : all_bytes high_byte (a +:+ String c b) = true → ascii_space c = false.
Proof.
  rewrite all_bytes_app. simpl. intros (_ & (Hc & _)%andb_prop)%andb_prop.
  apply not_true_is_false. intros Hs. by rewrite ascii_not_high in Hc.
Qed.

(** White space after a text does not make a rune at its front. *)
Lemma strip_None_app s ws : s ≠ "" → blank ws = true →
  strip_rune runes s = None → strip_rune runes (s +:+ ws) = None.
Proof.
  intros Hs Hws. rewrite !strip_rune_None. intros H r Hr. apply not_true_is_false.
  intros [t Ht]%has_prefix_spec. pose proof (rt_ok _ table) as Hok. rewrite forallb_forall in Hok.
  pose proof (Hok r (proj1 (list_elem_of_In _ _) Hr)) as Hr2. specialize (H r Hr).
  assert (Hcase : has_prefix s r = true ∨ ∃ c r2, r = s +:+ String c r2 ∧ ascii_space c = true).
  { clear Hok Hr Hr2 H Hs. revert s Ht. induction r as [|d r IH]; intros s Ht; [left; by destruct s|].
    destruct s as [|e s]; simpl in Ht.
    - right. destruct ws as [|c ws]; [done|]. injection Ht as -> _. simpl in Hws.
      apply andb_prop in Hws as [Hc _]. by exists d, r.
    - injection Ht as -> Ht. destruct (IH s Ht) as [Hp|(c & r2 & -> & Hc)].
      + left. unfold has_prefix. simpl. by destruct (ascii_dec d d).
      + right. by exists c, r2. }
  destruct Hcase as [Hp|(c & r2 & -> & Hc)]; [by rewrite H in Hp|].
  destruct s as [|d s]; [done|]. assert (all_bytes high_byte (String d s +:+ String c r2) = true) as Hr3.
  { revert Hr2. simpl. destruct (s +:+ String c r2) eqn:E; [by destruct s|done]. }
  clear Hr2. rename Hr3 into Hr2.
  apply all_high_app_space in Hr2. congruence.
Qed.
End OneEnd.

(** ** strings.TrimSpace *)
Definition left_runes : list string := bytes <$> space_runes.
Definition right_runes : list string := (λ r, bytes (rev r)) <$> space_runes.

Lemma ascii_space_cases c : ascii_space c = true → c ∈ ascii_of_nat <$> [32; 9; 10; 11; 12; 13].
Proof.
  unfold ascii_space. rewrite bool_decide_eq_true. intros H.
  rewrite <- (ascii_nat_embedding c). by apply list_elem_of_fmap_2.
Qed.

Lemma left_table : rune_table left_runes.
Proof.
  split; [by vm_compute|]. intros c Hc%ascii_space_cases. simpl in Hc; revert Hc.
  rewrite !elem_of_cons, elem_of_nil. intros Hc. destruct_or?; subst; refine (bool_decide_eq_true_1 _ _); vm_compute; reflexivity.
Qed.

Lemma right_table : rune_table right_runes.
Proof.
  split; [by vm_compute|]. intros c Hc%ascii_space_cases. simpl in Hc; revert Hc.
  rewrite !elem_of_cons, elem_of_nil. intros Hc. destruct_or?; subst; refine (bool_decide_eq_true_1 _ _); vm_compute; reflexivity.
Qed.

(** No white space at either end. *)
Definition trimmed (s : string) : Prop :=
  strip_rune left_runes s = None ∧ strip_rune right_runes (str_rev s "") = None.

(** [trim_space] cuts white space off the two ends, until there is none. *)
Lemma trim_space_spec s : trimmed (trim_space s) ∧ ∃ a b, s = a +:+ trim_space s +:+ b.
Proof.
  unfold trim_space. fold left_runes right_runes.
  destruct (trim_left_spec _ left_table (String.length s) s) as [Hl [a Ha]]; [done|].
  set (l := trim_left (String.length s) left_runes s) in *.
  assert (Hlen : String.length (str_rev l "") ≤ String.length l).
  { clear. induction l as [|c l IH]; [done|]. rewrite str_rev_cons, str_length_app. simpl. lia. }
  destruct (trim_left_spec _ right_table (String.length l) (str_rev l "")) as [Hr [b Hb]]; [done|].
  set (r := trim_left (String.length l) right_runes (str_rev l "")) in *.
  assert (El : l = str_rev r "" +:+ str_rev b "").
  { by rewrite <- (str_rev_involutive l), Hb, str_rev_app. }
  split; [split|].
  - apply strip_rune_None. intros q Hq. rewrite strip_rune_None in Hl. specialize (Hl q Hq).
    apply not_true_is_false. intros [t Ht]%has_prefix_spec. rewrite El, Ht, str_app_assoc in Hl.
    unfold has_prefix in Hl. by rewrite prefix_app in Hl.
  - by rewrite str_rev_involutive.
  - exists a, (str_rev b ""). by rewrite <- El.
Qed.

(** White space around a trimmed text is what [trim_space] takes away. *)
Lemma trim_space_blank ws s ws' :
  blank ws = true → blank ws' = true → trimmed s → trim_space (ws +:+ s +:+ ws') = s.
Proof.
  intros Hws Hws' [Hl Hr]. unfold trim_space. fold left_runes right_runes.
  destruct (decide (s = "")) as [->|Hs].
  - change ("" +:+ ws') with ws'.
    assert (blank (ws +:+ ws') = true) as Hb by (unfold blank in *; by rewrite all_bytes_app, Hws).
    pose proof (trim_left_blank _ left_table (String.length (ws +:+ ws')) _ "" Hb Hl (Nat.le_refl _)) as E.
    rewrite str_app_nil_r in E. by rewrite E.
  - rewrite (trim_left_blank _ left_table); [|done|by apply (strip_None_app _ left_table)|].
    2: { rewrite str_length_app. lia. }
    rewrite str_rev_app, (trim_left_blank _ right_table); [by rewrite str_rev_involutive|by apply blank_rev|done|].
    assert (Hlen : String.length (str_rev ws' "") = String.length ws').
    { clear. induction ws' as [|c l IH]; [done|]. rewrite str_rev_cons, str_length_app, IH. simpl. lia. }
    rewrite Hlen, str_length_app. lia.
Qed.

Lemma trim_space_has_byte c s : has_byte c s = false → has_byte c (trim_space s) = false.
Proof.
  destruct (trim_space_spec s) as [_ (a & b & E)]. rewrite E at 1. rewrite !has_byte_app.
  intros [_ [? _]%orb_false_iff]%orb_false_iff. done.
Qed.

Lemma split_byte_join sep a b :
  split_byte sep (a +:+ String sep b) = split_byte sep a ++ split_byte sep b.
Proof.
  induction a as [|d a IH]; simpl.
  - by rewrite bool_decide_eq_true_2.
  - case_if; [by rewrite IH|]. rewrite IH. destruct (split_byte_cons sep a) as (p & ps & ->). done.
Qed.
