(* ===== verification/GoValue.v ===== *)
(** * Go values

    [float64] as an IEEE-754 binary64 number ([SpecFloat] with 53 bits of
    mantissa and exponents below 1024), and [value], the dynamic values an
    [any] holds in this program: what [encoding/json] decodes into [any],
    plus the [int] that [.length] returns. *)
From Stdlib Require Import Ascii.
From S2P Require Import Prelude GoStr.
From Stdlib Require Export SpecFloat.

(** ** float64 *)
Abbreviation float64 := spec_float.

#[export] Instance spec_float_eq_dec : EqDecision spec_float.
Proof. solve_decision. Defined.

(** [float64(n)] for an integer [n], rounded to nearest even. *)
Definition float_of_Z (n : Z) : float64 := binary_normalize 53 1024 n 0 false.

(** Decimal digits with at most one dot: the digits read so far as an
    integer, the number of them after the dot, and the rest of the string. *)
Record decimal := Decimal {
  dec_mant : N;
  dec_frac : N;
  dec_dot : bool;
  dec_digits : bool
}.

Definition is_digit (c : ascii) : bool :=
  (48 <=? byte_val c) && (byte_val c <=? 57).

Fixpoint read_decimal (s : string) (d : decimal) : option decimal :=
  match s with
  | EmptyString => if dec_digits d then Some d else None
  | String c s' =>
      if bool_decide (c = "."%char) then
        if dec_dot d then None
        else read_decimal s' (Decimal (dec_mant d) (dec_frac d) true (dec_digits d))
      else if is_digit c then
        read_decimal s'
          (Decimal (10 * dec_mant d + N.of_nat (byte_val c - 48))
                   (if dec_dot d then dec_frac d + 1 else dec_frac d)%N
                   (dec_dot d) true)
      else None
  end.

(** The binary64 number nearest to [m / 10^k]. *)
Definition round_decimal (neg : bool) (m k : N) : float64 :=
  match m with
  | N0 => S754_zero neg
  | Npos p =>
      SFdiv 53 1024 (S754_finite neg p 0)
        (S754_finite false (Z.to_pos (10 ^ Z.of_N k)) 0)
  end.

(** [strconv.ParseFloat(s, 64)] on the strings the lexer hands to it: an
    optional minus sign, then digits and dots.  Out of range is an error. *)
Definition parse_float (s : string) : option float64 :=
  let '(neg, body) :=
    match s with
    | String "-"%char s' => (true, s')
    | _ => (false, s)
    end in
  match read_decimal body (Decimal 0 0 false false) with
  | Some d =>
      match round_decimal neg (dec_mant d) (dec_frac d) with
      | S754_infinity _ | S754_nan => None
      | f => Some f
      end
  | None => None
  end.

(** ** Dynamic values *)
#[warnings="-register-all"]
Inductive value :=
  | VNil
  | VBool (b : bool)
  | VInt (n : Z)
  | VFloat (f : float64)
  | VString (s : string)
  | VList (l : list value)
  | VMap (m : gmap string value).

#[export] Instance value_inhabited : Inhabited value := populate VNil.

(** [reflect.DeepEqual] on dynamic values: the dynamic types must agree;
    floats are compared with [==]. *)
Fixpoint deep_equal (a b : value) {struct a} : bool :=
  match a, b with
  | VNil, VNil => true
  | VBool x, VBool y => Bool.eqb x y
  | VInt x, VInt y => Z.eqb x y
  | VFloat x, VFloat y => SFeqb x y
  | VString x, VString y => bool_decide (x = y)
  | VList x, VList y =>
      (fix go (x y : list value) {struct x} : bool :=
         match x, y with
         | [], [] => true
         | u :: x', v :: y' => deep_equal u v && go x' y'
         | _, _ => false
         end) x y
  | VMap x, VMap y =>
      (size x =? size y) &&
      map_fold (λ k u acc,
        match y !! k with Some v => deep_equal u v | None => false end && acc) true x
  | _, _ => false
  end.

Definition is_nil (v : value) : bool :=
  match v with VNil => true | _ => false end.

(** Reading a map of dynamic values at an absent key gives nil. *)
Definition get_nil (m : gmap string value) (k : string) : value :=
  default VNil (m !! k).
