(* ===== verification/Expr.v ===== *)
(** * The condition expression language (internal/flow/expr.go)

    [lex] and the recursive-descent evaluator, token by token as the code has
    them, including the skipping of short-circuited operands.  The evaluator
    is a [M nat] computation: the state is [parser.pos]; reading a token past
    the end is the run-time panic it is in Go. *)
From Stdlib Require Import Ascii.
From S2P Require Import Prelude GoStr GoValue.

(** ** Tokens *)
Inductive tokenKind :=
  | tokEOF | tokIdent | tokString | tokNumber | tokBool | tokNull
  | tokAnd | tokOr | tokNot | tokEq | tokNeq | tokGt | tokLt | tokGe | tokLe
  | tokDot | tokLParen | tokRParen.

#[export] Instance tokenKind_eq_dec : EqDecision tokenKind.
Proof. solve_decision. Defined.

Record token := Token {
  kind : tokenKind;
  text : string;
  num : float64
}.

Definition float_zero : float64 := S754_zero false.
Definition float_one : float64 := float_of_Z 1.

(** A token literal that leaves [num] at its zero value. *)
Definition tok (k : tokenKind) (s : string) : token := Token k s float_zero.

(** ** The lexer *)
Definition is_space_byte (c : ascii) : bool :=
  bool_decide (c ∈ [" "%char; "009"%char; "010"%char; "013"%char]).

Definition isIdentStart (c : ascii) : bool :=
  bool_decide (c = "_"%char)
  || (97 <=? byte_val c) && (byte_val c <=? 122)
  || (65 <=? byte_val c) && (byte_val c <=? 90).

Definition isIdentPart (c : ascii) : bool :=
  isIdentStart c || (48 <=? byte_val c) && (byte_val c <=? 57).

(** The bytes up to the first one that fails [p], and the rest. *)
Fixpoint span (p : ascii → bool) (s : string) : string * string :=
  match s with
  | EmptyString => (EmptyString, EmptyString)
  | String c s' =>
      if p c then let '(a, b) := span p s' in (String c a, b)
      else (EmptyString, s)
  end.

(** A quoted string after its opening quote: its contents and what follows
    the closing quote, [None] when it is unterminated. *)
Fixpoint lex_string (quote : ascii) (s : string) : option (string * string) :=
  match s with
  | EmptyString => None
  | String c s' =>
      if bool_decide (c = quote) then Some (EmptyString, s')
      else if bool_decide (c = "\"%char) then
        match s' with
        | EmptyString => None
        | String d s'' => '(a, b) ← lex_string quote s''; Some (String d a, b)
        end
      else '(a, b) ← lex_string quote s'; Some (String c a, b)
  end.

(** [src[i+1] == d], with the rest of the source after it. *)
Definition next_is (d : ascii) (s : string) : option string :=
  match s with
  | String c s' => if bool_decide (c = d) then Some s' else None
  | EmptyString => None
  end.

Definition word_token (word : string) : token :=
  if bool_decide (word = "true") then Token tokBool word float_one
  else if bool_decide (word = "false") then Token tokBool word float_zero
  else if bool_decide (word = "null") then tok tokNull word
  else tok tokIdent word.

Definition cons_tok (t : token) (o : outcome (list token)) : outcome (list token) :=
  match o with Ok ts => Ok (t :: ts) | _ => o end.

Definition starts_digit (s : string) : bool :=
  match s with String c _ => is_digit c | EmptyString => false end.

Definition is_num_part (c : ascii) : bool := is_digit c || bool_decide (c = "."%char).

(** The loop of [lex]: [s] is the source from byte [i = n - length s] on. *)
Fixpoint lex_loop (fuel n : nat) (s : string) : outcome (list token) :=
  match fuel with 0 => NoFuel | S f =>
  let i := FInt (Z.of_nat (n - String.length s)) in
  match s with
  | EmptyString => Ok [tok tokEOF ""]
  | String c s1 =>
      if is_space_byte c then lex_loop f n s1
      else if bool_decide (c = "&"%char) then
        match next_is "&" s1 with
        | Some s2 => cons_tok (tok tokAnd "&&") (lex_loop f n s2)
        | None => Err (Errorf "expr: unexpected '&' at %d" [i])
        end
      else if bool_decide (c = "|"%char) then
        match next_is "|" s1 with
        | Some s2 => cons_tok (tok tokOr "||") (lex_loop f n s2)
        | None => Err (Errorf "expr: unexpected '|' at %d" [i])
        end
      else if bool_decide (c = "="%char) then
        match next_is "=" s1 with
        | Some s2 => cons_tok (tok tokEq "==") (lex_loop f n s2)
        | None => Err (Errorf "expr: unexpected '=' at %d" [i])
        end
      else if bool_decide (c = "!"%char) then
        match next_is "=" s1 with
        | Some s2 => cons_tok (tok tokNeq "!=") (lex_loop f n s2)
        | None => cons_tok (tok tokNot "!") (lex_loop f n s1)
        end
      else if bool_decide (c = ">"%char) then
        match next_is "=" s1 with
        | Some s2 => cons_tok (tok tokGe ">=") (lex_loop f n s2)
        | None => cons_tok (tok tokGt ">") (lex_loop f n s1)
        end
      else if bool_decide (c = "<"%char) then
        match next_is "=" s1 with
        | Some s2 => cons_tok (tok tokLe "<=") (lex_loop f n s2)
        | None => cons_tok (tok tokLt "<") (lex_loop f n s1)
        end
      else if bool_decide (c = "."%char) then cons_tok (tok tokDot ".") (lex_loop f n s1)
      else if bool_decide (c = "("%char) then cons_tok (tok tokLParen "(") (lex_loop f n s1)
      else if bool_decide (c = ")"%char) then cons_tok (tok tokRParen ")") (lex_loop f n s1)
      else if bool_decide (c = "034"%char) || bool_decide (c = "'"%char) then
        match lex_string c s1 with
        | Some (str, s2) => cons_tok (tok tokString str) (lex_loop f n s2)
        | None => Err (Errorf "expr: unterminated string at %d" [i])
        end
      else if is_digit c || bool_decide (c = "-"%char) && starts_digit s1 then
        let '(sign, body) :=
          if bool_decide (c = "-"%char) then ("-"%string, s1) else (EmptyString, s) in
        let '(ds, s2) := span is_num_part body in
        match parse_float (sign +:+ ds) with
        | Some f64 => cons_tok (Token tokNumber (sign +:+ ds) f64) (lex_loop f n s2)
        | None => Err (Errorf "expr: invalid number %q" [FStr (sign +:+ ds)])
        end
      else if isIdentStart c then
        let '(word, s2) := span isIdentPart s in
        cons_tok (word_token word) (lex_loop f n s2)
      else Err (Errorf "expr: unexpected character %q at %d" [FInt (Z.of_nat (byte_val c)); i])
  end end.

Definition lex (src : string) : outcome (list token) :=
  lex_loop (S (String.length src)) (String.length src) src.

(** ** Operations on dynamic values *)
Definition lengthOf (v : value) : Z :=
  match v with
  | VNil => 0%Z
  | VString s => Z.of_nat (String.length s)
  | VList l => Z.of_nat (length l)
  | VMap m => Z.of_nat (size m)
  | VBool _ | VInt _ | VFloat _ => 0%Z
  end.

Definition field (v : value) (name : string) : value :=
  if bool_decide (name = "length") then VInt (lengthOf v)
  else match v with
       | VMap m => get_nil m name
       | _ => VNil
       end.

Definition truthy (v : value) : bool :=
  match v with
  | VNil => false
  | VBool b => b
  | VString s => negb (bool_decide (s = ""))
  | VFloat f => negb (SFeqb f float_zero)
  | VInt _ | VList _ | VMap _ => true
  end.

Definition toFloat (v : value) : option float64 :=
  match v with
  | VFloat f => Some f
  | VInt n => Some (float_of_Z n)
  | VBool b => Some (if b then float_one else float_zero)
  | _ => None
  end.

Definition deepEqual (a b : value) : bool :=
  if is_nil a || is_nil b then is_nil a && is_nil b
  else match toFloat a, toFloat b with
       | Some x, Some y => SFeqb x y
       | _, _ => deep_equal a b
       end.

Definition orderFloat (op : tokenKind) (a b : float64) : bool :=
  match op with
  | tokGt => SFltb b a
  | tokLt => SFltb a b
  | tokGe => SFleb b a
  | tokLe => SFleb a b
  | _ => false
  end.

Definition orderString (op : tokenKind) (a b : string) : bool :=
  match op with
  | tokGt => str_ltb b a
  | tokLt => str_ltb a b
  | tokGe => str_leb b a
  | tokLe => str_leb a b
  | _ => false
  end.

Definition err_incompatible : error :=
  Errorf "expr: cannot order values of incompatible types" [].

Definition compare (op : tokenKind) (a b : value) : outcome value :=
  match op with
  | tokEq => Ok (VBool (deepEqual a b))
  | tokNeq => Ok (VBool (negb (deepEqual a b)))
  | _ =>
      match toFloat a, toFloat b with
      | Some x, Some y => Ok (VBool (orderFloat op x y))
      | _, _ =>
          match a, b with
          | VString x, VString y => Ok (VBool (orderString op x y))
          | _, _ => Err err_incompatible
          end
      end
  end.

Definition isComparison (k : tokenKind) : bool :=
  match k with
  | tokEq | tokNeq | tokGt | tokLt | tokGe | tokLe => true
  | _ => false
  end.

(** ** The parser *)
Section Parser.
Context (tokens : list token) (vars : gmap string value).

Definition index_panic : string := "index out of range".

Definition peek : M nat token := λ pos,
  match tokens !! pos with
  | Some t => (Ok t, pos)
  | None => (Panic index_panic, pos)
  end.

Definition next : M nat token := λ pos,
  match tokens !! pos with
  | Some t => (Ok t, S pos)
  | None => (Panic index_panic, pos)
  end.

(** [p.peek().kind == k] *)
Definition peek_is (k : tokenKind) : M nat bool :=
  t ← peek; mret (bool_decide (kind t = k)).

(** The loop of [skipPrimary] inside parentheses. *)
Fixpoint skipParens (fuel depth : nat) : M nat unit :=
  match fuel with 0 => mnofuel | S f =>
    if depth =? 0 then mret tt
    else
      cur ← next;
      match kind cur with
      | tokEOF => mret tt
      | tokLParen => skipParens f (S depth)
      | tokRParen => skipParens f (depth - 1)
      | _ => skipParens f depth
      end
  end.

(** [for p.peek().kind == tokDot { p.next(); p.next() }] *)
Fixpoint skipDots (fuel : nat) : M nat unit :=
  match fuel with 0 => mnofuel | S f =>
    b ← peek_is tokDot;
    if b : bool then _ ← next; _ ← next; skipDots f else mret tt
  end.

Definition skipPrimary (fuel : nat) : M nat unit :=
  t ← peek;
  match kind t with
  | tokLParen => _ ← next; skipParens fuel 1
  | tokEOF => mret tt
  | _ => _ ← next; skipDots fuel
  end.

Fixpoint skipUnary (fuel : nat) : M nat unit :=
  match fuel with 0 => mnofuel | S f =>
    b ← peek_is tokNot;
    if b : bool then _ ← next; skipUnary f
    else
      _ ← skipPrimary f;
      t ← peek;
      if isComparison (kind t) then _ ← next; skipPrimary f else mret tt
  end.

(** [for p.peek().kind == tokAnd { p.next(); p.skipUnary() }]: the loop of
    [skipAnd] and of the short-circuit of [parseAnd]. *)
Fixpoint skipAnds (fuel : nat) : M nat unit :=
  match fuel with 0 => mnofuel | S f =>
    b ← peek_is tokAnd;
    if b : bool then _ ← next; _ ← skipUnary f; skipAnds f else mret tt
  end.

Definition skipAnd (fuel : nat) : M nat unit :=
  _ ← skipUnary fuel; skipAnds fuel.

(** [for p.peek().kind == tokOr { p.next(); p.skipAnd() }] *)
Fixpoint skipOrs (fuel : nat) : M nat unit :=
  match fuel with 0 => mnofuel | S f =>
    b ← peek_is tokOr;
    if b : bool then _ ← next; _ ← skipAnd f; skipOrs f else mret tt
  end.

Definition err_field : error := Errorf "expr: expected field name after '.'" [].

(** The loop of [parseFieldAccess]. *)
Fixpoint fieldLoop (fuel : nat) (val : value) : M nat value :=
  match fuel with 0 => mnofuel | S f =>
    b ← peek_is tokDot;
    if b : bool then
      _ ← next;
      fieldTok ← next;
      if bool_decide (kind fieldTok = tokIdent)
      then fieldLoop f (field val (text fieldTok))
      else mthrow err_field
    else mret val
  end.

Definition parseFieldAccess (fuel : nat) (root : string) : M nat value :=
  match vars !! root with
  | None => mthrow (Errorf "expr: unknown variable %q" [FStr root])
  | Some val => fieldLoop fuel val
  end.

Definition lift {S A} (o : outcome A) : M S A := λ s, (o, s).

Definition err_paren : error := Errorf "expr: missing closing parenthesis" [].
Definition err_unexpected (t : token) : error :=
  Errorf "expr: unexpected token %q" [FStr (text t)].

Fixpoint parseOr (fuel : nat) : M nat value :=
  match fuel with 0 => mnofuel | S f =>
    left ← parseAnd f; orLoop f left
  end
with orLoop (fuel : nat) (left : value) : M nat value :=
  match fuel with 0 => mnofuel | S f =>
    b ← peek_is tokOr;
    if b : bool then
      if truthy left then _ ← skipOrs f; mret left
      else
        _ ← next;
        right ← parseAnd f;
        orLoop f right
    else mret left
  end
with parseAnd (fuel : nat) : M nat value :=
  match fuel with 0 => mnofuel | S f =>
    left ← parseUnary f; andLoop f left
  end
with andLoop (fuel : nat) (left : value) : M nat value :=
  match fuel with 0 => mnofuel | S f =>
    b ← peek_is tokAnd;
    if b : bool then
      if negb (truthy left) then _ ← skipAnds f; mret left
      else
        _ ← next;
        right ← parseUnary f;
        andLoop f right
    else mret left
  end
with parseUnary (fuel : nat) : M nat value :=
  match fuel with 0 => mnofuel | S f =>
    b ← peek_is tokNot;
    if b : bool then
      _ ← next;
      v ← parseUnary f;
      mret (VBool (negb (truthy v)))
    else parseComparison f
  end
with parseComparison (fuel : nat) : M nat value :=
  match fuel with 0 => mnofuel | S f =>
    left ← parsePrimary f;
    t ← peek;
    if isComparison (kind t) then
      op ← next;
      right ← parsePrimary f;
      lift (compare (kind op) left right)
    else mret left
  end
with parsePrimary (fuel : nat) : M nat value :=
  match fuel with 0 => mnofuel | S f =>
    t ← peek;
    match kind t with
    | tokString => _ ← next; mret (VString (text t))
    | tokNumber => _ ← next; mret (VFloat (num t))
    | tokBool => _ ← next; mret (VBool (SFeqb (num t) float_one))
    | tokNull => _ ← next; mret VNil
    | tokLParen =>
        _ ← next;
        v ← parseOr f;
        b ← peek_is tokRParen;
        if b : bool then _ ← next; mret v else mthrow err_paren
    | tokIdent => _ ← next; parseFieldAccess f (text t)
    | _ => mthrow (err_unexpected t)
    end
  end.

(** [evalExpression] after lexing. *)
Definition eval_tokens (fuel : nat) : M nat value :=
  v ← parseOr fuel;
  t ← peek;
  if bool_decide (kind t = tokEOF) then mret v
  else mthrow (err_unexpected t).
End Parser.

(** Enough fuel for the parser: seven calls for every token. *)
Definition parse_fuel (tokens : list token) : nat := 7 * S (length tokens).

Definition evalExpression (expr : string) (vars : gmap string value) : outcome value :=
  match lex expr with
  | Ok tokens => (eval_tokens tokens vars (parse_fuel tokens) 0).1
  | Err e => Err e
  | Panic w => Panic w
  | NoFuel => NoFuel
  end.
