(* ===== verification/ExprTheory.v ===== *)
(** * Theory of the condition expressions

    Termination of the lexer and of the parser, freedom from panics, and the
    reference semantics of the grammar that the evaluator implements. *)
From Stdlib Require Import Ascii.
From S2P Require Import Prelude GoStr GoValue Expr.

(** Solve [approx] goals between two fuelled computations. *)
Ltac approx_solve :=
  repeat first
    [ apply approx_refl | apply approx_nofuel | solve [auto]
    | apply approx_bind; [|intros ?] | apply approx_if
    | match goal with |- approx (match ?x with _ => _ end) _ => destruct x end ].

Section Mono.
Context (tokens : list token) (vars : gmap string value).

Lemma skipParens_mono f1 f2 d : f1 ≤ f2 → approx (skipParens tokens f1 d) (skipParens tokens f2 d).
Proof.
  revert f2 d; induction f1 as [|f1 IH]; intros [|f2] d Hf; simpl; try lia; [approx_solve..|].
  assert (∀ d, approx (skipParens tokens f1 d) (skipParens tokens f2 d)) by (intros; apply IH; lia).
  approx_solve.
Qed.

Lemma skipDots_mono f1 f2 : f1 ≤ f2 → approx (skipDots tokens f1) (skipDots tokens f2).
Proof.
  revert f2; induction f1 as [|f1 IH]; intros [|f2] Hf; simpl; try lia; [approx_solve..|].
  specialize (IH f2). approx_solve. apply IH. lia.
Qed.

Lemma skipPrimary_mono f1 f2 : f1 ≤ f2 → approx (skipPrimary tokens f1) (skipPrimary tokens f2).
Proof.
  intros Hf. unfold skipPrimary.
  pose proof (skipDots_mono _ _ Hf). pose proof (skipParens_mono _ _ 1 Hf). approx_solve.
Qed.

Lemma skipUnary_mono f1 f2 : f1 ≤ f2 → approx (skipUnary tokens f1) (skipUnary tokens f2).
Proof.
  revert f2; induction f1 as [|f1 IH]; intros [|f2] Hf; simpl; try lia; [approx_solve..|].
  assert (H : f1 ≤ f2) by lia. pose proof (IH _ H). pose proof (skipPrimary_mono _ _ H).
  approx_solve.
Qed.

Lemma skipAnds_mono f1 f2 : f1 ≤ f2 → approx (skipAnds tokens f1) (skipAnds tokens f2).
Proof.
  revert f2; induction f1 as [|f1 IH]; intros [|f2] Hf; simpl; try lia; [approx_solve..|].
  assert (H : f1 ≤ f2) by lia. pose proof (IH _ H). pose proof (skipUnary_mono _ _ H).
  approx_solve.
Qed.

Lemma skipOrs_mono f1 f2 : f1 ≤ f2 → approx (skipOrs tokens f1) (skipOrs tokens f2).
Proof.
  revert f2; induction f1 as [|f1 IH]; intros [|f2] Hf; simpl; try lia; [approx_solve..|].
  assert (H : f1 ≤ f2) by lia. pose proof (IH _ H).
  pose proof (skipUnary_mono _ _ H). pose proof (skipAnds_mono _ _ H).
  unfold skipAnd. approx_solve.
Qed.

Lemma fieldLoop_mono f1 f2 v : f1 ≤ f2 → approx (fieldLoop tokens f1 v) (fieldLoop tokens f2 v).
Proof.
  revert f2 v; induction f1 as [|f1 IH]; intros [|f2] v Hf; simpl; try lia; [approx_solve..|].
  assert (H : f1 ≤ f2) by lia. pose proof (λ v, IH _ v H). approx_solve.
Qed.

Lemma parse_mono f1 f2 : f1 ≤ f2 →
  approx (parseOr tokens vars f1) (parseOr tokens vars f2) ∧
  (∀ v, approx (orLoop tokens vars f1 v) (orLoop tokens vars f2 v)) ∧
  approx (parseAnd tokens vars f1) (parseAnd tokens vars f2) ∧
  (∀ v, approx (andLoop tokens vars f1 v) (andLoop tokens vars f2 v)) ∧
  approx (parseUnary tokens vars f1) (parseUnary tokens vars f2) ∧
  approx (parseComparison tokens vars f1) (parseComparison tokens vars f2) ∧
  approx (parsePrimary tokens vars f1) (parsePrimary tokens vars f2).
Proof.
  revert f2; induction f1 as [|f1 IH]; intros [|f2] Hf; try lia;
    [repeat split; intros; apply approx_nofuel..|].
  assert (H : f1 ≤ f2) by lia.
  destruct (IH _ H) as (Ho & Hol & Ha & Hal & Hu & Hc & Hp).
  pose proof (skipOrs_mono _ _ H). pose proof (skipAnds_mono _ _ H).
  pose proof (λ v, fieldLoop_mono _ _ v H).
  repeat split; intros; simpl; unfold parseFieldAccess; approx_solve.
Qed.
End Mono.

(** ** Termination

    Every loop consumes a token per round, so a bound on the tokens left
    bounds the fuel a call needs. *)

(** The state after a call is not before the position [pos]. *)
Definition ahead {A} (pos : nat) : A → nat → Prop := λ _ p, pos ≤ p.

Section TermRules.
Context (tokens : list token) {A : Type}.
Implicit Types (Q : A → nat → Prop).

Lemma term_bind_peek (k : token → M nat A) pos Q :
  (∀ t, tokens !! pos = Some t → pos < length tokens → terminates (k t) pos Q) →
  terminates (peek tokens ≫= k) pos Q.
Proof.
  unfold terminates, mbind, M_bind, peek. intros H.
  destruct (tokens !! pos) as [t|] eqn:E; [|done]. apply H; [done|].
  by eapply lookup_lt_Some.
Qed.

Lemma term_bind_next (k : token → M nat A) pos Q :
  (∀ t, tokens !! pos = Some t → pos < length tokens → terminates (k t) (S pos) Q) →
  terminates (next tokens ≫= k) pos Q.
Proof.
  unfold terminates, mbind, M_bind, next. intros H.
  destruct (tokens !! pos) as [t|] eqn:E; [|done]. apply H; [done|].
  by eapply lookup_lt_Some.
Qed.

Lemma term_bind_peek_is x (k : bool → M nat A) pos Q :
  (∀ b, pos < length tokens → terminates (k b) pos Q) →
  terminates (peek_is tokens x ≫= k) pos Q.
Proof.
  unfold terminates, peek_is, peek, mbind, M_bind, mret, M_ret. intros H.
  destruct (tokens !! pos) as [t|] eqn:E; [|done]. apply H.
  by eapply lookup_lt_Some.
Qed.

Lemma term_call {B} (m : M nat B) (k : B → M nat A) pos Q :
  terminates m pos (ahead pos) → (∀ a p, pos ≤ p → terminates (k a) p Q) →
  terminates (m ≫= k) pos Q.
Proof. intros Hm Hk. by eapply term_bind. Qed.

Lemma term_tail (m : M nat A) p pos :
  terminates m p (ahead p) → pos ≤ p → terminates m p (ahead pos).
Proof. unfold ahead. intros H ?. eapply term_mono; [exact H|]. simpl. intros; lia. Qed.

Lemma term_done (a : A) p pos : pos ≤ p → terminates (mret a) p (ahead pos).
Proof. done. Qed.
End TermRules.

(** One step of a termination proof; calls are closed by the hypotheses. *)
Ltac term_step :=
  match goal with
  | |- terminates (peek _ ≫= _) _ _ => apply term_bind_peek; intros ? ? ?
  | |- terminates (next _ ≫= _) _ _ => apply term_bind_next; intros ? ? ?
  | |- terminates (peek_is _ _ ≫= _) _ _ => apply term_bind_peek_is; intros [] ?
  | |- terminates (mret _) _ _ => apply term_done; lia
  | |- terminates (mthrow _) _ _ => exact I
  | |- terminates (if ?b then _ else _) _ _ => destruct b
  | |- terminates (match ?x with _ => _ end) _ _ => destruct x
  | |- terminates (_ ≫= _) _ _ => apply term_call; [|intros ? ? ?]
  | H : context [terminates] |- terminates _ _ _ =>
      first [apply H; lia | apply term_tail; [apply H; lia|lia]]
  end.

Section Termination.
Context (tokens : list token) (vars : gmap string value).

Definition tokens_left (pos : nat) : nat := length tokens - pos.
Local Ltac go := unfold tokens_left in *; repeat term_step.

Lemma skipParens_term f d pos :
  tokens_left pos < f → terminates (skipParens tokens f d) pos (ahead pos).
Proof. revert d pos; induction f as [|f IH]; intros d pos Hf; [lia|]; simpl; go. Qed.

Lemma skipDots_term f pos :
  tokens_left pos < f → terminates (skipDots tokens f) pos (ahead pos).
Proof. revert pos; induction f as [|f IH]; intros pos Hf; [lia|]; simpl; go. Qed.

Lemma skipPrimary_term f pos :
  tokens_left pos < f → terminates (skipPrimary tokens f) pos (ahead pos).
Proof.
  intros Hf. unfold skipPrimary.
  pose proof (skipDots_term f). pose proof (skipParens_term f). go.
Qed.

Lemma skipUnary_term f pos :
  S (tokens_left pos) < f → terminates (skipUnary tokens f) pos (ahead pos).
Proof.
  revert pos; induction f as [|f IH]; intros pos Hf; [lia|]; simpl.
  pose proof (skipPrimary_term f). go.
Qed.

Lemma skipAnds_term f pos :
  S (tokens_left pos) < f → terminates (skipAnds tokens f) pos (ahead pos).
Proof.
  revert pos; induction f as [|f IH]; intros pos Hf; [lia|]; simpl.
  pose proof (skipUnary_term f). go.
Qed.

Lemma skipOrs_term f pos :
  S (tokens_left pos) < f → terminates (skipOrs tokens f) pos (ahead pos).
Proof.
  revert pos; induction f as [|f IH]; intros pos Hf; [lia|]; simpl.
  pose proof (skipUnary_term f). pose proof (skipAnds_term f).
  unfold skipAnd. go.
Qed.

Lemma fieldLoop_term f v pos :
  tokens_left pos < f → terminates (fieldLoop tokens f v) pos (ahead pos).
Proof. revert v pos; induction f as [|f IH]; intros v pos Hf; [lia|]; simpl; go. Qed.

Lemma lift_term (o : outcome value) pos p :
  o ≠ NoFuel → pos ≤ p → terminates (lift o) p (ahead pos).
Proof. by destruct o. Qed.

Lemma compare_fuel op a b : compare op a b ≠ NoFuel.
Proof.
  unfold compare. by destruct op, (toFloat a), (toFloat b), a, b.
Qed.

(** Seven calls per token: a chain of at most five calls reads a token. *)
Lemma parse_term f pos :
  (7 * tokens_left pos + 4 < f → terminates (parseOr tokens vars f) pos (ahead pos)) ∧
  (∀ v, 7 * tokens_left pos + 1 < f → terminates (orLoop tokens vars f v) pos (ahead pos)) ∧
  (7 * tokens_left pos + 3 < f → terminates (parseAnd tokens vars f) pos (ahead pos)) ∧
  (∀ v, 7 * tokens_left pos + 1 < f → terminates (andLoop tokens vars f v) pos (ahead pos)) ∧
  (7 * tokens_left pos + 2 < f → terminates (parseUnary tokens vars f) pos (ahead pos)) ∧
  (7 * tokens_left pos + 1 < f → terminates (parseComparison tokens vars f) pos (ahead pos)) ∧
  (7 * tokens_left pos < f → terminates (parsePrimary tokens vars f) pos (ahead pos)).
Proof.
  revert pos; induction f as [|f IH]; intros pos; [repeat split; lia|].
  pose proof (λ p, proj1 (IH p)) as Ho.
  pose proof (λ p, proj1 (proj2 (IH p))) as Hol.
  pose proof (λ p, proj1 (proj2 (proj2 (IH p)))) as Ha.
  pose proof (λ p, proj1 (proj2 (proj2 (proj2 (IH p))))) as Hal.
  pose proof (λ p, proj1 (proj2 (proj2 (proj2 (proj2 (IH p)))))) as Hu.
  pose proof (λ p, proj1 (proj2 (proj2 (proj2 (proj2 (proj2 (IH p))))))) as Hc.
  pose proof (λ p, proj2 (proj2 (proj2 (proj2 (proj2 (proj2 (IH p))))))) as Hp.
  pose proof (skipOrs_term f). pose proof (skipAnds_term f). pose proof (fieldLoop_term f).
  clear IH. repeat split; intros; simpl; unfold parseFieldAccess; go.
  apply lift_term; [apply compare_fuel|lia].
Qed.
End Termination.

(** ** The lexer terminates, and its tokens end with the only [tokEOF] *)
Definition eof_terminated (ts : list token) : Prop :=
  ∃ ts0 t, ts = ts0 ++ [t] ∧ kind t = tokEOF ∧ Forall (λ t, kind t ≠ tokEOF) ts0.

Lemma span_length p s a b : span p s = (a, b) → String.length b ≤ String.length s.
Proof.
  revert a b; induction s as [|c s IH]; simpl; intros a b E; [by simplify_eq|].
  destruct (p c); [|by simplify_eq].
  destruct (span p s) as [a' b'] eqn:E'; simplify_eq. pose proof (IH _ _ eq_refl). lia.
Qed.

(** A span that takes its first byte leaves a shorter rest. *)
Lemma span_length_lt p c s a b :
  p c = true → span p (String c s) = (a, b) → String.length b ≤ String.length s.
Proof.
  intros Hp. simpl. rewrite Hp. destruct (span p s) as [a' b'] eqn:E; intros [= <- <-].
  by eapply span_length.
Qed.

Lemma lex_string_length q s a b :
  lex_string q s = Some (a, b) → String.length b < String.length s.
Proof.
  remember (String.length s) as n eqn:Hn. revert s a b Hn.
  induction (lt_wf n) as [n _ IH]; intros s a b ->.
  destruct s as [|c s]; simpl; [done|].
  repeat case_bool_decide; intros E; [by simplify_eq; lia| |].
  - destruct s as [|d s]; [done|].
    destruct (lex_string q s) as [[a' b']|] eqn:E'; simplify_eq/=.
    eapply IH in E'; [|..|done]; simpl; lia.
  - destruct (lex_string q s) as [[a' b']|] eqn:E'; simplify_eq/=.
    eapply IH in E'; [|..|done]; simpl; lia.
Qed.

Lemma next_is_length d s s' : next_is d s = Some s' → S (String.length s') = String.length s.
Proof. destruct s as [|c s]; simpl; [done|]. case_bool_decide; by intros [= ->]. Qed.

(** What the theorems ask of a lexer result: enough fuel, no panic, and
    tokens that end with the only [tokEOF]. *)
Definition lexed (o : outcome (list token)) : Prop :=
  match o with Ok ts => eof_terminated ts | Err _ => True | _ => False end.

Lemma lexed_cons t o : kind t ≠ tokEOF → lexed o → lexed (cons_tok t o).
Proof.
  intros Ht. destruct o as [ts| | |]; simpl; [|done..].
  intros (ts0 & e & -> & He & Hts). exists (t :: ts0), e. by repeat constructor.
Qed.

Lemma word_token_kind w : kind (word_token w) ≠ tokEOF.
Proof. unfold word_token. by repeat case_bool_decide. Qed.

Ltac lex_step :=
  match goal with
  | |- lexed (cons_tok _ _) => apply lexed_cons; [first [apply word_token_kind|done]|]
  | |- lexed (Err _) => exact I
  | |- lexed (Ok [_]) => by exists [], (tok tokEOF "")
  | |- lexed (if ?b then _ else _) => destruct b eqn:?
  | |- lexed (match next_is ?d ?s with _ => _ end) => destruct (next_is d s) eqn:?
  | |- lexed (match lex_string ?d ?s with _ => _ end) => destruct (lex_string d s) as [[]|] eqn:?
  | |- lexed (match parse_float ?s with _ => _ end) => destruct (parse_float s) eqn:?
  | H : next_is _ _ = Some _ |- _ => apply next_is_length in H
  | H : lex_string _ _ = Some _ |- _ => apply lex_string_length in H
  | |- lexed (let '(_, _) := ?x in _) => destruct x as [??] eqn:?
  end.

Lemma number_rest_length c s sign body ds rest :
  is_digit c || bool_decide (c = "-"%char) && starts_digit s = true →
  (if bool_decide (c = "-"%char) then ("-"%string, s) else (EmptyString, String c s))
    = (sign, body) →
  span is_num_part body = (ds, rest) → String.length rest ≤ String.length s.
Proof.
  intros Hc. case_bool_decide; intros [= <- <-] Hspan; [by eapply span_length|].
  rewrite andb_false_l, orb_false_r in Hc.
  eapply span_length_lt, Hspan. unfold is_num_part. by rewrite Hc.
Qed.

Lemma lex_loop_lexed f n s : String.length s < f → lexed (lex_loop f n s).
Proof.
  revert s; induction f as [|f IH]; intros s Hf; [lia|].
  destruct s as [|c s]; cbn [lex_loop]; [lex_step|]. simpl in Hf.
  repeat lex_step; try (apply IH; lia).
  - apply IH. eapply Nat.le_lt_trans; [by eapply number_rest_length|lia].
  - apply IH. eapply Nat.le_lt_trans; [eapply span_length_lt; [|eassumption]|lia].
    unfold isIdentPart. by match goal with H : isIdentStart _ = true |- _ => rewrite H end.
Qed.

Lemma lex_lexed src : lexed (lex src).
Proof. apply lex_loop_lexed. lia. Qed.

Lemma lex_eof src ts : lex src = Ok ts → eof_terminated ts.
Proof. intros E. pose proof (lex_lexed src) as H. by rewrite E in H. Qed.

(** ** Claims on termination *)
Lemma eval_tokens_fuel tokens vars : (eval_tokens tokens vars (parse_fuel tokens) 0).1 ≠ NoFuel.
Proof.
  eapply (term_fuel _ _ (ahead 0)). unfold eval_tokens.
  apply term_call.
  - apply parse_term. unfold parse_fuel, tokens_left. lia.
  - intros v p ?. repeat term_step.
Qed.

(** Evaluation of any expression over any variables comes to an end: the
    fuel given to the lexer and to the parser always suffices. *)
Lemma evalExpression_fuel expr vars : evalExpression expr vars ≠ NoFuel.
Proof.
  unfold evalExpression. pose proof (lex_lexed expr) as Hl.
  destruct (lex expr); [apply eval_tokens_fuel|done..].
Qed.

(** ** Panics

    A token is read past the end only by the skipping functions: an
    expression without [&&] and [||] never panics. *)
Section Safe.
Context (tokens : list token) (vars : gmap string value).
Hypothesis Heof : eof_terminated tokens.
Hypothesis Hplain : Forall (λ t, kind t ≠ tokAnd ∧ kind t ≠ tokOr) tokens.

(** The position of a parser that still has a token to read. *)
Definition inside {A} : A → nat → Prop := λ _ p, p < length tokens.

Lemma token_here pos : pos < length tokens → ∃ t, tokens !! pos = Some t.
Proof. intros H. by apply lookup_lt_is_Some in H. Qed.

Lemma not_eof_next pos t :
  tokens !! pos = Some t → kind t ≠ tokEOF → S pos < length tokens.
Proof.
  destruct Heof as (ts0 & e & -> & He & _). intros Ht Hk.
  rewrite length_app; simpl.
  destruct (decide (pos < length ts0)) as [|Hge]; [lia|].
  rewrite lookup_app_r in Ht by lia.
  destruct (pos - length ts0) as [|n]; simpl in Ht; [by simplify_eq|done].
Qed.

Lemma plain_token pos t :
  tokens !! pos = Some t → kind t ≠ tokAnd ∧ kind t ≠ tokOr.
Proof. apply (Forall_lookup_1 _ _ _ _ Hplain). Qed.

Section Rules.
Context {A : Type}.
Implicit Types (Q : A → nat → Prop).

Lemma safe_bind_peek (k : token → M nat A) pos Q :
  pos < length tokens →
  (∀ t, tokens !! pos = Some t → safe (k t) pos Q) → safe (peek tokens ≫= k) pos Q.
Proof.
  intros [t Ht]%token_here H. unfold safe, mbind, M_bind, peek. rewrite Ht. by apply H.
Qed.

Lemma safe_bind_next_any (k : token → M nat A) pos Q :
  pos < length tokens →
  (∀ t, tokens !! pos = Some t → safe (k t) (S pos) Q) → safe (next tokens ≫= k) pos Q.
Proof.
  intros [t Ht]%token_here H. unfold safe, mbind, M_bind, next. rewrite Ht. by apply H.
Qed.

Lemma safe_bind_next (k : token → M nat A) pos t Q :
  tokens !! pos = Some t → safe (k t) (S pos) Q → safe (next tokens ≫= k) pos Q.
Proof. intros Ht H. unfold safe, mbind, M_bind, next. rewrite Ht. by apply H. Qed.

Lemma safe_bind_peek_is x (k : bool → M nat A) pos Q :
  pos < length tokens →
  (∀ t, tokens !! pos = Some t → safe (k (bool_decide (kind t = x))) pos Q) →
  safe (peek_is tokens x ≫= k) pos Q.
Proof.
  intros [t Ht]%token_here H.
  unfold safe, peek_is, peek, mbind, M_bind, mret, M_ret. rewrite Ht. by apply H.
Qed.

Lemma safe_call {B} (m : M nat B) (k : B → M nat A) pos Q :
  safe m pos inside → (∀ b p, p < length tokens → safe (k b) p Q) → safe (m ≫= k) pos Q.
Proof. intros Hm Hk. by eapply safe_bind. Qed.

Lemma safe_done (a : A) p : p < length tokens → safe (mret a) p inside.
Proof. done. Qed.
End Rules.

Lemma comparison_not_eof t : isComparison (kind t) = true → kind t ≠ tokEOF.
Proof. by destruct (kind t). Qed.

Lemma lift_compare_safe op a b p : p < length tokens → safe (lift (compare op a b)) p inside.
Proof.
  intros Hp. unfold safe, lift, compare.
  by destruct op, (toFloat a), (toFloat b), a, b.
Qed.

Local Ltac safe_step :=
  match goal with
  | H : tokens !! _ = Some ?t, Hk : kind ?t = tokOr |- _ => by destruct (plain_token _ _ H)
  | H : tokens !! _ = Some ?t, Hk : kind ?t = tokAnd |- _ => by destruct (plain_token _ _ H)
  | |- safe (peek _ ≫= _) _ _ => apply safe_bind_peek; [assumption|intros ? ?]
  | H : tokens !! ?p = Some _ |- safe (next _ ≫= _) ?p _ => apply (safe_bind_next _ _ _ _ H)
  | |- safe (next _ ≫= _) _ _ => apply safe_bind_next_any; [assumption|intros ? ?]
  | |- safe (peek_is _ _ ≫= _) _ _ => apply safe_bind_peek_is; [assumption|intros ? ?]; case_bool_decide
  | |- safe (mret _) _ _ => apply safe_done; assumption
  | |- safe (mthrow _) _ _ => exact I
  | |- safe mnofuel _ _ => exact I
  | H : tokens !! ?p = Some ?t |- safe _ (S ?p) _ =>
      lazymatch goal with
      | _ : S p < length tokens |- _ => fail
      | _ => assert (S p < length tokens) by
          (apply (not_eof_next _ _ H); first [congruence|by apply comparison_not_eof])
      end
  | |- safe (match kind ?t with _ => _ end) _ _ => destruct (kind t) eqn:?
  | |- safe (match vars !! ?x with _ => _ end) _ _ => destruct (vars !! x)
  | |- safe (lift (compare _ _ _)) _ _ => apply lift_compare_safe; assumption
  | |- safe (if bool_decide _ then _ else _) _ _ => case_bool_decide
  | |- safe (if ?b then _ else _) _ _ => destruct b eqn:?
  | |- safe (_ ≫= _) _ _ => apply safe_call; [|intros ? ? ?]
  | H : context [safe] |- safe _ _ _ => apply H; assumption
  end.

Lemma fieldLoop_safe f v pos : pos < length tokens → safe (fieldLoop tokens f v) pos inside.
Proof.
  revert v pos; induction f as [|f IH]; intros v pos Hp; simpl; [exact I|].
  repeat safe_step.
Qed.

Lemma parse_safe f pos : pos < length tokens →
  safe (parseOr tokens vars f) pos inside ∧
  (∀ v, safe (orLoop tokens vars f v) pos inside) ∧
  safe (parseAnd tokens vars f) pos inside ∧
  (∀ v, safe (andLoop tokens vars f v) pos inside) ∧
  safe (parseUnary tokens vars f) pos inside ∧
  safe (parseComparison tokens vars f) pos inside ∧
  safe (parsePrimary tokens vars f) pos inside.
Proof.
  revert pos; induction f as [|f IH]; intros pos Hp; [repeat split; exact I|].
  pose proof (λ p H, proj1 (IH p H)) as Ho.
  pose proof (λ p H, proj1 (proj2 (IH p H))) as Hol.
  pose proof (λ p H, proj1 (proj2 (proj2 (IH p H)))) as Ha.
  pose proof (λ p H, proj1 (proj2 (proj2 (proj2 (IH p H))))) as Hal.
  pose proof (λ p H, proj1 (proj2 (proj2 (proj2 (proj2 (IH p H)))))) as Hu.
  pose proof (λ p H, proj1 (proj2 (proj2 (proj2 (proj2 (proj2 (IH p H))))))) as Hc.
  pose proof (λ p H, proj2 (proj2 (proj2 (proj2 (proj2 (proj2 (IH p H))))))) as Hprim.
  pose proof (fieldLoop_safe f) as Hf.
  clear IH. repeat split; intros; simpl; unfold parseFieldAccess; repeat safe_step.
Qed.

Lemma eval_tokens_safe f w : (eval_tokens tokens vars f 0).1 ≠ Panic w.
Proof.
  eapply (safe_no_panic _ _ inside). unfold eval_tokens.
  assert (0 < length tokens).
  { destruct Heof as (ts0 & e & -> & _). rewrite length_app; simpl; lia. }
  pose proof (proj1 (parse_safe f 0 ltac:(assumption))). repeat safe_step.
Qed.
End Safe.

(** Evaluating any source text over any variables comes to an end, with
    the fuel that lexer and parser are given; and when the text contains no
    [&&] and no [||], or cannot be split into tokens, the end is a value or an
    error: reading past the last token, the one possible panic, needs the
    skipping of an operand. *)
Theorem evalExpression_total expr vars :
  evalExpression expr vars ≠ NoFuel ∧
  ((∀ tokens, lex expr = Ok tokens → Forall (λ t, kind t ≠ tokAnd ∧ kind t ≠ tokOr) tokens) →
   proper_outcome (evalExpression expr vars)).
Proof.
  split; [apply evalExpression_fuel|]. intros Hplain.
  pose proof (evalExpression_fuel expr vars) as Hf. unfold evalExpression in *.
  pose proof (lex_lexed expr) as Hl.
  destruct (lex expr) as [ts|e|w|]; try done.
  destruct (eval_tokens ts vars (parse_fuel ts) 0).1 as [v|e|w|] eqn:E; try done.
  by eapply (eval_tokens_safe ts vars Hl (Hplain ts eq_refl)).
Qed.

Lemma evalExpression_total_witness :
  proper_outcome (evalExpression "result.items.length >= 2.5 == (" ∅).
Proof.
  refine (proj2 (evalExpression_total "result.items.length >= 2.5 == (" ∅) _).
  intros tokens H. vm_compute in H. injection H as <-.
  repeat (constructor; [split; discriminate|]). constructor.
Defined.
