(* ===== verification/ExprSpec.v ===== *)
(** * Reference semantics of the condition expressions

    Abstract syntax with a denotation (left-to-right, short-circuit, the last
    operand read is the value of an [&&] or [||]), a printer that inserts
    parentheses by precedence, and the proof that the one-pass evaluator of
    [Expr] computes the denotation of every printed expression. *)
From Stdlib Require Import Ascii.
From S2P Require Import Prelude GoStr GoValue Expr ExprTheory.

(** ** Abstract syntax *)
Inductive cmpop := CEq | CNe | CGt | CLt | CGe | CLe.

Definition op_kind (op : cmpop) : tokenKind :=
  match op with
  | CEq => tokEq | CNe => tokNeq | CGt => tokGt
  | CLt => tokLt | CGe => tokGe | CLe => tokLe
  end.

Definition op_text (op : cmpop) : string :=
  match op with
  | CEq => "==" | CNe => "!=" | CGt => ">" | CLt => "<" | CGe => ">=" | CLe => "<="
  end.

Inductive expr :=
  | EStr (s : string)
  | ENum (txt : string) (f : float64)
  | EBool (b : bool)
  | ENull
  | EPath (root : string) (fields : list string)
  | ENot (e : expr)
  | ECmp (op : cmpop) (a b : expr)
  | EAnd (a b : expr)
  | EOr (a b : expr).

(** ** Denotation *)
Abbreviation obind := (λ o k, mbind (M := outcome) k o).

Definition not_value (v : value) : outcome value := Ok (VBool (negb (truthy v))).

Fixpoint denote (vars : gmap string value) (e : expr) : outcome value :=
  match e with
  | EStr s => Ok (VString s)
  | ENum _ f => Ok (VFloat f)
  | EBool b => Ok (VBool b)
  | ENull => Ok VNil
  | EPath root fields =>
      match vars !! root with
      | Some v => Ok (foldl field v fields)
      | None => Err (Errorf "expr: unknown variable %q" [FStr root])
      end
  | ENot e => obind (denote vars e) not_value
  | ECmp op a b =>
      obind (denote vars a) (λ x, obind (denote vars b) (compare (op_kind op) x))
  | EAnd a b => obind (denote vars a) (λ x, if truthy x then denote vars b else Ok x)
  | EOr a b => obind (denote vars a) (λ x, if truthy x then Ok x else denote vars b)
  end.

(** ** Printing: level 0 is an or-expression, 3 a primary *)
Definition paren (ts : list token) : list token :=
  tok tokLParen "(" :: ts ++ [tok tokRParen ")"].

Definition wrap (lvl k : nat) (ts : list token) : list token :=
  if k <? lvl then paren ts else ts.

Definition bool_token (b : bool) : token :=
  if b then Token tokBool "true" float_one else Token tokBool "false" float_zero.

Definition path_tokens (fields : list string) : list token :=
  fields ≫= λ f, [tok tokDot "."; tok tokIdent f].

Fixpoint print (lvl : nat) (e : expr) : list token :=
  match e with
  | EStr s => [tok tokString s]
  | ENum txt f => [Token tokNumber txt f]
  | EBool b => [bool_token b]
  | ENull => [tok tokNull "null"]
  | EPath root fields => tok tokIdent root :: path_tokens fields
  | ENot e => wrap lvl 2 (tok tokNot "!" :: print 2 e)
  | ECmp op a b => wrap lvl 2 (print 3 a ++ tok (op_kind op) (op_text op) :: print 3 b)
  | EAnd a b => wrap lvl 1 (print 1 a ++ tok tokAnd "&&" :: print 2 b)
  | EOr a b => wrap lvl 0 (print 0 a ++ tok tokOr "||" :: print 1 b)
  end.

Definition eof : token := tok tokEOF "".

(** ** What may follow an expression of each level *)
Definition stops (k : nat) (x : tokenKind) : bool :=
  negb (bool_decide (x = tokDot))
  && ((2 <? k) || negb (isComparison x))
  && ((1 <? k) || negb (bool_decide (x = tokAnd)))
  && ((0 <? k) || negb (bool_decide (x = tokOr))).

Definition follow (k : nat) (rest : list token) : Prop :=
  ∃ t ts, rest = t :: ts ∧ stops k (kind t) = true.

Lemma stops_mono k1 k2 x : k1 ≤ k2 → stops k1 x = true → stops k2 x = true.
Proof.
  unfold stops. intros Hk H. bool_to_prop.
  repeat (apply andb_true_intro; split); [by apply negb_true_iff, bool_decide_eq_false|..].
  all: repeat match goal with H : _ || _ = true |- _ => apply orb_true_iff in H as [H|H] end;
    apply orb_true_iff; try (right; assumption); left;
    repeat match goal with H : (_ <? _) = true |- _ => apply Nat.ltb_lt in H end;
    apply Nat.ltb_lt; lia.
Qed.

Lemma follow_mono k1 k2 rest : k1 ≤ k2 → follow k1 rest → follow k2 rest.
Proof. intros Hk (t & ts & -> & H). exists t, ts. eauto using stops_mono. Qed.

(** ** The evaluator on a stretch of tokens *)
Section Stretch.
Context (tokens : list token) (vars : gmap string value).
Abbreviation ev := eventually.
Implicit Types (pos p : nat) (ts rest : list token).

Lemma drop_cons pos t rest :
  drop pos tokens = t :: rest → tokens !! pos = Some t ∧ drop (S pos) tokens = rest.
Proof.
  intros H. split.
  - rewrite <- (Nat.add_0_r pos), <- lookup_drop, H. done.
  - replace (S pos) with (pos + 1) by lia. by rewrite <- drop_drop, H.
Qed.

Lemma drop_stretch pos ts rest :
  drop pos tokens = ts ++ rest → drop (pos + length ts) tokens = rest.
Proof. intros H. by rewrite <- drop_drop, H, drop_app_length. Qed.

Lemma run_peek pos t rest : drop pos tokens = t :: rest → peek tokens pos = (Ok t, pos).
Proof. intros [H _]%drop_cons. unfold peek. by rewrite H. Qed.

Lemma run_next pos t rest : drop pos tokens = t :: rest → next tokens pos = (Ok t, S pos).
Proof. intros [H _]%drop_cons. unfold next. by rewrite H. Qed.

Lemma run_peek_is x pos t rest :
  drop pos tokens = t :: rest →
  peek_is tokens x pos = (Ok (bool_decide (kind t = x)), pos).
Proof. intros H. unfold peek_is. by erewrite bind_ok by (by eapply run_peek). Qed.

Lemma ev_peek {A} (k : nat → token → M nat A) pos t rest o p' :
  drop pos tokens = t :: rest → ev (λ f, k f t) pos o p' →
  ev (λ f, peek tokens ≫= k f) pos o p'.
Proof. intros H. apply ev_ext. intros f. by erewrite bind_ok by (by eapply run_peek). Qed.

Lemma ev_next {A} (k : nat → token → M nat A) pos t rest o p' :
  drop pos tokens = t :: rest → ev (λ f, k f t) (S pos) o p' →
  ev (λ f, next tokens ≫= k f) pos o p'.
Proof.
  intros H [f0 Hf]. exists f0. intros f ?. erewrite bind_ok by (by eapply run_next). auto.
Qed.

Lemma ev_peek_is {A} x (k : nat → bool → M nat A) pos t rest o p' :
  drop pos tokens = t :: rest → ev (λ f, k f (bool_decide (kind t = x))) pos o p' →
  ev (λ f, peek_is tokens x ≫= k f) pos o p'.
Proof. intros H. apply ev_ext. intros f. by erewrite bind_ok by (by eapply run_peek_is). Qed.

Lemma ev_peek_yes {A} x (m1 m2 : nat → M nat A) pos t rest o p' :
  drop pos tokens = t :: rest → kind t = x → ev m1 pos o p' →
  ev (λ f, peek_is tokens x ≫= λ b : bool, if b then m1 f else m2 f) pos o p'.
Proof.
  intros H Hk ?. eapply (ev_peek_is x (λ f b, if b then m1 f else m2 f)); [done|].
  by rewrite bool_decide_eq_true_2.
Qed.

Lemma ev_peek_no {A} x (m1 m2 : nat → M nat A) pos t rest o p' :
  drop pos tokens = t :: rest → kind t ≠ x → ev m2 pos o p' →
  ev (λ f, peek_is tokens x ≫= λ b : bool, if b then m1 f else m2 f) pos o p'.
Proof.
  intros H Hk ?. eapply (ev_peek_is x (λ f b, if b then m1 f else m2 f)); [done|].
  by rewrite bool_decide_eq_false_2.
Qed.

Lemma ev_ret {A} (a : A) pos : ev (λ _, mret a) pos (Ok a) pos.
Proof. by apply ev_const. Qed.

(** Unfolding equations. *)
Lemma skipParens_step f d :
  skipParens tokens (S f) d =
    if d =? 0 then mret tt
    else
      cur ← next tokens;
      match kind cur with
      | tokEOF => mret tt
      | tokLParen => skipParens tokens f (S d)
      | tokRParen => skipParens tokens f (d - 1)
      | _ => skipParens tokens f d
      end.
Proof. done. Qed.

Lemma skipDots_step f :
  skipDots tokens (S f) =
    (b ← peek_is tokens tokDot;
     if b : bool then _ ← next tokens; _ ← next tokens; skipDots tokens f else mret tt).
Proof. done. Qed.

Lemma skipUnary_step f :
  skipUnary tokens (S f) =
    (b ← peek_is tokens tokNot;
     if b : bool then _ ← next tokens; skipUnary tokens f
     else
       _ ← skipPrimary tokens f;
       t ← peek tokens;
       if isComparison (kind t) then _ ← next tokens; skipPrimary tokens f else mret tt).
Proof. done. Qed.

Lemma skipAnds_step f :
  skipAnds tokens (S f) =
    (b ← peek_is tokens tokAnd;
     if b : bool then _ ← next tokens; _ ← skipUnary tokens f; skipAnds tokens f
     else mret tt).
Proof. done. Qed.

Lemma skipOrs_step f :
  skipOrs tokens (S f) =
    (b ← peek_is tokens tokOr;
     if b : bool then _ ← next tokens; _ ← skipAnd tokens f; skipOrs tokens f
     else mret tt).
Proof. done. Qed.

Lemma fieldLoop_step f v :
  fieldLoop tokens (S f) v =
    (b ← peek_is tokens tokDot;
     if b : bool then
       _ ← next tokens;
       fieldTok ← next tokens;
       if bool_decide (kind fieldTok = tokIdent)
       then fieldLoop tokens f (field v (text fieldTok)) else mthrow err_field
     else mret v).
Proof. done. Qed.

Lemma parseOr_step f :
  parseOr tokens vars (S f) = (left ← parseAnd tokens vars f; orLoop tokens vars f left).
Proof. done. Qed.

Lemma orLoop_step f v :
  orLoop tokens vars (S f) v =
    (b ← peek_is tokens tokOr;
     if b : bool then
       if truthy v then _ ← skipOrs tokens f; mret v
       else _ ← next tokens; right ← parseAnd tokens vars f; orLoop tokens vars f right
     else mret v).
Proof. done. Qed.

Lemma parseAnd_step f :
  parseAnd tokens vars (S f) = (left ← parseUnary tokens vars f; andLoop tokens vars f left).
Proof. done. Qed.

Lemma andLoop_step f v :
  andLoop tokens vars (S f) v =
    (b ← peek_is tokens tokAnd;
     if b : bool then
       if negb (truthy v) then _ ← skipAnds tokens f; mret v
       else _ ← next tokens; right ← parseUnary tokens vars f; andLoop tokens vars f right
     else mret v).
Proof. done. Qed.

Lemma parseUnary_step f :
  parseUnary tokens vars (S f) =
    (b ← peek_is tokens tokNot;
     if b : bool then
       _ ← next tokens; v ← parseUnary tokens vars f; mret (VBool (negb (truthy v)))
     else parseComparison tokens vars f).
Proof. done. Qed.

Lemma parseComparison_step f :
  parseComparison tokens vars (S f) =
    (left ← parsePrimary tokens vars f;
     t ← peek tokens;
     if isComparison (kind t) then
       op ← next tokens;
       right ← parsePrimary tokens vars f;
       lift (compare (kind op) left right)
     else mret left).
Proof. done. Qed.

(** The loops stop at once before a token they do not continue on. *)
Lemma skipDots_stop pos t rest :
  drop pos tokens = t :: rest → kind t ≠ tokDot → ev (skipDots tokens) pos (Ok tt) pos.
Proof.
  intros H Hk. eapply ev_unfold; [exact skipDots_step|].
  eapply (ev_peek_no tokDot (λ f, _ ← next tokens; _ ← next tokens; skipDots tokens f));
    [done..|apply ev_ret].
Qed.

Lemma skipAnds_stop pos t rest :
  drop pos tokens = t :: rest → kind t ≠ tokAnd → ev (skipAnds tokens) pos (Ok tt) pos.
Proof.
  intros H Hk. eapply ev_unfold; [exact skipAnds_step|].
  eapply (ev_peek_no tokAnd (λ f, _ ← next tokens; _ ← skipUnary tokens f; skipAnds tokens f));
    [done..|apply ev_ret].
Qed.

Lemma skipOrs_stop pos t rest :
  drop pos tokens = t :: rest → kind t ≠ tokOr → ev (skipOrs tokens) pos (Ok tt) pos.
Proof.
  intros H Hk. eapply ev_unfold; [exact skipOrs_step|].
  eapply (ev_peek_no tokOr (λ f, _ ← next tokens; _ ← skipAnd tokens f; skipOrs tokens f));
    [done..|apply ev_ret].
Qed.

Lemma andLoop_stop v pos t rest :
  drop pos tokens = t :: rest → kind t ≠ tokAnd →
  ev (λ f, andLoop tokens vars f v) pos (Ok v) pos.
Proof.
  intros H Hk. eapply ev_unfold; [exact (λ f, andLoop_step f v)|].
  eapply (ev_peek_no tokAnd _ (λ _, mret v)); [done..|apply ev_ret].
Qed.

Lemma orLoop_stop v pos t rest :
  drop pos tokens = t :: rest → kind t ≠ tokOr →
  ev (λ f, orLoop tokens vars f v) pos (Ok v) pos.
Proof.
  intros H Hk. eapply ev_unfold; [exact (λ f, orLoop_step f v)|].
  eapply (ev_peek_no tokOr _ (λ _, mret v)); [done..|apply ev_ret].
Qed.

(** ** What a stretch of tokens means at each level

    [prim], [unary]: evaluating the stretch gives [o] and skipping it
    consumes it.  [conj], [disj]: the same when the loop of the level goes on
    after the stretch. *)
Definition result (mk : nat → M nat value) (pos : nat) (o : outcome value) (n : nat) : Prop :=
  match o with
  | Ok v => ev mk pos (Ok v) (pos + n)
  | Err e => ∃ p', ev mk pos (Err e) p'
  | _ => True
  end.

Definition prim (ts : list token) (o : outcome value) : Prop := ∀ pos rest,
  drop pos tokens = ts ++ rest → follow 3 rest →
  result (parsePrimary tokens vars) pos o (length ts) ∧
  ev (skipPrimary tokens) pos (Ok tt) (pos + length ts).

Definition unary (ts : list token) (o : outcome value) : Prop := ∀ pos rest,
  drop pos tokens = ts ++ rest → follow 2 rest →
  result (parseUnary tokens vars) pos o (length ts) ∧
  ev (skipUnary tokens) pos (Ok tt) (pos + length ts).

Definition result_loop (mk : nat → M nat value) (loop : nat → value → M nat value)
    (pos : nat) (o : outcome value) (n : nat) : Prop :=
  match o with
  | Ok v => ∀ o' p', ev (λ f, loop f v) (pos + n) o' p' → ev mk pos o' p'
  | Err e => ∃ p', ev mk pos (Err e) p'
  | _ => True
  end.

Definition conj (ts : list token) (o : outcome value) : Prop := ∀ pos rest,
  drop pos tokens = ts ++ rest → follow 2 rest →
  result_loop (parseAnd tokens vars) (andLoop tokens vars) pos o (length ts) ∧
  (∀ o' p', ev (skipAnds tokens) (pos + length ts) o' p' → ev (skipAnd tokens) pos o' p').

Definition disj (ts : list token) (o : outcome value) : Prop := ∀ pos rest,
  drop pos tokens = ts ++ rest → follow 1 rest →
  result_loop (parseOr tokens vars) (orLoop tokens vars) pos o (length ts).

(** Skipping inside parentheses passes over the stretch. *)
Definition balanced (ts : list token) : Prop := ∀ pos rest d o p',
  drop pos tokens = ts ++ rest → 0 < d →
  ev (λ f, skipParens tokens f d) (pos + length ts) o p' →
  ev (λ f, skipParens tokens f d) pos o p'.

Lemma unary_of_prim ts o :
  (∀ t ts', ts = t :: ts' → kind t ≠ tokNot) → ts ≠ [] → prim ts o → unary ts o.
Proof.
  intros Hnot Hne Hp pos rest Hd Hf.
  destruct (Hp pos rest Hd (follow_mono 2 3 _ ltac:(lia) Hf)) as [Hr Hs].
  destruct Hf as (x & rest' & -> & Hx). pose proof (drop_stretch _ _ _ Hd) as Hend.
  assert (Hcmp : isComparison (kind x) = false) by (unfold stops in Hx; by destruct (kind x)).
  destruct ts as [|t ts]; [done|]. specialize (Hnot _ _ eq_refl).
  split.
  - unfold result in *. destruct o as [v|e|w|]; [|destruct Hr as [p' Hr]; exists p'|done..].
    + eapply ev_unfold; [exact parseUnary_step|]. eapply ev_peek_no; [exact Hd|done|].
      eapply ev_unfold; [exact parseComparison_step|].
      eapply ev_bind; [exact Hr|]. eapply ev_peek; [exact Hend|]. rewrite Hcmp. apply ev_ret.
    + eapply ev_unfold; [exact parseUnary_step|]. eapply ev_peek_no; [exact Hd|done|].
      eapply ev_unfold; [exact parseComparison_step|]. by eapply ev_bind_err.
  - eapply ev_unfold; [exact skipUnary_step|]. eapply ev_peek_no; [exact Hd|done|].
    eapply ev_bind; [exact Hs|]. eapply ev_peek; [exact Hend|]. rewrite Hcmp. apply ev_ret.
Qed.

Lemma conj_of_unary ts o : unary ts o → conj ts o.
Proof.
  intros Hu pos rest Hd Hf. destruct (Hu pos rest Hd Hf) as [Hr Hs]. split.
  - unfold result, result_loop in *.
    destruct o as [v|e|w|]; [intros o' p' Hl|destruct Hr as [p' Hr]; exists p'|done..];
      (eapply ev_unfold; [exact parseAnd_step|]).
    + by eapply ev_bind.
    + by eapply ev_bind_err.
  - intros o' p' Hl. unfold skipAnd.
    by eapply (ev_bind _ (λ f _, skipAnds tokens f)).
Qed.

Lemma and_end v pos rest :
  drop pos tokens = rest → follow 1 rest → ev (λ f, andLoop tokens vars f v) pos (Ok v) pos.
Proof.
  intros Hd (x & rest' & -> & Hx). eapply andLoop_stop; [exact Hd|].
  unfold stops in Hx. by destruct (kind x).
Qed.

Lemma disj_of_conj ts o : conj ts o → disj ts o.
Proof.
  intros Hc pos rest Hd Hf.
  destruct (Hc pos rest Hd (follow_mono 1 2 _ ltac:(lia) Hf)) as [Hr _].
  unfold result_loop in *.
  destruct o as [v|e|w|]; [intros o' p' Hl|destruct Hr as [p' Hr]; exists p'|done..];
    (eapply ev_unfold; [exact parseOr_step|]).
  - eapply ev_bind; [|exact Hl]. apply Hr, and_end with rest; [|done]. by eapply drop_stretch.
  - by eapply ev_bind_err.
Qed.

Lemma parsePrimary_step f :
  parsePrimary tokens vars (S f) =
    (t ← peek tokens;
     match kind t with
     | tokString => _ ← next tokens; mret (VString (text t))
     | tokNumber => _ ← next tokens; mret (VFloat (num t))
     | tokBool => _ ← next tokens; mret (VBool (SFeqb (num t) float_one))
     | tokNull => _ ← next tokens; mret VNil
     | tokLParen =>
         _ ← next tokens;
         v ← parseOr tokens vars f;
         b ← peek_is tokens tokRParen;
         if b : bool then _ ← next tokens; mret v else mthrow err_paren
     | tokIdent => _ ← next tokens; parseFieldAccess tokens vars f (text t)
     | _ => mthrow (err_unexpected t)
     end).
Proof. done. Qed.

Lemma follow_kind k t rest : stops k (kind t) = true → follow k (t :: rest).
Proof. intros H. by exists t, rest. Qed.

Lemma prim_paren ts o : disj ts o → balanced ts → prim (paren ts) o.
Proof.
  intros Hdisj Hbal pos rest Hd Hf. unfold paren in *. simpl in Hd.
  rewrite <- app_assoc in Hd. destruct (drop_cons _ _ _ Hd) as [_ Hd1].
  pose proof (drop_stretch _ _ _ Hd1) as Hd2.
  assert (Hlen : pos + length (tok tokLParen "(" :: ts ++ [tok tokRParen ")"])
                 = S (S pos + length ts)) by (simpl; rewrite length_app; simpl; lia).
  rewrite Hlen. split.
  - pose proof (Hdisj _ _ Hd1 (follow_kind 1 (tok tokRParen ")") _ eq_refl)) as Hr.
    unfold result, result_loop in *.
    destruct o as [v|e|w|]; [|destruct Hr as [p' Hr]; exists p'|done..];
      (eapply ev_unfold; [exact parsePrimary_step|]);
      (eapply ev_peek; [exact Hd|]); cbn [kind tok]; (eapply ev_next; [exact Hd|]).
    + eapply ev_bind; [apply Hr; by eapply orLoop_stop|].
      replace (pos + _) with (S (S pos + length ts)) by (simpl in *; lia).
      eapply ev_peek_yes; [exact Hd2|done|]. eapply ev_next; [exact Hd2|]. apply ev_ret.
    + by eapply ev_bind_err.
  - unfold skipPrimary. eapply ev_peek; [exact Hd|]. cbn [kind tok].
    eapply ev_next; [exact Hd|]. eapply Hbal; [exact Hd1|lia|].
    eapply ev_unfold; [exact (λ f, skipParens_step f 1)|]. cbn [Nat.eqb].
    eapply ev_next; [exact Hd2|]. cbn [kind tok].
    eapply ev_unfold; [exact (λ f, skipParens_step f 0)|]. apply ev_ret.
Qed.

Lemma unary_not ts o : unary ts o → unary (tok tokNot "!" :: ts) (obind o not_value).
Proof.
  intros Hu pos rest Hd Hf. simpl in Hd. destruct (drop_cons _ _ _ Hd) as [_ Hd1].
  destruct (Hu _ _ Hd1 Hf) as [Hr Hs].
  assert (Hlen : pos + length (tok tokNot "!" :: ts) = S pos + length ts) by (simpl; lia).
  split.
  - unfold result in *. destruct o as [v|e|w|]; [|destruct Hr as [p' Hr]; exists p'|done..];
      rewrite ?Hlen; (eapply ev_unfold; [exact parseUnary_step|]);
      (eapply ev_peek_yes; [exact Hd|done|]); (eapply ev_next; [exact Hd|]).
    + eapply ev_bind; [exact Hr|]. apply ev_ret.
    + by eapply ev_bind_err.
  - rewrite Hlen. eapply ev_unfold; [exact skipUnary_step|].
    eapply ev_peek_yes; [exact Hd|done|]. by eapply ev_next; [exact Hd|].
Qed.

Lemma op_kind_comparison op : isComparison (op_kind op) = true.
Proof. by destruct op. Qed.

Lemma ev_lift {A} (o : outcome A) pos : ev (λ _, lift o) pos o pos.
Proof. by apply ev_const. Qed.

(** A result that is followed by a computation on its value. *)
Lemma result_bind mk k o (g : value → outcome value) pos n n' :
  result mk pos o n →
  (∀ v, o = Ok v → result (λ f, k f v) (pos + n) (g v) n') →
  result (λ f, mk f ≫= k f) pos (obind o g) (n + n').
Proof.
  intros Hm Hk. unfold result in Hm. destruct o as [v|e|w|]; simpl; [|destruct Hm as [p' Hm]|done..].
  - specialize (Hk v eq_refl). unfold result in *. rewrite Nat.add_assoc.
    destruct (g v) as [u|e|w|]; [|destruct Hk as [p' Hk]; exists p'|done..];
      by eapply (ev_bind _ k).
  - exists p'. by eapply ev_bind_err.
Qed.

(** [result] is stable under replacing a computation by one that has its runs. *)
Lemma result_mono (mk mk' : nat → M nat value) pos pos' o n n' :
  pos + n = pos' + n' → (∀ o p', ev mk pos o p' → ev mk' pos' o p') →
  result mk pos o n → result mk' pos' o n'.
Proof.
  intros Hn H. unfold result. destruct o as [v|e|w|]; [rewrite Hn; apply H| |done..].
  intros [p' Hp]. exists p'. by apply H.
Qed.

Lemma unary_cmp op ta tb oa ob :
  (∀ t ts', ta = t :: ts' → kind t ≠ tokNot) → ta ≠ [] → prim ta oa → prim tb ob →
  unary (ta ++ tok (op_kind op) (op_text op) :: tb)
    (obind oa (λ x, obind ob (compare (op_kind op) x))).
Proof.
  intros Hnot Hne Ha Hb pos rest Hd Hf. rewrite <- app_assoc in Hd. simpl in Hd.
  set (opt := tok (op_kind op) (op_text op)) in *.
  assert (Hop : isComparison (kind opt) = true) by apply op_kind_comparison.
  destruct (Ha _ _ Hd (follow_kind 3 opt _ ltac:(by destruct op))) as [Hra Hsa].
  pose proof (drop_stretch _ _ _ Hd) as Hd1. destruct (drop_cons _ _ _ Hd1) as [_ Hd2].
  destruct (Hb _ _ Hd2 (follow_mono 2 3 _ ltac:(lia) Hf)) as [Hrb Hsb].
  assert (Hlen : length (ta ++ opt :: tb) = length ta + S (length tb)) by (by rewrite length_app).
  rewrite Hlen. destruct ta as [|t ta']; [done|]. specialize (Hnot _ _ eq_refl). split.
  - eapply (result_mono _ _ _ _ _ _ _ eq_refl); cycle 1.
    + eapply (result_bind _ (λ f left, t ← peek tokens;
        if isComparison (kind t) then
          op ← next tokens; right ← parsePrimary tokens vars f; lift (compare (kind op) left right)
        else mret left)); [exact Hra|]. intros x ->.
      eapply (result_mono (λ f, right ← parsePrimary tokens vars f; lift (compare (kind opt) x right))
        _ (S (pos + length (t :: ta'))) _ _ (length tb + 0)); [lia| |].
      * intros o p' H. eapply ev_peek; [exact Hd1|]. rewrite Hop. by eapply ev_next; [exact Hd1|].
      * eapply (result_bind _ (λ f right, lift (compare (kind opt) x right))); [exact Hrb|].
        intros y _. unfold result. rewrite Nat.add_0_r. fold (compare (op_kind op) x y).
        destruct (compare (op_kind op) x y) eqn:E; [|eexists|done..];
          change (kind opt) with (op_kind op); rewrite E; apply ev_lift.
    + intros o p' H. eapply ev_unfold; [exact parseUnary_step|].
      eapply ev_peek_no; [exact Hd|done|]. by eapply ev_unfold; [exact parseComparison_step|].
  - rewrite Nat.add_assoc, Nat.add_succ_r, <- Nat.add_succ_l.
    eapply ev_unfold; [exact skipUnary_step|]. eapply ev_peek_no; [exact Hd|done|].
    eapply ev_bind; [exact Hsa|]. eapply ev_peek; [exact Hd1|]. rewrite Hop.
    by eapply ev_next; [exact Hd1|].
Qed.

(** A short-circuited loop skips its remaining operands. *)
Lemma short_circuit x (v : value) (skip m : M nat unit) pos :
  skip = (b ← peek_is tokens x; if b : bool then m else mret tt) →
  (b ← peek_is tokens x; if b : bool then _ ← skip; mret v else mret v) pos =
  (skip ≫= λ _, mret v) pos.
Proof.
  intros E. unfold mbind at 1, M_bind at 1.
  destruct (peek_is tokens x pos) as [ob p] eqn:Ep.
  assert (p = pos) as ->.
  { revert Ep. unfold peek_is, peek, mbind, M_bind. by destruct (tokens !! pos); intros [= _ <-]. }
  destruct ob as [[]|e|w|]; [done|..]; rewrite E, bind_assoc; unfold mbind at 1, M_bind at 1;
    by rewrite Ep.
Qed.

Lemma ev_shift {A} (mk mk' : nat → M nat A) pos o p' :
  (∀ f, mk (S (S f)) pos = mk' (S f) pos) → ev mk pos o p' ↔ ev mk' pos o p'.
Proof.
  intros E. split; intros [f0 Hf]; exists (S (S f0)); intros [|[|f]] ?; try lia.
  - rewrite <- E. apply Hf. lia.
  - rewrite E. apply Hf. lia.
Qed.

Lemma andLoop_falsy v pos o p' :
  truthy v = false →
  ev (λ f, andLoop tokens vars f v) pos o p' ↔
  ev (λ f, skipAnds tokens f ≫= λ _, mret v) pos o p'.
Proof.
  intros Hv. apply ev_shift. intros f. rewrite andLoop_step, Hv. cbn [negb].
  eapply short_circuit, skipAnds_step.
Qed.

Lemma orLoop_truthy v pos o p' :
  truthy v = true →
  ev (λ f, orLoop tokens vars f v) pos o p' ↔
  ev (λ f, skipOrs tokens f ≫= λ _, mret v) pos o p'.
Proof.
  intros Hv. apply ev_shift. intros f. rewrite orLoop_step, Hv.
  eapply short_circuit, skipOrs_step.
Qed.

Lemma conj_and ta tb oa ob :
  conj ta oa → unary tb ob →
  conj (ta ++ tok tokAnd "&&" :: tb) (obind oa (λ x, if truthy x then ob else Ok x)).
Proof.
  intros Ha Hb pos rest Hd Hf. rewrite <- app_assoc in Hd. simpl in Hd.
  destruct (Ha _ _ Hd (follow_kind 2 (tok tokAnd "&&") _ eq_refl)) as [Hra Hsa].
  pose proof (drop_stretch _ _ _ Hd) as Hd1. destruct (drop_cons _ _ _ Hd1) as [_ Hd2].
  destruct (Hb _ _ Hd2 Hf) as [Hrb Hsb].
  assert (Hlen : pos + length (ta ++ tok tokAnd "&&" :: tb) = S (pos + length ta) + length tb)
    by (rewrite length_app; simpl; lia).
  unfold result_loop in *. rewrite Hlen. split.
  - destruct oa as [x|e|w|]; [simpl|by destruct Hra as [p' ?]; exists p'|done..].
    destruct (truthy x) eqn:Hx.
    + assert (Hgo : ∀ o' p', ev (λ f, right ← parseUnary tokens vars f; andLoop tokens vars f right)
                (S (pos + length ta)) o' p' → ev (parseAnd tokens vars) pos o' p').
      { intros o' p' H. apply Hra. eapply ev_unfold; [exact (λ f, andLoop_step f x)|].
        eapply ev_peek_yes; [exact Hd1|done|]. rewrite Hx. by eapply ev_next; [exact Hd1|]. }
      unfold result in Hrb.
      destruct ob as [y|e|w|]; [intros o' p' Hl|destruct Hrb as [p' Hrb]; exists p'|done..];
        apply Hgo; [eapply ev_bind; [exact Hrb|exact Hl]|by eapply ev_bind_err].
    + intros o' p' Hl. apply Hra. apply andLoop_falsy in Hl; [|done]. apply andLoop_falsy; [done|].
      eapply (ev_step (λ f, next tokens ≫= λ _, skipUnary tokens f ≫= λ _, skipAnds tokens f ≫= λ _, mret x)).
      { intros f. rewrite skipAnds_step, bind_assoc.
        erewrite bind_ok by (by eapply run_peek_is). cbn [kind tok].
        rewrite bool_decide_eq_true_2 by done. rewrite bind_assoc.
        apply bind_ext. intros _ s'. by rewrite bind_assoc. }
      eapply ev_next; [exact Hd1|]. by eapply ev_bind.
  - intros o' p' Hl. apply Hsa. eapply ev_unfold; [exact skipAnds_step|].
    eapply ev_peek_yes; [exact Hd1|done|]. eapply ev_next; [exact Hd1|]. by eapply ev_bind.
Qed.

Lemma skipAnds_end pos rest :
  drop pos tokens = rest → follow 1 rest → ev (skipAnds tokens) pos (Ok tt) pos.
Proof.
  intros Hd (x & rest' & -> & Hx). eapply skipAnds_stop; [exact Hd|].
  unfold stops in Hx. by destruct (kind x).
Qed.

Lemma disj_or ta tb oa ob :
  disj ta oa → conj tb ob →
  disj (ta ++ tok tokOr "||" :: tb) (obind oa (λ x, if truthy x then Ok x else ob)).
Proof.
  intros Ha Hb pos rest Hd Hf. rewrite <- app_assoc in Hd. simpl in Hd.
  pose proof (Ha _ _ Hd (follow_kind 1 (tok tokOr "||") _ eq_refl)) as Hra.
  pose proof (drop_stretch _ _ _ Hd) as Hd1. destruct (drop_cons _ _ _ Hd1) as [_ Hd2].
  pose proof (drop_stretch _ _ _ Hd2) as Hend.
  destruct (Hb _ _ Hd2 (follow_mono 1 2 _ ltac:(lia) Hf)) as [Hrb Hsb].
  assert (Hlen : pos + length (ta ++ tok tokOr "||" :: tb) = S (pos + length ta) + length tb)
    by (rewrite length_app; simpl; lia).
  unfold result_loop in *. rewrite Hlen. destruct oa as [x|e|w|]; [simpl|by destruct Hra as [p' ?]; exists p'|done..].
  destruct (truthy x) eqn:Hx.
  - intros o' p' Hl. apply Hra. apply orLoop_truthy in Hl; [|done]. apply orLoop_truthy; [done|].
    eapply (ev_step (λ f, next tokens ≫= λ _, skipAnd tokens f ≫= λ _, skipOrs tokens f ≫= λ _, mret x)).
    { intros f. rewrite skipOrs_step, bind_assoc.
      erewrite bind_ok by (by eapply run_peek_is). cbn [kind tok].
      rewrite bool_decide_eq_true_2 by done. rewrite bind_assoc.
      apply bind_ext. intros _ s'. by rewrite bind_assoc. }
    eapply ev_next; [exact Hd1|]. eapply ev_bind; [apply Hsb; by eapply skipAnds_end|done].
  - assert (Hgo : ∀ o' p', ev (λ f, right ← parseAnd tokens vars f; orLoop tokens vars f right)
              (S (pos + length ta)) o' p' → ev (parseOr tokens vars) pos o' p').
    { intros o' p' H. apply Hra. eapply ev_unfold; [exact (λ f, orLoop_step f x)|].
      eapply ev_peek_yes; [exact Hd1|done|]. rewrite Hx. by eapply ev_next; [exact Hd1|]. }
    destruct ob as [y|e|w|]; [intros o' p' Hl|destruct Hrb as [p' Hrb]; exists p'|done..];
      apply Hgo; [eapply ev_bind; [apply Hrb; by eapply and_end|done]|by eapply ev_bind_err].
Qed.

(** ** Balanced stretches *)
Lemma balanced_nil : balanced [].
Proof. intros pos rest d o p' _ _ H. by rewrite Nat.add_0_r in H. Qed.

Lemma balanced_app ts1 ts2 : balanced ts1 → balanced ts2 → balanced (ts1 ++ ts2).
Proof.
  intros H1 H2 pos rest d o p' Hd Hp H. rewrite <- app_assoc in Hd.
  eapply H1; [done..|]. eapply H2; [by eapply drop_stretch|done|].
  by rewrite length_app, Nat.add_assoc in H.
Qed.

Definition plain_kind (k : tokenKind) : bool :=
  negb (bool_decide (k ∈ [tokEOF; tokLParen; tokRParen])).

Lemma balanced_cons t ts : plain_kind (kind t) = true → balanced ts → balanced (t :: ts).
Proof.
  intros Ht Hts pos rest [|d] o p' Hd Hp H; [lia|]. simpl in Hd.
  destruct (drop_cons _ _ _ Hd) as [_ Hd1].
  eapply ev_unfold; [exact (λ f, skipParens_step f (S d))|]. cbn [Nat.eqb].
  eapply ev_next; [exact Hd|].
  assert (Hgo : ev (λ f, skipParens tokens f (S d)) (S pos) o p').
  { eapply Hts; [done|lia|]. by replace (S pos + length ts) with (pos + length (t :: ts)) by (simpl; lia). }
  unfold plain_kind in Ht. by destruct (kind t).
Qed.

Lemma balanced_paren ts : balanced ts → balanced (paren ts).
Proof.
  intros Hts pos rest [|d] o p' Hd Hp H; [lia|]. unfold paren in *. simpl in Hd.
  rewrite <- app_assoc in Hd. destruct (drop_cons _ _ _ Hd) as [_ Hd1].
  pose proof (drop_stretch _ _ _ Hd1) as Hd2.
  eapply ev_unfold; [exact (λ f, skipParens_step f (S d))|]. cbn [Nat.eqb].
  eapply ev_next; [exact Hd|]. cbn [kind tok].
  eapply Hts; [exact Hd1|lia|].
  eapply ev_unfold; [exact (λ f, skipParens_step f (S (S d)))|]. cbn [Nat.eqb].
  eapply ev_next; [exact Hd2|]. cbn [kind tok]. simpl Nat.sub.
  replace (S (S pos + length ts)) with (pos + length (tok tokLParen "(" :: ts ++ [tok tokRParen ")"]));
    [done|]. simpl. rewrite length_app. simpl. lia.
Qed.

(** ** Primaries *)
Lemma skipPrimary_atom pos t rest :
  drop pos tokens = t :: rest → kind t ≠ tokLParen → kind t ≠ tokEOF →
  ∀ o p', ev (skipDots tokens) (S pos) o p' → ev (skipPrimary tokens) pos o p'.
Proof.
  intros Hd H1 H2 o p' H. unfold skipPrimary. eapply ev_peek; [exact Hd|].
  assert (Hgo : ev (λ f, _ ← next tokens; skipDots tokens f) pos o p')
    by (by eapply ev_next; [exact Hd|]).
  by destruct (kind t).
Qed.

Lemma follow_not_dot pos rest :
  drop pos tokens = rest → follow 3 rest → ev (skipDots tokens) pos (Ok tt) pos.
Proof.
  intros Hd (x & rest' & -> & Hx). eapply skipDots_stop; [exact Hd|].
  unfold stops in Hx. by destruct (kind x).
Qed.

Lemma prim_atom t v :
  match kind t with
  | tokString => v = VString (text t)
  | tokNumber => v = VFloat (num t)
  | tokBool => v = VBool (SFeqb (num t) float_one)
  | tokNull => v = VNil
  | _ => False
  end → prim [t] (Ok v).
Proof.
  intros Ht pos rest Hd Hf. simpl in Hd. destruct (drop_cons _ _ _ Hd) as [_ Hd1].
  simpl length. rewrite Nat.add_1_r. split.
  - unfold result. rewrite Nat.add_1_r. eapply ev_unfold; [exact parsePrimary_step|].
    eapply ev_peek; [exact Hd|].
    destruct (kind t); try done; subst v; (eapply ev_next; [exact Hd|]); apply ev_ret.
  - eapply skipPrimary_atom; [exact Hd|by destruct (kind t)..|]. by eapply follow_not_dot.
Qed.

Lemma fieldLoop_path fs v pos rest :
  drop pos tokens = path_tokens fs ++ rest → follow 3 rest →
  ev (λ f, fieldLoop tokens f v) pos (Ok (foldl field v fs)) (pos + length (path_tokens fs)).
Proof.
  revert v pos; induction fs as [|x fs IH]; intros v pos Hd Hf.
  - simpl in *. destruct Hf as (y & rest' & -> & Hy). rewrite Nat.add_0_r.
    eapply ev_unfold; [exact (λ f, fieldLoop_step f v)|].
    eapply (ev_peek_no tokDot _ (λ _, mret v)); [exact Hd| |apply ev_ret].
    unfold stops in Hy. by destruct (kind y).
  - cbn [path_tokens mbind list_bind] in Hd |- *. simpl in Hd.
    destruct (drop_cons _ _ _ Hd) as [_ Hd1]. destruct (drop_cons _ _ _ Hd1) as [_ Hd2].
    eapply ev_unfold; [exact (λ f, fieldLoop_step f v)|].
    eapply ev_peek_yes; [exact Hd|done|]. eapply ev_next; [exact Hd|].
    eapply ev_next; [exact Hd1|]. cbn [kind tok text]. rewrite bool_decide_eq_true_2 by done.
    simpl foldl. specialize (IH (field v x) _ Hd2 Hf).
    simpl length. by rewrite !Nat.add_succ_r, <- !Nat.add_succ_l.
Qed.

Lemma skipDots_path fs pos rest :
  drop pos tokens = path_tokens fs ++ rest → follow 3 rest →
  ev (skipDots tokens) pos (Ok tt) (pos + length (path_tokens fs)).
Proof.
  revert pos; induction fs as [|x fs IH]; intros pos Hd Hf.
  - simpl in *. rewrite Nat.add_0_r. by eapply follow_not_dot.
  - cbn [path_tokens mbind list_bind] in Hd |- *. simpl in Hd.
    destruct (drop_cons _ _ _ Hd) as [_ Hd1]. destruct (drop_cons _ _ _ Hd1) as [_ Hd2].
    eapply ev_unfold; [exact skipDots_step|].
    eapply ev_peek_yes; [exact Hd|done|]. eapply ev_next; [exact Hd|].
    eapply ev_next; [exact Hd1|]. specialize (IH _ Hd2 Hf).
    simpl length. by rewrite !Nat.add_succ_r, <- !Nat.add_succ_l.
Qed.

Lemma prim_path root fs :
  prim (tok tokIdent root :: path_tokens fs) (denote vars (EPath root fs)).
Proof.
  intros pos rest Hd Hf. simpl in Hd. destruct (drop_cons _ _ _ Hd) as [_ Hd1].
  simpl length. rewrite Nat.add_succ_r, <- Nat.add_succ_l. split.
  - assert (Hgo : ∀ o p', ev (λ f, parseFieldAccess tokens vars f root) (S pos) o p' →
               ev (parsePrimary tokens vars) pos o p').
    { intros o p' H. eapply ev_unfold; [exact parsePrimary_step|].
      eapply ev_peek; [exact Hd|]. cbn [kind tok text]. by eapply ev_next; [exact Hd|]. }
    unfold parseFieldAccess in Hgo. simpl. destruct (vars !! root) as [v|]; simpl.
    + rewrite Nat.add_succ_r, <- Nat.add_succ_l. by eapply Hgo, fieldLoop_path.
    + eexists. by apply Hgo, ev_const.
  - eapply skipPrimary_atom; [exact Hd|done..|]. by eapply skipDots_path.
Qed.

(** ** The evaluator computes the denotation at every level *)
Lemma print_primary e : ∃ t ts, print 3 e = t :: ts ∧ kind t ≠ tokNot.
Proof. destruct e as [| |[]| | | | | |]; simpl; unfold wrap, paren; simpl; eauto. Qed.

Lemma balanced_path fs : balanced (path_tokens fs).
Proof.
  induction fs as [|x fs IH]; [apply balanced_nil|].
  by do 2 (apply balanced_cons; [done|]).
Qed.

Lemma balanced_wrap l k ts : balanced ts → balanced (wrap l k ts).
Proof. intros H. unfold wrap. destruct (k <? l); [by apply balanced_paren|done]. Qed.

Lemma balanced_print l e : balanced (print l e).
Proof.
  revert l; induction e; intros l; simpl; try apply balanced_wrap;
    repeat first [apply balanced_nil | apply balanced_path | done
      | apply balanced_app | apply balanced_cons; [by first [done|destruct op|destruct b]|]]; auto.
Qed.

Definition meaning (e : expr) : Prop :=
  prim (print 3 e) (denote vars e) ∧ unary (print 2 e) (denote vars e) ∧
  conj (print 1 e) (denote vars e) ∧ disj (print 0 e) (denote vars e).

Lemma unary_primary e o : prim (print 3 e) o → unary (print 3 e) o.
Proof.
  destruct (print_primary e) as (t & ts & E & Ht).
  apply unary_of_prim; rewrite E; [by intros ? ? [= <- <-]|done].
Qed.

(** An expression printed the same way at all levels. *)
Lemma meaning_atom e :
  (∀ l, print l e = print 3 e) → prim (print 3 e) (denote vars e) → meaning e.
Proof.
  intros E Hp. unfold meaning. rewrite (E 2), (E 1), (E 0).
  pose proof (unary_primary _ _ Hp) as Hu. pose proof (conj_of_unary _ _ Hu) as Hc.
  pose proof (disj_of_conj _ _ Hc). auto.
Qed.

Lemma print_meaning e : meaning e.
Proof.
  induction e as [s|txt f|b| |root fs|e IH|op a IHa b IHb|a IHa b IHb|a IHa b IHb].
  - by apply meaning_atom; [done|apply prim_atom].
  - by apply meaning_atom; [done|apply prim_atom].
  - apply meaning_atom; [done|]. by apply prim_atom; destruct b.
  - by apply meaning_atom; [done|apply prim_atom].
  - apply meaning_atom; [done|apply prim_path].
  - destruct IH as (_ & Hu & _ & _). apply unary_not in Hu.
    pose proof (conj_of_unary _ _ Hu) as Hc. pose proof (disj_of_conj _ _ Hc) as Hd.
    assert (Hp : prim (print 3 (ENot e)) (denote vars (ENot e)))
      by (apply prim_paren; [done|exact (balanced_print 0 (ENot e))]).
    exact (Logic.conj Hp (Logic.conj Hu (Logic.conj Hc Hd))).
  - destruct IHa as (Ha & _), IHb as (Hb & _).
    destruct (print_primary a) as (t & ts & E & Ht).
    assert (Hnot : ∀ t ts', print 3 a = t :: ts' → kind t ≠ tokNot)
      by (rewrite E; by intros ? ? [= <- <-]).
    assert (Hne : print 3 a ≠ []) by (by rewrite E).
    pose proof (unary_cmp op _ _ _ _ Hnot Hne Ha Hb) as Hu.
    pose proof (conj_of_unary _ _ Hu) as Hc. pose proof (disj_of_conj _ _ Hc) as Hd.
    assert (Hp : prim (print 3 (ECmp op a b)) (denote vars (ECmp op a b)))
      by (apply prim_paren; [done|exact (balanced_print 0 (ECmp op a b))]).
    exact (Logic.conj Hp (Logic.conj Hu (Logic.conj Hc Hd))).
  - destruct IHa as (_ & _ & Ha & _), IHb as (_ & Hb & _).
    pose proof (conj_and _ _ _ _ Ha Hb) as Hc. pose proof (disj_of_conj _ _ Hc) as Hd.
    assert (Hp : prim (print 3 (EAnd a b)) (denote vars (EAnd a b)))
      by (apply prim_paren; [done|exact (balanced_print 0 (EAnd a b))]).
    exact (Logic.conj Hp (Logic.conj (unary_primary (EAnd a b) _ Hp) (Logic.conj Hc Hd))).
  - destruct IHa as (_ & _ & _ & Ha), IHb as (_ & _ & Hb & _).
    pose proof (disj_or _ _ _ _ Ha Hb) as Hd.
    assert (Hp : prim (print 3 (EOr a b)) (denote vars (EOr a b)))
      by (apply prim_paren; [done|exact (balanced_print 0 (EOr a b))]).
    pose proof (unary_primary (EOr a b) _ Hp) as Hu.
    exact (Logic.conj Hp (Logic.conj Hu (Logic.conj (conj_of_unary _ _ Hu) Hd))).
Qed.
End Stretch.

Lemma ev_fuel_ext {S A} (mk : nat → M S A) (g : nat → nat) s o s' :
  (∀ f, f ≤ g f) → eventually mk s o s' → eventually (λ f, mk (g f)) s o s'.
Proof. intros Hg [f0 Hf]. exists f0. intros f ?. apply Hf. specialize (Hg f). lia. Qed.

Lemma eval_tokens_mono tokens vars f1 f2 :
  f1 ≤ f2 → approx (eval_tokens tokens vars f1) (eval_tokens tokens vars f2).
Proof.
  intros Hf. unfold eval_tokens. apply approx_bind; [by apply parse_mono|].
  intros v. apply approx_refl.
Qed.

(** What the evaluator gives with enough fuel it gives with [parse_fuel]. *)
Lemma eval_tokens_eventually tokens vars o p :
  eventually (eval_tokens tokens vars) 0 o p →
  (eval_tokens tokens vars (parse_fuel tokens) 0).1 = o.
Proof.
  intros H. erewrite (ev_at (eval_tokens tokens vars)); [done| |exact H|apply eval_tokens_fuel].
  intros f1 f2. apply eval_tokens_mono.
Qed.

Lemma denote_proper vars e : proper_outcome (denote vars e).
Proof.
  assert (Hcmp : ∀ op x y, proper_outcome (compare op x y)).
  { intros op x y. unfold compare. by destruct op, (toFloat x), (toFloat y), x, y. }
  induction e as [| | | | | |op a IHa b IHb|a IHa b IHb|a IHa b IHb]; simpl; try done.
  - by case_match.
  - by destruct (denote vars e).
  - destruct (denote vars a) as [x|x|x|]; try done. by destruct (denote vars b); simpl.
  - destruct (denote vars a) as [x|x|x|]; try done. simpl. by case_if.
  - destruct (denote vars a) as [x|x|x|]; try done. simpl. by case_if.
Qed.

Lemma eval_print e vars :
  let ts := print 0 e ++ [eof] in
  (eval_tokens ts vars (parse_fuel ts) 0).1 = denote vars e.
Proof.
  intros ts.
  destruct (print_meaning ts vars e) as (_ & _ & _ & Hd).
  specialize (Hd 0 [eof] eq_refl (follow_kind 1 eof [] eq_refl)).
  assert (Hend : drop (length (print 0 e)) ts = [eof]) by (unfold ts; by rewrite drop_app_length).
  pose proof (denote_proper vars e) as Hp. unfold result_loop in Hd. simpl in Hd.
  assert (∃ p, eventually (eval_tokens ts vars) 0 (denote vars e) p) as [p Hev];
    [|by eapply eval_tokens_eventually].
  destruct (denote vars e) as [v|er|w|]; [| |done..].
  - exists (length (print 0 e)). unfold eval_tokens.
    eapply ev_bind; [apply Hd; by eapply orLoop_stop|].
    eapply (ev_peek _ (λ _ t, if bool_decide (kind t = tokEOF) then mret v
      else mthrow (err_unexpected t))); [exact Hend|]. apply ev_ret.
  - destruct Hd as [p' Hd]. exists p'. unfold eval_tokens. by eapply ev_bind_err.
Qed.
