(* ===== verification/LexSpec.v ===== *)
(** * The lexer reads back what is written

    A concrete syntax for tokens (strings quoted and escaped, tokens separated
    by blanks), the proof that [lex] reads it back exactly, and with the
    semantics of [ExprSpec] the end-to-end statement about
    [evalExpression]. *)
From Stdlib Require Import Ascii.
From S2P Require Import Prelude GoStr GoValue Expr ExprTheory ExprSpec.

(** ** Writing tokens *)
Definition dquote : ascii := "034"%char.
Definition backslash : ascii := "\"%char.

(** Quotes and backslashes get a backslash. *)
Fixpoint escape (s : string) : string :=
  match s with
  | EmptyString => EmptyString
  | String c s' =>
      if bool_decide (c = dquote) || bool_decide (c = backslash)
      then String backslash (String c (escape s'))
      else String c (escape s')
  end.

Definition render_token (t : token) : string :=
  match kind t with
  | tokString => String dquote (escape (text t) +:+ String dquote EmptyString)
  | _ => text t
  end.

Fixpoint render (ts : list token) : string :=
  match ts with
  | [] => EmptyString
  | t :: ts' => render_token t +:+ String " " (render ts')
  end.

(** ** The tokens that can be written *)
Fixpoint str_forall (p : ascii → bool) (s : string) : bool :=
  match s with
  | EmptyString => true
  | String c s' => p c && str_forall p s'
  end.

Definition ident_text (s : string) : bool :=
  match s with
  | String c s' => isIdentStart c && str_forall isIdentPart s'
  | EmptyString => false
  end && negb (bool_decide (s ∈ ["true"; "false"; "null"])).

Definition number_body (s : string) : bool := starts_digit s && str_forall is_num_part s.

Definition number_text (s : string) : bool :=
  match s with
  | String c s' => if bool_decide (c = "-"%char) then number_body s' else number_body s
  | EmptyString => false
  end.

Definition fixed_text (k : tokenKind) : option string :=
  match k with
  | tokNull => Some "null" | tokAnd => Some "&&" | tokOr => Some "||" | tokNot => Some "!"
  | tokEq => Some "==" | tokNeq => Some "!=" | tokGt => Some ">" | tokLt => Some "<"
  | tokGe => Some ">=" | tokLe => Some "<=" | tokDot => Some "."
  | tokLParen => Some "(" | tokRParen => Some ")"
  | _ => None
  end.

Definition valid_token (t : token) : Prop :=
  match kind t with
  | tokEOF => False
  | tokIdent => ident_text (text t) = true ∧ num t = float_zero
  | tokString => num t = float_zero
  | tokNumber => number_text (text t) = true ∧ parse_float (text t) = Some (num t)
  | tokBool => t = bool_token true ∨ t = bool_token false
  | k => fixed_text k = Some (text t) ∧ num t = float_zero
  end.

(** ** Spans *)
Lemma span_stop p s c s' :
  str_forall p s = true → p c = false → span p (s +:+ String c s') = (s, String c s').
Proof.
  intros Hs Hc. induction s as [|d s IH]; simpl in *; [by rewrite Hc|].
  apply andb_prop in Hs as [Hd Hs]. by rewrite Hd, (IH Hs).
Qed.

Lemma lex_string_escape s rest :
  lex_string dquote (escape s +:+ String dquote rest) = Some (s, rest).
Proof.
  induction s as [|c s IH]; simpl; [done|].
  destruct (decide (c = dquote)) as [->|H1]; simpl; [by rewrite IH|].
  destruct (decide (c = backslash)) as [->|H2]; simpl; [by rewrite IH|].
  rewrite (bool_decide_eq_false_2 (c = dquote)) by done; rewrite (bool_decide_eq_false_2 (c = backslash)) by done.
  simpl. rewrite (bool_decide_eq_false_2 (c = dquote)) by done.
  rewrite (bool_decide_eq_false_2 (c = "\"%char)) by done. by rewrite IH.
Qed.

(** ** Character classes are disjoint *)
Ltac all_bytes c := destruct c as [[] [] [] [] [] [] [] []]; try discriminate; try reflexivity.

Definition punctuation : list ascii :=
  [" "; "009"; "010"; "013"; "&"; "|"; "="; "!"; ">"; "<"; "."; "("; ")"; "034"; "'"]%char.

Lemma ident_start_class c :
  isIdentStart c = true →
  c ∉ punctuation ∧ is_digit c = false ∧ c ≠ "-"%char.
Proof.
  intros H. split_and!.
  - apply (bool_decide_eq_false (c ∈ punctuation)). revert H. all_bytes c.
  - revert H. all_bytes c.
  - intros ->. discriminate.
Qed.

Lemma digit_class c : is_digit c = true → c ∉ punctuation ∧ c ≠ "-"%char.
Proof.
  intros H. split.
  - apply (bool_decide_eq_false (c ∈ punctuation)). revert H. all_bytes c.
  - intros ->. discriminate.
Qed.

(** Past the cases that match on the first byte. *)
Lemma lex_loop_word f n c s :
  isIdentStart c = true →
  lex_loop (S f) n (String c s) =
    (let '(word, s2) := span isIdentPart (String c s) in
     cons_tok (word_token word) (lex_loop f n s2)).
Proof.
  intros H. destruct (ident_start_class _ H) as (Hp & Hd & Hm).
  cbn [lex_loop]. unfold is_space_byte.
  rewrite !(bool_decide_eq_false_2) by (set_unfold; naive_solver).
  rewrite Hd, H. cbn [andb orb]. done.
Qed.

Lemma lex_loop_number f n c s :
  is_digit c || bool_decide (c = "-"%char) && starts_digit s = true →
  lex_loop (S f) n (String c s) =
    (let '(sign, body) :=
       if bool_decide (c = "-"%char) then ("-"%string, s) else (EmptyString, String c s) in
     let '(ds, s2) := span is_num_part body in
     match parse_float (sign +:+ ds) with
     | Some f64 => cons_tok (Token tokNumber (sign +:+ ds) f64) (lex_loop f n s2)
     | None => Err (Errorf "expr: invalid number %q" [FStr (sign +:+ ds)])
     end).
Proof.
  intros H. assert (Hp : c ∉ punctuation).
  { apply orb_true_iff in H as [H|H]; [by apply digit_class|].
    apply andb_prop in H as [->%bool_decide_eq_true _].
    by apply (bool_decide_eq_false ("-"%char ∈ punctuation)). }
  cbn [lex_loop]. unfold is_space_byte. rewrite H.
  rewrite !(bool_decide_eq_false_2 (c = _)), (bool_decide_eq_false_2 (c ∈ _))
    by (set_unfold; naive_solver).
  done.
Qed.

Lemma starts_digit_app s r : starts_digit s = true → starts_digit (s +:+ r) = true.
Proof. by destruct s. Qed.

(** One token followed by a blank. *)
Lemma lex_loop_token f n t s :
  valid_token t →
  lex_loop (S (S f)) n (render_token t +:+ String " " s) = cons_tok t (lex_loop f n s).
Proof.
  assert (Hblank : ∀ f', lex_loop (S f') n (String " " s) = lex_loop f' n s) by done.
  destruct t as [k txt x]. unfold valid_token, render_token; cbn [kind text num].
  destruct k; cbn [fixed_text]; try done;
    try (intros [[= <-] ->]; reflexivity).
  - intros [H ->]. unfold ident_text in H. apply andb_prop in H as [H Hkw].
    apply negb_true_iff, bool_decide_eq_false in Hkw.
    destruct txt as [|c txt]; [done|]. apply andb_prop in H as [Hc Htxt].
    change (String c txt +:+ String " " s) with (String c (txt +:+ String " " s)).
    rewrite lex_loop_word by done.
    change (String c (txt +:+ String " " s)) with (String c txt +:+ String " " s).
    rewrite span_stop by (simpl; unfold isIdentPart at 1; by rewrite ?Hc, ?Htxt).
    rewrite Hblank. f_equal. unfold word_token.
    rewrite !bool_decide_eq_false_2 by (intros E; apply Hkw; rewrite E; set_solver). done.
  - intros ->.
    change (String dquote (escape txt +:+ String dquote EmptyString) +:+ String " " s)
      with (String dquote ((escape txt +:+ String dquote EmptyString) +:+ String " " s)).
    rewrite str_app_assoc.
    change (String dquote EmptyString +:+ String " " s) with (String dquote (String " " s)).
    change (lex_loop (S (S f)) n (String dquote ?r)) with
      (match lex_string dquote r with
       | Some (str, s2) => cons_tok (tok tokString str) (lex_loop (S f) n s2)
       | None => Err (Errorf "expr: unterminated string at %d"
                   [FInt (Z.of_nat (n - String.length (String dquote r)))])
       end).
    by rewrite lex_string_escape, Hblank.
  - intros [H Hnum]. destruct txt as [|c txt]; [done|].
    change (String c txt +:+ String " " s) with (String c (txt +:+ String " " s)).
    unfold number_text in H. destruct (bool_decide (c = "-"%char)) eqn:Ec;
      apply andb_prop in H as [Hd Hall].
    + rewrite lex_loop_number by (rewrite Ec, starts_digit_app by done; apply orb_true_r).
      rewrite Ec, span_stop by done. apply bool_decide_eq_true in Ec as ->.
      change ("-" +:+ txt) with (String "-" txt). by rewrite Hnum, Hblank.
    + simpl in Hd. rewrite lex_loop_number by (by rewrite Hd). rewrite Ec.
      change (String c (txt +:+ String " " s)) with (String c txt +:+ String " " s).
      rewrite span_stop; [|exact Hall|reflexivity].
      change ("" +:+ String c txt) with (String c txt). by rewrite Hnum, Hblank.
  - by intros [[= -> ->] | [= -> ->]].
Qed.

Lemma render_fuel t s :
  valid_token t →
  S (S (String.length s)) ≤ String.length (render_token t +:+ String " " s).
Proof.
  intros H. rewrite str_length_app. simpl.
  enough (String.length (render_token t) ≠ 0) by lia.
  destruct t as [k [|c txt] x]; unfold valid_token, render_token in *; simpl in *.
  - destruct k; simpl in *; naive_solver.
  - by destruct k.
Qed.

Lemma lex_render_loop ts n f :
  Forall valid_token ts → String.length (render ts) < f →
  lex_loop f n (render ts) = Ok (ts ++ [eof]).
Proof.
  revert f; induction ts as [|t ts IH]; intros f Hts Hf.
  - by destruct f; [simpl in Hf; lia|].
  - apply Forall_cons in Hts as [Ht Hts]. cbn [render] in *.
    pose proof (render_fuel t (render ts) Ht).
    destruct f as [|[|f]]; [lia..|]. rewrite lex_loop_token by done.
    rewrite IH by (done || lia). done.
Qed.

Lemma lex_render ts : Forall valid_token ts → lex (render ts) = Ok (ts ++ [eof]).
Proof. intros H. apply lex_render_loop; [done|lia]. Qed.

(** ** Expressions that can be written *)
Fixpoint writable (e : expr) : Prop :=
  match e with
  | EStr _ | EBool _ | ENull => True
  | ENum txt f => number_text txt = true ∧ parse_float txt = Some f
  | EPath root fields => ident_text root = true ∧ Forall (λ f, ident_text f = true) fields
  | ENot a => writable a
  | ECmp _ a b | EAnd a b | EOr a b => writable a ∧ writable b
  end.

Lemma valid_wrap l k ts : Forall valid_token ts → Forall valid_token (wrap l k ts).
Proof.
  intros H. unfold wrap, paren. case_if; [|done].
  apply Forall_cons; split; [done|]. apply Forall_app; split; [done|].
  by apply Forall_singleton.
Qed.

Lemma valid_path fs :
  Forall (λ f, ident_text f = true) fs → Forall valid_token (path_tokens fs).
Proof.
  induction 1 as [|f fs Hf Hfs IH]; [constructor|].
  apply Forall_cons; split; [done|]. by apply Forall_cons.
Qed.

Lemma valid_print e l : writable e → Forall valid_token (print l e).
Proof.
  revert l; induction e as [s|txt f|b| |root fs|e IH|op a IHa b IHb|a IHa b IHb|a IHa b IHb];
    intros l He; cbn [print writable] in *.
  - by apply Forall_singleton.
  - by apply Forall_singleton.
  - apply Forall_singleton. destruct b; unfold valid_token; simpl; auto.
  - by apply Forall_singleton.
  - destruct He. apply Forall_cons; split; [done|]. by apply valid_path.
  - apply valid_wrap, Forall_cons. split; [done|auto].
  - destruct He. apply valid_wrap, Forall_app; split; [auto|].
    apply Forall_cons; split; [by destruct op|auto].
  - destruct He. apply valid_wrap, Forall_app; split; [auto|].
    apply Forall_cons; split; [done|auto].
  - destruct He. apply valid_wrap, Forall_app; split; [auto|].
    apply Forall_cons; split; [done|auto].
Qed.

(** The source text of an expression. *)
Definition source (e : expr) : string := render (print 0 e).


(** C1: The evaluator agrees with the reference semantics on every expression
    that can be written down: the source text of [e], parenthesised only where
    precedence asks for it, evaluates to [denote vars e] (the value or the
    error), whatever the variables. Operands after the deciding one of an
    [&&] or [||] chain are passed over without being evaluated. *)
Theorem evalExpression_correct e vars :
  writable e → evalExpression (source e) vars = denote vars e.
Proof.
  intros He. unfold evalExpression, source. rewrite lex_render by (by apply valid_print).
  apply eval_print.
Qed.

Definition sample_expr : expr :=
  EOr (EAnd (ECmp CGt (EPath "n" ["score"]) (ENum "-1.5" (default float_zero (parse_float "-1.5"))))
            (ENot (EOr (EPath "done" []) (EStr "it's \ ok"))))
      (ECmp CEq (EPath "n" ["items"; "length"]) (ENum "2" (float_of_Z 2))).

Definition sample_vars : gmap string value :=
  {[ "n" := VMap {[ "score" := VFloat (float_of_Z 3); "items" := VList [VNil; VInt 4] ]};
     "done" := VBool false ]}.

Lemma evalExpression_correct_witness :
  writable sample_expr ∧
  evalExpression (source sample_expr) sample_vars = Ok (VBool true).
Proof.
  assert (H : writable sample_expr) by (simpl; repeat split; try done; repeat constructor).
  split; [exact H|]. rewrite (evalExpression_correct sample_expr sample_vars H). reflexivity.
Defined.

(** ** Malformed operands after the deciding one *)
Section Malformed.
Context (vars : gmap string value) (e : expr) (v : value).
Context (He : writable e) (Hv : denote vars e = Ok v).

(** The source of [e] followed by [||] and one more token. *)
Definition or_source (e : expr) (t : token) : string :=
  render (print 0 e ++ [tok tokOr "||"; t]).

Local Definition or_tokens (t : token) : list token :=
  print 0 e ++ [tok tokOr "||"; t; eof].

Lemma eval_or_source t :
  valid_token t →
  evalExpression (or_source e t) vars =
    (eval_tokens (or_tokens t) vars (parse_fuel (or_tokens t)) 0).1.
Proof using He.
  intros Ht. unfold evalExpression, or_source. rewrite lex_render.
  - unfold or_tokens. by rewrite <- app_assoc.
  - apply Forall_app; split; [by apply valid_print|]. by repeat constructor.
Qed.

Lemma or_tokens_drop t :
  drop (length (print 0 e)) (or_tokens t) = [tok tokOr "||"; t; eof].
Proof. unfold or_tokens. by rewrite drop_app_length. Qed.

(** Up to the [||] the evaluator has the value of [e]. *)
Lemma or_tokens_run t o p :
  eventually (λ f, orLoop (or_tokens t) vars f v) (length (print 0 e)) o p →
  eventually (parseOr (or_tokens t) vars) 0 o p.
Proof using Hv.
  intros H. destruct (print_meaning (or_tokens t) vars e) as (_ & _ & _ & Hd).
  specialize (Hd 0 _ eq_refl (follow_kind 1 (tok tokOr "||") [t; eof] eq_refl)).
  unfold result_loop in Hd. rewrite Hv in Hd. by apply Hd.
Qed.

(** A truthy value: the rest of the chain is skipped. *)
Lemma or_tokens_skip t o p :
  truthy v = true →
  eventually (λ f, _ ← skipOrs (or_tokens t) f; mret v) (length (print 0 e)) o p →
  eventually (parseOr (or_tokens t) vars) 0 o p.
Proof using Hv.
  intros Ht H. apply or_tokens_run.
  eapply ev_unfold; [exact (λ f, orLoop_step _ _ f v)|].
  eapply ev_peek_yes; [apply or_tokens_drop|done|]. by rewrite Ht.
Qed.
End Malformed.

(** A defect. When the value before [||] decides the result, an opening
    parenthesis that is never closed makes the skipping of the operand run
    past the end-of-input token: the evaluation panics with an index out of
    range instead of reporting an error. *)
Theorem skip_unclosed_paren_panics vars e v :
  writable e → denote vars e = Ok v → truthy v = true →
  evalExpression (or_source e (tok tokLParen "(")) vars = Panic index_panic.
Proof.
  intros He Hv Ht. rewrite eval_or_source by done.
  set (t := tok tokLParen "("). set (ts := or_tokens e t).
  pose proof (or_tokens_drop e t) as Hd. fold ts in Hd.
  destruct (drop_cons _ _ _ _ Hd) as [_ Hd1]. destruct (drop_cons _ _ _ _ Hd1) as [_ Hd2].
  set (n := length (print 0 e)) in *.
  assert (Hend : ts !! S (S (S n)) = None).
  { apply lookup_ge_None_2. unfold ts, or_tokens. rewrite length_app. simpl. lia. }
  eapply (eval_tokens_eventually _ _ _ (S (S (S n)))).
  unfold eval_tokens. apply ev_bind_panic, (or_tokens_skip vars e v Hv); [done|].
  apply ev_bind_panic. fold ts n.
  eapply ev_unfold; [exact (skipOrs_step ts)|]. eapply ev_peek_yes; [exact Hd|done|].
  eapply ev_next; [exact Hd|]. apply ev_bind_panic. unfold skipAnd. apply ev_bind_panic.
  eapply ev_unfold; [exact (skipUnary_step ts)|]. eapply ev_peek_no; [exact Hd1|done|].
  eapply ev_bind.
  - unfold skipPrimary. eapply ev_peek; [exact Hd1|]. cbn [kind tok t].
    eapply ev_next; [exact Hd1|]. eapply ev_unfold; [exact (λ f, skipParens_step ts f 1)|].
    cbn [Nat.eqb]. eapply ev_next; [exact Hd2|]. apply ev_ret.
  - apply (ev_bind_panic (λ _, peek ts)), ev_const. intros _. unfold peek. by rewrite Hend.
Qed.

Lemma skip_unclosed_paren_panics_witness :
  or_source (EBool true) (tok tokLParen "(") = "true || ( " ∧
  evalExpression "true || ( " ∅ = Panic index_panic.
Proof.
  split; [reflexivity|].
  exact (skip_unclosed_paren_panics ∅ (EBool true) (VBool true) I eq_refl eq_refl).
Defined.

(** Whether a malformed operand is noticed depends on the values: after a
    truthy operand a stray closing parenthesis is skipped and the expression
    is accepted, after a falsy one it is an error. *)
Theorem stray_paren_accepted_when_skipped vars e v :
  writable e → denote vars e = Ok v →
  evalExpression (or_source e (tok tokRParen ")")) vars =
    if truthy v then Ok v else Err (err_unexpected (tok tokRParen ")")).
Proof.
  intros He Hv. rewrite eval_or_source by done.
  set (t := tok tokRParen ")"). set (ts := or_tokens e t).
  pose proof (or_tokens_drop e t) as Hd. fold ts in Hd.
  destruct (drop_cons _ _ _ _ Hd) as [_ Hd1]. destruct (drop_cons _ _ _ _ Hd1) as [_ Hd2].
  set (n := length (print 0 e)) in *. destruct (truthy v) eqn:Ht.
  - eapply (eval_tokens_eventually _ _ _ (S (S n))).
    unfold eval_tokens. eapply ev_bind.
    + apply (or_tokens_skip vars e v Hv); [done|]. fold ts n. eapply ev_bind; [|apply ev_ret].
      eapply ev_unfold; [exact (skipOrs_step ts)|]. eapply ev_peek_yes; [exact Hd|done|].
      eapply ev_next; [exact Hd|]. eapply ev_bind; [|by eapply skipOrs_stop].
      unfold skipAnd. eapply ev_bind; [|by eapply skipAnds_stop].
      eapply ev_unfold; [exact (skipUnary_step ts)|]. eapply ev_peek_no; [exact Hd1|done|].
      eapply ev_bind.
      * unfold skipPrimary. eapply ev_peek; [exact Hd1|]. cbn [kind tok t].
        eapply ev_next; [exact Hd1|]. by eapply skipDots_stop.
      * eapply ev_peek; [exact Hd2|]. apply ev_ret.
    + eapply (ev_peek _ (λ _ t, if bool_decide (kind t = tokEOF) then mret v
        else mthrow (err_unexpected t))); [exact Hd2|]. apply ev_ret.
  - eapply (eval_tokens_eventually _ _ _ (S n)).
    unfold eval_tokens. apply ev_bind_err, (or_tokens_run vars e v Hv). fold ts n.
    eapply ev_unfold; [exact (λ f, orLoop_step ts vars f v)|].
    eapply ev_peek_yes; [exact Hd|done|]. rewrite Ht. eapply ev_next; [exact Hd|].
    apply ev_bind_err. eapply ev_unfold; [exact (parseAnd_step ts vars)|]. apply ev_bind_err.
    eapply ev_unfold; [exact (parseUnary_step ts vars)|]. eapply ev_peek_no; [exact Hd1|done|].
    eapply ev_unfold; [exact (parseComparison_step ts vars)|]. apply ev_bind_err.
    eapply ev_unfold; [exact (parsePrimary_step ts vars)|]. eapply ev_peek; [exact Hd1|].
    by apply ev_const.
Qed.

Lemma stray_paren_accepted_when_skipped_witness :
  evalExpression "true || ) " ∅ = Ok (VBool true) ∧
  evalExpression "false || ) " ∅ = Err (err_unexpected (tok tokRParen ")")).
Proof.
  split.
  - exact (stray_paren_accepted_when_skipped ∅ (EBool true) (VBool true) I eq_refl).
  - exact (stray_paren_accepted_when_skipped ∅ (EBool false) (VBool false) I eq_refl).
Defined.

(** A defect. The number of elements that [.length] gives is an int, and
    [truthy] only looks at bool, string and float64: a condition on a length
    is true of an empty list as of any other, and its negation is false,
    although the number literal 0 is falsy. *)
Theorem length_is_always_truthy vars root fs v :
  writable (EPath root (fs ++ ["length"])) → vars !! root = Some v →
  ∃ n, evalExpression (source (EPath root (fs ++ ["length"]))) vars = Ok (VInt n) ∧
       truthy (VInt n) = true ∧
       evalExpression (source (ENot (EPath root (fs ++ ["length"])))) vars = Ok (VBool false) ∧
       truthy (VFloat (float_of_Z 0)) = false.
Proof.
  intros Hw Hv. assert (Hw' : writable (ENot (EPath root (fs ++ ["length"])))) by exact Hw.
  exists (lengthOf (foldl field v fs)). unfold evalExpression, source.
  rewrite !lex_render by (by apply valid_print). rewrite !eval_print.
  cbn [denote]. rewrite Hv, foldl_app. split_and!; reflexivity.
Qed.

Definition empty_items : gmap string value := {[ "result" := VMap {[ "items" := VList [] ]} ]}.

Lemma length_is_always_truthy_witness :
  source (EPath "result" ["items"; "length"]) = "result . items . length " ∧
  evalExpression "result . items . length " empty_items = Ok (VInt 0) ∧
  ∃ n, evalExpression "result . items . length " empty_items = Ok (VInt n) ∧ truthy (VInt n) = true.
Proof.
  split; [reflexivity|]. split; [vm_compute; reflexivity|].
  assert (Hw : writable (EPath "result" (["items"] ++ ["length"])))
    by (split; [reflexivity|repeat constructor]).
  destruct (length_is_always_truthy empty_items "result" ["items"]
    (VMap {[ "items" := VList [] ]}) Hw (lookup_singleton_eq _ _)) as (n & E & Ht & _).
  exists n. split; [exact E|exact Ht].
Defined.
