(* ===== verification/GoSort.v ===== *)
(** * Slices built from maps, and sort.Slice

    The order in which a Go map is ranged over is any permutation of its
    entries ([MapOrder]).  [sort_slice] is the insertion sort that
    [sort.Slice] runs on short slices; the program only sorts slices it has
    just filled from a map, so that with an arbitrary [MapOrder] the results
    below cover every sorted permutation. *)
From stdpp Require Import sorting.
From S2P Require Import Prelude.

(** ** Ranging over a map *)
Record MapOrder := {
  range : ∀ {A}, gmap string A → list (string * A);
  range_perm : ∀ {A} (m : gmap string A), range m ≡ₚ map_to_list m
}.

Definition sorted_order : MapOrder :=
  {| range := λ A, map_to_list; range_perm := λ A m, reflexivity _ |}.

Definition reversed_order : MapOrder :=
  {| range := λ A m, reverse (map_to_list m); range_perm := λ A m, reverse_Permutation _ |}.

(** [for _, v := range m { out = append(out, v) }] *)
Definition range_values {A} (o : MapOrder) (m : gmap string A) : list A := (range o m).*2.

Lemma range_elem {A} (o : MapOrder) (m : gmap string A) k v :
  (k, v) ∈ range o m ↔ m !! k = Some v.
Proof. by rewrite range_perm, elem_of_map_to_list. Qed.

Lemma range_values_elem {A} (o : MapOrder) (m : gmap string A) v :
  v ∈ range_values o m ↔ ∃ k, m !! k = Some v.
Proof.
  unfold range_values. rewrite list_elem_of_fmap. split.
  - intros ([k x] & -> & H). exists k. by apply (range_elem o).
  - intros [k H]. exists (k, v). by rewrite range_elem.
Qed.

Lemma filter_snd {A B} (P : B → Prop) `{∀ b, Decision (P b)} (l : list (A * B)) :
  filter P l.*2 = (filter (λ kv, P kv.2) l).*2.
Proof.
  induction l as [|[a b] l IH]; [done|]. cbn [fmap list_fmap]. rewrite !filter_cons, IH.
  simpl. by case_decide.
Qed.

Lemma range_values_length {A} (o : MapOrder) (m : gmap string A) :
  length (range_values o m) = size m.
Proof. unfold range_values. by rewrite length_fmap, range_perm, length_map_to_list. Qed.

Lemma strongly_sorted_impl {A} (R1 R2 : relation A) l :
  (∀ x y, R1 x y → R2 x y) → StronglySorted R1 l → StronglySorted R2 l.
Proof.
  intros H. induction 1 as [|x l Hl IH Hx]; constructor; [done|].
  eapply Forall_impl; [exact Hx|]. auto.
Qed.

(** ** sort.Slice *)
Section Sort.
Context {A : Type} (less : A → A → bool).

(** Move the new last element down past the greater ones; the slice is kept
    reversed. *)
Fixpoint sift (x : A) (racc : list A) : list A :=
  match racc with
  | [] => [x]
  | y :: r => if less x y then y :: sift x r else x :: y :: r
  end.

Definition sort_slice (l : list A) : list A :=
  reverse (foldl (λ racc x, sift x racc) [] l).

Lemma sift_perm x l : sift x l ≡ₚ x :: l.
Proof.
  induction l as [|y l IH]; simpl; [done|]. case_if; [|done].
  rewrite IH. apply Permutation_swap.
Qed.

Lemma sort_slice_perm l : sort_slice l ≡ₚ l.
Proof.
  unfold sort_slice. rewrite reverse_Permutation.
  assert (H : ∀ acc, foldl (λ racc x, sift x racc) acc l ≡ₚ l ++ acc).
  { induction l as [|x l IH]; intros acc; simpl; [done|].
    rewrite IH, sift_perm. symmetry. by apply Permutation_middle. }
  rewrite H. by rewrite app_nil_r.
Qed.

Lemma sort_slice_elem x l : x ∈ sort_slice l ↔ x ∈ l.
Proof. by rewrite sort_slice_perm. Qed.

Lemma sort_slice_length l : length (sort_slice l) = length l.
Proof. by rewrite sort_slice_perm. Qed.

(** Sortedness needs a strict weak order. *)
Context (less_asym : ∀ x y, less x y = true → less y x = false).
Context (le_trans : ∀ x y z, less y x = false → less z y = false → less z x = false).

(** [y] may come after [x]. *)
Definition in_order (x y : A) : Prop := less y x = false.

Lemma sift_sorted x l :
  StronglySorted (flip in_order) l → StronglySorted (flip in_order) (sift x l).
Proof using less_asym le_trans.
  induction 1 as [|y l Hl IH Hy]; simpl; [by repeat constructor|].
  destruct (less x y) eqn:E.
  - constructor; [done|]. rewrite sift_perm. constructor; [|done]. by apply less_asym.
  - constructor; [by constructor|]. constructor; [done|].
    eapply Forall_impl; [exact Hy|]. intros z Hz. unfold in_order, flip in *. eauto.
Qed.

Lemma strongly_sorted_reverse (R : relation A) l :
  StronglySorted R l → StronglySorted (flip R) (reverse l).
Proof.
  induction 1 as [|x l Hl IH Hx]; [constructor|].
  rewrite reverse_cons. apply StronglySorted_app. split_and!; [|done|by repeat constructor].
  intros a b Ha ->%list_elem_of_singleton. rewrite elem_of_reverse in Ha. 
  unfold flip. exact (proj1 (list.Forall_forall _ _) Hx a Ha).
Qed.

Lemma sort_slice_sorted l : StronglySorted in_order (sort_slice l).
Proof using less_asym le_trans.
  unfold sort_slice. apply (strongly_sorted_reverse (flip in_order)).
  assert (H : ∀ acc, StronglySorted (flip in_order) acc →
    StronglySorted (flip in_order) (foldl (λ racc x, sift x racc) acc l)).
  { induction l as [|x l IH]; intros acc Hacc; simpl; [done|]. by apply IH, sift_sorted. }
  apply H. constructor.
Qed.
End Sort.

(** A slice in order stays as it is. *)
Lemma sort_slice_id {A} (less : A → A → bool) l :
  StronglySorted (in_order less) l → sort_slice less l = l.
Proof.
  intros Hl. unfold sort_slice.
  assert (H : ∀ acc, (∀ x y, x ∈ acc → y ∈ l → in_order less x y) →
    foldl (λ racc x, sift less x racc) acc l = reverse l ++ acc).
  { induction Hl as [|x l Hl IH Hx]; intros acc Hacc; simpl; [done|].
    assert (Hs : sift less x acc = x :: acc).
    { destruct acc as [|y acc]; simpl; [done|].
      assert (less x y = false) as ->; [apply Hacc; by left|done]. }
    rewrite Hs, IH; [by rewrite reverse_cons, <- app_assoc|].
    intros y z [->|Hy]%elem_of_cons Hz; [by eapply list.Forall_forall in Hx|].
    apply Hacc; [done|by right]. }
  rewrite (H []) by (intros x y []%not_elem_of_nil). by rewrite app_nil_r, reverse_involutive.
Qed.
