(* ===== verification/Json.v ===== *)
(** * encoding/json as the program uses it

    A document is its syntax tree; a [json.RawMessage] is empty, not a valid
    document, or a document.  Decoding goes into an existing Go value, as
    [json.Unmarshal] does: [null] leaves strings alone and resets maps, slices
    and [any]; struct fields are matched by name, else by folded name, in the
    order of the document; a mismatch of types is an error.  The texts of the
    package's own errors are not modelled. *)
From Stdlib Require Import Ascii.
From S2P Require Import Prelude GoStr GoValue.

(** Number literals: integers, or anything else by its nearest float64
    (infinite when the literal is out of range). *)
Inductive number :=
  | NInt (n : Z)
  | NFloat (f : float64).

Inductive json :=
  | JNull
  | JBool (b : bool)
  | JNum (n : number)
  | JStr (s : string)
  | JArr (l : list json)
  | JObj (fields : list (string * json)).

Inductive RawMessage :=
  | RawEmpty
  | RawMalformed
  | RawDoc (j : json).

Definition json_syntax_error : error := ErrorsNew "json: syntax error".
Definition json_type_error : error := ErrorsNew "json: cannot unmarshal value into Go value".
Definition json_unsupported : error := ErrorsNew "json: unsupported value".

(** The tree of a document, when it has one. *)
Definition raw_tree (r : RawMessage) : outcome json :=
  match r with
  | RawDoc j => Ok j
  | RawEmpty | RawMalformed => Err json_syntax_error
  end.

(** ** Field names

    Names that differ only in case are the same field; the fold also maps the
    long s (C5 BF) to s and the Kelvin sign (E2 84 AA) to k. *)
Fixpoint fold_name (s : string) : string :=
  match s with
  | EmptyString => EmptyString
  | String a (String b s' as s1) =>
      if bool_decide (byte_val a = 197) && bool_decide (byte_val b = 191)
      then String "s" (fold_name s')
      else match s' with
           | String c s'' =>
               if bool_decide (byte_val a = 226) && bool_decide (byte_val b = 132)
                  && bool_decide (byte_val c = 170)
               then String "k" (fold_name s'')
               else String (lower_byte a) (fold_name s1)
           | EmptyString => String (lower_byte a) (fold_name s1)
           end
  | String a s1 => String (lower_byte a) (fold_name s1)
  end.

(** The field of a struct with the given names that a key selects. *)
Definition select_field (names : list string) (key : string) : option string :=
  if bool_decide (key ∈ names) then Some key
  else head (filter (λ n, fold_name n = fold_name key) names).

(** ** Decoders: from a document and the value there was *)
Definition decoder (A : Type) : Type := json → A → outcome A.

Definition dec_string : decoder string := λ j old,
  match j with
  | JNull => Ok old
  | JStr s => Ok s
  | _ => Err json_type_error
  end.

Definition float_of_number (n : number) : outcome float64 :=
  match n with
  | NInt z => match float_of_Z z with S754_infinity _ => Err json_type_error | f => Ok f end
  | NFloat (S754_infinity _) | NFloat S754_nan => Err json_type_error
  | NFloat f => Ok f
  end.

(** [any]: a fresh dynamic value. *)
Fixpoint decode_any (j : json) : outcome value :=
  match j with
  | JNull => Ok VNil
  | JBool b => Ok (VBool b)
  | JNum n => f ← float_of_number n; Ok (VFloat f)
  | JStr s => Ok (VString s)
  | JArr l =>
      vs ← (fix go (l : list json) : outcome (list value) :=
              match l with
              | [] => Ok []
              | x :: l' => v ← decode_any x; vs ← go l'; Ok (v :: vs)
              end) l;
      Ok (VList vs)
  | JObj fields =>
      m ← (fix go (fs : list (string * json)) (m : gmap string value) : outcome (gmap string value) :=
             match fs with
             | [] => Ok m
             | (k, x) :: fs' => v ← decode_any x; go fs' (<[k := v]> m)
             end) fields ∅;
      Ok (VMap m)
  end.

Definition dec_any : decoder value := λ j _, decode_any j.

(** [map[string]any]; [None] is the nil map.  The entries of the document are
    added to the map there was. *)
Fixpoint add_entries (fs : list (string * json)) (m : gmap string value) : outcome (gmap string value) :=
  match fs with
  | [] => Ok m
  | (k, x) :: fs' => v ← decode_any x; add_entries fs' (<[k := v]> m)
  end.

Definition dec_map : decoder (option (gmap string value)) := λ j old,
  match j with
  | JNull => Ok None
  | JObj fields => m ← add_entries fields (default ∅ old); Ok (Some m)
  | _ => Err json_type_error
  end.

(** A slice: element by element into the elements there were, then cut to
    length. *)
Fixpoint dec_elems {A} (zero : A) (dec : decoder A) (l : list json) (old : list A) : outcome (list A) :=
  match l with
  | [] => Ok []
  | x :: l' =>
      v ← dec x (default zero (head old));
      vs ← dec_elems zero dec l' (tail old);
      Ok (v :: vs)
  end.

Definition dec_slice {A} (zero : A) (dec : decoder A) : decoder (list A) := λ j old,
  match j with
  | JNull => Ok []
  | JArr l => dec_elems zero dec l old
  | _ => Err json_type_error
  end.

(** A struct, given what decoding into each of its fields does. *)
Fixpoint dec_fields {A} (names : list string) (field : string → decoder A)
    (fs : list (string * json)) (old : A) : outcome A :=
  match fs with
  | [] => Ok old
  | (k, x) :: fs' =>
      new ← match select_field names k with
            | Some n => field n x old
            | None => Ok old
            end;
      dec_fields names field fs' new
  end.

Definition dec_struct {A} (names : list string) (field : string → decoder A) : decoder A :=
  λ j old,
    match j with
    | JNull => Ok old
    | JObj fs => dec_fields names field fs old
    | _ => Err json_type_error
    end.

(** ** Encoding dynamic values: map keys in order, no infinities or NaN *)
Definition encode_float (f : float64) : option json :=
  match f with
  | S754_infinity _ | S754_nan => None
  | _ => Some (JNum (NFloat f))
  end.

Definition insert_key (kv : string * json) : list (string * json) → list (string * json) :=
  fix go l :=
    match l with
    | [] => [kv]
    | x :: l' => if str_ltb kv.1 x.1 then kv :: x :: l' else x :: go l'
    end.

Definition sort_keys (l : list (string * json)) : list (string * json) := foldr insert_key [] l.

Fixpoint encode_value (v : value) : option json :=
  match v with
  | VNil => Some JNull
  | VBool b => Some (JBool b)
  | VInt n => Some (JNum (NInt n))
  | VFloat f => encode_float f
  | VString s => Some (JStr s)
  | VList l =>
      js ← (fix go (l : list value) : option (list json) :=
              match l with
              | [] => Some []
              | x :: l' => j ← encode_value x; js ← go l'; Some (j :: js)
              end) l;
      Some (JArr js)
  | VMap m =>
      fs ← map_fold (λ k x acc, fs ← acc; j ← encode_value x; Some ((k, j) :: fs)) (Some []) m;
      Some (JObj (sort_keys fs))
  end.

(** A map of values that are encoded is encoded, as an object. *)
Lemma encode_map_total m :
  (∀ k v, m !! k = Some v → is_Some (encode_value v)) → ∃ fs, encode_value (VMap m) = Some (JObj fs).
Proof.
  intros H. cbn [encode_value].
  assert (Hf : is_Some (map_fold (λ k x acc, fs ← acc; j ← encode_value x; Some ((k, j) :: fs)) (Some []) m)).
  { revert H. apply (map_fold_weak_ind (λ r m, (∀ k v, m !! k = Some v → is_Some (encode_value v)) → is_Some r));
      [by eexists|].
    intros k x m' r Hk IH H. destruct IH as [fs ->].
    { intros k' v Hv. apply (H k'). rewrite lookup_insert_ne; [done|]. intros ->. congruence. }
    simpl. destruct (H k x) as [j Hj]; [by rewrite lookup_insert_eq|]. rewrite Hj. by eexists. }
  destruct Hf as [fs ->]. by eexists.
Qed.

(** [json.Marshal]: its one error is for a number that JSON does not have. *)
Definition encode_any (v : value) : outcome json :=
  match encode_value v with Some j => Ok j | None => Err json_unsupported end.

Lemma encode_any_proper v : proper_outcome (encode_any v).
Proof. unfold encode_any. by destruct (encode_value v). Qed.

(** ** Decoding always answers *)
Definition decoder_proper {A} (dec : decoder A) : Prop := ∀ j old, proper_outcome (dec j old).

Section DecoderProper.
Context {A : Type}.

Lemma dec_string_proper : decoder_proper dec_string.
Proof. by intros []. Qed.

Lemma decode_any_proper j : proper_outcome (decode_any j).
Proof.
  revert j. fix IH 1. intros [|b|n|s|l|fs]; simpl; try exact I.
  - destruct n as [z|[]]; try done. simpl. by destruct (float_of_Z z).
  - apply proper_bind; [|intros; exact I].
    induction l as [|x l IHl]; simpl; [exact I|].
    apply proper_bind; [apply IH|intros v _]. apply proper_bind; [apply IHl|intros; exact I].
  - apply proper_bind; [|intros; exact I]. generalize (∅ : gmap string value) as m.
    induction fs as [|[k x] fs IHl]; intros m; simpl; [exact I|].
    apply proper_bind; [apply IH|intros v _; apply IHl].
Qed.

Lemma dec_any_proper : decoder_proper dec_any.
Proof. intros j old. apply decode_any_proper. Qed.

Lemma dec_map_proper : decoder_proper dec_map.
Proof.
  intros [] old; try done. simpl. apply proper_bind; [|done].
  generalize (default ∅ old). induction fields as [|[k x] fs IH]; intros m; simpl; [done|].
  apply proper_bind; [apply decode_any_proper|intros; apply IH].
Qed.

Lemma dec_slice_proper zero (dec : decoder A) : decoder_proper dec → decoder_proper (dec_slice zero dec).
Proof.
  intros Hd [] old; try done. simpl. revert old. induction l as [|j l IH]; intros old; simpl; [done|].
  apply proper_bind; [apply Hd|intros]. by apply proper_bind.
Qed.

Lemma dec_struct_proper names (field : string → decoder A) :
  (∀ n, decoder_proper (field n)) → decoder_proper (dec_struct names field).
Proof.
  intros Hf [] old; try done. simpl. revert old. induction fields as [|[k j] fs IH]; intros old; simpl; [done|].
  apply proper_bind; [case_match; [apply Hf|done]|intros; apply IH].
Qed.

Lemma raw_tree_proper r : proper_outcome (raw_tree r).
Proof. by destruct r. Qed.
End DecoderProper.
Create HintDb decoders.
#[export] Hint Resolve dec_string_proper dec_any_proper dec_map_proper dec_slice_proper
  dec_struct_proper raw_tree_proper : decoders.
#[export] Hint Extern 1 (decoder_proper _) => intros ? ? : decoders.

(** A field decoder: one of the struct's fields, then the struct again. *)
Ltac solve_field_proper f :=
  intros ? ? []; unfold f; repeat case_if;
  (apply proper_bind; [|intros; exact I]);
  first [solve [auto with decoders] | apply dec_slice_proper; auto with decoders].
