(* ===== verification/Model.v ===== *)
(** * The data model (internal/store/models.go)

    One record per struct. A [time.Time] is a [Z] of nanoseconds, 0 its zero
    value; the string-typed enumerations are strings with their constants. *)
From S2P Require Import Prelude Json.

Definition Time : Type := Z.
Definition zero_time : Time := 0%Z.

Record Skill := mkSkill {
  Skill_Name : string;
  Skill_ServerID : string;
  Skill_Tool : string
}.

Record Agent := mkAgent {
  Agent_ID : string;
  Agent_TenantID : string;
  Agent_Name : string;
  Agent_Profile : string;
  Agent_SystemPrompt : string;
  Agent_Skills : list Skill;
  Agent_Enabled : bool;
  Agent_CreatedAt : Time;
  Agent_UpdatedAt : Time
}.

Record McpServer := mkMcpServer {
  McpServer_ID : string;
  McpServer_TenantID : string;
  McpServer_Name : string;
  McpServer_Transport : RawMessage;
  McpServer_Enabled : bool;
  McpServer_Status : string;
  McpServer_CreatedAt : Time;
  McpServer_UpdatedAt : Time
}.

Record FlowPermissionSet := mkFlowPermissionSet {
  Resources : list string;
  Files : list string;
  Databases : list string
}.

Record Flow := mkFlow {
  Flow_ID : string;
  Flow_TenantID : string;
  Flow_Name : string;
  Flow_FlowJSON : RawMessage;
  Flow_Permissions : FlowPermissionSet;
  Flow_Enabled : bool;
  Flow_CreatedAt : Time;
  Flow_UpdatedAt : Time
}.

Record LogEntry := mkLogEntry {
  Timestamp : Time;
  Level : string;
  Message : string;
  Source : string
}.

Definition RunStatus : Type := string.
Definition RunStatusPending : RunStatus := "pending".
Definition RunStatusRunning : RunStatus := "running".
Definition RunStatusSuccess : RunStatus := "success".
Definition RunStatusFailed : RunStatus := "failed".
Definition RunStatusRolledBack : RunStatus := "rolled_back".

Record Run := mkRun {
  Run_ID : string;
  Run_FlowID : string;
  Run_TenantID : string;
  Run_Status : RunStatus;
  Run_StartedAt : Time;
  Run_FinishedAt : option Time;
  Run_Logs : list LogEntry;
  Run_Result : RawMessage
}.

Definition TaskStatus : Type := string.
Definition TaskStatusPending : TaskStatus := "pending".
Definition TaskStatusRunning : TaskStatus := "running".
Definition TaskStatusSuccess : TaskStatus := "success".
Definition TaskStatusFailed : TaskStatus := "failed".

Definition SubtaskStatus : Type := string.
Definition SubtaskStatusPending : SubtaskStatus := "pending".
Definition SubtaskStatusRunning : SubtaskStatus := "running".
Definition SubtaskStatusSuccess : SubtaskStatus := "success".
Definition SubtaskStatusFailed : SubtaskStatus := "failed".

Record Subtask := mkSubtask {
  Subtask_ID : string;
  Subtask_AgentID : string;
  Subtask_Description : string;
  Subtask_Status : SubtaskStatus;
  Subtask_Result : RawMessage
}.

Record Task := mkTask {
  Task_ID : string;
  Task_TenantID : string;
  Task_Input : string;
  Task_Status : TaskStatus;
  Task_Subtasks : list Subtask;
  Task_Result : RawMessage;
  Task_CreatedAt : Time;
  Task_UpdatedAt : Time
}.

Definition Role : Type := string.
Definition RoleViewer : Role := "viewer".
Definition RoleOperator : Role := "operator".
Definition RoleOwner : Role := "owner".

Record User := mkUser {
  User_ID : string;
  User_TenantID : string;
  Username : string;
  PasswordHash : string;
  User_Role : Role;
  User_CreatedAt : Time;
  User_UpdatedAt : Time
}.

Record Tenant := mkTenant {
  Tenant_ID : string;
  Tenant_Name : string;
  Tenant_CreatedAt : Time
}.
