(* ===== verification/Store.v ===== *)
(** * The in-memory store (internal/store/store.go, memory.go)

    Six of the seven resources live in a map from tenant to id to value; the
    operations on such a table are written once, as the code writes them for
    each type, and instantiated.  [Memory] is the whole store; every method
    runs under the store's lock, so that it is one step of the state. *)
From S2P Require Import Prelude GoStr GoSort Json Model.

Definition ErrNotFound : error := ErrorsNew "store: not found".
Definition ErrConflict : error := ErrorsNew "store: conflict".
Definition ErrInvalid : error := ErrorsNew "store: invalid input".
Definition ErrUnauthorized : error := ErrorsNew "store: unauthorized".

(** ** Tenant tables *)
Abbreviation table V := (gmap string (gmap string V)).

(** [m.agents[tenantID]]: an absent tenant reads as an empty map. *)
Definition tenant_of {V} (t : table V) (tenantID : string) : gmap string V :=
  default ∅ (t !! tenantID).

(** [agentMap]: the tenant's map, created when absent. *)
Definition ensure {V} (tenantID : string) (t : table V) : table V :=
  <[tenantID := tenant_of t tenantID]> t.

Section Table.
Context {V : Type} (v_id v_tenant : V → string).

Definition tbl_get (tenantID id : string) : M (table V) V := λ t,
  match tenant_of t tenantID !! id with
  | Some v => (Ok v, t)
  | None => (Err ErrNotFound, t)
  end.

Definition tbl_create (v : V) : M (table V) V := λ t,
  if bool_decide (v_id v = "") then (Err ErrInvalid, t)
  else
    let t1 := ensure (v_tenant v) t in
    let tm := tenant_of t1 (v_tenant v) in
    match tm !! v_id v with
    | Some _ => (Err ErrConflict, t1)
    | None => (Ok v, <[v_tenant v := <[v_id v := v]> tm]> t1)
    end.

Definition tbl_update (v : V) : M (table V) V := λ t,
  let t1 := ensure (v_tenant v) t in
  let tm := tenant_of t1 (v_tenant v) in
  match tm !! v_id v with
  | None => (Err ErrNotFound, t1)
  | Some _ => (Ok v, <[v_tenant v := <[v_id v := v]> tm]> t1)
  end.

Definition tbl_delete (tenantID id : string) : M (table V) unit := λ t,
  match tenant_of t tenantID !! id with
  | None => (Err ErrNotFound, t)
  | Some _ => (Ok tt, <[tenantID := delete id (tenant_of t tenantID)]> t)
  end.

(** Range over the tenant's map, keep what [keep] accepts, sort. *)
Definition tbl_list (o : MapOrder) (keep : V → bool) (less : V → V → bool)
    (tenantID : string) : M (table V) (list V) := λ t,
  (Ok (sort_slice less (filter (λ v, keep v = true) (range_values o (tenant_of t tenantID)))), t).
End Table.

(** ** The store *)
Record Memory := mkMemory {
  agents : table Agent;
  servers : table McpServer;
  flows : table Flow;
  runs : table Run;
  tasks : table Task;
  users : table User;
  tenants : gmap string Tenant
}.

Definition NewMemoryStore : Memory := mkMemory ∅ ∅ ∅ ∅ ∅ ∅ ∅.

Definition set_agents x m := mkMemory x (servers m) (flows m) (runs m) (tasks m) (users m) (tenants m).
Definition set_servers x m := mkMemory (agents m) x (flows m) (runs m) (tasks m) (users m) (tenants m).
Definition set_flows x m := mkMemory (agents m) (servers m) x (runs m) (tasks m) (users m) (tenants m).
Definition set_runs x m := mkMemory (agents m) (servers m) (flows m) x (tasks m) (users m) (tenants m).
Definition set_tasks x m := mkMemory (agents m) (servers m) (flows m) (runs m) x (users m) (tenants m).
Definition set_users x m := mkMemory (agents m) (servers m) (flows m) (runs m) (tasks m) x (tenants m).
Definition set_tenants x m := mkMemory (agents m) (servers m) (flows m) (runs m) (tasks m) (users m) x.

(** Run an operation on one field of the state. *)
Definition zoom {S T A} (get : S → T) (set : T → S → S) (op : M T A) : M S A := λ s,
  let '(o, t) := op (get s) in (o, set t s).

Definition less_by {V} (name : V → string) (a b : V) : bool := str_ltb (name a) (name b).
Definition before_by {V} (at_ : V → Time) (a b : V) : bool := (at_ a <? at_ b)%Z.
Definition keep_all {V} (v : V) : bool := true.

Section Operations.
Context (o : MapOrder).

Definition ListAgents (tenantID : string) : M Memory (list Agent) :=
  zoom agents set_agents (tbl_list o keep_all (less_by Agent_Name) tenantID).
Definition GetAgent (tenantID id : string) : M Memory Agent :=
  zoom agents set_agents (tbl_get tenantID id).
Definition CreateAgent (agent : Agent) : M Memory Agent :=
  zoom agents set_agents (tbl_create Agent_ID Agent_TenantID agent).
Definition UpdateAgent (agent : Agent) : M Memory Agent :=
  zoom agents set_agents (tbl_update Agent_ID Agent_TenantID agent).
Definition DeleteAgent (tenantID id : string) : M Memory unit :=
  zoom agents set_agents (tbl_delete tenantID id).

Definition ListMcpServers (tenantID : string) : M Memory (list McpServer) :=
  zoom servers set_servers (tbl_list o keep_all (less_by McpServer_Name) tenantID).
Definition GetMcpServer (tenantID id : string) : M Memory McpServer :=
  zoom servers set_servers (tbl_get tenantID id).
Definition CreateMcpServer (server : McpServer) : M Memory McpServer :=
  zoom servers set_servers (tbl_create McpServer_ID McpServer_TenantID server).
Definition UpdateMcpServer (server : McpServer) : M Memory McpServer :=
  zoom servers set_servers (tbl_update McpServer_ID McpServer_TenantID server).
Definition DeleteMcpServer (tenantID id : string) : M Memory unit :=
  zoom servers set_servers (tbl_delete tenantID id).

Definition ListFlows (tenantID : string) : M Memory (list Flow) :=
  zoom flows set_flows (tbl_list o keep_all (less_by Flow_Name) tenantID).
Definition GetFlow (tenantID id : string) : M Memory Flow :=
  zoom flows set_flows (tbl_get tenantID id).
Definition CreateFlow (flow : Flow) : M Memory Flow :=
  zoom flows set_flows (tbl_create Flow_ID Flow_TenantID flow).
Definition UpdateFlow (flow : Flow) : M Memory Flow :=
  zoom flows set_flows (tbl_update Flow_ID Flow_TenantID flow).
Definition DeleteFlow (tenantID id : string) : M Memory unit :=
  zoom flows set_flows (tbl_delete tenantID id).

Definition CreateRun (run : Run) : M Memory Run :=
  zoom runs set_runs (tbl_create Run_ID Run_TenantID run).
Definition GetRun (tenantID id : string) : M Memory Run :=
  zoom runs set_runs (tbl_get tenantID id).
(** An empty [flowID] lists the runs of all flows. *)
Definition ListRuns (tenantID flowID : string) : M Memory (list Run) :=
  zoom runs set_runs
    (tbl_list o (λ r, bool_decide (flowID = "") || bool_decide (Run_FlowID r = flowID))
       (before_by Run_StartedAt) tenantID).
Definition UpdateRun (run : Run) : M Memory Run :=
  zoom runs set_runs (tbl_update Run_ID Run_TenantID run).

Definition CreateTask (task : Task) : M Memory Task :=
  zoom tasks set_tasks (tbl_create Task_ID Task_TenantID task).
Definition GetTask (tenantID id : string) : M Memory Task :=
  zoom tasks set_tasks (tbl_get tenantID id).
Definition ListTasks (tenantID : string) : M Memory (list Task) :=
  zoom tasks set_tasks (tbl_list o keep_all (before_by Task_CreatedAt) tenantID).
Definition UpdateTask (task : Task) : M Memory Task :=
  zoom tasks set_tasks (tbl_update Task_ID Task_TenantID task).

Definition ListUsers (tenantID : string) : M Memory (list User) :=
  zoom users set_users (tbl_list o keep_all (less_by Username) tenantID).
Definition GetUser (tenantID id : string) : M Memory User :=
  zoom users set_users (tbl_get tenantID id).
(** The first match in the order the map is ranged over. *)
Definition GetUserByUsername (tenantID username : string) : M Memory User := λ m,
  match filter (λ u, Username u = username) (range_values o (tenant_of (users m) tenantID)) with
  | u :: _ => (Ok u, m)
  | [] => (Err ErrNotFound, m)
  end.
Definition CreateUser (user : User) : M Memory User :=
  zoom users set_users (tbl_create User_ID User_TenantID user).
Definition UpdateUser (user : User) : M Memory User :=
  zoom users set_users (tbl_update User_ID User_TenantID user).
Definition DeleteUser (tenantID id : string) : M Memory unit :=
  zoom users set_users (tbl_delete tenantID id).

Definition GetTenant (id : string) : M Memory Tenant := λ m,
  match tenants m !! id with
  | Some t => (Ok t, m)
  | None => (Err ErrNotFound, m)
  end.
Definition CreateTenant (tenant : Tenant) : M Memory Tenant := λ m,
  if bool_decide (Tenant_ID tenant = "") then (Err ErrInvalid, m)
  else match tenants m !! Tenant_ID tenant with
       | Some _ => (Err ErrConflict, m)
       | None => (Ok tenant, set_tenants (<[Tenant_ID tenant := tenant]> (tenants m)) m)
       end.
End Operations.
