(* ===== verification/StoreSpec.v ===== *)
(** * What the store promises, and that Memory keeps the promise

    [StoreOp] lists the calls of the Store interface; [spec] says what each
    does to a [View], in which a resource is one finite map from
    (tenant, id).  [Memory] implements it ([memory_refines]): that a tenant's
    map may be absent or empty is invisible.  The laws that clients use are
    consequences of [spec]. *)
From stdpp Require Import sorting.
From S2P Require Import Prelude GoStr GoSort Json Model Store.

(** ** The calls of the interface *)
Inductive StoreOp : Type → Type :=
  | OpListAgents (tenantID : string) : StoreOp (list Agent)
  | OpGetAgent (tenantID id : string) : StoreOp Agent
  | OpCreateAgent (agent : Agent) : StoreOp Agent
  | OpUpdateAgent (agent : Agent) : StoreOp Agent
  | OpDeleteAgent (tenantID id : string) : StoreOp unit
  | OpListMcpServers (tenantID : string) : StoreOp (list McpServer)
  | OpGetMcpServer (tenantID id : string) : StoreOp McpServer
  | OpCreateMcpServer (server : McpServer) : StoreOp McpServer
  | OpUpdateMcpServer (server : McpServer) : StoreOp McpServer
  | OpDeleteMcpServer (tenantID id : string) : StoreOp unit
  | OpListFlows (tenantID : string) : StoreOp (list Flow)
  | OpGetFlow (tenantID id : string) : StoreOp Flow
  | OpCreateFlow (flow : Flow) : StoreOp Flow
  | OpUpdateFlow (flow : Flow) : StoreOp Flow
  | OpDeleteFlow (tenantID id : string) : StoreOp unit
  | OpCreateRun (run : Run) : StoreOp Run
  | OpGetRun (tenantID id : string) : StoreOp Run
  | OpListRuns (tenantID flowID : string) : StoreOp (list Run)
  | OpUpdateRun (run : Run) : StoreOp Run
  | OpCreateTask (task : Task) : StoreOp Task
  | OpGetTask (tenantID id : string) : StoreOp Task
  | OpListTasks (tenantID : string) : StoreOp (list Task)
  | OpUpdateTask (task : Task) : StoreOp Task
  | OpListUsers (tenantID : string) : StoreOp (list User)
  | OpGetUser (tenantID id : string) : StoreOp User
  | OpGetUserByUsername (tenantID username : string) : StoreOp User
  | OpCreateUser (user : User) : StoreOp User
  | OpUpdateUser (user : User) : StoreOp User
  | OpDeleteUser (tenantID id : string) : StoreOp unit
  | OpGetTenant (id : string) : StoreOp Tenant
  | OpCreateTenant (tenant : Tenant) : StoreOp Tenant.

(** An implementation runs the calls on its own state. *)
Class Store (S : Type) := store_exec : ∀ {A}, StoreOp A → M S A.

#[export] Instance Memory_Store (o : MapOrder) : Store Memory := λ A op,
  match op in StoreOp A return M Memory A with
  | OpListAgents t => ListAgents o t
  | OpGetAgent t i => GetAgent t i
  | OpCreateAgent v => CreateAgent v
  | OpUpdateAgent v => UpdateAgent v
  | OpDeleteAgent t i => DeleteAgent t i
  | OpListMcpServers t => ListMcpServers o t
  | OpGetMcpServer t i => GetMcpServer t i
  | OpCreateMcpServer v => CreateMcpServer v
  | OpUpdateMcpServer v => UpdateMcpServer v
  | OpDeleteMcpServer t i => DeleteMcpServer t i
  | OpListFlows t => ListFlows o t
  | OpGetFlow t i => GetFlow t i
  | OpCreateFlow v => CreateFlow v
  | OpUpdateFlow v => UpdateFlow v
  | OpDeleteFlow t i => DeleteFlow t i
  | OpCreateRun v => CreateRun v
  | OpGetRun t i => GetRun t i
  | OpListRuns t f => ListRuns o t f
  | OpUpdateRun v => UpdateRun v
  | OpCreateTask v => CreateTask v
  | OpGetTask t i => GetTask t i
  | OpListTasks t => ListTasks o t
  | OpUpdateTask v => UpdateTask v
  | OpListUsers t => ListUsers o t
  | OpGetUser t i => GetUser t i
  | OpGetUserByUsername t n => GetUserByUsername o t n
  | OpCreateUser v => CreateUser v
  | OpUpdateUser v => UpdateUser v
  | OpDeleteUser t i => DeleteUser t i
  | OpGetTenant i => GetTenant i
  | OpCreateTenant v => CreateTenant v
  end.

(** ** The abstract state *)
Abbreviation flat_map V := (@gmap (string * string)
  (@prod_eq_dec string String.eq_dec string String.eq_dec)
  (@prod_countable string String.eq_dec String.countable string String.eq_dec String.countable) V).

Record View := mkView {
  vw_agents : flat_map Agent;
  vw_servers : flat_map McpServer;
  vw_flows : flat_map Flow;
  vw_runs : flat_map Run;
  vw_tasks : flat_map Task;
  vw_users : flat_map User;
  vw_tenants : gmap string Tenant
}.

Definition up_agents x w := mkView x (vw_servers w) (vw_flows w) (vw_runs w) (vw_tasks w) (vw_users w) (vw_tenants w).
Definition up_servers x w := mkView (vw_agents w) x (vw_flows w) (vw_runs w) (vw_tasks w) (vw_users w) (vw_tenants w).
Definition up_flows x w := mkView (vw_agents w) (vw_servers w) x (vw_runs w) (vw_tasks w) (vw_users w) (vw_tenants w).
Definition up_runs x w := mkView (vw_agents w) (vw_servers w) (vw_flows w) x (vw_tasks w) (vw_users w) (vw_tenants w).
Definition up_tasks x w := mkView (vw_agents w) (vw_servers w) (vw_flows w) (vw_runs w) x (vw_users w) (vw_tenants w).
Definition up_users x w := mkView (vw_agents w) (vw_servers w) (vw_flows w) (vw_runs w) (vw_tasks w) x (vw_tenants w).
Definition up_tenants x w := mkView (vw_agents w) (vw_servers w) (vw_flows w) (vw_runs w) (vw_tasks w) (vw_users w) x.

Section FlatOps.
Context {V : Type} (v_id v_tenant : V → string).

Definition sp_get (t i : string) : M (flat_map V) V := λ f,
  match f !! (t, i) with Some v => (Ok v, f) | None => (Err ErrNotFound, f) end.

Definition sp_create (v : V) : M (flat_map V) V := λ f,
  if decide (v_id v = "") then (Err ErrInvalid, f)
  else match f !! (v_tenant v, v_id v) with
       | Some _ => (Err ErrConflict, f)
       | None => (Ok v, <[(v_tenant v, v_id v) := v]> f)
       end.

Definition sp_update (v : V) : M (flat_map V) V := λ f,
  match f !! (v_tenant v, v_id v) with
  | None => (Err ErrNotFound, f)
  | Some _ => (Ok v, <[(v_tenant v, v_id v) := v]> f)
  end.

Definition sp_delete (t i : string) : M (flat_map V) unit := λ f,
  match f !! (t, i) with
  | None => (Err ErrNotFound, f)
  | Some _ => (Ok tt, delete (t, i) f)
  end.

(** [l] holds the tenant's values that satisfy [keep], each once, sorted. *)
Definition listing (keep : V → bool) (less : V → V → bool) (t : string)
    (f : flat_map V) (l : list V) : Prop :=
  ∃ kvs : list (string * V),
    NoDup kvs.*1 ∧ (∀ i v, (i, v) ∈ kvs ↔ f !! (t, i) = Some v ∧ keep v = true) ∧
    l ≡ₚ kvs.*2 ∧ StronglySorted (in_order less) l.
End FlatOps.

(** ** The specification of every call *)
Definition reads {A} (P : A → Prop) (w : View) (o : outcome A) (w' : View) : Prop :=
  w' = w ∧ ∃ a, o = Ok a ∧ P a.

Definition does {A} (m : M View A) (w : View) (o : outcome A) (w' : View) : Prop :=
  m w = (o, w').

Definition spec {A} (op : StoreOp A) : View → outcome A → View → Prop := λ w,
  match op in StoreOp A return outcome A → View → Prop with
  | OpListAgents t => reads (listing keep_all (less_by Agent_Name) t (vw_agents w)) w
  | OpGetAgent t i => does (zoom vw_agents up_agents (sp_get t i)) w
  | OpCreateAgent v => does (zoom vw_agents up_agents (sp_create Agent_ID Agent_TenantID v)) w
  | OpUpdateAgent v => does (zoom vw_agents up_agents (sp_update Agent_ID Agent_TenantID v)) w
  | OpDeleteAgent t i => does (zoom vw_agents up_agents (sp_delete t i)) w
  | OpListMcpServers t => reads (listing keep_all (less_by McpServer_Name) t (vw_servers w)) w
  | OpGetMcpServer t i => does (zoom vw_servers up_servers (sp_get t i)) w
  | OpCreateMcpServer v => does (zoom vw_servers up_servers (sp_create McpServer_ID McpServer_TenantID v)) w
  | OpUpdateMcpServer v => does (zoom vw_servers up_servers (sp_update McpServer_ID McpServer_TenantID v)) w
  | OpDeleteMcpServer t i => does (zoom vw_servers up_servers (sp_delete t i)) w
  | OpListFlows t => reads (listing keep_all (less_by Flow_Name) t (vw_flows w)) w
  | OpGetFlow t i => does (zoom vw_flows up_flows (sp_get t i)) w
  | OpCreateFlow v => does (zoom vw_flows up_flows (sp_create Flow_ID Flow_TenantID v)) w
  | OpUpdateFlow v => does (zoom vw_flows up_flows (sp_update Flow_ID Flow_TenantID v)) w
  | OpDeleteFlow t i => does (zoom vw_flows up_flows (sp_delete t i)) w
  | OpCreateRun v => does (zoom vw_runs up_runs (sp_create Run_ID Run_TenantID v)) w
  | OpGetRun t i => does (zoom vw_runs up_runs (sp_get t i)) w
  | OpListRuns t f =>
      reads (listing (λ r, bool_decide (f = "") || bool_decide (Run_FlowID r = f))
               (before_by Run_StartedAt) t (vw_runs w)) w
  | OpUpdateRun v => does (zoom vw_runs up_runs (sp_update Run_ID Run_TenantID v)) w
  | OpCreateTask v => does (zoom vw_tasks up_tasks (sp_create Task_ID Task_TenantID v)) w
  | OpGetTask t i => does (zoom vw_tasks up_tasks (sp_get t i)) w
  | OpListTasks t => reads (listing keep_all (before_by Task_CreatedAt) t (vw_tasks w)) w
  | OpUpdateTask v => does (zoom vw_tasks up_tasks (sp_update Task_ID Task_TenantID v)) w
  | OpListUsers t => reads (listing keep_all (less_by Username) t (vw_users w)) w
  | OpGetUser t i => does (zoom vw_users up_users (sp_get t i)) w
  | OpGetUserByUsername t n => λ o w', w' = w ∧
      match o with
      | Ok u => Username u = n ∧ ∃ i, vw_users w !! (t, i) = Some u
      | Err e => e = ErrNotFound ∧ ∀ i u, vw_users w !! (t, i) = Some u → Username u ≠ n
      | _ => False
      end
  | OpCreateUser v => does (zoom vw_users up_users (sp_create User_ID User_TenantID v)) w
  | OpUpdateUser v => does (zoom vw_users up_users (sp_update User_ID User_TenantID v)) w
  | OpDeleteUser t i => does (zoom vw_users up_users (sp_delete t i)) w
  | OpGetTenant i => does (λ w,
      match vw_tenants w !! i with Some v => (Ok v, w) | None => (Err ErrNotFound, w) end) w
  | OpCreateTenant v => does (λ w,
      if decide (Tenant_ID v = "") then (Err ErrInvalid, w)
      else match vw_tenants w !! Tenant_ID v with
           | Some _ => (Err ErrConflict, w)
           | None => (Ok v, up_tenants (<[Tenant_ID v := v]> (vw_tenants w)) w)
           end) w
  end.

(** The promise of an implementation, through its abstraction. *)
Class StoreLaws (S : Type) `{Store S} := {
  view : S → View;
  exec_spec : ∀ {A} (op : StoreOp A) (s : S),
    spec op (view s) (store_exec op s).1 (view (store_exec op s).2)
}.

(** Every call answers: it neither panics nor hangs. *)
Class StoreAnswers (S : Type) `{Store S} :=
  exec_answers : ∀ {A} (op : StoreOp A) (s : S), proper_outcome (store_exec op s).1.

Lemma spec_answers {A} (op : StoreOp A) w o w' : spec op w o w' → proper_outcome o.
Proof.
  destruct op; cbn [spec]; unfold reads, does, zoom, sp_get, sp_create, sp_update, sp_delete;
    first [by intros (_ & l & -> & _) | by intros [_ H]; destruct o
          | intros H; repeat (case_match || case_decide); by simplify_eq/=].
Qed.

#[export] Instance lawful_StoreAnswers {S : Type} `{StoreLaws S} : StoreAnswers S.
Proof. intros A op s. eapply spec_answers, exec_spec. Qed.

(** ** Tables as flat maps *)
Definition flat {V : Type} (t : table V) : flat_map V :=
  map_uncurry (M1 := gmap string) (M2 := gmap string) t.

Section TableFacts.
Context {V : Type} (v_id v_tenant : V → string).
Implicit Types (t : table V) (k i : string) (v : V).

Lemma flat_lookup t k i : flat t !! (k, i) = tenant_of t k !! i.
Proof.
  unfold flat, tenant_of. rewrite lookup_map_uncurry.
  by destruct (t !! k); simpl; [|rewrite lookup_empty].
Qed.

Lemma flat_empty k i : flat (V := V) ∅ !! (k, i) = None.
Proof. rewrite flat_lookup. unfold tenant_of. by rewrite lookup_empty; simpl; rewrite lookup_empty. Qed.

Lemma tenant_of_insert t k k' m :
  tenant_of (<[k := m]> t) k' = if decide (k = k') then m else tenant_of t k'.
Proof.
  unfold tenant_of. case_decide; subst; [by rewrite lookup_insert_eq|by rewrite lookup_insert_ne].
Qed.

Lemma tenant_of_ensure t k k' : tenant_of (ensure k t) k' = tenant_of t k'.
Proof. unfold ensure. rewrite tenant_of_insert. by case_decide; subst. Qed.

Lemma flat_ensure t k : flat (ensure k t) = flat t.
Proof. apply map_eq. intros [k' i]. by rewrite !flat_lookup, tenant_of_ensure. Qed.

Lemma flat_insert t k i v : flat (<[k := <[i := v]> (tenant_of t k)]> t) = <[(k, i) := v]> (flat t).
Proof.
  apply map_eq. intros [k' i']. rewrite flat_lookup, tenant_of_insert.
  destruct (decide ((k, i) = (k', i'))) as [[= <- <-]|Hne].
  - by rewrite decide_True, !lookup_insert_eq.
  - rewrite lookup_insert_ne, flat_lookup by done. case_decide; [|done]. subst.
    rewrite lookup_insert_ne; [done|congruence].
Qed.

Lemma flat_delete t k i : flat (<[k := delete i (tenant_of t k)]> t) = delete (k, i) (flat t).
Proof.
  apply map_eq. intros [k' i']. rewrite flat_lookup, tenant_of_insert.
  destruct (decide ((k, i) = (k', i'))) as [[= <- <-]|Hne].
  - by rewrite decide_True, !lookup_delete_eq.
  - rewrite lookup_delete_ne, flat_lookup by done. case_decide; [|done]. subst.
    rewrite lookup_delete_ne; [done|congruence].
Qed.

(** A table operation behaves as the flat one. *)
Definition simulates {A} (m : M (table V) A) (m' : M (flat_map V) A) : Prop :=
  ∀ t, m' (flat t) = ((m t).1, flat (m t).2).

Lemma get_simulates k i : simulates (tbl_get k i) (sp_get k i).
Proof. intros t. unfold tbl_get, sp_get. rewrite flat_lookup. by case_match. Qed.

Lemma create_simulates v : simulates (tbl_create v_id v_tenant v) (sp_create v_id v_tenant v).
Proof.
  intros t. unfold tbl_create, sp_create. rewrite flat_lookup, tenant_of_ensure.
  case_decide as E; [by rewrite bool_decide_eq_true_2|].
  rewrite bool_decide_eq_false_2 by done. case_match; simpl; [by rewrite flat_ensure|].
  by rewrite <- (tenant_of_ensure t (v_tenant v)), flat_insert, flat_ensure.
Qed.

Lemma update_simulates v : simulates (tbl_update v_id v_tenant v) (sp_update v_id v_tenant v).
Proof.
  intros t. unfold tbl_update, sp_update. rewrite flat_lookup, tenant_of_ensure.
  case_match; simpl; [|by rewrite flat_ensure].
  by rewrite <- (tenant_of_ensure t (v_tenant v)), flat_insert, flat_ensure.
Qed.

Lemma delete_simulates k i : simulates (tbl_delete k i) (sp_delete k i).
Proof.
  intros t. unfold tbl_delete, sp_delete. rewrite flat_lookup.
  case_match; simpl; [by rewrite flat_delete|done].
Qed.

End TableFacts.

Section ListFacts.
Context {V : Type} (less : V → V → bool) (keep : V → bool).
Implicit Types (t : table V) (k : string).
Context (less_asym : ∀ x y, less x y = true → less y x = false).
Context (le_trans : ∀ x y z, less y x = false → less z y = false → less z x = false).

Lemma list_listing o k t :
  ∃ l, tbl_list o keep less k t = (Ok l, t) ∧ listing keep less k (flat t) l.
Proof using less_asym le_trans.
  eexists; split; [done|].
  exists (filter (λ kv, keep kv.2 = true) (range o (tenant_of t k))). split_and!.
  - eapply sublist_NoDup; [|apply fmap_sublist, sublist_filter].
    rewrite range_perm. apply NoDup_fst_map_to_list.
  - intros i v. rewrite list_elem_of_filter, range_elem, flat_lookup. simpl. tauto.
  - rewrite sort_slice_perm. unfold range_values. by rewrite filter_snd.
  - by apply sort_slice_sorted.
Qed.
End ListFacts.

Lemma less_by_asym {V} (f : V → string) x y : less_by f x y = true → less_by f y x = false.
Proof.
  unfold less_by. intros H. destruct (str_ltb (f y) (f x)) eqn:E; [|done].
  by rewrite <- (str_ltb_irrefl (f x)), (str_ltb_trans _ _ _ H E).
Qed.

Lemma less_by_le_trans {V} (f : V → string) x y z :
  less_by f y x = false → less_by f z y = false → less_by f z x = false.
Proof.
  unfold less_by. intros H1 H2. destruct (str_ltb (f z) (f x)) eqn:E; [|done].
  destruct (str_ltb (f x) (f y)) eqn:E1.
  - by rewrite (str_ltb_trans _ _ _ E E1) in H2.
  - by rewrite (str_ltb_trichotomy _ _ E1 H1), H2 in E.
Qed.

Lemma before_by_asym {V} (f : V → Time) x y : before_by f x y = true → before_by f y x = false.
Proof. unfold before_by. rewrite Z.ltb_lt, Z.ltb_ge. lia. Qed.

Lemma before_by_le_trans {V} (f : V → Time) x y z :
  before_by f y x = false → before_by f z y = false → before_by f z x = false.
Proof. unfold before_by. rewrite !Z.ltb_ge. lia. Qed.

#[export] Hint Resolve less_by_asym less_by_le_trans before_by_asym before_by_le_trans : core.

(** ** Memory implements the specification *)
Definition view_memory (m : Memory) : View :=
  mkView (flat (agents m)) (flat (servers m)) (flat (flows m)) (flat (runs m))
    (flat (tasks m)) (flat (users m)) (tenants m).

(** A simulation on one table is one on the whole store. *)
Lemma zoom_simulates {V A : Type} (get : Memory → table V) (set : table V → Memory → Memory)
    (vget : View → flat_map V) (vset : flat_map V → View → View)
    (m : M (table V) A) (m' : M (flat_map V) A) (s : Memory) :
  (∀ s, vget (view_memory s) = flat (get s)) →
  (∀ t s, view_memory (set t s) = vset (flat t) (view_memory s)) →
  simulates m m' →
  does (zoom vget vset m') (view_memory s)
    (zoom get set m s).1 (view_memory (zoom get set m s).2).
Proof.
  intros Hget Hset Hsim. unfold does, zoom. rewrite Hget, Hsim.
  destruct (m (get s)) as [o t]; simpl. by rewrite Hset.
Qed.

Lemma zoom_lists {V : Type} (get : Memory → table V) (set : table V → Memory → Memory)
    (vget : View → flat_map V)
    o keep less k (s : Memory) :
  (∀ s, vget (view_memory s) = flat (get s)) → (∀ s, set (get s) s = s) →
  (∀ x y, less x y = true → less y x = false) →
  (∀ x y z, less y x = false → less z y = false → less z x = false) →
  reads (listing keep less k (vget (view_memory s))) (view_memory s)
    (zoom get set (tbl_list o keep less k) s).1
    (view_memory (zoom get set (tbl_list o keep less k) s).2).
Proof.
  intros Hget Hset H1 H2. unfold reads, zoom.
  destruct (list_listing less keep H1 H2 o k (get s)) as (l & -> & Hl).
  simpl. rewrite Hset, Hget. eauto.
Qed.

Lemma username_spec o t n m :
  spec (OpGetUserByUsername t n) (view_memory m)
    (GetUserByUsername o t n m).1 (view_memory (GetUserByUsername o t n m).2).
Proof.
  assert (Hin : ∀ u, u ∈ filter (λ u, Username u = n) (range_values o (tenant_of (users m) t)) ↔
    Username u = n ∧ ∃ i, flat (users m) !! (t, i) = Some u).
  { intros u. rewrite list_elem_of_filter, range_values_elem. by setoid_rewrite flat_lookup. }
  unfold GetUserByUsername, spec.
  destruct (filter _ _) as [|u l]; simpl; (split; [done|]).
  - split; [done|]. intros i u Hu Hn. apply (not_elem_of_nil u), Hin. eauto.
  - apply Hin, elem_of_cons. auto.
Qed.

Lemma memory_spec (o : MapOrder) {A} (op : StoreOp A) (m : Memory) :
  let r := Memory_Store o A op m in spec op (view_memory m) r.1 (view_memory r.2).
Proof.
  destruct op; cbn [Memory_Store];
    try (apply zoom_simulates; [done|done|];
         first [apply get_simulates | apply create_simulates
               | apply update_simulates | apply delete_simulates]);
    try (apply zoom_lists; [done|by intros []|eauto|eauto]).
  - apply username_spec.
  - unfold spec, does, GetTenant. simpl. by case_match.
  - unfold spec, does, CreateTenant. simpl. case_decide as E.
    + by rewrite bool_decide_eq_true_2.
    + rewrite bool_decide_eq_false_2 by done. by case_match.
Qed.

#[export] Instance Memory_StoreLaws (o : MapOrder) : StoreLaws Memory (H := Memory_Store o) :=
  {| view := view_memory; exec_spec := λ A op s, memory_spec o op s |}.
