(* ===== verification/StoreProps.v ===== *)
(** * Consequences of the store's specification

    The invariant that a value sits under its own tenant and identifier,
    histories of calls, isolation of tenants, and the laws of create, get,
    update and delete, each proved from [spec] or for any implementation that
    satisfies [StoreLaws], and stated for [Memory]. *)
From stdpp Require Import sorting.
From S2P Require Import Prelude GoStr GoSort Json Model Store StoreSpec.

(** ** Values sit under their own keys *)
Definition keyed {V} (v_id v_tenant : V → string) (f : flat_map V) : Prop :=
  ∀ t i v, f !! (t, i) = Some v → v_tenant v = t ∧ v_id v = i ∧ i ≠ "".

Record coherent (w : View) : Prop := {
  coh_agents : keyed Agent_ID Agent_TenantID (vw_agents w);
  coh_servers : keyed McpServer_ID McpServer_TenantID (vw_servers w);
  coh_flows : keyed Flow_ID Flow_TenantID (vw_flows w);
  coh_runs : keyed Run_ID Run_TenantID (vw_runs w);
  coh_tasks : keyed Task_ID Task_TenantID (vw_tasks w);
  coh_users : keyed User_ID User_TenantID (vw_users w);
  coh_tenants : ∀ i t, vw_tenants w !! i = Some t → Tenant_ID t = i ∧ i ≠ ""
}.

(** What a call on one table keeps: everything is [keyed] after it if it was
    before, and only entries of tenant [t] change. *)
Definition local {V A : Type} (v_id v_tenant : V → string) (t : string)
    (m : M (flat_map V) A) : Prop := ∀ f,
  (keyed v_id v_tenant f → keyed v_id v_tenant (m f).2) ∧
  (∀ t' i, t' ≠ t → (m f).2 !! (t', i) = f !! (t', i)) ∧
  (∀ e, (m f).1 = Err e → (m f).2 = f).

Section Local.
Context {V : Type} (v_id v_tenant : V → string).

Lemma get_local t i : local v_id v_tenant t (sp_get t i).
Proof. intros f. unfold sp_get. by case_match. Qed.

Lemma keyed_insert f v :
  v_id v ≠ "" → keyed v_id v_tenant f → keyed v_id v_tenant (<[(v_tenant v, v_id v) := v]> f).
Proof.
  intros Hid Hf t i x [[[= <- <-] <-]|[_ H]]%lookup_insert_Some; [done|]. by apply Hf.
Qed.

Lemma create_local v : local v_id v_tenant (v_tenant v) (sp_create v_id v_tenant v).
Proof.
  intros f. unfold sp_create. case_decide; [done|]. case_match; simpl; [done|].
  split_and!; [by apply keyed_insert| |done].
  intros. rewrite lookup_insert_ne; [done|congruence].
Qed.

Lemma update_local v : local v_id v_tenant (v_tenant v) (sp_update v_id v_tenant v).
Proof.
  intros f. unfold sp_update. case_match eqn:E; simpl; [|done].
  split_and!; [|intros; rewrite lookup_insert_ne; [done|congruence]|done].
  intros Hf. apply keyed_insert; [|done]. by apply Hf in E as (_ & _ & ?).
Qed.

Lemma delete_local t i : local v_id v_tenant t (sp_delete t i).
Proof.
  intros f. unfold sp_delete. case_match; simpl; [|done].
  split_and!; [|intros; rewrite lookup_delete_ne; [done|congruence]|done].
  intros Hf t' i' x [_ Hx]%lookup_delete_Some. by apply Hf.
Qed.
End Local.
#[export] Hint Resolve get_local create_local update_local delete_local : core.

(** ** The tenant a call acts for *)
Definition op_tenant {A} (op : StoreOp A) : option string :=
  match op with
  | OpListAgents t | OpGetAgent t _ | OpDeleteAgent t _
  | OpListMcpServers t | OpGetMcpServer t _ | OpDeleteMcpServer t _
  | OpListFlows t | OpGetFlow t _ | OpDeleteFlow t _
  | OpGetRun t _ | OpListRuns t _ | OpGetTask t _ | OpListTasks t
  | OpListUsers t | OpGetUser t _ | OpGetUserByUsername t _ | OpDeleteUser t _ => Some t
  | OpCreateAgent v | OpUpdateAgent v => Some (Agent_TenantID v)
  | OpCreateMcpServer v | OpUpdateMcpServer v => Some (McpServer_TenantID v)
  | OpCreateFlow v | OpUpdateFlow v => Some (Flow_TenantID v)
  | OpCreateRun v | OpUpdateRun v => Some (Run_TenantID v)
  | OpCreateTask v | OpUpdateTask v => Some (Task_TenantID v)
  | OpCreateUser v | OpUpdateUser v => Some (User_TenantID v)
  | OpGetTenant _ | OpCreateTenant _ => None
  end.

(** Deleting a flow may take more than the flow with it. *)
Definition deletes_flow {A} (op : StoreOp A) : bool :=
  match op with OpDeleteFlow _ _ => true | _ => false end.

(** Two states hold the same resources of tenant [t]. *)
Record same_tenant (t : string) (w w' : View) : Prop := {
  same_agents : ∀ i, vw_agents w' !! (t, i) = vw_agents w !! (t, i);
  same_servers : ∀ i, vw_servers w' !! (t, i) = vw_servers w !! (t, i);
  same_flows : ∀ i, vw_flows w' !! (t, i) = vw_flows w !! (t, i);
  same_runs : ∀ i, vw_runs w' !! (t, i) = vw_runs w !! (t, i);
  same_tasks : ∀ i, vw_tasks w' !! (t, i) = vw_tasks w !! (t, i);
  same_users : ∀ i, vw_users w' !! (t, i) = vw_users w !! (t, i)
}.

Lemma same_tenant_refl t w : same_tenant t w w.
Proof. by constructor. Qed.

(** What the specification keeps, call by call. *)
Definition keeps (t : option string) {A} (w : View) (o : outcome A) (w' : View) : Prop :=
  (coherent w → coherent w') ∧
  (∀ t', t ≠ Some t' → same_tenant t' w w') ∧
  (∀ e, o = Err e → w' = w).

Lemma keeps_refl t {A} w (o : outcome A) : keeps t w o w.
Proof. split_and!; [done|intros; apply same_tenant_refl|done]. Qed.

Lemma zoom_keeps {V A : Type} v_id v_tenant t (get : View → flat_map V) set (m : M (flat_map V) A) w o w' :
  local v_id v_tenant t m →
  does (zoom get set m) w o w' →
  set (get w) w = w →
  ((keyed v_id v_tenant (get w) → keyed v_id v_tenant (m (get w)).2) →
     coherent w → coherent (set (m (get w)).2 w)) →
  (∀ t', (∀ i, (m (get w)).2 !! (t', i) = get w !! (t', i)) →
     same_tenant t' w (set (m (get w)).2 w)) →
  keeps (Some t) w o w'.
Proof.
  unfold does, zoom. intros L H Hid Hcoh Hsame. destruct (L (get w)) as (Hk & Hl & He).
  destruct (m (get w)) as [o' f']; simpl in *. injection H as <- <-. split_and!.
  - by apply Hcoh.
  - intros t' Ht. apply Hsame. intros i. apply Hl. congruence.
  - intros e ->. by rewrite (He e eq_refl).
Qed.

Lemma spec_keeps {A} (op : StoreOp A) w o w' : spec op w o w' → keeps (op_tenant op) w o w'.
Proof.
  destruct op; cbn [spec op_tenant]; intros H;
    first
      [ eapply zoom_keeps;
          [| exact H | by destruct w
           | intros Hk []; constructor; simpl; auto
           | intros t' Hs; constructor; simpl; auto]; by auto
      | destruct H as [-> _]; apply keeps_refl
      | idtac ].
  - unfold does in H. case_match; simplify_eq; apply keeps_refl.
  - unfold does in H. case_decide; [simplify_eq; apply keeps_refl|].
    case_match; simplify_eq; [apply keeps_refl|]. split_and!; [|intros; by constructor|done].
    intros []; constructor; simpl; auto.
    intros i x [[<- <-]|[_ Hx]]%lookup_insert_Some; eauto.
Qed.

(** ** Histories *)
Inductive call :=
  | Call (A : Type) (op : StoreOp A) (result : outcome A).
Arguments Call {A} op result.

Inductive allowed : View → list call → View → Prop :=
  | allowed_nil w : allowed w [] w
  | allowed_cons {A} (op : StoreOp A) o w w1 w2 h :
      spec op w o w1 → allowed w1 h w2 → allowed w (Call op o :: h) w2.

(** Calls on [Memory], each with the order its map happened to be ranged
    over in. *)
Fixpoint memory_run (ops : list (MapOrder * sigT StoreOp)) (m : Memory) : list call * Memory :=
  match ops with
  | [] => ([], m)
  | (o, existT A op) :: ops' =>
      let r := Memory_Store o A op m in
      let '(h, m') := memory_run ops' r.2 in (Call op r.1 :: h, m')
  end.

Lemma memory_run_allowed ops m :
  allowed (view_memory m) (memory_run ops m).1 (view_memory (memory_run ops m).2).
Proof.
  revert m; induction ops as [|[o [A op]] ops IH]; intros m; simpl; [constructor|].
  pose proof (memory_spec o op m) as H. pose proof (IH (Memory_Store o A op m).2) as Hr.
  destruct (memory_run ops _) as [h m']. by econstructor.
Qed.

Lemma allowed_coherent w h w' : allowed w h w' → coherent w → coherent w'.
Proof. induction 1 as [|A op o w w1 w2 h H _ IH]; [done|]. intros Hw. by apply IH, (spec_keeps op w o w1 H). Qed.

Lemma empty_coherent : coherent (view_memory NewMemoryStore).
Proof. constructor; intros *; simpl; by rewrite ?flat_empty, ?lookup_empty. Qed.

(** C8: Every history of calls on a new in-memory store, whatever the orders
    its maps are ranged over in, is a history that the specification of the
    store allows, and at its end every value sits under its own tenant and
    its own non-empty identifier. *)
Theorem memory_histories ops :
  let '(h, m) := memory_run ops NewMemoryStore in
  allowed (view_memory NewMemoryStore) h (view_memory m) ∧ coherent (view_memory m).
Proof.
  pose proof (memory_run_allowed ops NewMemoryStore) as H.
  destruct (memory_run ops NewMemoryStore) as [h m].
  split; [done|]. by eapply allowed_coherent, empty_coherent.
Qed.

(** ** Isolation of tenants *)

(** A result belongs to the tenant the call acts for. *)
Definition owned {A} (op : StoreOp A) : A → Prop :=
  match op in StoreOp A return A → Prop with
  | OpListAgents t => Forall (λ v, Agent_TenantID v = t)
  | OpGetAgent t i => λ v, Agent_TenantID v = t ∧ Agent_ID v = i
  | OpListMcpServers t => Forall (λ v, McpServer_TenantID v = t)
  | OpGetMcpServer t i => λ v, McpServer_TenantID v = t ∧ McpServer_ID v = i
  | OpListFlows t => Forall (λ v, Flow_TenantID v = t)
  | OpGetFlow t i => λ v, Flow_TenantID v = t ∧ Flow_ID v = i
  | OpGetRun t i => λ v, Run_TenantID v = t ∧ Run_ID v = i
  | OpListRuns t f => Forall (λ v, Run_TenantID v = t ∧ (f = "" ∨ Run_FlowID v = f))
  | OpGetTask t i => λ v, Task_TenantID v = t ∧ Task_ID v = i
  | OpListTasks t => Forall (λ v, Task_TenantID v = t)
  | OpListUsers t => Forall (λ v, User_TenantID v = t)
  | OpGetUser t i => λ v, User_TenantID v = t ∧ User_ID v = i
  | OpGetUserByUsername t n => λ v, User_TenantID v = t ∧ Username v = n
  | OpGetTenant i => λ v, Tenant_ID v = i
  | _ => λ _, True
  end.

Lemma get_owned {V} (v_id v_tenant : V → string) (get : View → flat_map V) set t i w v w' :
  keyed v_id v_tenant (get w) →
  does (zoom get set (sp_get t i)) w (Ok v) w' → v_tenant v = t ∧ v_id v = i.
Proof.
  unfold does, zoom, sp_get. intros Hk H.
  destruct (get w !! (t, i)) eqn:E; simplify_eq.
  by apply Hk in E as (? & ? & _).
Qed.

Lemma listing_owned {V} (v_id v_tenant : V → string) keep less t (f : flat_map V) l :
  keyed v_id v_tenant f → listing keep less t f l →
  Forall (λ v, v_tenant v = t ∧ keep v = true) l.
Proof.
  intros Hk (kvs & _ & Hin & Hl & _). apply list.Forall_forall. intros v Hv.
  rewrite Hl in Hv. apply list_elem_of_fmap in Hv as ([i x] & -> & [Hx Hkeep]%Hin).
  by apply Hk in Hx as (? & _ & _).
Qed.

Lemma spec_owned {A} (op : StoreOp A) w a w' :
  coherent w → spec op w (Ok a) w' → owned op a.
Proof.
  intros [] H. destruct op; cbn [owned spec] in *; try done;
    try (eapply get_owned in H; by eauto);
    try (destruct H as [_ (l & [= ->] & Hl)];
         eapply listing_owned in Hl; [|by eauto];
         eapply Forall_impl; [exact Hl|]; naive_solver).
  - destruct H as [_ (l & [= ->] & Hl)].
    eapply listing_owned in Hl; [|by eauto].
    eapply Forall_impl; [exact Hl|]. intros r [? Hr].
    split; [done|]. apply orb_prop in Hr as [Hr|Hr]; apply bool_decide_eq_true in Hr; auto.
  - destruct H as (-> & ? & i & Hu). split; [|done]. by eapply coh_users0.
  - unfold does in H. case_match eqn:E; simplify_eq. by eapply coh_tenants0.
Qed.

(** Tenants are isolated in the in-memory store. In a store built by any
    history, a call made for one tenant leaves the resources of every other
    tenant as they were, and whatever value it returns belongs to the tenant
    it was made for (and has the identifier, flow or name that was asked
    for). *)
Theorem memory_tenant_isolation ops o {A} (op : StoreOp A) :
  let m := (memory_run ops NewMemoryStore).2 in
  let '(r, m') := Memory_Store o A op m in
  (∀ t, op_tenant op ≠ Some t → same_tenant t (view_memory m) (view_memory m')) ∧
  (∀ a, r = Ok a → owned op a).
Proof.
  intros m. pose proof (memory_spec o op m) as H.
  assert (Hc : coherent (view_memory m))
    by (eapply allowed_coherent, empty_coherent; apply memory_run_allowed).
  destruct (Memory_Store o A op m) as [r m']. simpl in H. split.
  - intros t Ht. by apply (spec_keeps op _ _ _ H).
  - intros a ->. by eapply spec_owned.
Qed.

(** A call that fails changes nothing a client can see, and neither do
    the calls that only read. *)
Theorem memory_failure_changes_nothing o {A} (op : StoreOp A) m e :
  (Memory_Store o A op m).1 = Err e →
  view_memory (Memory_Store o A op m).2 = view_memory m.
Proof.
  intros He. pose proof (memory_spec o op m) as H. cbv zeta in H. rewrite He in H.
  by eapply (spec_keeps op).
Qed.

Definition sample_tenant_agent (t i name : string) : Agent :=
  mkAgent i t name "" "" [] true 0%Z 0%Z.

Lemma memory_failure_changes_nothing_witness :
  let m := NewMemoryStore in
  let r := UpdateAgent (sample_tenant_agent "t1" "a" "A") m in
  r.1 = Err ErrNotFound ∧ agents r.2 ≠ agents m ∧ view_memory r.2 = view_memory m.
Proof.
  split_and!; [reflexivity|by intros H%(f_equal (lookup "t1"))|].
  exact (memory_failure_changes_nothing sorted_order
           (OpUpdateAgent (sample_tenant_agent "t1" "a" "A")) NewMemoryStore ErrNotFound eq_refl).
Defined.

(** ** Create, get, update, delete *)
Section Crud.
Context {V : Type} (v_id v_tenant : V → string).
Implicit Types (v : V) (t : table V).

Lemma tbl_update_existing v v' t x :
  v_id v' = v_id v → v_tenant v' = v_tenant v →
  tenant_of t (v_tenant v) !! v_id v = Some x →
  ∃ t', tbl_update v_id v_tenant v' t = (Ok v', t') ∧
        tbl_get (v_tenant v) (v_id v) t' = (Ok v', t').
Proof.
  intros Hi Ht Hx. unfold tbl_update, tbl_get. rewrite Hi, Ht, tenant_of_ensure, Hx.
  eexists. split; [done|]. by rewrite tenant_of_insert, decide_True, lookup_insert_eq.
Qed.

Lemma tbl_create_free v t :
  v_id v ≠ "" → tenant_of t (v_tenant v) !! v_id v = None →
  ∃ t', tbl_create v_id v_tenant v t = (Ok v, t') ∧
        tenant_of t' (v_tenant v) = <[v_id v := v]> (tenant_of t (v_tenant v)).
Proof.
  intros Hi Hx. unfold tbl_create. rewrite bool_decide_eq_false_2 by done.
  rewrite tenant_of_ensure, Hx. eexists. split; [done|].
  by rewrite tenant_of_insert, decide_True.
Qed.
End Crud.

(** Creating a value succeeds exactly when its identifier is non-empty and
    free within its tenant. After a successful create the value can be read
    back, creating it again is a conflict, an update under the same key is
    what is read next, and deleting it restores the table as seen before the
    create. The statement is about the table operations that the store's six
    tenant-scoped resources share. *)
Theorem table_create_get_update_delete {V} (v_id v_tenant : V → string) (v : V) (t : table V) :
  let k := v_tenant v in let i := v_id v in
  match tbl_create v_id v_tenant v t with
  | (Ok r, t1) =>
      r = v ∧ i ≠ "" ∧ tenant_of t k !! i = None ∧
      tbl_get k i t1 = (Ok v, t1) ∧
      (tbl_create v_id v_tenant v t1).1 = Err ErrConflict ∧
      (∀ v', v_id v' = i → v_tenant v' = k →
         ∃ t2, tbl_update v_id v_tenant v' t1 = (Ok v', t2) ∧ tbl_get k i t2 = (Ok v', t2)) ∧
      ∃ t3, tbl_delete k i t1 = (Ok tt, t3) ∧ flat t3 = flat t ∧
            tbl_get k i t3 = (Err ErrNotFound, t3)
  | (Err e, t1) =>
      flat t1 = flat t ∧
      (i = "" ∧ e = ErrInvalid ∨ (∃ x, tenant_of t k !! i = Some x) ∧ e = ErrConflict)
  | _ => False
  end.
Proof.
  intros k i. destruct (decide (i = "")) as [Hi|Hi].
  { unfold tbl_create. rewrite bool_decide_eq_true_2 by done. auto. }
  destruct (tenant_of t k !! i) as [x|] eqn:Hx.
  { unfold tbl_create. rewrite bool_decide_eq_false_2, tenant_of_ensure by done.
    fold k i. rewrite Hx. split; [apply flat_ensure|eauto]. }
  destruct (tbl_create_free v_id v_tenant v t Hi Hx) as (t1 & E & Ht1).
  pose proof (create_simulates v_id v_tenant v t) as Hsim. rewrite E in *. simpl in Hsim.
  fold k i in Ht1. assert (Hget : tenant_of t1 k !! i = Some v)
    by (by rewrite Ht1, lookup_insert_eq).
  split_and!; [done..| | | |].
  - unfold tbl_get. by rewrite Hget.
  - unfold tbl_create. rewrite bool_decide_eq_false_2, tenant_of_ensure by done.
    fold k i. by rewrite Hget.
  - intros v' Hi' Hk'. by eapply tbl_update_existing.
  - unfold tbl_delete, tbl_get. rewrite Hget. eexists. split; [done|]. split.
    + rewrite flat_delete. unfold sp_create in Hsim. fold k i in Hsim.
      rewrite decide_False, flat_lookup, Hx in Hsim by done.
      injection Hsim as <-. apply delete_insert_id. by rewrite flat_lookup.
    + by rewrite tenant_of_insert, decide_True, lookup_delete_eq.
Qed.

(** ** A user name that is not unique *)
Definition sample_user (i : string) : User := mkUser i "t1" "ada" "" RoleViewer 0%Z 0%Z.

(** [CreateUser] does not refuse a user name that another user of the
    tenant already has, although the schema declares (tenant_id, username)
    unique; which of the two users a login by name then finds depends on the
    order in which the map is ranged over. *)
Theorem duplicate_username_accepted :
  ∃ m, (memory_run [(sorted_order, existT _ (OpCreateUser (sample_user "u1")));
                    (sorted_order, existT _ (OpCreateUser (sample_user "u2")))]
          NewMemoryStore) =
         ([Call (OpCreateUser (sample_user "u1")) (Ok (sample_user "u1"));
           Call (OpCreateUser (sample_user "u2")) (Ok (sample_user "u2"))], m) ∧
       (GetUserByUsername sorted_order "t1" "ada" m).1 ≠
       (GetUserByUsername reversed_order "t1" "ada" m).1.
Proof.
  eexists. split; [reflexivity|]. vm_compute. discriminate.
Qed.
