(* ===== verification/Graph.v ===== *)
(** * Flow graphs (internal/flow/graph.go)

    Parsing and validating a flow_json document: node checks in the order of
    the code, the adjacency lists, Kahn's algorithm. *)
From S2P Require Import Prelude GoStr GoValue GoSort Json.

Definition NodeTypeTrigger : string := "trigger".
Definition NodeTypeAgent : string := "agent".
Definition NodeTypeMcpTool : string := "mcp_tool".
Definition NodeTypeCondition : string := "condition".
Definition NodeTypeOutput : string := "output".

Definition TriggerManual : string := "manual".
Definition TriggerSchedule : string := "schedule".
Definition TriggerEvent : string := "event".

Definition OutputDatabase : string := "database".
Definition OutputModbus : string := "modbus".
Definition OutputFile : string := "file".
Definition OutputHTTP : string := "http".

Record Node := mkNode {
  Node_ID : string;
  Node_Type : string;
  Node_Name : string;
  Node_TriggerType : string;
  Node_Schedule : string;
  Node_AgentID : string;
  Node_ServerID : string;
  Node_Tool : string;
  Node_Arguments : option (gmap string value);
  Node_Expression : string;
  Node_Kind : string;
  Node_Target : string;
  Node_Value : value;
  Node_Method : string
}.

Record Edge := mkEdge {
  Edge_ID : string;
  Edge_Source : string;
  SourceHandle : string;
  Edge_Target : string;
  TargetHandle : string
}.

#[export] Instance Edge_eq_dec : EqDecision Edge.
Proof. solve_decision. Defined.

Record FlowDef := mkFlowDef {
  Def_ID : string;
  Def_Name : string;
  Def_Nodes : list Node;
  Def_Edges : list Edge
}.

Record Graph := mkGraph {
  Nodes : gmap string Node;
  Edges : list Edge;
  adj : gmap string (list Edge);
  order : list string
}.

Definition zero_Node : Node := mkNode "" "" "" "" "" "" "" "" None "" "" "" VNil "".
Definition zero_Edge : Edge := mkEdge "" "" "" "" "".
Definition zero_FlowDef : FlowDef := mkFlowDef "" "" [] [].

(** ** Decoding (the struct tags) *)
Definition Node_names : list string :=
  ["id"; "type"; "name"; "trigger_type"; "schedule"; "agent_id"; "server_id"; "tool";
   "arguments"; "expression"; "kind"; "target"; "value"; "method"].

Definition Node_field (name : string) : decoder Node := λ j n,
  let '(mkNode id ty nm tr sc ag sv tl args ex kd tg v mt) := n in
  if bool_decide (name = "id") then x ← dec_string j id; Ok (mkNode x ty nm tr sc ag sv tl args ex kd tg v mt)
  else if bool_decide (name = "type") then x ← dec_string j ty; Ok (mkNode id x nm tr sc ag sv tl args ex kd tg v mt)
  else if bool_decide (name = "name") then x ← dec_string j nm; Ok (mkNode id ty x tr sc ag sv tl args ex kd tg v mt)
  else if bool_decide (name = "trigger_type") then x ← dec_string j tr; Ok (mkNode id ty nm x sc ag sv tl args ex kd tg v mt)
  else if bool_decide (name = "schedule") then x ← dec_string j sc; Ok (mkNode id ty nm tr x ag sv tl args ex kd tg v mt)
  else if bool_decide (name = "agent_id") then x ← dec_string j ag; Ok (mkNode id ty nm tr sc x sv tl args ex kd tg v mt)
  else if bool_decide (name = "server_id") then x ← dec_string j sv; Ok (mkNode id ty nm tr sc ag x tl args ex kd tg v mt)
  else if bool_decide (name = "tool") then x ← dec_string j tl; Ok (mkNode id ty nm tr sc ag sv x args ex kd tg v mt)
  else if bool_decide (name = "arguments") then x ← dec_map j args; Ok (mkNode id ty nm tr sc ag sv tl x ex kd tg v mt)
  else if bool_decide (name = "expression") then x ← dec_string j ex; Ok (mkNode id ty nm tr sc ag sv tl args x kd tg v mt)
  else if bool_decide (name = "kind") then x ← dec_string j kd; Ok (mkNode id ty nm tr sc ag sv tl args ex x tg v mt)
  else if bool_decide (name = "target") then x ← dec_string j tg; Ok (mkNode id ty nm tr sc ag sv tl args ex kd x v mt)
  else if bool_decide (name = "value") then x ← dec_any j v; Ok (mkNode id ty nm tr sc ag sv tl args ex kd tg x mt)
  else x ← dec_string j mt; Ok (mkNode id ty nm tr sc ag sv tl args ex kd tg v x).

Definition dec_Node : decoder Node := dec_struct Node_names Node_field.

Definition Edge_names : list string := ["id"; "source"; "source_handle"; "target"; "target_handle"].

Definition Edge_field (name : string) : decoder Edge := λ j e,
  let '(mkEdge id s sh t th) := e in
  if bool_decide (name = "id") then x ← dec_string j id; Ok (mkEdge x s sh t th)
  else if bool_decide (name = "source") then x ← dec_string j s; Ok (mkEdge id x sh t th)
  else if bool_decide (name = "source_handle") then x ← dec_string j sh; Ok (mkEdge id s x t th)
  else if bool_decide (name = "target") then x ← dec_string j t; Ok (mkEdge id s sh x th)
  else x ← dec_string j th; Ok (mkEdge id s sh t x).

Definition dec_Edge : decoder Edge := dec_struct Edge_names Edge_field.

Definition FlowDef_names : list string := ["id"; "name"; "nodes"; "edges"].

Definition FlowDef_field (name : string) : decoder FlowDef := λ j d,
  let '(mkFlowDef id nm ns es) := d in
  if bool_decide (name = "id") then x ← dec_string j id; Ok (mkFlowDef x nm ns es)
  else if bool_decide (name = "name") then x ← dec_string j nm; Ok (mkFlowDef id x ns es)
  else if bool_decide (name = "nodes") then x ← dec_slice zero_Node dec_Node j ns; Ok (mkFlowDef id nm x es)
  else x ← dec_slice zero_Edge dec_Edge j es; Ok (mkFlowDef id nm ns x).

Definition dec_FlowDef : decoder FlowDef := dec_struct FlowDef_names FlowDef_field.

(** ** Node checks *)
Definition validOutputKind (kind : string) : bool :=
  bool_decide (kind ∈ [OutputDatabase; OutputModbus; OutputFile; OutputHTTP]).

(** [None] is a nil error. *)
Definition validateNode (n : Node) : option error :=
  let id := FStr (Node_ID n) in
  if bool_decide (Node_Type n = NodeTypeTrigger) then
    if bool_decide (Node_TriggerType n ∈ [""; TriggerManual; TriggerSchedule; TriggerEvent]) then None
    else Some (Errorf "flow: node %q has invalid trigger_type %q" [id; FStr (Node_TriggerType n)])
  else if bool_decide (Node_Type n = NodeTypeAgent) then
    if bool_decide (Node_AgentID n = "")
    then Some (Errorf "flow: agent node %q missing agent_id" [id]) else None
  else if bool_decide (Node_Type n = NodeTypeMcpTool) then
    if bool_decide (Node_ServerID n = "")
    then Some (Errorf "flow: mcp_tool node %q missing server_id" [id])
    else if bool_decide (Node_Tool n = "")
    then Some (Errorf "flow: mcp_tool node %q missing tool" [id]) else None
  else if bool_decide (Node_Type n = NodeTypeCondition) then
    if bool_decide (Node_Expression n = "")
    then Some (Errorf "flow: condition node %q missing expression" [id]) else None
  else if bool_decide (Node_Type n = NodeTypeOutput) then
    if negb (validOutputKind (Node_Kind n))
    then Some (Errorf "flow: output node %q has invalid kind %q" [id; FStr (Node_Kind n)])
    else if bool_decide (Node_Target n = "")
    then Some (Errorf "flow: output node %q missing target" [id]) else None
  else Some (Errorf "flow: node %q has invalid type %q" [id; FStr (Node_Type n)]).

Definition nodeIDs (nodes : list Node) : list string := Node_ID <$> nodes.

(** ** buildGraph *)
Definition err_no_nodes : error := ErrorsNew "flow: graph has no nodes".
Definition err_empty_id : error := ErrorsNew "flow: node with empty id".
Definition err_cycle : error := ErrorsNew "flow: graph contains a cycle".

(** The loop over [def.Nodes]: the map of nodes and the count of triggers. *)
Fixpoint scan_nodes (ns : list Node) (seen : gmap string Node) (triggers : Z)
    : outcome (gmap string Node * Z) :=
  match ns with
  | [] => Ok (seen, triggers)
  | n :: ns' =>
      if bool_decide (Node_ID n = "") then Err err_empty_id
      else match seen !! Node_ID n with
      | Some _ => Err (Errorf "flow: duplicate node id %q" [FStr (Node_ID n)])
      | None =>
          match validateNode n with
          | Some e => Err e
          | None =>
              scan_nodes ns' (<[Node_ID n := n]> seen)
                (if bool_decide (Node_Type n = NodeTypeTrigger) then triggers + 1 else triggers)%Z
          end
      end
  end.

(** Reading a map of integers or of lists at an absent key. *)
Definition degree (inDegree : gmap string Z) (id : string) : Z := default 0%Z (inDegree !! id).
Definition out_edges (a : gmap string (list Edge)) (id : string) : list Edge := default [] (a !! id).

(** The loop over [def.Edges]. *)
Fixpoint scan_edges (es : list Edge) (nodes : gmap string Node)
    (a : gmap string (list Edge)) (inDegree : gmap string Z)
    : outcome (gmap string (list Edge) * gmap string Z) :=
  match es with
  | [] => Ok (a, inDegree)
  | e :: es' =>
      match nodes !! Edge_Source e with
      | None => Err (Errorf "flow: edge %q references unknown source node %q"
                       [FStr (Edge_ID e); FStr (Edge_Source e)])
      | Some _ =>
          match nodes !! Edge_Target e with
          | None => Err (Errorf "flow: edge %q references unknown target node %q"
                           [FStr (Edge_ID e); FStr (Edge_Target e)])
          | Some _ =>
              scan_edges es' nodes
                (<[Edge_Source e := out_edges a (Edge_Source e) ++ [e]]> a)
                (<[Edge_Target e := (degree inDegree (Edge_Target e) + 1)%Z]> inDegree)
          end
      end
  end.

(** The inner loop of Kahn's algorithm: one step for each edge out of the
    node just taken from the queue. *)
Fixpoint relax (es : list Edge) (inDegree : gmap string Z) (queue : list string)
    : gmap string Z * list string :=
  match es with
  | [] => (inDegree, queue)
  | e :: es' =>
      let d := (degree inDegree (Edge_Target e) - 1)%Z in
      relax es' (<[Edge_Target e := d]> inDegree)
        (if bool_decide (d = 0%Z) then queue ++ [Edge_Target e] else queue)
  end.

(** [for len(queue) > 0 { ... }] *)
Fixpoint kahn (fuel : nat) (a : gmap string (list Edge)) (queue : list string)
    (inDegree : gmap string Z) (order : list string) (remaining : Z)
    : outcome (list string * Z) :=
  match fuel with 0 => NoFuel | S f =>
    match queue with
    | [] => Ok (order, remaining)
    | cur :: queue' =>
        let '(inDegree', queue'') := relax (out_edges a cur) inDegree queue' in
        kahn f a queue'' inDegree' (order ++ [cur]) (remaining - 1)%Z
    end
  end.

Definition buildGraph (def : FlowDef) : outcome Graph :=
  if bool_decide (length (Def_Nodes def) = 0) then Err err_no_nodes
  else
    '(nodes, triggers) ← scan_nodes (Def_Nodes def) ∅ 0;
    if negb (bool_decide (triggers = 1%Z))
    then Err (Errorf "flow: expected exactly one trigger node, found %d" [FInt triggers])
    else
      let ids := nodeIDs (Def_Nodes def) in
      let inDegree0 := foldl (λ m id, <[id := 0%Z]> m) ∅ ids in
      '(a, inDegree) ← scan_edges (Def_Edges def) nodes ∅ inDegree0;
      let queue := filter (λ id, degree inDegree id = 0%Z) ids in
      '(ord, remaining) ←
        kahn (S (length (Def_Nodes def))) a queue inDegree [] (Z.of_nat (length (Def_Nodes def)));
      if negb (bool_decide (remaining = 0%Z)) then Err err_cycle
      else Ok (mkGraph nodes (Def_Edges def) a ord).

Definition ParseAndValidate (flowJSON : RawMessage) : outcome Graph :=
  match (j ← raw_tree flowJSON; dec_FlowDef j zero_FlowDef) with
  | Ok def => buildGraph def
  | Err e => Err (Wrapf "flow: malformed flow_json: %w" [] e)
  | Panic w => Panic w
  | NoFuel => NoFuel
  end.

(** ** Reading a graph *)
Definition TopologicalOrder (g : Graph) : list string := order g.

Definition OutgoingEdges (g : Graph) (nodeID handle : string) : list Edge :=
  filter (λ e, SourceHandle e = handle) (out_edges (adj g) nodeID).

(** The first trigger in the order the node map is ranged over. *)
Definition Trigger (o : MapOrder) (g : Graph) : outcome Node :=
  match filter (λ n, Node_Type n = NodeTypeTrigger) (range_values o (Nodes g)) with
  | n :: _ => Ok n
  | [] => Err (ErrorsNew "flow: no trigger node")
  end.
