(* ===== verification/GraphSpec.v ===== *)
(** * What buildGraph accepts and what it builds

    The declarative reading of a valid flow definition (distinct non-empty
    identifiers, valid nodes, one trigger, edges between known nodes, no
    cycle), the invariant of Kahn's algorithm, and the proof that
    [buildGraph] succeeds exactly on the valid definitions and then returns a
    topological order; it always has enough fuel. *)
From S2P Require Import Prelude GoStr GoValue GoSort Json Graph.

(** ** Valid definitions *)
Definition edge_between (es : list Edge) (u v : string) : Prop :=
  ∃ e, e ∈ es ∧ Edge_Source e = u ∧ Edge_Target e = v.

Definition acyclic (es : list Edge) : Prop := ¬ ∃ v, tc (edge_between es) v v.

Record valid_nodes (ns : list Node) : Prop := {
  vn_ids : NoDup (nodeIDs ns);
  vn_nonempty : Forall (λ n, Node_ID n ≠ "") ns;
  vn_valid : Forall (λ n, validateNode n = None) ns;
}.

Definition one_trigger (ns : list Node) : Prop :=
  length (filter (λ n, Node_Type n = NodeTypeTrigger) ns) = 1.

Definition known_ends (ns : list Node) (es : list Edge) : Prop :=
  Forall (λ e, Edge_Source e ∈ nodeIDs ns ∧ Edge_Target e ∈ nodeIDs ns) es.

Record valid_def (d : FlowDef) : Prop := {
  vd_nodes : valid_nodes (Def_Nodes d);
  vd_trigger : one_trigger (Def_Nodes d);
  vd_edges : known_ends (Def_Nodes d) (Def_Edges d)
}.

(** The map the node loop builds. *)
Definition node_map (ns : list Node) : gmap string Node :=
  list_to_map ((λ n, (Node_ID n, n)) <$> ns).

(** ** The node loop *)
Lemma node_map_elem ns n : NoDup (nodeIDs ns) → n ∈ ns → node_map ns !! Node_ID n = Some n.
Proof.
  intros Hnd Hn. apply elem_of_list_to_map.
  - by rewrite <- list_fmap_compose.
  - apply list_elem_of_fmap. eauto.
Qed.

Lemma node_map_Some ns i n : node_map ns !! i = Some n → n ∈ ns ∧ Node_ID n = i.
Proof. intros H%elem_of_list_to_map_2%list_elem_of_fmap. naive_solver. Qed.

Lemma node_map_is_Some ns i : is_Some (node_map ns !! i) ↔ i ∈ nodeIDs ns.
Proof.
  split.
  - intros [n [Hn <-]%node_map_Some]. apply list_elem_of_fmap. eauto.
  - intros H. apply not_eq_None_Some. intros Hnone.
    apply not_elem_of_list_to_map_2 in Hnone. apply Hnone.
    by rewrite <- list_fmap_compose.
Qed.

Definition count_triggers (ns : list Node) : Z :=
  Z.of_nat (length (filter (λ n, Node_Type n = NodeTypeTrigger) ns)).

Lemma scan_nodes_ok ns seen k :
  valid_nodes ns → (∀ n, n ∈ ns → seen !! Node_ID n = None) →
  scan_nodes ns seen k = Ok (node_map ns ∪ seen, (k + count_triggers ns)%Z).
Proof.
  revert seen k; induction ns as [|n ns IH]; intros seen k [Hnd Hne Hv] Hseen.
  - simpl. unfold node_map, count_triggers. simpl. by rewrite left_id_L, Z.add_0_r by apply _.
  - unfold nodeIDs in Hnd. simpl in *.
    apply NoDup_cons in Hnd as [Hn Hnd]. apply Forall_cons in Hne as [Hne1 Hne].
    apply Forall_cons in Hv as [Hv1 Hv].
    rewrite bool_decide_eq_false_2, Hseen, Hv1 by (done || by left).
    assert (Hn' : ∀ m, m ∈ ns → Node_ID m ≠ Node_ID n).
    { intros m Hm E. apply Hn. rewrite <- E. apply list_elem_of_fmap. eauto. }
    rewrite IH; [|done|].
    + f_equal. f_equal.
      * unfold node_map. simpl. rewrite <- insert_union_r, insert_union_l; [done|].
        apply not_elem_of_list_to_map_1. by rewrite <- list_fmap_compose.
      * unfold count_triggers. rewrite filter_cons. case_bool_decide as E.
        -- rewrite decide_True by done. simpl. lia.
        -- by rewrite decide_False.
    + intros m Hm. rewrite lookup_insert_ne by (by apply not_eq_sym, Hn'). apply Hseen. by right.
Qed.

(** The loop only succeeds on valid nodes, and never panics. *)
Lemma scan_nodes_inv ns seen k :
  match scan_nodes ns seen k with
  | Ok _ => valid_nodes ns ∧ ∀ n, n ∈ ns → seen !! Node_ID n = None
  | Err e => e ≠ err_cycle
  | _ => False
  end.
Proof.
  assert (Hve : ∀ n e, validateNode n = Some e → e ≠ err_cycle).
  { intros n e. unfold validateNode. unfold err_cycle. repeat case_if; congruence. }
  revert seen k; induction ns as [|n ns IH]; intros seen k; simpl.
  { split; [by repeat constructor|]. by intros n ?%elem_of_nil. }
  case_bool_decide as Hne; [done|]. destruct (seen !! Node_ID n) eqn:Hs; [done|].
  destruct (validateNode n) eqn:Hv; [by eapply Hve|].
  match goal with |- match ?r with _ => _ end => pose proof (IH (<[Node_ID n := n]> seen)
    (if bool_decide (Node_Type n = NodeTypeTrigger) then (k + 1)%Z else k)) as H; destruct r end;
    try done.
  destruct H as [[Hnd Hne' Hv'] Hseen]. split.
  - constructor; [|by constructor..]. unfold nodeIDs. simpl. constructor; [|done].
    intros (m & E & Hm)%list_elem_of_fmap. specialize (Hseen m Hm).
    by rewrite <- E, lookup_insert_eq in Hseen.
  - intros m [->|Hm]%elem_of_cons; [done|]. specialize (Hseen m Hm).
    by apply lookup_insert_None in Hseen as [? _].
Qed.

(** ** The edge loop *)
Definition targets (es : list Edge) (v : string) : Z :=
  Z.of_nat (length (filter (λ e, Edge_Target e = v) es)).

Lemma targets_cons e es v :
  targets (e :: es) v = ((if decide (Edge_Target e = v) then 1 else 0) + targets es v)%Z.
Proof. unfold targets. rewrite filter_cons. case_decide; simpl; lia. Qed.

Lemma degree_insert d i j z :
  degree (<[i := z]> d) j = if decide (i = j) then z else degree d j.
Proof.
  unfold degree. case_decide; subst; [by rewrite lookup_insert_eq|by rewrite lookup_insert_ne].
Qed.

Lemma out_edges_insert a i j l :
  out_edges (<[i := l]> a) j = if decide (i = j) then l else out_edges a j.
Proof.
  unfold out_edges. case_decide; subst; [by rewrite lookup_insert_eq|by rewrite lookup_insert_ne].
Qed.

Definition ends_in (nodes : gmap string Node) (e : Edge) : Prop :=
  is_Some (nodes !! Edge_Source e) ∧ is_Some (nodes !! Edge_Target e).

Lemma scan_edges_spec es nodes a d :
  match scan_edges es nodes a d with
  | Ok (a', d') =>
      Forall (ends_in nodes) es ∧
      (∀ u, out_edges a' u = out_edges a u ++ filter (λ e, Edge_Source e = u) es) ∧
      (∀ v, degree d' v = degree d v + targets es v)%Z
  | Err e => e ≠ err_cycle ∧ ¬ Forall (ends_in nodes) es
  | _ => False
  end.
Proof.
  revert a d; induction es as [|e es IH]; intros a d; simpl.
  { split_and!; [constructor|intros u; by rewrite app_nil_r|intros v; unfold targets; simpl; lia]. }
  destruct (nodes !! Edge_Source e) eqn:Hs; [|split; [done|]; intros [[Hx _] _]%Forall_cons; rewrite Hs in Hx; by destruct Hx].
  destruct (nodes !! Edge_Target e) eqn:Ht; [|split; [done|]; intros [[_ Hx] _]%Forall_cons; rewrite Ht in Hx; by destruct Hx].
  match goal with |- match scan_edges _ _ ?a' ?d' with _ => _ end =>
    specialize (IH a' d'); destruct (scan_edges es nodes a' d') as [[a2 d2]|?|?|] end; try done.
  - destruct IH as (Hes & Ha & Hd). split_and!.
    + constructor; [|done]. split; by eexists.
    + intros u. rewrite Ha, out_edges_insert, filter_cons.
      case_decide; subst; [by rewrite <- app_assoc|done].
    + intros v. rewrite Hd, degree_insert, targets_cons. case_decide; subst; lia.
  - destruct IH as [He Hn]. split; [done|]. by intros [_ Hes]%Forall_cons.
Qed.

(** ** Kahn's algorithm *)
Section Kahn.
Context (ids : list string) (es : list Edge) (a : gmap string (list Edge)).
Context (ends_known : Forall (λ e, Edge_Source e ∈ ids ∧ Edge_Target e ∈ ids) es).
Context (adj_es : ∀ u, out_edges a u = filter (λ e, Edge_Source e = u) es).

(** The edges into [v] from nodes that are not in [ord]. *)
Definition pending (ord : list string) (v : string) : Z :=
  Z.of_nat (length (filter (λ e, Edge_Target e = v ∧ Edge_Source e ∉ ord) es)).

Lemma pending_nonneg ord v : (0 ≤ pending ord v)%Z.
Proof. unfold pending. lia. Qed.

Lemma targets_nonneg l v : (0 ≤ targets l v)%Z.
Proof. unfold targets. lia. Qed.

Lemma pending_nil v : pending [] v = targets es v.
Proof.
  unfold pending, targets. f_equal. f_equal. apply list_filter_iff.
  intros e. split; [by intros []|]. intros; split; [done|apply not_elem_of_nil].
Qed.

Lemma pending_snoc ord cur v :
  cur ∉ ord →
  pending ord v = (pending (ord ++ [cur]) v + targets (filter (λ e, Edge_Source e = cur) es) v)%Z.
Proof.
  clear ends_known adj_es. intros Hc. unfold pending, targets.
  induction es as [|e l IH]; [done|]. rewrite !filter_cons.
  destruct (decide (Edge_Source e = cur)) as [<-|Hne].
  - rewrite filter_cons. destruct (decide (Edge_Target e = v)) as [<-|Ht].
    + rewrite decide_True by done. rewrite decide_False by set_solver.
      simpl in *. lia.
    + rewrite decide_False by naive_solver. rewrite decide_False by naive_solver. done.
  - destruct (decide (Edge_Target e = v ∧ Edge_Source e ∉ ord)) as [[Ht Hs]|Hn].
    + rewrite decide_True by set_solver. simpl in *. lia.
    + rewrite decide_False by set_solver. done.
Qed.

Lemma pending_zero ord v u : pending ord v = 0%Z → edge_between es u v → u ∈ ord.
Proof.
  unfold pending. intros H (e & He & Hs & Ht).
  destruct (decide (u ∈ ord)) as [|Hu]; [done|exfalso].
  assert (Hin : e ∈ filter (λ e, Edge_Target e = v ∧ Edge_Source e ∉ ord) es).
  { apply list_elem_of_filter. by subst. }
  destruct (filter _ es); [by apply elem_of_nil in Hin|simpl in H; lia].
Qed.

Lemma pending_pos ord v : pending ord v ≠ 0%Z → ∃ u, edge_between es u v ∧ u ∉ ord ∧ u ∈ ids.
Proof using ends_known.
  unfold pending. intros H.
  destruct (filter _ es) as [|e l] eqn:E; [done|].
  assert (Hin : e ∈ filter (λ e, Edge_Target e = v ∧ Edge_Source e ∉ ord) es)
    by (rewrite E; by left).
  apply list_elem_of_filter in Hin as [[Ht Hs] He].
  exists (Edge_Source e). split_and!; [by exists e|done|].
  eapply list.Forall_forall in ends_known; [|exact He]. by destruct ends_known.
Qed.

(** The state between two steps of the inner loop: [l] are the edges out of
    the last node of [ord] that are still to be counted. *)
Record kahn_state (l : list Edge) (d : gmap string Z) (queue ord : list string) : Prop := {
  ks_nodup : NoDup (ord ++ queue);
  ks_degree : ∀ v, degree d v = (pending ord v + targets l v)%Z;
  ks_ready : ∀ v, v ∈ ord ++ queue ↔ v ∈ ids ∧ (pending ord v + targets l v = 0)%Z
}.

Definition topological (ord : list string) : Prop :=
  ∀ i v, ord !! i = Some v → ∀ u, edge_between es u v → ∃ j, j < i ∧ ord !! j = Some u.

Lemma relax_state l d queue ord d' queue' :
  Forall (λ e, Edge_Target e ∈ ids) l →
  kahn_state l d queue ord → relax l d queue = (d', queue') → kahn_state [] d' queue' ord.
Proof.
  revert d queue; induction l as [|e l IH]; intros d queue Hl [Hnd Hdeg Hready] H; simpl in H.
  { by simplify_eq. }
  apply Forall_cons in Hl as [Ht Hl]. eapply IH; [exact Hl| |exact H]. clear IH H.
  set (t := Edge_Target e) in *.
  pose proof (Hdeg t) as Hdt. rewrite targets_cons, decide_True in Hdt by done.
  pose proof (pending_nonneg ord t). pose proof (targets_nonneg l t).
  assert (Hfresh : t ∉ ord ++ queue).
  { intros Hin. apply Hready in Hin as [_ Hin]. rewrite targets_cons, decide_True in Hin by done. lia. }
  assert (Hmem : ∀ v, v ∈ ord ++ (if bool_decide (degree d t - 1 = 0)%Z then queue ++ [t] else queue) ↔
    v ∈ ord ++ queue ∨ v = t ∧ (degree d t - 1 = 0)%Z).
  { intros v. case_bool_decide; set_solver. }
  constructor.
  - case_bool_decide; [|done]. rewrite app_assoc. apply NoDup_app. split_and!; [done| |apply NoDup_singleton].
    intros x Hx ->%list_elem_of_singleton. done.
  - intros v. rewrite degree_insert. destruct (decide (t = v)) as [<-|E]; [lia|].
    rewrite Hdeg, targets_cons, decide_False by done. lia.
  - intros v. rewrite Hmem, Hready, targets_cons. fold t.
    destruct (decide (t = v)) as [<-|Hne].
    + split; [intros [[? ?]|[_ ?]]; (split; [done|lia])|intros [_ ?]; right; split; [done|lia]].
    + split; [intros [?|[-> _]]; naive_solver|naive_solver].
Qed.

(** Taking [cur] from the queue. *)
Lemma pop_state d cur queue ord :
  kahn_state [] d (cur :: queue) ord → topological ord →
  kahn_state (out_edges a cur) d queue (ord ++ [cur]) ∧ topological (ord ++ [cur]).
Proof using adj_es.
  intros [Hnd Hdeg Hready] Htopo.
  assert (Hc : cur ∉ ord).
  { apply NoDup_app in Hnd as (_ & H & _). intros Hin. apply (H cur Hin). by left. }
  assert (Hsum : ∀ v, (pending (ord ++ [cur]) v + targets (out_edges a cur) v
                       = pending ord v + targets [] v)%Z).
  { intros v. rewrite adj_es, <- pending_snoc by done. unfold targets. simpl. lia. }
  split; [constructor|].
  - by rewrite <- app_assoc.
  - intros v. by rewrite Hdeg, Hsum.
  - intros v. rewrite <- app_assoc, Hsum. simpl. apply Hready.
  - intros i v Hi u Hu. apply lookup_app_Some in Hi as [Hi|[Hle Hi]].
    + destruct (Htopo i v Hi u Hu) as (j & Hj & Hju). exists j. split; [done|].
      by apply lookup_app_l_Some.
    + apply list_lookup_singleton_Some in Hi as [Hi <-].
      assert (Hp : pending ord cur = 0%Z).
      { destruct (proj1 (Hready cur)) as [_ Hp]; [apply elem_of_app; right; by left|].
        unfold targets in Hp. simpl in Hp. lia. }
      apply (pending_zero _ _ u) in Hp; [|done].
      apply list_elem_of_lookup in Hp as [j Hj]. exists j. split.
      * apply lookup_lt_Some in Hj. lia.
      * by apply lookup_app_l_Some.
Qed.

Lemma targets_of_node u : Forall (λ e, Edge_Target e ∈ ids) (out_edges a u).
Proof using adj_es ends_known.
  rewrite adj_es. apply list.Forall_forall. intros e [_ He]%list_elem_of_filter.
  eapply list.Forall_forall in ends_known; [|exact He]. by destruct ends_known.
Qed.

(** The loop ends, with every node of the queue behind it. *)
Lemma kahn_run fuel d queue ord rem :
  length ids < fuel + length ord →
  kahn_state [] d queue ord → topological ord →
  ∃ ord' d', kahn fuel a queue d ord rem
               = Ok (ord', rem - Z.of_nat (length ord') + Z.of_nat (length ord))%Z ∧
             kahn_state [] d' [] ord' ∧ topological ord'.
Proof using adj_es ends_known.
  revert d queue ord rem; induction fuel as [|f IH]; intros d queue ord rem Hf Hst Htopo.
  - exfalso. destruct Hst as [Hnd _ Hready].
    assert (length (ord ++ queue) ≤ length ids); [|rewrite length_app in *; lia].
    apply submseteq_length, NoDup_submseteq; [done|]. intros v Hv. by apply Hready in Hv as [? _].
  - simpl. destruct queue as [|cur queue].
    { exists ord, d. split; [|done]. f_equal. f_equal. lia. }
    destruct (relax (out_edges a cur) d queue) as [d' queue'] eqn:E.
    destruct (pop_state _ _ _ _ Hst Htopo) as [Hst' Htopo'].
    eapply relax_state in Hst'; [|apply targets_of_node|exact E].
    destruct (IH d' queue' (ord ++ [cur]) (rem - 1)%Z) as (ord' & d'' & Hk & ?);
      [rewrite length_app; simpl; lia|done..|].
    exists ord', d''. split; [|done]. rewrite Hk, length_app. simpl. f_equal. f_equal. lia.
Qed.

(** At the end: all nodes ordered, or a cycle. *)
Lemma walk_back (rest path : list string) x :
  (∀ v, v ∈ rest → ∃ u, edge_between es u v ∧ u ∈ rest) →
  x ∈ rest → NoDup path → (∀ y, y ∈ path → y ∈ rest ∧ rtc (edge_between es) x y) →
  x ∈ path →
  ∀ n, length rest - length path ≤ n → ∃ v, tc (edge_between es) v v.
Proof.
  intros Hpred Hx Hnd Hpath Hxp n. revert path x Hx Hnd Hpath Hxp.
  induction n as [|n IH]; intros path x Hx Hnd Hpath Hxp Hn;
    destruct (Hpred x Hx) as (u & Hu & Hur);
    (destruct (decide (u ∈ path)) as [Hup|Hup];
      [exists u; eapply tc_rtc_r; [by apply tc_once|by apply Hpath]|]).
  - exfalso. assert (length (u :: path) ≤ length rest); [|simpl in *; lia].
    apply submseteq_length, NoDup_submseteq; [by constructor|].
    intros y [->|Hy]%elem_of_cons; [done|]. by apply Hpath.
  - apply (IH (u :: path) u Hur); [by constructor| |by left|simpl; lia].
    intros y [->|Hy]%elem_of_cons; [done|]. split; [by apply Hpath|].
    eapply rtc_l; [exact Hu|by apply Hpath].
Qed.

Lemma stuck_cycle d ord :
  kahn_state [] d [] ord → (∃ v, v ∈ ids ∧ v ∉ ord) → ∃ v, tc (edge_between es) v v.
Proof using ends_known.
  intros [_ _ Hready] (x & Hx & Hxo).
  set (rest := filter (λ v, v ∉ ord) ids).
  assert (Hin : ∀ v, v ∈ rest ↔ v ∉ ord ∧ v ∈ ids) by (intros v; apply (list_elem_of_filter (λ v, v ∉ ord))).
  eapply (walk_back rest [x] x); [|by apply Hin|apply NoDup_singleton| |by left|reflexivity].
  - intros v [Hvo Hv]%Hin.
    destruct (pending_pos ord v) as (u & Hu & Huo & Hui); [|exists u; split; [done|by apply Hin]].
    intros Hp. apply Hvo. rewrite <- (app_nil_r ord). apply Hready. split; [done|].
    rewrite Hp. done.
  - intros y ->%list_elem_of_singleton. split; [by apply Hin|done].
Qed.

Lemma topological_tc ord u v i :
  topological ord → tc (edge_between es) u v → ord !! i = Some v →
  ∃ j, j < i ∧ ord !! j = Some u.
Proof.
  intros Ht H. revert i; induction H as [u v H|u w v H _ IH]; intros i Hi; [by eapply Ht|].
  destruct (IH i Hi) as (j & Hj & Hw). destruct (Ht j w Hw u H) as (k & Hk & Hku).
  exists k. split; [lia|done].
Qed.

Lemma topological_acyclic ord :
  NoDup ord → topological ord → (∀ v, v ∈ ids → v ∈ ord) → acyclic es.
Proof using ends_known.
  intros Hnd Ht Hall [v Hv].
  assert (Hvi : v ∈ ids).
  { assert (∃ w, edge_between es v w) as (w & e & He & <- & _) by (inversion Hv; eauto).
    eapply list.Forall_forall in ends_known; [|exact He]. by destruct ends_known. }
  apply Hall, list_elem_of_lookup in Hvi as [i Hi].
  destruct (topological_tc ord v v i Ht Hv Hi) as (j & Hj & Hjv).
  pose proof (NoDup_lookup _ _ _ _ Hnd Hi Hjv). lia.
Qed.
End Kahn.

(** ** buildGraph *)
Lemma zero_degrees ids v : degree (foldl (λ m id, <[id := 0%Z]> m) ∅ ids) v = 0%Z.
Proof.
  assert (H : ∀ m, degree m v = 0%Z → degree (foldl (λ m id, <[id := 0%Z]> m) m ids) v = 0%Z).
  { induction ids as [|i ids IH]; intros m Hm; simpl; [done|]. apply IH.
    rewrite degree_insert. by case_decide. }
  by apply H.
Qed.

(** The graph built from a definition. *)
Record graph_of (d : FlowDef) (g : Graph) : Prop := {
  go_nodes : Nodes g = node_map (Def_Nodes d);
  go_edges : Edges g = Def_Edges d;
  go_adj : ∀ u, out_edges (adj g) u = filter (λ e, Edge_Source e = u) (Def_Edges d);
  go_order : order g ≡ₚ nodeIDs (Def_Nodes d);
  go_topological : topological (Def_Edges d) (order g)
}.

Lemma ends_in_known ns es : Forall (ends_in (node_map ns)) es ↔ known_ends ns es.
Proof.
  unfold known_ends, ends_in. split; intros H; (eapply Forall_impl; [exact H|]);
    intros e; cbv beta; by rewrite !node_map_is_Some.
Qed.

(** The initial state of the loop. *)
Lemma kahn_start ns es d :
  NoDup (nodeIDs ns) → (∀ v, degree d v = targets es v) →
  kahn_state (nodeIDs ns) es [] d (filter (λ id, degree d id = 0%Z) (nodeIDs ns)) [].
Proof.
  intros Hnd Hdeg. constructor; simpl.
  - by apply NoDup_filter.
  - intros v. rewrite Hdeg, pending_nil. unfold targets at 3. simpl. lia.
  - intros v. rewrite list_elem_of_filter, Hdeg, pending_nil. unfold targets at 3. simpl.
    rewrite Z.add_0_r. tauto.
Qed.

Lemma buildGraph_cases d :
  match buildGraph d with
  | Ok g => valid_def d ∧ acyclic (Def_Edges d) ∧ graph_of d g
  | Err e => if decide (e = err_cycle)
             then valid_def d ∧ ∃ v, tc (edge_between (Def_Edges d)) v v
             else ¬ valid_def d
  | _ => False
  end.
Proof.
  destruct d as [did dname ns es]. unfold buildGraph. cbn [Def_Nodes Def_Edges].
  case_bool_decide as Hempty.
  { simpl. intros [_ Ht _]. destruct ns; done. }
  pose proof (scan_nodes_inv ns ∅ 0) as Hsn.
  destruct (scan_nodes ns ∅ 0) as [[nodes k]|e|w|] eqn:En; try done; cycle 1.
  { simpl. rewrite decide_False by done. intros [Hv _ _]. simpl in Hv.
    rewrite scan_nodes_ok in En; [done..|]. intros. apply lookup_empty. }
  destruct Hsn as [Hv _]. rewrite scan_nodes_ok in En by (done || (intros; apply lookup_empty)).
  injection En as <- <-. rewrite (right_id_L ∅ (∪) (node_map ns)).
  cbn [mbind outcome_bind]. case_bool_decide as Ht; cbn [negb]; cycle 1.
  { rewrite decide_False by done. intros [_ Ht' _]. simpl in Ht'. unfold one_trigger in Ht'.
    apply Ht. unfold count_triggers. by rewrite Ht'. }
  pose proof (scan_edges_spec es (node_map ns) ∅ (foldl (λ m id, <[id := 0%Z]> m) ∅ (nodeIDs ns))) as Hse.
  destruct (scan_edges es _ _ _) as [[a deg]|e|w|]; try done; cycle 1.
  { destruct Hse as [He Hn]. simpl. rewrite decide_False by done. intros [_ _ Hk].
    by apply Hn, ends_in_known. }
  destruct Hse as (Hk & Ha & Hdeg). cbn [mbind outcome_bind].
  apply ends_in_known in Hk.
  assert (Hadj : ∀ u, out_edges a u = filter (λ e, Edge_Source e = u) es) by done.
  assert (Hd : ∀ v, degree deg v = targets es v) by (intros v; by rewrite Hdeg, zero_degrees).
  pose proof (kahn_start ns es deg (vn_ids _ Hv) Hd) as Hst.
  assert (Hlen : length (nodeIDs ns) = length ns) by (unfold nodeIDs; by rewrite length_fmap).
  destruct (kahn_run (nodeIDs ns) es a Hk Hadj (S (length ns)) deg
    (filter (λ id, degree deg id = 0%Z) (nodeIDs ns)) [] (Z.of_nat (length ns))
    ltac:(rewrite Hlen; simpl; lia) Hst ltac:(by intros i v)) as (ord & deg' & -> & Hst' & Htopo).
  assert (Hvalid : valid_def (mkFlowDef did dname ns es)).
  { constructor; [done| |done]. simpl. unfold one_trigger, count_triggers in *. lia. }
  assert (Hnd : NoDup ord) by (destruct Hst' as [H _ _]; by rewrite app_nil_r in H).
  assert (Hsub : ∀ v, v ∈ ord → v ∈ nodeIDs ns).
  { intros v Hin. destruct Hst' as [_ _ H]. rewrite app_nil_r in H. by apply H. }
  cbn [mbind outcome_bind]. case_bool_decide as Hrem; cbn [negb].
  - assert (Hperm : ord ≡ₚ nodeIDs ns).
    { apply submseteq_length_Permutation; [by apply NoDup_submseteq|]. simpl in Hrem. lia. }
    split_and!; [done| |].
    + eapply topological_acyclic; [exact Hk|exact Hnd|exact Htopo|]. intros v. by rewrite Hperm.
    + constructor; simpl; done.
  - rewrite decide_True by done. split; [done|].
    eapply stuck_cycle; [exact Hk|exact Hst'|].
    assert (Hex : ¬ Forall (λ v, v ∈ ord) (nodeIDs ns)).
    { intros Hall. apply Hrem. simpl.
      assert (length (nodeIDs ns) ≤ length ord).
      { apply submseteq_length, NoDup_submseteq; [by apply vn_ids|]. by apply list.Forall_forall. }
      assert (length ord ≤ length (nodeIDs ns)).
      { apply submseteq_length, NoDup_submseteq; [done|]. done. }
      lia. }
    apply not_Forall_Exists, Exists_exists in Hex; [|intros v; apply _].
    destruct Hex as (v & ? & ?). eauto.
Qed.

(** Parsing always answers. *)
Lemma Node_field_proper n : decoder_proper (Node_field n).
Proof. revert n. solve_field_proper Node_field. Qed.

Lemma Edge_field_proper n : decoder_proper (Edge_field n).
Proof. revert n. solve_field_proper Edge_field. Qed.
#[export] Hint Resolve Node_field_proper Edge_field_proper : decoders.

Lemma dec_Node_proper : decoder_proper dec_Node.
Proof. apply dec_struct_proper; auto with decoders. Qed.

Lemma dec_Edge_proper : decoder_proper dec_Edge.
Proof. apply dec_struct_proper; auto with decoders. Qed.
#[export] Hint Resolve dec_Node_proper dec_Edge_proper : decoders.

Lemma FlowDef_field_proper n : decoder_proper (FlowDef_field n).
Proof. revert n. solve_field_proper FlowDef_field. Qed.
#[export] Hint Resolve FlowDef_field_proper : decoders.

Lemma buildGraph_proper d : proper_outcome (buildGraph d).
Proof. pose proof (buildGraph_cases d) as H. by destruct (buildGraph d). Qed.

Lemma ParseAndValidate_proper raw : proper_outcome (ParseAndValidate raw).
Proof.
  unfold ParseAndValidate.
  assert (H : proper_outcome (j ← raw_tree raw; dec_FlowDef j zero_FlowDef)).
  { apply proper_bind; [apply raw_tree_proper|]. intros j _.
    apply dec_struct_proper. auto with decoders. }
  destruct (_ ≫= _) as [d|e|w|]; try done. apply buildGraph_proper.
Qed.

(** What the rest of the development uses of an accepted graph. *)
Lemma buildGraph_Ok d g :
  buildGraph d = Ok g → valid_def d ∧ acyclic (Def_Edges d) ∧ graph_of d g.
Proof. intros H. pose proof (buildGraph_cases d) as Hc. by rewrite H in Hc. Qed.

Lemma ParseAndValidate_Ok raw g :
  ParseAndValidate raw = Ok g → ∃ d, buildGraph d = Ok g.
Proof.
  unfold ParseAndValidate. destruct (_ ≫= _) as [d|e|w|]; try done. eauto.
Qed.

(** The trigger found does not depend on the order of the map. *)
Lemma filter_single {A} (P : A → Prop) `{∀ x, Decision (P x)} (l : list A) x :
  length (filter P l) = 1 → x ∈ l → P x → filter P l = [x].
Proof.
  intros Hl Hx Hp. assert (Hin : x ∈ filter P l) by (by apply list_elem_of_filter).
  destruct (filter P l) as [|y [|]]; try done. by apply list_elem_of_singleton in Hin as ->.
Qed.

Lemma range_values_node_map o ns :
  NoDup (nodeIDs ns) → range_values o (node_map ns) ≡ₚ ns.
Proof.
  intros Hnd. unfold range_values. rewrite range_perm. unfold node_map.
  rewrite map_to_list_to_map by (by rewrite <- list_fmap_compose).
  rewrite <- list_fmap_compose. by rewrite list_fmap_id.
Qed.

Lemma Trigger_unique d g :
  valid_def d → graph_of d g →
  ∃ n, n ∈ Def_Nodes d ∧ Node_Type n = NodeTypeTrigger ∧
       (∀ m, m ∈ Def_Nodes d → Node_Type m = NodeTypeTrigger → m = n) ∧
       ∀ o, Trigger o g = Ok n.
Proof.
  intros [Hv Ht _] Hg. unfold one_trigger in Ht.
  destruct (filter (λ n, Node_Type n = NodeTypeTrigger) (Def_Nodes d)) as [|n [|]] eqn:E; try done.
  assert (Hn : n ∈ filter (λ n, Node_Type n = NodeTypeTrigger) (Def_Nodes d)) by (rewrite E; by left).
  apply list_elem_of_filter in Hn as [Htype Hn].
  exists n. split_and!; [done|done| |].
  - intros m Hm Hmt.
    assert (Hin : m ∈ filter (λ n, Node_Type n = NodeTypeTrigger) (Def_Nodes d))
      by (by apply list_elem_of_filter).
    rewrite E in Hin. by apply list_elem_of_singleton in Hin.
  - intros o. unfold Trigger. rewrite (go_nodes _ _ Hg).
    assert (Hp : range_values o (node_map (Def_Nodes d)) ≡ₚ Def_Nodes d)
      by (apply range_values_node_map, Hv).
    rewrite (filter_single _ _ n); [done| | |done].
    + by rewrite Hp, E.
    + by rewrite Hp.
Qed.

(** ** Properties *)
Definition sample_node (i ty : string) : Node :=
  mkNode i ty "" "" "" "agent-1" "server-1" "tool" None "result" "file" "out.txt" VNil "".

Definition sample_edge (s t : string) : Edge := mkEdge "" s "" t "".

Definition sample_def : FlowDef :=
  mkFlowDef "" "" [sample_node "out" "output"; sample_node "t" "trigger"; sample_node "a" "agent"]
    [sample_edge "a" "out"; sample_edge "t" "a"; sample_edge "t" "out"].

Definition cyclic_def : FlowDef :=
  mkFlowDef "" "" [sample_node "t" "trigger"; sample_node "a" "agent"; sample_node "b" "agent"]
    [sample_edge "t" "a"; sample_edge "a" "b"; sample_edge "b" "a"].

Definition sample_raw : RawMessage :=
  RawDoc (JObj
    [("nodes", JArr
       [JObj [("id", JStr "t"); ("TYPE", JStr "trigger"); ("value", JObj [("n", JNum (NInt 4))])];
        JObj [("id", JStr "a"); ("type", JStr "agent"); ("agent_id", JStr "agent-1")]]);
     ("edges", JArr [JObj [("source", JStr "t"); ("target", JStr "a")]])]).

Example sample_raw_order :
  (g ← ParseAndValidate sample_raw; Ok (TopologicalOrder g)) = Ok ["t"; "a"].
Proof. vm_compute. reflexivity. Qed.

(** C2: [buildGraph] always answers, and it accepts a flow definition exactly
    when the definition is valid (distinct non-empty node ids, every node
    valid for its type, one trigger, edges between known nodes) and its edges
    have no cycle. The error "graph contains a cycle" is reported for the
    valid definitions that have a cycle and for no others. *)
Theorem buildGraph_accepts d :
  proper_outcome (buildGraph d) ∧
  ((∃ g, buildGraph d = Ok g) ↔ valid_def d ∧ acyclic (Def_Edges d)) ∧
  (buildGraph d = Err err_cycle ↔ valid_def d ∧ ∃ v, tc (edge_between (Def_Edges d)) v v).
Proof.
  pose proof (buildGraph_cases d) as H. unfold acyclic.
  destruct (buildGraph d) as [g|e|w|]; simpl; [| |done..].
  - destruct H as (Hv & Hac & _). split_and!; [done|split; eauto|]. split; [done|].
    intros [_ Hc]. by destruct Hac.
  - destruct (decide (e = err_cycle)) as [->|E].
    + destruct H as [Hv Hc]. split_and!; [done| |split; auto].
      split; [by intros [? ?]|]. by intros [_ []].
    + split_and!; [done| |split; [congruence|by intros []]].
      split; [by intros [? ?]|by intros []].
Qed.

(** C21: An accepted graph holds the definition's nodes under their ids and its
    edges; the edges out of a node are in the order of the declaration; its
    order lists every node once, each after all its predecessors; and the
    trigger found is the definition's only trigger node, whatever the order
    in which the node map is ranged over. *)
Theorem buildGraph_order d g :
  buildGraph d = Ok g →
  graph_of d g ∧ NoDup (TopologicalOrder g) ∧
  (∀ u h, OutgoingEdges g u h =
     filter (λ e, SourceHandle e = h) (filter (λ e, Edge_Source e = u) (Def_Edges d))) ∧
  ∃ n, n ∈ Def_Nodes d ∧ Node_Type n = NodeTypeTrigger ∧
       (∀ m, m ∈ Def_Nodes d → Node_Type m = NodeTypeTrigger → m = n) ∧
       ∀ o, Trigger o g = Ok n.
Proof.
  intros H. destruct (buildGraph_Ok d g H) as (Hv & _ & Hg). split_and!; [done| | |].
  - unfold TopologicalOrder. rewrite (go_order _ _ Hg). apply Hv.
  - intros u h. unfold OutgoingEdges. by rewrite (go_adj _ _ Hg).
  - by apply Trigger_unique.
Qed.

Lemma buildGraph_order_witness :
  ∃ g, buildGraph sample_def = Ok g ∧ TopologicalOrder g = ["t"; "a"; "out"] ∧
       NoDup (TopologicalOrder g) ∧ buildGraph cyclic_def = Err err_cycle.
Proof.
  eexists. split; [vm_compute; reflexivity|]. split; [reflexivity|].
  split; [|vm_compute; reflexivity].
  apply (buildGraph_order sample_def). vm_compute. reflexivity.
Defined.
