(* ===== verification/SideEffects.v ===== *)
(** * Side effects and their rollback (internal/flow/rollback.go)

    The SideEffectStore interface as a class with its laws, the rollback log
    of one execution, and [MemorySideEffectStore].  Every method of the
    memory store runs under its lock: one step of its state.  Identifiers of
    records come from a supply ([uuid_at]), one per call. *)
From S2P Require Import Prelude GoStr GoValue.

Record Effect := mkEffect {
  Effect_Kind : string;
  Effect_Target : string;
  Effect_Value : value;
  Effect_Meta : gmap string value
}.

Record EffectRecord := mkEffectRecord {
  Rec_ID : string;
  Rec_Effect : Effect;
  PriorValue : value
}.

(** ** The interface *)
Class SideEffectStore (S : Type) := {
  Apply : Effect → M S EffectRecord;
  Undo : EffectRecord → M S unit
}.

(** What a rollback relies on: undoing a record in a state like the one its
    effect left brings back a state like the one before it; an effect that
    fails leaves nothing behind; neither panics. *)
Class SideEffectLaws (S : Type) `{SideEffectStore S} := {
  se_equiv :: Equiv S;
  se_equivalence :: Equivalence (≡@{S});
  apply_proper : ∀ e (s : S), proper_outcome (Apply e s).1;
  apply_record : ∀ e (s s1 : S) r, Apply e s = (Ok r, s1) → Rec_Effect r = e;
  apply_failed : ∀ e (s : S) err, (Apply e s).1 = Err err → (Apply e s).2 ≡ s;
  apply_undo : ∀ e (s s1 s2 : S) r,
    Apply e s = (Ok r, s1) → s2 ≡ s1 → ∃ s3, Undo r s2 = (Ok tt, s3) ∧ s3 ≡ s
}.

(** ** The rollback log: the store and the records of this execution *)
Definition rollbackLog (S : Type) : Type := S * list EffectRecord.

Section RollbackLog.
Context {S : Type} `{SideEffectStore S}.

Definition newRollbackLog (store : S) : rollbackLog S := (store, []).

Definition apply (e : Effect) : M (rollbackLog S) unit := λ '(s, records),
  match Apply e s with
  | (Ok rec, s') => (Ok tt, (s', records ++ [rec]))
  | (Err err, s') => (Err err, (s', records))
  | (Panic w, s') => (Panic w, (s', records))
  | (NoFuel, s') => (NoFuel, (s', records))
  end.

(** Undo from the last record to the first, collecting the errors. *)
Fixpoint undo_all (reversed : list EffectRecord) : M S (list error) :=
  match reversed with
  | [] => mret []
  | rec :: rest =>
      r ← mtry (Undo rec);
      errs ← undo_all rest;
      mret (match r with inl _ => errs | inr err => err :: errs end)
  end.

Definition rollback : M (rollbackLog S) (list error) := λ '(s, records),
  let '(o, s') := undo_all (reverse records) s in (o, (s', [])).
End RollbackLog.

(** ** The in-memory store *)
Record MemorySideEffectStore := mkMemorySideEffectStore {
  data : gmap string value;
  undoLog : list EffectRecord;
  uuids : nat
}.

Definition key (kind target : string) : string := kind +:+ ":" +:+ target.

Definition NewMemorySideEffectStore (n : nat) : MemorySideEffectStore :=
  mkMemorySideEffectStore ∅ [] n.

Section MemoryStore.
Context (uuid_at : nat → string).

Definition Memory_Apply (e : Effect) : M MemorySideEffectStore EffectRecord := λ m,
  let k := key (Effect_Kind e) (Effect_Target e) in
  let rec := mkEffectRecord (uuid_at (uuids m)) e (get_nil (data m) k) in
  (Ok rec, mkMemorySideEffectStore (<[k := Effect_Value e]> (data m)) (undoLog m) (S (uuids m))).

Definition Memory_Undo (rec : EffectRecord) : M MemorySideEffectStore unit := λ m,
  let k := key (Effect_Kind (Rec_Effect rec)) (Effect_Target (Rec_Effect rec)) in
  let data' := if is_nil (PriorValue rec) then delete k (data m)
               else <[k := PriorValue rec]> (data m) in
  (Ok tt, mkMemorySideEffectStore data' (undoLog m ++ [rec]) (uuids m)).

#[export] Instance Memory_SideEffectStore : SideEffectStore MemorySideEffectStore :=
  { Apply := Memory_Apply; Undo := Memory_Undo }.
End MemoryStore.

Definition Value (kind target : string) (m : MemorySideEffectStore) : value * bool :=
  match data m !! key kind target with
  | Some v => (v, true)
  | None => (VNil, false)
  end.

Definition UndoLog (m : MemorySideEffectStore) : list EffectRecord := undoLog m.

(** ** Rollback restores the state, for every store that keeps the laws *)
Section Rollback.
Context {S : Type} `{SideEffectLaws S}.

(** [recs] were recorded one after the other from [s] to [s']. *)
Inductive applied (s : S) : list EffectRecord → S → Prop :=
  | applied_nil s' : s' ≡ s → applied s [] s'
  | applied_snoc recs s1 e r s2 :
      applied s recs s1 → Apply e s1 = (Ok r, s2) → applied s (recs ++ [r]) s2.

Lemma applied_refl s : applied s [] s.
Proof. by constructor. Qed.

Lemma applied_equiv s recs s' : applied s recs s' →
  ∀ s1, s1 ≡ s' → (undo_all (reverse recs) s1).1 = Ok [] ∧ (undo_all (reverse recs) s1).2 ≡ s.
Proof.
  induction 1 as [s' Hs'|recs s1 e r s2 _ IH Ha]; intros s3 Hs3.
  - rewrite reverse_nil. simpl. split; [done|]. by rewrite Hs3.
  - rewrite reverse_app. simpl. destruct (apply_undo _ _ _ s3 _ Ha Hs3) as (s4 & Hu & Hs4).
    destruct (IH s4 Hs4) as [Ho Hst].
    unfold mtry, mbind, M_bind. rewrite Hu. simpl.
    destruct (undo_all (reverse recs) s4) as [o s5]. simpl in *. by subst.
Qed.

Lemma rollback_restores s recs s' s1 :
  applied s recs s' → s1 ≡ s' →
  ∃ s'', rollback (s1, recs) = (Ok [], (s'', [])) ∧ s'' ≡ s.
Proof.
  intros Ha Hs1. destruct (applied_equiv s recs s' Ha s1 Hs1) as [Ho Hs].
  unfold rollback. destruct (undo_all (reverse recs) s1) as [o s'']. simpl in *. subst. eauto.
Qed.
End Rollback.

(** ** The in-memory store keeps the laws *)
Section MemoryLaws.
Context (uuid_at : nat → string).
#[local] Existing Instance Memory_SideEffectStore.
Abbreviation Mem := MemorySideEffectStore.

(** Two states are alike when every target has the same value, where absent
    and nil count as the same. *)
#[local] Instance memory_equiv : Equiv Mem := λ m1 m2,
  ∀ k, get_nil (data m1) k = get_nil (data m2) k.

#[local] Instance memory_equivalence : Equivalence (≡@{Mem}).
Proof.
  split.
  - by intros m k.
  - intros m1 m2 E k. symmetry. apply E.
  - intros m1 m2 m3 E1 E2 k. by rewrite (E1 k).
Qed.

Lemma get_nil_insert m k v j :
  get_nil (<[k := v]> m) j = if decide (k = j) then v else get_nil m j.
Proof.
  unfold get_nil. case_decide; subst; [by rewrite lookup_insert_eq|by rewrite lookup_insert_ne].
Qed.

Lemma get_nil_delete m k j :
  get_nil (delete k m) j = if decide (k = j) then VNil else get_nil m j.
Proof.
  unfold get_nil. case_decide; subst; [by rewrite lookup_delete_eq|by rewrite lookup_delete_ne].
Qed.

Lemma is_nil_true v : is_nil v = true → v = VNil.
Proof. by destruct v. Qed.

(** The data after an undo. *)
Definition undo_data (rec : EffectRecord) (d : gmap string value) : gmap string value :=
  let k := key (Effect_Kind (Rec_Effect rec)) (Effect_Target (Rec_Effect rec)) in
  if is_nil (PriorValue rec) then delete k d else <[k := PriorValue rec]> d.

Lemma get_nil_undo rec d j :
  get_nil (undo_data rec d) j =
    if decide (key (Effect_Kind (Rec_Effect rec)) (Effect_Target (Rec_Effect rec)) = j)
    then PriorValue rec else get_nil d j.
Proof.
  unfold undo_data. destruct (is_nil (PriorValue rec)) eqn:E.
  - rewrite get_nil_delete. by rewrite (is_nil_true _ E).
  - by rewrite get_nil_insert.
Qed.

#[export] Instance Memory_SideEffectLaws :
  SideEffectLaws Mem (H := Memory_SideEffectStore uuid_at).
Proof.
  refine {| se_equiv := memory_equiv |}; [done| |done|].
  { intros e s s1 r Ha. cbn in Ha. by injection Ha as <- <-. }
  intros e s s1 s2 r Ha Heq. cbn in Ha. injection Ha as <- <-.
  eexists. split; [done|]. intros j.
  change (data _) with (undo_data
    (mkEffectRecord (uuid_at (uuids s)) e
       (get_nil (data s) (key (Effect_Kind e) (Effect_Target e)))) (data s2)) at 1.
  rewrite get_nil_undo. simpl. case_decide as E; [by rewrite E|].
  rewrite (Heq j). simpl. rewrite get_nil_insert. by rewrite decide_False.
Defined.
End MemoryLaws.

(** ** What the in-memory store holds after a rollback, exactly *)
Section MemoryRollback.
Context (uuid_at : nat → string).
#[local] Existing Instance Memory_SideEffectStore.
Abbreviation Mem := MemorySideEffectStore.

Definition effect_key (e : Effect) : string := key (Effect_Kind e) (Effect_Target e).

(** Apply the effects one after the other through the log. *)
Fixpoint apply_all (es : list Effect) : M (rollbackLog Mem) unit :=
  match es with
  | [] => mret tt
  | e :: es' => _ ← @apply Mem (Memory_SideEffectStore uuid_at) e; apply_all es'
  end.

Definition record_of (e : Effect) (m : Mem) : EffectRecord :=
  mkEffectRecord (uuid_at (uuids m)) e (get_nil (data m) (effect_key e)).

Definition after (e : Effect) (m : Mem) : Mem :=
  mkMemorySideEffectStore (<[effect_key e := Effect_Value e]> (data m)) (undoLog m) (S (uuids m)).

Fixpoint records_of (es : list Effect) (m : Mem) : list EffectRecord :=
  match es with
  | [] => []
  | e :: es' => record_of e m :: records_of es' (after e m)
  end.

Definition after_all (es : list Effect) (m : Mem) : Mem := foldl (λ m e, after e m) m es.

Lemma apply_all_run es m recs :
  apply_all es (m, recs) = (Ok tt, (after_all es m, recs ++ records_of es m)).
Proof.
  revert m recs; induction es as [|e es IH]; intros m recs; simpl; [by rewrite app_nil_r|].
  unfold mbind, M_bind. simpl. fold (effect_key e). rewrite IH. by rewrite <- app_assoc.
Qed.

Lemma undo_all_run rrecs m :
  @undo_all Mem (Memory_SideEffectStore uuid_at) rrecs m =
    (Ok [], mkMemorySideEffectStore (foldl (λ d r, undo_data r d) (data m) rrecs)
              (undoLog m ++ rrecs) (uuids m)).
Proof.
  revert m; induction rrecs as [|r rrecs IH]; intros m; simpl.
  - rewrite app_nil_r. by destruct m.
  - unfold mtry, mbind, M_bind. simpl. rewrite IH. simpl. by rewrite <- app_assoc.
Qed.

(** A value of nil is not told apart from no value. *)
Definition drop_nil (v : option value) : option value :=
  match v with Some VNil => None | _ => v end.

Lemma undo_data_lookup e m d j :
  undo_data (record_of e m) d !! j =
    if decide (effect_key e = j) then drop_nil (data m !! j) else d !! j.
Proof.
  unfold undo_data, record_of, get_nil. simpl. fold (effect_key e).
  destruct (decide (effect_key e = j)) as [<-|Hne].
  - destruct (data m !! effect_key e) as [[]|] eqn:E; simpl;
      by rewrite ?lookup_delete_eq, ?lookup_insert_eq.
  - case_match; by rewrite ?lookup_delete_ne, ?lookup_insert_ne.
Qed.

Lemma undo_records es m j :
  foldl (λ d r, undo_data r d) (data (after_all es m)) (reverse (records_of es m)) !! j =
    if decide (j ∈ effect_key <$> es) then drop_nil (data m !! j) else data m !! j.
Proof.
  revert m; induction es as [|e es IH]; intros m.
  - rewrite decide_False by apply not_elem_of_nil. done.
  - change (records_of (e :: es) m) with (record_of e m :: records_of es (after e m)).
    change (after_all (e :: es) m) with (after_all es (after e m)).
    rewrite reverse_cons, foldl_app. cbn [foldl]. rewrite undo_data_lookup, fmap_cons.
    destruct (decide (effect_key e = j)) as [<-|Hne].
    + by rewrite decide_True by (by left).
    + rewrite IH. cbn [data after]. rewrite lookup_insert_ne by done.
      destruct (decide (j ∈ effect_key <$> es)).
      * by rewrite decide_True by (by right).
      * by rewrite decide_False by (by intros [?|?]%elem_of_cons).
Qed.
End MemoryRollback.

(** A rollback brings the in-memory side-effect store back. After any
    effects have been applied through the log and rolled back, every target
    that no effect touched is as before, and every target that one did touch
    has the value it had before the first of them, except that a target that
    was present with the value nil is now absent. The log is emptied, no
    error is collected, and the records are undone last first. *)
Theorem memory_rollback uuid_at (es : list Effect) (m : MemorySideEffectStore) :
  ∃ m' recs,
    (apply_all uuid_at es ≫= λ _, @rollback _ (Memory_SideEffectStore uuid_at))
      (newRollbackLog m) = (Ok [], (m', [])) ∧
    Rec_Effect <$> recs = es ∧ UndoLog m' = UndoLog m ++ reverse recs ∧
    ∀ j, data m' !! j = if decide (j ∈ effect_key <$> es) then drop_nil (data m !! j)
                        else data m !! j.
Proof.
  unfold newRollbackLog. erewrite bind_ok by apply apply_all_run. unfold rollback. simpl.
  rewrite undo_all_run. eexists _, (records_of uuid_at es m).
  split; [done|]. simpl. split_and!.
  - revert m; induction es as [|e es IH]; intros m; simpl; [done|]. by rewrite IH.
  - unfold UndoLog. simpl. f_equal. revert m; induction es as [|e es IH]; intros m; simpl; [done|].
    by rewrite IH.
  - intros j. apply undo_records.
Qed.

(** The store is shared by all runs of an engine, and a rollback knows
    nothing of them: when a run writes a target and another run writes it
    afterwards and succeeds, rolling back the first run puts the old value
    back, and the write of the successful run is lost. *)
Theorem shared_store_lost_update uuid_at (e1 e2 : Effect) (m : MemorySideEffectStore) :
  effect_key e1 = effect_key e2 →
  let S := Memory_SideEffectStore uuid_at in
  let run1 := apply e1 (newRollbackLog m) in
  let run2 := apply e2 (newRollbackLog run1.2.1) in
  let failed1 := rollback (run2.2.1, run1.2.2) in
  run2.1 = Ok tt ∧ failed1.1 = Ok [] ∧
  get_nil (data failed1.2.1) (effect_key e2) = get_nil (data m) (effect_key e2).
Proof.
  intros Hk. cbv zeta. simpl. fold (effect_key e1) (effect_key e2). rewrite Hk.
  split_and!; [done|done|].
  pose proof (get_nil_undo (record_of uuid_at e1 m)
    (<[effect_key e2 := Effect_Value e2]> (<[effect_key e2 := Effect_Value e1]> (data m))) (effect_key e2)) as H.
  simpl in H. fold (effect_key e1) in H. rewrite Hk, decide_True in H by done.
  unfold undo_data, record_of in H. simpl in H. fold (effect_key e1) in H. by rewrite Hk in H.
Qed.

Lemma shared_store_lost_update_witness :
  let e v := mkEffect "file" "report" (VString v) ∅ in
  effect_key (e "old") = "file:report" ∧
  get_nil (data (rollback (H := Memory_SideEffectStore pretty)
    ((apply (H := Memory_SideEffectStore pretty) (e "kept")
       (newRollbackLog (apply (H := Memory_SideEffectStore pretty) (e "old")
          (newRollbackLog (NewMemorySideEffectStore 0))).2.1)).2.1,
     (apply (H := Memory_SideEffectStore pretty) (e "old")
        (newRollbackLog (NewMemorySideEffectStore 0))).2.2)).2.1) "file:report" = VNil.
Proof.
  split; [reflexivity|].
  apply (shared_store_lost_update pretty (mkEffect "file" "report" (VString "old") ∅)
           (mkEffect "file" "report" (VString "kept") ∅) (NewMemorySideEffectStore 0) eq_refl).
Defined.
