(* ===== verification/GoFmt.v ===== *)
(** * fmt.Errorf and Error()

    The text of an error from its format and operands, for the verbs the
    program uses: %q, %s, %v, %d and %w.  [strconv.Quote] (whose table of
    printable characters is not modelled) is an operation of [FmtQuote]. *)
From Stdlib Require Import Ascii.
From S2P Require Import Prelude GoStr.

Class FmtQuote := {
  quote : string → string;
  quote_rune : Z → string
}.

(** Quotes around the text, nothing escaped: exact on printable ASCII without
    quotes or backslashes. *)
Definition plain_quote : FmtQuote := {|
  quote := λ s, String "034" (s +:+ String "034" EmptyString);
  quote_rune := λ z, String "'" (String (ascii_of_nat (Z.to_nat z)) (String "'" EmptyString))
|}.

Section Format.
Context `{FmtQuote}.

Definition verb_text (verb : ascii) (a : fmt_arg) : string :=
  match a with
  | FStr s => if bool_decide (verb = "q"%char) then quote s else s
  | FInt z => if bool_decide (verb = "q"%char) then quote_rune z else pretty z
  end.

(** [wrapped] is the text of the operand of %w. *)
Fixpoint format_text (f : string) (args : list fmt_arg) (wrapped : string) : string :=
  match f with
  | String "%"%char (String v f') =>
      if bool_decide (v = "w"%char) then wrapped +:+ format_text f' args wrapped
      else match args with
           | a :: args' => verb_text v a +:+ format_text f' args' wrapped
           | [] => format_text f' [] wrapped
           end
  | String c f' => String c (format_text f' args wrapped)
  | EmptyString => EmptyString
  end.

(** [err.Error()] *)
Fixpoint error_text (e : error) : string :=
  match e with
  | ErrorsNew m => m
  | Errorf f args => format_text f args EmptyString
  | Wrapf f args e' => format_text f args (error_text e')
  end.
End Format.

Example error_text_example :
  error_text (H := plain_quote)
    (Wrapf "flow: agent node %q: load server %s: %w" [FStr "a"; FStr "s1"] (ErrorsNew "store: not found"))
  = String.concat (String "034" EmptyString) ["flow: agent node "; "a"; ": load server s1: store: not found"].
Proof. reflexivity. Qed.
