(* ===== verification/Mcp.v ===== *)
(** * The MCP client interface (internal/mcp/client.go, mock.go)

    The types of the protocol, the transport configuration of a server, the
    Client interface as a class, and the in-memory client. *)
From S2P Require Import Prelude GoStr GoValue Json.

Record Transport := mkTransport {
  Transport_Type : string;
  Command : string;
  Args : list string;
  URL : string
}.

Definition zero_Transport : Transport := mkTransport "" "" [] "".

Definition Transport_names : list string := ["type"; "command"; "args"; "url"].

Definition Transport_field (name : string) : decoder Transport := λ j t,
  let '(mkTransport ty cmd args url) := t in
  if bool_decide (name = "type") then x ← dec_string j ty; Ok (mkTransport x cmd args url)
  else if bool_decide (name = "command") then x ← dec_string j cmd; Ok (mkTransport ty x args url)
  else if bool_decide (name = "args") then x ← dec_slice EmptyString dec_string j args; Ok (mkTransport ty cmd x url)
  else x ← dec_string j url; Ok (mkTransport ty cmd args x).

Definition TransportFromServer (raw : RawMessage) : outcome Transport :=
  j ← raw_tree raw; dec_struct Transport_names Transport_field j zero_Transport.

Record Tool := mkTool {
  Tool_Name : string;
  Tool_Description : string;
  InputSchema : RawMessage
}.

Record Resource := mkResource {
  URI : string;
  Resource_Name : string;
  Resource_Description : string;
  Resource_MimeType : string
}.

Record Prompt := mkPrompt {
  Prompt_Name : string;
  Prompt_Description : string
}.

Record ContentBlock := mkContentBlock {
  Block_Type : string;
  Block_Text : string;
  Block_Data : string;
  Block_MimeType : string
}.

Record ToolResult := mkToolResult {
  Content : list ContentBlock;
  IsError : bool
}.

Record PromptMessage := mkPromptMessage {
  Message_Role : string;
  Message_Content : ContentBlock
}.

Record PromptResult := mkPromptResult {
  PromptResult_Description : string;
  PromptResult_Messages : list PromptMessage
}.

Definition ErrUnsupportedTransport : error := ErrorsNew "mcp: unsupported transport type".
Definition ErrRPCError : error := ErrorsNew "mcp: json-rpc error".

Class Client (S : Type) := {
  ListTools : Transport → M S (list Tool);
  ListResources : Transport → M S (list Resource);
  ListPrompts : Transport → M S (list Prompt);
  CallTool : Transport → string → gmap string value → M S ToolResult;
  ReadResource : Transport → string → M S (list ContentBlock);
  GetPrompt : Transport → string → gmap string value → M S PromptResult
}.

(** A call returns, with a result or an error. *)
Class ClientLaws (S : Type) `{Client S} := {
  call_proper : ∀ server name args (s : S), proper_outcome (CallTool server name args s).1
}.

(** The texts of the blocks, joined with newlines; [i] counts them. *)
Fixpoint join_blocks (i : nat) (out : string) (blocks : list ContentBlock) : string :=
  match blocks with
  | [] => out
  | b :: rest =>
      join_blocks (S i) ((if 0 <? i then out +:+ newline else out) +:+ Block_Text b) rest
  end.

Definition CallToolResult (r : ToolResult) : string := join_blocks 0 "" (Content r).

(** ** The in-memory client *)
Record CallRecord := mkCallRecord {
  Call_Server : Transport;
  Call_Name : string;
  Call_Args : gmap string value
}.

Record MockClient := mkMockClient {
  Mock_Tools : list Tool;
  calls : list CallRecord
}.

Definition NewMockClient : MockClient := mkMockClient [] [].
Definition Calls (m : MockClient) : list CallRecord := calls m.

Definition text_block (s : string) : ContentBlock := mkContentBlock "text" s "" "".

Section Mock.
(** The [Handler] field, and the text of a JSON document. *)
Context (Handler : option (Transport → string → gmap string value → outcome string)).
Context (json_text : json → string).

Definition Mock_CallTool (s : Transport) (name : string) (args : gmap string value)
    : M MockClient ToolResult := λ m,
  let m' := mkMockClient (Mock_Tools m) (calls m ++ [mkCallRecord s name args]) in
  match Handler with
  | Some h => (out ← h s name args; Ok (mkToolResult [text_block out] false), m')
  | None =>
      (b ← encode_any (VMap args);
       Ok (mkToolResult [text_block (name +:+ "(" +:+ json_text b +:+ ")")] false), m')
  end.

#[export] Instance Mock_Client : Client MockClient := {
  ListTools := λ _ m, (Ok (Mock_Tools m), m);
  ListResources := λ _, mret [];
  ListPrompts := λ _, mret [];
  CallTool := Mock_CallTool;
  ReadResource := λ _ uri, mret [text_block uri];
  GetPrompt := λ _ name _, mret (mkPromptResult name [])
}.
End Mock.

(** [CallToolResult] is the join of the texts. *)
Lemma join_blocks_spec i out blocks :
  0 < i → join_blocks i out blocks = foldl (λ acc b, acc +:+ newline +:+ Block_Text b) out blocks.
Proof.
  revert i out; induction blocks as [|b bs IH]; intros i out Hi; simpl; [done|].
  destruct i as [|i]; [lia|]. rewrite IH by lia. simpl. by rewrite str_app_assoc.
Qed.

Lemma CallToolResult_join r : CallToolResult r = join (Block_Text <$> Content r) newline.
Proof.
  unfold CallToolResult. destruct (Content r) as [|b bs]; [done|]. simpl.
  rewrite join_blocks_spec by lia. change ("" +:+ Block_Text b) with (Block_Text b).
  generalize (Block_Text b) as s. clear b. induction bs as [|b bs IH]; intros s; simpl; [done|].
  rewrite IH. destruct bs as [|b2 bs]; cbn [fmap list_fmap]; by rewrite ?str_app_assoc.
Qed.

(** Reading a transport always answers. *)
Lemma Transport_field_proper n : decoder_proper (Transport_field n).
Proof. revert n. solve_field_proper Transport_field. Qed.

Lemma transport_proper raw : proper_outcome (TransportFromServer raw).
Proof.
  apply proper_bind; [apply raw_tree_proper|]. intros j _.
  apply dec_struct_proper, Transport_field_proper.
Qed.

(** The in-memory client with a handler keeps the law of clients when its
    handler does. *)
Lemma Mock_ClientLaws h json_text :
  (∀ server name args, proper_outcome (h server name args)) →
  ClientLaws MockClient (H := Mock_Client (Some h) json_text).
Proof.
  intros Hh. constructor. intros server name args s. simpl. by apply proper_bind.
Qed.
