(* ===== verification/Engine.v ===== *)
(** * Executing a flow (internal/flow/nodes.go, engine.go)

    The engine over any Store, any MCP client and any side-effect store.  A
    [World] holds their states and the number of clock readings; the state of
    one execution ([execContext]) is the world with the rollback records, the
    outputs and the log.  Steps are computations [M execContext]: an error or
    a panic leaves the state as it is at that point. *)
From S2P Require Import Prelude GoStr GoValue GoSort GoFmt Json Model Store StoreSpec.
From S2P Require Import Expr Graph SideEffects Mcp.

Definition ErrPermissionDenied : error := ErrorsNew "flow: permission denied for output target".

Record World (St Mc Se : Type) := mkWorld {
  w_store : St;
  w_mcp : Mc;
  w_effects : Se;
  w_clock : nat
}.
Arguments mkWorld {St Mc Se} _ _ _ _.
Arguments w_store {St Mc Se} _.
Arguments w_mcp {St Mc Se} _.
Arguments w_effects {St Mc Se} _.
Arguments w_clock {St Mc Se} _.

Record execContext (St Mc Se : Type) := mkExec {
  ec_world : World St Mc Se;
  ec_records : list EffectRecord;
  ec_outputs : gmap string value;
  ec_logs : list LogEntry;
  ec_seq : nat
}.
Arguments mkExec {St Mc Se} _ _ _ _ _.
Arguments ec_world {St Mc Se} _.
Arguments ec_records {St Mc Se} _.
Arguments ec_outputs {St Mc Se} _.
Arguments ec_logs {St Mc Se} _.
Arguments ec_seq {St Mc Se} _.

Record ExecutionResult := mkExecutionResult {
  Exec_Status : RunStatus;
  Exec_Result : RawMessage;
  Exec_Logs : list LogEntry;
  Exec_Err : option error
}.

(** ** Checks and small functions *)
Definition triggerTypeOr (t : string) : string :=
  if bool_decide (t = "") then TriggerManual else t.

Fixpoint containsString (list : list string) (target : string) : bool :=
  match list with
  | [] => false
  | s :: rest => if bool_decide (s = target) then true else containsString rest target
  end.

(** [None] is a nil error. *)
Definition checkOutputPermission (flow : Flow) (node : Node) : option error :=
  let p := Flow_Permissions flow in
  let denied := Some (Wrapf "%w: %s %q" [FStr (Node_Kind node); FStr (Node_Target node)]
                        ErrPermissionDenied) in
  if bool_decide (Node_Kind node = OutputDatabase) then
    if containsString (Databases p) (Node_Target node) then None else denied
  else if bool_decide (Node_Kind node = OutputFile) then
    if containsString (Files p) (Node_Target node) then None else denied
  else if bool_decide (Node_Kind node = OutputModbus) then
    if containsString (Resources p) (Node_Target node) then None else denied
  else if bool_decide (Node_Kind node = OutputHTTP) then None
  else denied.

Definition resolveValue (v input : value) : value :=
  match v with
  | VString s => if bool_decide (s = "$input") || bool_decide (s = "$result") then input else v
  | _ => v
  end.

Definition emittedHandles (node : Node) (output : value) : list string :=
  if bool_decide (Node_Type node = NodeTypeCondition) then
    if truthy output then ["true"] else ["false"]
  else [""].

Definition marshalResult (v : value) : RawMessage :=
  match encode_any v with
  | Ok j => RawDoc j
  | _ => RawDoc (JObj [])
  end.

Section Engine.
Context {St Mc Se : Type}.
Context {st_ops : Store St} {mc_ops : Client Mc}.
Context {se_ops : SideEffectStore Se} {quoting : FmtQuote}.
Context (now_at : nat → Time) (map_order : MapOrder).
Abbreviation EC := (execContext St Mc Se).
Abbreviation W := (World St Mc Se).

(** ** Access to the parts of the state *)
Definition set_world (w : W) (ec : EC) : EC :=
  mkExec w (ec_records ec) (ec_outputs ec) (ec_logs ec) (ec_seq ec).

Definition on_store {A} (op : M St A) : M EC A := λ ec,
  let w := ec_world ec in
  let '(o, s) := op (w_store w) in
  (o, set_world (mkWorld s (w_mcp w) (w_effects w) (w_clock w)) ec).

Definition on_mcp {A} (op : M Mc A) : M EC A := λ ec,
  let w := ec_world ec in
  let '(o, s) := op (w_mcp w) in
  (o, set_world (mkWorld (w_store w) s (w_effects w) (w_clock w)) ec).

(** The rollback log is the side-effect store with the records. *)
Definition on_rb {A} (op : M (rollbackLog Se) A) : M EC A := λ ec,
  let w := ec_world ec in
  let '(o, (s, recs)) := op (w_effects w, ec_records ec) in
  (o, mkExec (mkWorld (w_store w) (w_mcp w) s (w_clock w)) recs
        (ec_outputs ec) (ec_logs ec) (ec_seq ec)).

Definition log (level message : string) : M EC unit := λ ec,
  let w := ec_world ec in
  let entry := mkLogEntry (now_at (w_clock w)) level message "flow" in
  (Ok tt, mkExec (mkWorld (w_store w) (w_mcp w) (w_effects w) (S (w_clock w)))
            (ec_records ec) (ec_outputs ec) (ec_logs ec ++ [entry]) (S (ec_seq ec))).

Definition set_output (id : string) (v : value) : M EC unit := λ ec,
  (Ok tt, mkExec (ec_world ec) (ec_records ec) (<[id := v]> (ec_outputs ec))
            (ec_logs ec) (ec_seq ec)).

Definition output_of (id : string) : M EC value := mgets (λ ec, get_nil (ec_outputs ec) id).

(** [if err != nil { return nil, fmt.Errorf(f, args..., err) }] *)
Definition wrapping {A} (f : string) (args : list fmt_arg) (m : M EC A) : M EC A := λ ec,
  match m ec with
  | (Err e, ec') => (Err (Wrapf f args e), ec')
  | r => r
  end.

Definition throw_if (e : option error) : M EC unit :=
  match e with Some err => mthrow err | None => mret tt end.

(** ** Nodes *)
Fixpoint run_skills (flow : Flow) (node : Node) (agent : Agent) (input : value)
    (skills : list Skill) : M EC (list string) :=
  match skills with
  | [] => mret []
  | skill :: rest =>
      server ← wrapping "flow: agent node %q: load server %s: %w"
        [FStr (Node_ID node); FStr (Skill_ServerID skill)]
        (on_store (store_exec (OpGetMcpServer (Flow_TenantID flow) (Skill_ServerID skill))));
      transport ← wrapping "flow: agent node %q: %w" [FStr (Node_ID node)]
        (lift (TransportFromServer (McpServer_Transport server)));
      res ← wrapping "flow: agent node %q: call %s: %w"
        [FStr (Node_ID node); FStr (Skill_Tool skill)]
        (on_mcp (CallTool transport (Skill_Tool skill)
           {[ "input" := input; "prompt" := VString (Agent_SystemPrompt agent) ]}));
      outs ← run_skills flow node agent input rest;
      mret (CallToolResult res :: outs)
  end.

Definition runAgent (flow : Flow) (node : Node) (input : value) : M EC value :=
  agent ← wrapping "flow: agent node %q: %w" [FStr (Node_ID node)]
    (on_store (store_exec (OpGetAgent (Flow_TenantID flow) (Node_AgentID node))));
  _ ← log "info" ("agent node " +:+ Node_ID node +:+ " -> agent " +:+ Agent_Name agent);
  outputs ← run_skills flow node agent input (Agent_Skills agent);
  mret (VMap {[ "agent" := VString (Agent_Name agent);
                "output" := VString (join outputs newline) ]}).

Definition runMcpTool (flow : Flow) (node : Node) (input : value) : M EC value :=
  server ← wrapping "flow: mcp_tool node %q: %w" [FStr (Node_ID node)]
    (on_store (store_exec (OpGetMcpServer (Flow_TenantID flow) (Node_ServerID node))));
  transport ← wrapping "flow: mcp_tool node %q: %w" [FStr (Node_ID node)]
    (lift (TransportFromServer (McpServer_Transport server)));
  let args0 := default ∅ (Node_Arguments node) in
  let args := match args0 !! "input" with
              | Some _ => args0
              | None => <["input" := input]> args0
              end in
  res ← wrapping "flow: mcp_tool node %q: call %s: %w" [FStr (Node_ID node); FStr (Node_Tool node)]
    (on_mcp (CallTool transport (Node_Tool node) args));
  let text := VString (CallToolResult res) in
  _ ← log "info" ("mcp_tool node " +:+ Node_ID node +:+ " -> " +:+ Node_ServerID node
                    +:+ "/" +:+ Node_Tool node);
  _ ← on_rb (apply (mkEffect "mcp_tool" (Node_ServerID node +:+ "/" +:+ Node_Tool node) text
               {[ "server_id" := VString (Node_ServerID node);
                  "tool" := VString (Node_Tool node); "args" := VMap args ]}));
  mret (VMap {[ "server_id" := VString (Node_ServerID node);
                "tool" := VString (Node_Tool node); "output" := text ]}).

Definition runOutput (flow : Flow) (node : Node) (input : value) : M EC value :=
  _ ← throw_if (checkOutputPermission flow node);
  let v := resolveValue (Node_Value node) input in
  _ ← on_rb (apply (mkEffect (Node_Kind node) (Node_Target node) v
               {[ "node" := VString (Node_ID node) ]}));
  _ ← log "info" ("output node " +:+ Node_ID node +:+ " -> " +:+ Node_Kind node
                    +:+ ":" +:+ Node_Target node);
  mret (VMap {[ "kind" := VString (Node_Kind node);
                "target" := VString (Node_Target node); "value" := v ]}).

Definition executeNode (flow : Flow) (node : Node) (input : value) : M EC value :=
  if bool_decide (Node_Type node = NodeTypeTrigger) then
    if negb (is_nil (Node_Value node)) then mret (Node_Value node)
    else mret (VMap {[ "triggered" := VBool true;
                       "type" := VString (triggerTypeOr (Node_TriggerType node)) ]})
  else if bool_decide (Node_Type node = NodeTypeAgent) then runAgent flow node input
  else if bool_decide (Node_Type node = NodeTypeMcpTool) then runMcpTool flow node input
  else if bool_decide (Node_Type node = NodeTypeCondition) then
    lift (evalExpression (Node_Expression node) {[ "result" := input ]})
  else if bool_decide (Node_Type node = NodeTypeOutput) then runOutput flow node input
  else mthrow (Errorf "flow: unknown node type %q" [FStr (Node_Type node)]).

(** ** The loop: breadth first over the emitted edges *)
Definition node_at (g : Graph) (id : string) : Node := default zero_Node (Nodes g !! id).

Record walk := mkWalk {
  visited : gset string;
  exec_order : list string;
  pending_ids : list string
}.

(** The edges out of [cur] for one handle. *)
Fixpoint follow_edges (flow : Flow) (g : Graph) (cur : string) (edges : list Edge)
    (w : walk) : M EC walk :=
  match edges with
  | [] => mret w
  | edge :: rest =>
      let t := Edge_Target edge in
      if bool_decide (t ∈ visited w) then follow_edges flow g cur rest w
      else
        input ← output_of cur;
        out ← executeNode flow (node_at g t) input;
        _ ← set_output t out;
        _ ← log "info" ("node " +:+ t +:+ " executed");
        follow_edges flow g cur rest
          (mkWalk ({[t]} ∪ visited w) (exec_order w ++ [t]) (pending_ids w ++ [t]))
  end.

Fixpoint follow_handles (flow : Flow) (g : Graph) (cur : string) (handles : list string)
    (w : walk) : M EC walk :=
  match handles with
  | [] => mret w
  | h :: rest =>
      w' ← follow_edges flow g cur (OutgoingEdges g cur h) w;
      follow_handles flow g cur rest w'
  end.

(** [for len(queue) > 0 { ... }] *)
Fixpoint run_queue (fuel : nat) (flow : Flow) (g : Graph) (w : walk) : M EC (list string) :=
  match fuel with 0 => mnofuel | S f =>
    match pending_ids w with
    | [] => mret (exec_order w)
    | cur :: queue =>
        out ← output_of cur;
        w' ← follow_handles flow g cur (emittedHandles (node_at g cur) out)
               (mkWalk (visited w) (exec_order w) queue);
        run_queue f flow g w'
    end
  end.

(** From the trigger on; the ids executed after the trigger, in order. *)
Definition run_graph (flow : Flow) (g : Graph) (trigger : Node) : M EC (list string) :=
  out ← executeNode flow trigger VNil;
  _ ← set_output (Node_ID trigger) out;
  _ ← log "info" ("node " +:+ Node_ID trigger +:+ " executed");
  run_queue (S (size (Nodes g))) flow g (mkWalk {[Node_ID trigger]} [] [Node_ID trigger]).

Definition result_map (trigger : Node) (order : list string) (outs : gmap string value)
    : gmap string value :=
  foldl (λ m id, <[id := get_nil outs id]> m)
    {[ Node_ID trigger := get_nil outs (Node_ID trigger) ]} order.

Definition rollbackAndFail (err : error) : M EC ExecutionResult :=
  errs ← on_rb rollback;
  _ ← log "error" ("execution failed: " +:+ error_text err);
  logs ← mgets ec_logs;
  mret (mkExecutionResult RunStatusRolledBack
          (marshalResult (VMap {[ "error" := VString (error_text err);
                                  "rollback_errors" := VInt (Z.of_nat (length errs)) ]}))
          logs (Some err)).

(** The run of a parsed graph, with the two ways it can end. *)
Definition execute_graph (flow : Flow) (g : Graph) (trigger : Node) : M EC ExecutionResult :=
  r ← mtry (run_graph flow g trigger);
  match r with
  | inr err => rollbackAndFail err
  | inl order =>
      outs ← mgets ec_outputs;
      logs ← mgets ec_logs;
      mret (mkExecutionResult RunStatusSuccess
              (marshalResult (VMap (result_map trigger order outs))) logs None)
  end.

Definition Execute (fl : Flow) : M W ExecutionResult := λ w,
  match ParseAndValidate (Flow_FlowJSON fl) with
  | Err err =>
      let entry := mkLogEntry (now_at (w_clock w)) "error" (error_text err) "flow" in
      (Ok (mkExecutionResult RunStatusFailed RawEmpty [entry] (Some err)),
       mkWorld (w_store w) (w_mcp w) (w_effects w) (S (w_clock w)))
  | Panic why => (Panic why, w)
  | NoFuel => (NoFuel, w)
  | Ok g =>
      match Trigger map_order g with
      | Ok trigger =>
          let '(o, ec) := execute_graph fl g trigger (mkExec w [] ∅ [] 0) in (o, ec_world ec)
      | Err err => (Ok (mkExecutionResult RunStatusFailed RawEmpty [] (Some err)), w)
      | Panic why => (Panic why, w)
      | NoFuel => (NoFuel, w)
      end
  end.

Definition Validate (flowJSON : RawMessage) : option error :=
  match ParseAndValidate flowJSON with Err e => Some e | _ => None end.
End Engine.
