(* ===== verification/EngineTheory.v ===== *)
(** * Reasoning about an execution

    Triples over [execContext], the invariant that the rollback records
    account for every change of the side-effect store, and the invariant of
    the breadth-first walk. *)
From S2P Require Import Prelude GoStr GoValue GoSort GoFmt Json Model Store StoreSpec.
From S2P Require Import Expr ExprTheory Graph GraphSpec SideEffects Mcp Engine.

Section Theory.
Context {St Mc Se : Type}.
Context {st_ops : Store St} {st_answers : StoreAnswers St}.
Context {mc_ops : Client Mc} {mc_laws : ClientLaws Mc}.
Context {se_ops : SideEffectStore Se} {se_laws : SideEffectLaws Se} {quoting : FmtQuote}.
Context (now_at : nat → Time) (map_order : MapOrder).
Abbreviation EC := (execContext St Mc Se).
Abbreviation W := (World St Mc Se).
Implicit Types (ec : EC) (outs : gmap string value).

(** ** Triples

    From a state in [P] the computation does not run out of fuel; a normal
    return is in [Q], an error leaves a state in [F], and so does a panic,
    whose reason satisfies [X]. *)
Definition triple {A} (X : string → Prop) (P : EC → Prop) (m : M EC A)
    (Q : A → EC → Prop) (F : EC → Prop) : Prop :=
  ∀ ec, P ec →
    match m ec with
    | (Ok a, ec') => Q a ec'
    | (Err _, ec') => F ec'
    | (Panic w, ec') => X w ∧ F ec'
    | (NoFuel, _) => False
    end.

Section Rules.
Context {A B : Type} (X : string → Prop) (F : EC → Prop).

Lemma triple_bind P (m : M EC A) Q (k : A → M EC B) R :
  triple X P m Q F → (∀ a, triple X (Q a) (k a) R F) → triple X P (m ≫= k) R F.
Proof.
  intros Hm Hk ec Hec. specialize (Hm ec Hec). unfold mbind, M_bind.
  destruct (m ec) as [[a|e|w|] ec']; [by apply Hk|done..].
Qed.

Lemma triple_ret P (a : A) (Q : A → EC → Prop) :
  (∀ ec, P ec → Q a ec) → triple X P (mret a) Q F.
Proof. intros H ec Hec. by apply H. Qed.

Lemma triple_throw P e (Q : A → EC → Prop) :
  (∀ ec, P ec → F ec) → triple X P (mthrow e) Q F.
Proof. intros H ec Hec. by apply H. Qed.

Lemma triple_lift P (o : outcome A) (Q : A → EC → Prop) :
  o ≠ NoFuel → (∀ w, o = Panic w → X w) → (∀ ec, P ec → F ec) →
  (∀ a ec, P ec → Q a ec) → triple X P (lift o) Q F.
Proof.
  intros Hf Hp HF HQ ec Hec. unfold lift. destruct o as [a|e|w|]; auto.
Qed.

Lemma triple_wrapping P f args (m : M EC A) (Q : A → EC → Prop) :
  triple X P m Q F → triple X P (wrapping f args m) Q F.
Proof.
  intros Hm ec Hec. specialize (Hm ec Hec). unfold wrapping.
  by destruct (m ec) as [[a|e|w|] ec'].
Qed.

Lemma triple_pre (P P' : EC → Prop) (m : M EC A) Q :
  triple X P m Q F → (∀ ec, P' ec → P ec) → triple X P' m Q F.
Proof. intros Hm HP ec Hec. by apply Hm, HP. Qed.

Lemma triple_post P (m : M EC A) (Q Q' : A → EC → Prop) :
  triple X P m Q F → (∀ a ec, Q a ec → Q' a ec) → triple X P m Q' F.
Proof.
  intros Hm HQ ec Hec. specialize (Hm ec Hec). destruct (m ec) as [[a|e|w|] ec']; auto.
Qed.

(** Remember the run that gave the result. *)
Lemma triple_run P (m : M EC A) Q :
  triple X P m Q F →
  triple X P m (λ a ec', Q a ec' ∧ ∃ ec, m ec = (Ok a, ec')) F.
Proof.
  intros Hm ec Hec. specialize (Hm ec Hec). destruct (m ec) as [[a|e|w|] ec'] eqn:E; eauto.
Qed.

Lemma triple_exists {B'} (P : B' → EC → Prop) (m : M EC A) Q :
  (∀ x, triple X (P x) m Q F) → triple X (λ ec, ∃ x, P x ec) m Q F.
Proof. intros H ec [x Hec]. by apply (H x). Qed.

Lemma triple_pure (P : EC → Prop) (C : Prop) (m : M EC A) Q :
  (C → triple X P m Q F) → triple X (λ ec, C ∧ P ec) m Q F.
Proof. intros H ec [HC Hec]. by apply H. Qed.
End Rules.

(** ** The invariant of the records *)
(** The permission boundary of a flow: a database, a file or a modbus target
    has to be listed under its own kind; HTTP targets are free; there is no
    other kind. *)
Definition boundary (p : FlowPermissionSet) (kind target : string) : Prop :=
  kind = "database" ∧ target ∈ Databases p ∨
  kind = "file" ∧ target ∈ Files p ∨
  kind = "modbus" ∧ target ∈ Resources p ∨
  kind = "http".

Lemma containsString_elem l s : containsString l s = true ↔ s ∈ l.
Proof.
  induction l as [|x l IH]; simpl; [split; [done|by intros ?%elem_of_nil]|].
  rewrite elem_of_cons. case_bool_decide as E; [|rewrite IH]; naive_solver.
Qed.

Lemma checkOutputPermission_boundary flow node :
  checkOutputPermission flow node = None ↔ boundary (Flow_Permissions flow) (Node_Kind node) (Node_Target node).
Proof.
  unfold checkOutputPermission, boundary, OutputDatabase, OutputFile, OutputModbus, OutputHTTP.
  repeat case_bool_decide; try (rewrite <- !containsString_elem); repeat case_match; naive_solver congruence.
Qed.

(** The effect of a node: that of a tool it calls, or its output, within the
    boundary. *)
Definition effect_of (flow : Flow) (node : Node) (e : Effect) : Prop :=
  Node_Type node = "mcp_tool" ∧ Effect_Kind e = "mcp_tool" ∧
    Effect_Target e = Node_ServerID node +:+ "/" +:+ Node_Tool node ∨
  Node_Type node = "output" ∧ boundary (Flow_Permissions flow) (Node_Kind node) (Node_Target node) ∧
    Effect_Kind e = Node_Kind node ∧ Effect_Target e = Node_Target node ∧
    ∃ input, Effect_Value e = resolveValue (Node_Value node) input.

Definition has_effect (node : Node) : Prop := Node_Type node = "mcp_tool" ∨ Node_Type node = "output".

Section Run.
Context (flow : Flow) (s0 : Se) (g : Graph).

(** An effect is that of a node of the graph. *)
Definition permitted (e : Effect) : Prop :=
  ∃ id node, Nodes g !! id = Some node ∧ effect_of flow node e.

Definition allowed_records (recs : list EffectRecord) : Prop :=
  Forall (λ r, permitted (Rec_Effect r)) recs.

(** A node that has an effect has a record. *)
Definition recorded (node : Node) ec : Prop :=
  has_effect node → ∃ r, r ∈ ec_records ec ∧ effect_of flow node (Rec_Effect r).

(** While it runs: the records lead from [s0] to the store as it is. *)
Definition running outs ec : Prop :=
  applied s0 (ec_records ec) (w_effects (ec_world ec)) ∧
  allowed_records (ec_records ec) ∧ ec_outputs ec = outs ∧
  ∀ id, is_Some (outs !! id) → recorded (node_at g id) ec.

(** When it stops early: the same up to equivalence. *)
Definition stopped ec : Prop :=
  ∃ s, applied s0 (ec_records ec) s ∧ w_effects (ec_world ec) ≡ s ∧
       allowed_records (ec_records ec).

Lemma running_stopped outs ec : running outs ec → stopped ec.
Proof. intros (? & ? & _). by exists (w_effects (ec_world ec)). Qed.
Hint Resolve running_stopped : core.

Context (X : string → Prop).
Abbreviation tr := (triple X).

Lemma store_read {A} (op : StoreOp A) outs :
  (∀ s, proper_outcome (store_exec op s).1) →
  tr (running outs) (on_store (store_exec op)) (λ _, running outs) stopped.
Proof.
  intros Hp ec Hec. unfold on_store. specialize (Hp (w_store (ec_world ec))).
  destruct (store_exec op _) as [[a|e|w|] s]; try done.
  by eapply running_stopped.
Qed.

Lemma mcp_call transport tool args outs :
  tr (running outs) (on_mcp (CallTool transport tool args)) (λ _, running outs) stopped.
Proof.
  intros ec Hec. unfold on_mcp. pose proof (call_proper transport tool args (w_mcp (ec_world ec))) as Hp.
  destruct (CallTool _ _ _ _) as [[a|e|w|] s]; try done.
  by eapply running_stopped.
Qed.

Lemma log_keeps level msg outs :
  tr (running outs) (log now_at level msg) (λ _, running outs) stopped.
Proof. by intros ec Hec. Qed.

Lemma apply_keeps e outs :
  permitted e →
  tr (running outs) (on_rb (apply e))
    (λ _ ec, (∃ r, r ∈ ec_records ec ∧ Rec_Effect r = e) ∧ running outs ec) stopped.
Proof.
  intros He ec (Ha & Hp & Ho & Hrec). unfold on_rb, apply. simpl.
  pose proof (apply_proper e (w_effects (ec_world ec))) as Hprop.
  destruct (Apply e _) as [[r|err|w|] s1] eqn:E; simpl in *; try done.
  - pose proof (apply_record _ _ _ _ E) as Er. split; [|split; [|split; [|split]]]; simpl; [|by econstructor| |done|].
    + exists r. split; [apply elem_of_app; right; by apply list_elem_of_singleton|done].
    + apply Forall_app. split; [done|]. apply Forall_singleton. by rewrite Er.
    + intros id Hid Heff. destruct (Hrec id Hid Heff) as (r' & ? & ?). exists r'. simpl.
      split; [apply elem_of_app; by left|done].
  - exists (w_effects (ec_world ec)). split_and!; [done| |done]. simpl.
    pose proof (apply_failed e (w_effects (ec_world ec)) err) as Hf. rewrite E in Hf. by apply Hf.
Qed.

Lemma transport_keeps raw outs :
  tr (running outs) (lift (TransportFromServer raw)) (λ _, running outs) stopped.
Proof.
  pose proof (transport_proper raw) as H.
  apply triple_lift; [by intros E; rewrite E in H|by intros w E; rewrite E in H|eauto|done].
Qed.

Lemma run_skills_keeps node agent input skills outs :
  tr (running outs) (run_skills flow node agent input skills) (λ _, running outs) stopped.
Proof.
  induction skills as [|sk rest IH]; simpl; [by apply triple_ret|].
  eapply triple_bind; [apply triple_wrapping, store_read, exec_answers|intros server].
  eapply triple_bind; [apply triple_wrapping, transport_keeps|intros tp].
  eapply triple_bind; [apply triple_wrapping, mcp_call|intros res].
  eapply triple_bind; [exact IH|intros os]. by apply triple_ret.
Qed.

Lemma executeNode_keeps id node input outs :
  Nodes g !! id = Some node →
  (∀ w, Node_Type node = NodeTypeCondition →
     evalExpression (Node_Expression node) {[ "result" := input ]} = Panic w → X w) →
  tr (running outs) (executeNode now_at flow node input)
    (λ _ ec, recorded node ec ∧ running outs ec) stopped.
Proof.
  intros Hid HX. unfold executeNode.
  assert (Hquiet : ∀ A (m : M EC A), ¬ has_effect node → tr (running outs) m (λ _, running outs) stopped →
    tr (running outs) m (λ _ ec, recorded node ec ∧ running outs ec) stopped).
  { intros A m Hno Hm. eapply triple_post; [exact Hm|]. intros a ec Hec. split; [|done]. by intros ?%Hno. }
  assert (Hother : ∀ ty, Node_Type node = ty → ty ≠ "mcp_tool" → ty ≠ "output" → ¬ has_effect node).
  { intros ty E H1 H2 [?|?]; congruence. }
  case_bool_decide as Ht1; [apply Hquiet; [by eapply Hother|case_if; by apply triple_ret]|].
  case_bool_decide as Ht2.
  { apply Hquiet; [by eapply Hother|]. unfold runAgent.
    eapply triple_bind; [apply triple_wrapping, store_read, exec_answers|intros agent].
    eapply triple_bind; [apply log_keeps|intros ?].
    eapply triple_bind; [apply run_skills_keeps|intros os]. by apply triple_ret. }
  case_bool_decide as Ht3.
  { unfold runMcpTool.
    eapply triple_bind; [apply triple_wrapping, store_read, exec_answers|intros server].
    eapply triple_bind; [apply triple_wrapping, transport_keeps|intros tp].
    eapply triple_bind; [apply triple_wrapping, mcp_call|intros res].
    eapply triple_bind; [apply log_keeps|intros ?].
    set (e := mkEffect _ _ _ _). assert (He : effect_of flow node e) by (left; by split_and!).
    eapply triple_bind; [apply (apply_keeps e); by exists id, node|intros ?].
    apply triple_ret. intros ec [(r & Hr & <-) Hec]. split; [by exists r|done]. }
  case_bool_decide as Ht4.
  { apply Hquiet; [by eapply Hother|].
    apply triple_lift; [apply evalExpression_fuel|intros w; by apply HX|eauto|done]. }
  case_bool_decide as Ht5; [|apply triple_throw; eauto].
  unfold runOutput, throw_if. destruct (checkOutputPermission flow node) as [err|] eqn:Ep.
  { eapply (triple_bind _ _ _ _ (λ _ _, False)); [apply triple_throw; eauto|intros a ec []]. }
  apply checkOutputPermission_boundary in Ep.
  eapply triple_bind; [by apply (triple_ret _ _ _ _ (λ _, running outs))|intros ?].
  set (e := mkEffect _ _ _ _). assert (He : effect_of flow node e) by (right; split_and!; try done; by exists input).
  eapply triple_bind; [apply (apply_keeps e); by exists id, node|intros ?].
  eapply (triple_bind _ _ _ _ (λ _ ec, recorded node ec ∧ running outs ec)).
  { intros ec [(r & Hr & Ee) Hec]. split; [|exact Hec]. intros _. exists r. split; [exact Hr|by rewrite Ee]. }
  intros ?. by apply triple_ret.
Qed.
End Run.

(** ** The walk over the graph *)
Section Walk.
Context (flow : Flow) (s0 : Se) (d : FlowDef) (g : Graph).
Context (Hvalid : valid_def d) (Hgraph : graph_of d g).
Context (t0 : string).

(** With these outputs the engine goes on from [u] to [v]. *)
Definition taken outs (u v : string) : Prop :=
  ∃ o h e, outs !! u = Some o ∧ h ∈ emittedHandles (node_at g u) o ∧
           e ∈ OutgoingEdges g u h ∧ Edge_Target e = v.

(** The output of a node is the result of running it: the trigger on nil,
    any other node on the output of a node the engine came from. *)
Definition explained outs (v : string) (o : value) : Prop :=
  ∃ input ec ec', executeNode now_at flow (node_at g v) input ec = (Ok o, ec') ∧
    (v = t0 ∧ input = VNil ∨ ∃ u, taken outs u v ∧ outs !! u = Some input).

Record walk_ok outs (w : walk) : Prop := {
  wk_visited : visited w = list_to_set (t0 :: exec_order w);
  wk_nodup : NoDup (t0 :: exec_order w);
  wk_queue : NoDup (pending_ids w);
  wk_queued : ∀ u, u ∈ pending_ids w → u ∈ visited w;
  wk_dom : dom outs = visited w;
  wk_known : visited w ⊆ dom (Nodes g);
  wk_reach : ∀ v, v ∈ visited w → rtc (taken outs) t0 v;
  wk_explained : ∀ v o, outs !! v = Some o → explained outs v o
}.

(** Nodes that are done have all their targets visited. *)
Definition closed_but (C : string → Prop) outs (w : walk) : Prop :=
  ∀ u v, u ∈ visited w → u ∉ pending_ids w → ¬ C u → taken outs u v → v ∈ visited w.

Definition budget (w : walk) : Z :=
  (Z.of_nat (length (pending_ids w)) - Z.of_nat (size (visited w)))%Z.

Lemma edge_target_known u h e : e ∈ OutgoingEdges g u h → Edge_Target e ∈ dom (Nodes g).
Proof.
  intros [_ He]%list_elem_of_filter. rewrite (go_adj _ _ Hgraph) in He.
  apply list_elem_of_filter in He as [_ He].
  pose proof (vd_edges _ Hvalid) as Hk. unfold known_ends in Hk.
  eapply list.Forall_forall in Hk; [|exact He].
  rewrite (go_nodes _ _ Hgraph). apply elem_of_dom, node_map_is_Some, Hk.
Qed.

Lemma taken_mono outs outs' u v : outs ⊆ outs' → taken outs u v → taken outs' u v.
Proof.
  intros Hsub (o & h & e & Ho & ?). exists o, h, e. split; [|done].
  by eapply lookup_weaken.
Qed.

Lemma explained_mono outs outs' v o : outs ⊆ outs' → explained outs v o → explained outs' v o.
Proof.
  intros Hsub (i & ec & ec' & Hr & H). exists i, ec, ec'. split; [done|].
  destruct H as [?|(u & Ht & Hu)]; [by left|right].
  exists u. split; [by eapply taken_mono|by eapply lookup_weaken].
Qed.

(** Visiting one more node. *)
Definition visit (t : string) (w : walk) : walk :=
  mkWalk ({[t]} ∪ visited w) (exec_order w ++ [t]) (pending_ids w ++ [t]).

Lemma visit_ok outs w t o u i ec ec' :
  walk_ok outs w → t ∉ visited w → t ∈ dom (Nodes g) → taken outs u t → outs !! u = Some i →
  executeNode now_at flow (node_at g t) i ec = (Ok o, ec') →
  outs ⊆ <[t := o]> outs ∧ walk_ok (<[t := o]> outs) (visit t w).
Proof.
  intros [Hvis Hnd Hq Hqd Hdom Hknown Hreach Hexp] Ht Hkt Htaken Hu Hrun.
  assert (Hto : outs !! t = None) by (apply not_elem_of_dom; by rewrite Hdom).
  assert (Hsub : outs ⊆ <[t := o]> outs) by (by apply insert_subseteq).
  split; [done|]. constructor; simpl.
  - rewrite Hvis. simpl. rewrite list_to_set_app_L. simpl. set_solver.
  - rewrite app_comm_cons. apply NoDup_app. split_and!; [done| |apply NoDup_singleton].
    intros x Hx ->%list_elem_of_singleton. apply Ht. rewrite Hvis. by apply elem_of_list_to_set.
  - apply NoDup_app. split_and!; [done| |apply NoDup_singleton].
    intros x Hx ->%list_elem_of_singleton. by apply Ht, Hqd.
  - intros x [Hx| ->%list_elem_of_singleton]%elem_of_app; [|set_solver].
    apply elem_of_union_r. by apply Hqd.
  - rewrite dom_insert_L, Hdom. done.
  - set_solver.
  - intros v [->%elem_of_singleton|Hv]%elem_of_union.
    + eapply rtc_r; [|by eapply taken_mono].
      eapply rtc_subrel; [|apply Hreach; rewrite <- Hdom; by apply elem_of_dom].
      intros; by eapply taken_mono.
    + eapply rtc_subrel; [|by apply Hreach]. intros; by eapply taken_mono.
  - intros v x [[<- <-]|[_ Hx]]%lookup_insert_Some.
    + exists i, ec, ec'. split; [done|]. right. exists u.
      split; [by eapply taken_mono|by eapply lookup_weaken].
    + eapply explained_mono; [exact Hsub|by apply Hexp].
Qed.

Lemma visit_closed C outs w t o :
  walk_ok outs w → t ∉ visited w → closed_but C outs w →
  closed_but C (<[t := o]> outs) (visit t w).
Proof.
  intros Hw Ht Hc u v Hu Hup HC (x & h & e & Hx & Hrest). simpl in *.
  assert (u ≠ t) by set_solver.
  rewrite lookup_insert_ne in Hx by done.
  apply elem_of_union_r, (Hc u v); [set_solver..|done|]. by exists x, h, e.
Qed.

Lemma visit_budget w t : t ∉ visited w → budget (visit t w) = budget w.
Proof.
  intros Ht. unfold budget. simpl. rewrite length_app, size_union by set_solver.
  rewrite size_singleton. simpl. lia.
Qed.

(** A condition of the graph panics on some input. *)
Definition panics (why : string) : Prop :=
  ∃ id node input, Nodes g !! id = Some node ∧ Node_Type node = NodeTypeCondition ∧
    evalExpression (Node_Expression node) {[ "result" := input ]} = Panic why.

Abbreviation tr := (triple panics).
Abbreviation runs := (running flow s0 g).
Abbreviation halts := (stopped flow s0 g).

Lemma node_at_known t : t ∈ dom (Nodes g) → Nodes g !! t = Some (node_at g t).
Proof. intros [n Hn]%elem_of_dom. unfold node_at. by rewrite Hn. Qed.

Lemma execute_known t input outs :
  t ∈ dom (Nodes g) →
  tr (runs outs) (executeNode now_at flow (node_at g t) input)
    (λ o ec', (recorded flow (node_at g t) ec' ∧ runs outs ec') ∧
      ∃ ec, executeNode now_at flow (node_at g t) input ec = (Ok o, ec')) halts.
Proof.
  intros Ht. apply triple_run, (executeNode_keeps _ _ _ _ t); [by apply node_at_known|]. intros w Hty Hp.
  exists t, (node_at g t), input. split; [by apply node_at_known|done].
Qed.

Lemma output_of_keeps id outs o :
  outs !! id = Some o →
  tr (runs outs) (output_of id) (λ v ec, v = o ∧ runs outs ec) halts.
Proof.
  intros Ho ec Hec. unfold output_of, mgets. split; [|done].
  destruct Hec as (_ & _ & -> & _). unfold get_nil. by rewrite Ho.
Qed.

Lemma set_output_keeps id v outs :
  tr (λ ec, recorded flow (node_at g id) ec ∧ runs outs ec) (set_output id v)
    (λ _, runs (<[id := v]> outs)) halts.
Proof.
  intros ec (Hid & ? & ? & <- & Hrec). split_and!; try done. intros i Hi.
  destruct (decide (i = id)) as [->|Hne]; [exact Hid|]. rewrite lookup_insert_ne in Hi by done. by apply Hrec.
Qed.

(** Run a node and store its output. *)
Lemma run_node_keeps {B} t input outs (k : M EC B) (Q : B → EC → Prop) :
  t ∈ dom (Nodes g) →
  (∀ o ec ec', executeNode now_at flow (node_at g t) input ec = (Ok o, ec') →
     tr (runs (<[t := o]> outs)) k Q halts) →
  tr (runs outs)
    (out ← executeNode now_at flow (node_at g t) input;
     _ ← set_output t out;
     _ ← log now_at "info" ("node " +:+ t +:+ " executed");
     k) Q halts.
Proof.
  intros Ht Hk. eapply triple_bind; [by apply execute_known|intros o].
  intros ec' [Hec' [ec Hrun]].
  refine ((_ : tr (λ ec, recorded flow (node_at g t) ec ∧ runs outs ec) _ Q halts) ec' Hec').
  eapply triple_bind; [apply set_output_keeps|intros ?].
  eapply triple_bind; [apply log_keeps|intros ?]. by eapply Hk.
Qed.

(** The walk while the edges out of [cur] are followed. *)
Record busy (cur : string) (o : value) outs (w : walk) : Prop := {
  bz_ok : walk_ok outs w;
  bz_closed : closed_but (eq cur) outs w;
  bz_visited : cur ∈ visited w;
  bz_popped : cur ∉ pending_ids w;
  bz_output : outs !! cur = Some o
}.

Lemma busy_visit cur o outs w t v ec ec' :
  busy cur o outs w → t ∉ visited w → t ∈ dom (Nodes g) → taken outs cur t →
  executeNode now_at flow (node_at g t) o ec = (Ok v, ec') →
  busy cur o (<[t := v]> outs) (visit t w).
Proof.
  intros [Hok Hc Hv Hp Ho] Ht Hkt Htk Hrun.
  destruct (visit_ok _ _ _ _ _ _ _ _ Hok Ht Hkt Htk Ho Hrun) as [Hsub Hok'].
  constructor; [done|by apply visit_closed| | |by eapply lookup_weaken].
  - simpl. set_solver.
  - simpl. set_solver.
Qed.

(** What following some edges out of [cur] leaves. *)
Definition followed (cur : string) (o : value) (w : walk) (seen : list Edge)
    (w' : walk) (ec : EC) : Prop :=
  ∃ outs, runs outs ec ∧ busy cur o outs w' ∧ visited w ⊆ visited w' ∧
    budget w' = budget w ∧ ∀ e, e ∈ seen → Edge_Target e ∈ visited w'.

Lemma follow_edges_keeps cur o h es w outs :
  busy cur o outs w → h ∈ emittedHandles (node_at g cur) o →
  (∀ e, e ∈ es → e ∈ OutgoingEdges g cur h) →
  tr (runs outs) (follow_edges now_at flow g cur es w) (followed cur o w es) halts.
Proof.
  revert w outs; induction es as [|e es IH]; intros w outs Hb Hh Hes; cbn [follow_edges].
  { apply triple_ret. intros ec Hec. exists outs. split_and!; try done. by intros e ?%elem_of_nil. }
  assert (He : e ∈ OutgoingEdges g cur h) by (apply Hes; by left).
  assert (Hes' : ∀ e', e' ∈ es → e' ∈ OutgoingEdges g cur h) by (intros; apply Hes; by right).
  case_bool_decide as Hv.
  - eapply triple_post; [by apply IH|].
    intros w' ec (outs' & Hr & Hb' & Hsub & Hbud & Hseen).
    exists outs'. split_and!; try done. intros e' [->|He']%elem_of_cons; [by apply Hsub|auto].
  - eapply triple_bind; [apply output_of_keeps, (bz_output _ _ _ _ Hb)|intros input].
    apply triple_pure. intros ->.
    eapply (run_node_keeps (Edge_Target e) o outs).
    { by eapply edge_target_known. }
    intros v ec ec' Hrun. eapply triple_post.
    + apply (IH (visit (Edge_Target e) w)); [|done..]. eapply busy_visit; try done.
      { by eapply edge_target_known. }
      exists o, h, e. split; [apply Hb|done].
    + intros w' ec2 (outs' & Hr & Hb' & Hsub & Hbud & Hseen).
      exists outs'. split_and!; try done.
      * simpl in Hsub. set_solver.
      * by rewrite Hbud, visit_budget.
      * intros e' [->|He']%elem_of_cons; [apply Hsub; simpl; set_solver|auto].
Qed.

Lemma follow_handles_keeps cur o hs w outs :
  busy cur o outs w → (∀ h, h ∈ hs → h ∈ emittedHandles (node_at g cur) o) →
  tr (runs outs) (follow_handles now_at flow g cur hs w)
    (followed cur o w (hs ≫= OutgoingEdges g cur)) halts.
Proof.
  revert w outs; induction hs as [|h hs IH]; intros w outs Hb Hhs; cbn [follow_handles].
  { apply triple_ret. intros ec Hec. exists outs. split_and!; try done. by intros e ?%elem_of_nil. }
  eapply triple_bind; [apply (follow_edges_keeps cur o h); [done|apply Hhs; by left|done]|intros w1].
  apply triple_exists. intros outs1 ec (Hr & Hb1 & Hsub1 & Hbud1 & Hseen1).
  assert (Hhs' : ∀ h', h' ∈ hs → h' ∈ emittedHandles (node_at g cur) o) by (intros; apply Hhs; by right).
  pose proof (IH w1 outs1 Hb1 Hhs' ec Hr) as H.
  destruct (follow_handles _ _ _ _ _ _ ec) as [[w2|e|why|] ec2]; try done.
  destruct H as (outs2 & Hr2 & Hb2 & Hsub2 & Hbud2 & Hseen2).
  exists outs2. split_and!; [done|done|set_solver|congruence|].
  intros e. cbn [mbind list_bind]. intros [He|He]%elem_of_app; [by apply Hsub2, Hseen1|by apply Hseen2].
Qed.

(** At the head of the loop every node that is not queued is done. *)
Definition at_head (w : walk) (ec : EC) : Prop :=
  ∃ outs, runs outs ec ∧ walk_ok outs w ∧ closed_but (λ _, False) outs w.

Definition finished (order : list string) (ec : EC) : Prop :=
  ∃ outs w, runs outs ec ∧ walk_ok outs w ∧ closed_but (λ _, False) outs w ∧
            exec_order w = order ∧ pending_ids w = [].

Lemma followed_head cur o w w' ec :
  followed cur o w (emittedHandles (node_at g cur) o ≫= OutgoingEdges g cur) w' ec →
  at_head w' ec ∧ budget w' = budget w.
Proof.
  intros (outs & Hr & [Hok Hc _ _ Ho] & _ & Hbud & Hseen). split; [|done].
  exists outs. split_and!; [done|done|]. intros u v Hu Hup _ Htk.
  destruct (decide (cur = u)) as [<-|Hne]; [|by apply (Hc u v)].
  destruct Htk as (o' & h & e & Ho' & Hh & He & <-).
  rewrite Ho in Ho'. injection Ho' as <-. apply Hseen, list_elem_of_bind. by exists h.
Qed.

Lemma pop_busy cur queue outs w :
  walk_ok outs w → closed_but (λ _, False) outs w → pending_ids w = cur :: queue →
  ∃ o, busy cur o outs (mkWalk (visited w) (exec_order w) queue).
Proof.
  intros Hok Hc Hq.
  assert (Hcv : cur ∈ visited w) by (apply (wk_queued _ _ Hok); rewrite Hq; by left).
  assert (exists o, outs !! cur = Some o) as [o Ho].
  { rewrite <- (wk_dom _ _ Hok) in Hcv. by apply elem_of_dom in Hcv as [o Ho]; exists o. }
  assert (Hqnd : NoDup (cur :: queue)) by (rewrite <- Hq; apply Hok).
  apply NoDup_cons in Hqnd as [Hcq Hqnd]. exists o.
  destruct Hok. constructor; simpl; [constructor; simpl; try done| |done|done|done].
  - intros u Hu. apply wk_queued0. rewrite Hq. by right.
  - intros u v Hu Hup Hne Htk. simpl in *. apply (Hc u v Hu); [|tauto|done].
    rewrite Hq. intros [->|?]%elem_of_cons; [by apply Hne|done].
Qed.

Lemma run_queue_keeps fuel w :
  (Z.of_nat (size (Nodes g)) + budget w < Z.of_nat fuel)%Z →
  tr (at_head w) (run_queue now_at fuel flow g w) finished halts.
Proof.
  revert w; induction fuel as [|f IH]; intros w Hf.
  { apply triple_exists. intros outs ec (_ & Hok & _). exfalso.
    pose proof (subseteq_size _ _ (wk_known _ _ Hok)) as Hs. rewrite size_dom in Hs.
    unfold budget in Hf. lia. }
  simpl. destruct (pending_ids w) as [|cur queue] eqn:Hq.
  { apply triple_ret. intros ec (outs & ? & ? & ?). by exists outs, w. }
  apply triple_exists. intros outs ec (Hr & Hok & Hc).
  destruct (pop_busy cur queue outs w Hok Hc Hq) as [o Hb].
  refine ((_ : tr (runs outs) _ finished halts) ec Hr).
  eapply triple_bind; [apply output_of_keeps, (bz_output _ _ _ _ Hb)|intros out].
  apply triple_pure. intros ->.
  eapply triple_bind; [by apply (follow_handles_keeps cur o)|intros w2 ec2 Hfol].
  apply followed_head in Hfol as [Hhead Hbud]. apply IH; [|done].
  rewrite Hbud. unfold budget in *. rewrite Hq in Hf. simpl in *. lia.
Qed.

(** ** The whole run *)
Lemma start_ok o ec ec' :
  t0 ∈ dom (Nodes g) → executeNode now_at flow (node_at g t0) VNil ec = (Ok o, ec') →
  walk_ok (<[t0 := o]> ∅) (mkWalk {[t0]} [] [t0]) ∧
  closed_but (λ _, False) (<[t0 := o]> ∅) (mkWalk {[t0]} [] [t0]).
Proof.
  intros Ht Hrun. split; [constructor; simpl|].
  - set_solver.
  - apply NoDup_singleton.
  - apply NoDup_singleton.
  - set_solver.
  - rewrite dom_insert_L. set_solver.
  - set_solver.
  - by intros v ->%elem_of_singleton.
  - intros v x [[<- <-]|[_ Hx]]%lookup_insert_Some; [|by rewrite lookup_empty in Hx].
    exists VNil, ec, ec'. auto.
  - intros u v Hu Hup. simpl in *. set_solver.
Qed.

Lemma run_graph_keeps trigger :
  t0 ∈ dom (Nodes g) → Node_ID trigger = t0 → node_at g t0 = trigger →
  tr (runs ∅) (run_graph now_at flow g trigger) finished halts.
Proof.
  intros Ht Hid Hat. unfold run_graph. rewrite Hid. rewrite <- Hat at 1.
  eapply (run_node_keeps t0 VNil ∅ (run_queue now_at _ flow g _)); [done|].
  intros o ec ec' Hrun. destruct (start_ok o ec ec' Ht Hrun) as [Hok Hc].
  eapply triple_pre; [apply run_queue_keeps|].
  - unfold budget. cbn [visited pending_ids length]. rewrite size_singleton. lia.
  - intros ec2 Hr. by exists (<[t0 := o]> ∅).
Qed.
End Walk.

(** ** The outcome of Execute, in terms of the above *)
Section Outcome.
Context (flow : Flow) (w : W).

Definition start : EC := mkExec w [] ∅ [] 0.

Lemma start_running g : running flow (w_effects w) g ∅ start.
Proof.
  split_and!; [apply applied_refl|constructor|done|]. intros id [v Hv]. by rewrite lookup_empty in Hv.
Qed.

(** A parsed graph with its definition and trigger. *)
Record parsed (g : Graph) (d : FlowDef) (trigger : Node) : Prop := {
  ps_parse : ParseAndValidate (Flow_FlowJSON flow) = Ok g;
  ps_valid : valid_def d;
  ps_graph : graph_of d g;
  ps_trigger : ∀ o, Trigger o g = Ok trigger;
  ps_type : Node_Type trigger = NodeTypeTrigger;
  ps_known : Nodes g !! Node_ID trigger = Some trigger
}.

Lemma ParseAndValidate_parsed g :
  ParseAndValidate (Flow_FlowJSON flow) = Ok g → ∃ d trigger, parsed g d trigger.
Proof.
  intros Hp. destruct (ParseAndValidate_Ok _ _ Hp) as [d Hd].
  destruct (buildGraph_Ok d g Hd) as (Hv & _ & Hg).
  destruct (Trigger_unique d g Hv Hg) as (n & Hn & Hty & _ & Ht).
  exists d, n. constructor; try done.
  rewrite (go_nodes _ _ Hg). apply node_map_elem; [apply Hv|done].
Qed.

Lemma run_graph_outcome g d trigger :
  parsed g d trigger →
  triple (panics g) (λ ec, ec = start) (run_graph now_at flow g trigger)
    (finished flow (w_effects w) g (Node_ID trigger)) (stopped flow (w_effects w) g).
Proof.
  intros [Hp Hv Hg Ht Hty Hk]. eapply triple_pre.
  - eapply run_graph_keeps; [done|done| |done|].
    + apply elem_of_dom. eauto.
    + unfold node_at. by rewrite Hk.
  - intros ec ->. apply start_running.
Qed.

(** Rolling back from a stopped run restores the side effects. *)
Lemma rollbackAndFail_restores g err ec :
  stopped flow (w_effects w) g ec →
  ∃ ec' logs,
    rollbackAndFail now_at err ec =
      (Ok (mkExecutionResult RunStatusRolledBack
             (marshalResult (VMap {[ "error" := VString (error_text err);
                                     "rollback_errors" := VInt 0 ]})) logs (Some err)), ec') ∧
    w_effects (ec_world ec') ≡ w_effects w ∧
    w_store (ec_world ec') = w_store (ec_world ec) ∧
    w_mcp (ec_world ec') = w_mcp (ec_world ec).
Proof.
  intros (s & Ha & Heq & _).
  destruct (rollback_restores _ _ _ _ Ha Heq) as (s'' & Hrb & Hs).
  unfold rollbackAndFail, mbind, M_bind, on_rb. rewrite Hrb.
  cbn [log mgets mret M_ret length]. eexists _, _. split; [done|]. done.
Qed.
End Outcome.
End Theory.
