(* ===== verification/EngineProps.v ===== *)
(** * What an execution guarantees

    The properties of [Execute], over any store, MCP client and side-effect
    store that keep their laws, and the instance of the in-memory ones. *)
From S2P Require Import Prelude GoStr GoValue GoSort GoFmt Json Model Store StoreSpec.
From S2P Require Import Expr ExprTheory Graph GraphSpec SideEffects Mcp Engine EngineTheory.

(** The result lists the output of every node that ran. *)
Lemma result_map_all trigger order outs :
  dom outs = list_to_set (Node_ID trigger :: order) → result_map trigger order outs = outs.
Proof.
  intros Hdom. unfold result_map.
  assert (H : ∀ l m, (∀ i, m !! i = outs !! i ∨ i ∈ l ∧ is_Some (outs !! i) ∧ m !! i = None
                       ∨ i ∈ l ∧ m !! i = outs !! i) →
    (∀ i, i ∈ l → is_Some (outs !! i)) →
    foldl (λ m id, <[id := get_nil outs id]> m) m l = outs).
  { induction l as [|x l IH]; intros m Hm Hl; simpl.
    - apply map_eq. intros i. destruct (Hm i) as [|[[?%elem_of_nil _]|[?%elem_of_nil _]]]; done.
    - apply IH; [|intros; apply Hl; by right]. intros i.
      destruct (decide (i = x)) as [->|Hne].
      + left. rewrite lookup_insert_eq. unfold get_nil.
        destruct (Hl x) as [v ->]; [by left|done].
      + rewrite lookup_insert_ne by done.
        destruct (Hm i) as [|[[Hi ?]|[Hi ?]]]; [auto| |auto].
        apply elem_of_cons in Hi as [->|Hi]; [done|auto]. }
  assert (Hin : ∀ i, i ∈ Node_ID trigger :: order ↔ is_Some (outs !! i)).
  { intros i. rewrite <- elem_of_dom, Hdom. by rewrite elem_of_list_to_set. }
  apply H; [|intros i Hi; apply Hin; by right]. intros i.
  destruct (decide (i = Node_ID trigger)) as [->|Hne].
  - left. rewrite lookup_singleton_eq. unfold get_nil.
    destruct (proj1 (Hin (Node_ID trigger))) as [v ->]; [by left|done].
  - rewrite lookup_singleton_ne by done.
    destruct (outs !! i) eqn:E; [|auto]. right; left.
    assert (Hi : i ∈ Node_ID trigger :: order) by (apply Hin; eauto).
    apply elem_of_cons in Hi as [->|Hi]; [done|]. eauto.
Qed.

Section Props.
Context {St Mc Se : Type}.
Context {st_ops : Store St} {st_answers : StoreAnswers St}.
Context {mc_ops : Client Mc} {mc_laws : ClientLaws Mc}.
Context {se_ops : SideEffectStore Se} {se_laws : SideEffectLaws Se} {quoting : FmtQuote}.
Context (now_at : nat → Time) (map_order : MapOrder).
Abbreviation W := (World St Mc Se).
Implicit Types (w : W).

(** The ways an execution can end. *)
Definition succeeded (fl : Flow) w (res : ExecutionResult) w' : Prop :=
  ∃ g d trigger ec order,
    parsed fl g d trigger ∧
    finished now_at fl (w_effects w) g (Node_ID trigger) order ec ∧
    w' = ec_world ec ∧
    res = mkExecutionResult RunStatusSuccess
            (marshalResult (VMap (result_map trigger order (ec_outputs ec)))) (ec_logs ec) None.

Definition failed (fl : Flow) w (res : ExecutionResult) w' : Prop :=
  w_effects w' ≡ w_effects w ∧
  ((Exec_Status res = RunStatusFailed ∧
    ∃ err, ParseAndValidate (Flow_FlowJSON fl) = Err err ∧ Exec_Err res = Some err) ∨
   (Exec_Status res = RunStatusRolledBack ∧ ∃ err, Exec_Err res = Some err ∧
    (∃ g, ParseAndValidate (Flow_FlowJSON fl) = Ok g) ∧
    Exec_Result res = marshalResult (VMap {[ "error" := VString (error_text err);
                                             "rollback_errors" := VInt 0 ]}))).


Lemma execute_graph_cases fl w g d trigger :
  parsed fl g d trigger →
  match execute_graph now_at fl g trigger (start w) with
  | (Ok res, ec') =>
      succeeded fl w res (ec_world ec') ∨ failed fl w res (ec_world ec')
  | (Panic why, ec') => panics g why ∧ stopped fl (w_effects w) g ec'
  | _ => False
  end.
Proof.
  intros Hp. pose proof (run_graph_outcome now_at fl w g d trigger Hp (start w) eq_refl) as H.
  unfold execute_graph, mtry, mbind, M_bind.
  destruct (run_graph now_at fl g trigger (start w)) as [[order|err|why|] ec] eqn:E; try done.
  - left. by exists g, d, trigger, ec, order.
  - destruct (rollbackAndFail_restores now_at fl w g err ec H) as (ec' & logs & -> & Heff & _).
    right. split; [done|]. right. split; [done|]. exists err. split; [done|].
    split; [by exists g; apply Hp|done].
Qed.

Lemma Execute_cases fl w :
  match Execute now_at map_order fl w with
  | (Ok res, w') => succeeded fl w res w' ∨ failed fl w res w'
  | (Panic why, w') =>
      ∃ g ec, ParseAndValidate (Flow_FlowJSON fl) = Ok g ∧ panics g why ∧
        stopped fl (w_effects w) g ec ∧ w' = ec_world ec
  | _ => False
  end.
Proof.
  unfold Execute. pose proof (ParseAndValidate_proper (Flow_FlowJSON fl)) as Hprop.
  destruct (ParseAndValidate (Flow_FlowJSON fl)) as [g|err|why|] eqn:E; try done; cycle 1.
  { right. split; [done|]. left. eauto. }
  destruct (ParseAndValidate_parsed fl g E) as (d & trigger & Hp).
  rewrite (ps_trigger _ _ _ _ Hp). pose proof (execute_graph_cases fl w g d trigger Hp) as H.
  unfold start in H.
  destruct (execute_graph _ _ _ _ _) as [[res|e|why|] ec']; try done.
  destruct H as [Hpan Hst]. exists g, ec'. split_and!; done.
Qed.

Lemma closed_reach g outs wk x v :
  closed_but g (λ _, False) outs wk → pending_ids wk = [] →
  rtc (taken g outs) x v → x ∈ visited wk → v ∈ visited wk.
Proof.
  intros Hc Hp. induction 1 as [x|x y z Hxy _ IH]; [done|].
  intros Hx. apply IH, (Hc x y); [done| |tauto|done]. rewrite Hp. apply not_elem_of_nil.
Qed.

(** C23: An execution always comes to an end with a result; the one way not
    to return is a run-time panic, and then some condition of the parsed
    graph is an expression whose evaluation panics on some input. *)
Theorem Execute_terminates fl w :
  (∃ res, (Execute now_at map_order fl w).1 = Ok res) ∨
  (∃ why g, (Execute now_at map_order fl w).1 = Panic why ∧
            ParseAndValidate (Flow_FlowJSON fl) = Ok g ∧ panics g why).
Proof.
  pose proof (Execute_cases fl w) as H.
  destruct (Execute now_at map_order fl w) as [[res|e|why|] w']; simpl; [eauto|done| |done].
  destruct H as (g & ec & ? & ? & _). right. by exists why, g.
Qed.

(** C3: An execution that does not succeed leaves the side-effect store as
    it found it. Its status is "failed" when the flow does not parse or
    validate, and "rolled_back", with no rollback error, when a node
    failed; the error is reported in both cases. *)
Theorem Execute_failure_restores fl w res w' :
  Execute now_at map_order fl w = (Ok res, w') →
  Exec_Status res ≠ RunStatusSuccess →
  w_effects w' ≡ w_effects w ∧
  ((Exec_Status res = RunStatusFailed ∧
    ∃ err, ParseAndValidate (Flow_FlowJSON fl) = Err err ∧ Exec_Err res = Some err) ∨
   (Exec_Status res = RunStatusRolledBack ∧ ∃ err, Exec_Err res = Some err ∧
    (∃ g, ParseAndValidate (Flow_FlowJSON fl) = Ok g) ∧
    Exec_Result res = marshalResult (VMap {[ "error" := VString (error_text err);
                                             "rollback_errors" := VInt 0 ]}))).
Proof.
  intros E Hs. pose proof (Execute_cases fl w) as H. rewrite E in H.
  destruct H as [(g & d & t & ec & order & _ & _ & _ & ->)|H]; [done|exact H].
Qed.

(** C4: A successful execution ran the nodes that its own outputs lead to
    from the trigger, and each once: the result maps to its output every
    node that can be reached from the trigger by edges whose handle their
    source emitted (for a condition "true" or "false" by its value), and
    only those; the output of the trigger comes from running it on nil, and
    the output of any other node from running it on the output of a
    reached node the engine came from. *)
Theorem Execute_success fl w res w' :
  Execute now_at map_order fl w = (Ok res, w') →
  Exec_Status res = RunStatusSuccess →
  ∃ g trigger outs,
    ParseAndValidate (Flow_FlowJSON fl) = Ok g ∧
    (∀ o, Trigger o g = Ok trigger) ∧
    Exec_Err res = None ∧ Exec_Result res = marshalResult (VMap outs) ∧
    (∀ v, is_Some (outs !! v) ↔ rtc (taken g outs) (Node_ID trigger) v) ∧
    (∀ v o, outs !! v = Some o → explained now_at fl g (Node_ID trigger) outs v o).
Proof.
  intros E Hs. pose proof (Execute_cases fl w) as H. rewrite E in H.
  destruct H as [(g & d & t & ec & order & Hp & Hfin & _ & ->)|[_ [[Hf _]|[Hf _]]]];
    [|by rewrite Hf in Hs..].
  destruct Hfin as (outs & wk & (_ & _ & Houts & _) & Hok & Hclosed & <- & Hpend).
  exists g, t, outs. split_and!; [apply Hp|apply Hp|reflexivity| | |].
  - cbn [Exec_Result]. rewrite Houts, result_map_all; [done|]. rewrite (wk_dom _ _ _ _ _ _ Hok). apply Hok.
  - intros v. rewrite <- elem_of_dom, (wk_dom _ _ _ _ _ _ Hok). split; [apply Hok|].
    assert (Ht : Node_ID t ∈ visited wk).
    { rewrite (wk_visited _ _ _ _ _ _ Hok). set_solver. }
    intros Hr. by eapply closed_reach.
  - apply Hok.
Qed.

(** C22: The side effects of a successful execution are exactly those of its
    records, applied one after the other to the store it started from. Each is
    the effect of a node of the flow's own graph: of a tool that an mcp_tool
    node names, or of an output node, with the node's kind and target and its
    resolved value, and then the target is inside the permission boundary of
    the flow: a database, file or modbus target is listed under its kind in
    the flow's permissions, an http target is free, and there is no other
    kind. And nothing is left out: every mcp_tool or output node that ran has
    its record. *)
Theorem Execute_effects_permitted fl w res w' :
  Execute now_at map_order fl w = (Ok res, w') →
  Exec_Status res = RunStatusSuccess →
  ∃ g outs recs,
    ParseAndValidate (Flow_FlowJSON fl) = Ok g ∧ Exec_Result res = marshalResult (VMap outs) ∧
    applied (w_effects w) recs (w_effects w') ∧
    Forall (λ r, ∃ id node, Nodes g !! id = Some node ∧ effect_of fl node (Rec_Effect r)) recs ∧
    (∀ id node, is_Some (outs !! id) → Nodes g !! id = Some node → has_effect node →
       ∃ r, r ∈ recs ∧ effect_of fl node (Rec_Effect r)).
Proof.
  intros E Hs. pose proof (Execute_cases fl w) as H. rewrite E in H.
  destruct H as [(g & d & t & ec & order & Hparsed & Hfin & -> & ->)|[_ [[Hf _]|[Hf _]]]];
    [|by rewrite Hf in Hs..].
  destruct Hfin as (outs & wk & (Ha & Hp & Houts & Hrec) & Hok & _ & <- & _).
  exists g, outs, (ec_records ec). split_and!; [apply Hparsed| |done|done|].
  - cbn [Exec_Result]. rewrite Houts, result_map_all; [done|]. rewrite (wk_dom _ _ _ _ _ _ Hok). apply Hok.
  - intros id node Hid Hnode Heff. specialize (Hrec id Hid). unfold node_at in Hrec.
    rewrite Hnode in Hrec. by apply Hrec.
Qed.
End Props.

(** ** The in-memory instance, and sample flows *)
Definition sample_handler (s : Transport) (name : string) (args : gmap string value) : outcome string :=
  if bool_decide (name = "broken") then Err (ErrorsNew "tool failed") else Ok (name +:+ " done").

Definition sample_text (j : json) : string := "".

#[export] Instance sample_client : Client MockClient := Mock_Client (Some sample_handler) sample_text.
#[export] Instance sample_client_laws : ClientLaws MockClient.
Proof. apply Mock_ClientLaws. intros ? name ?. unfold sample_handler. by case_if. Qed.
#[export] Instance sample_store : Store Memory := Memory_Store sorted_order.
#[export] Instance sample_store_laws : StoreLaws Memory := Memory_StoreLaws sorted_order.
#[export] Instance sample_effects : SideEffectStore MemorySideEffectStore := Memory_SideEffectStore pretty.
#[export] Instance sample_effects_laws : SideEffectLaws MemorySideEffectStore := Memory_SideEffectLaws pretty.
#[export] Instance sample_quote : FmtQuote := plain_quote.

Definition sample_world : World Memory MockClient MemorySideEffectStore :=
  mkWorld
    (CreateMcpServer (mkMcpServer "s1" "t1" "server" (RawDoc (JObj [("type", JStr "stdio")]))
       true "" 0%Z 0%Z) NewMemoryStore).2
    NewMockClient (NewMemorySideEffectStore 0) 0.

Definition jnode (fields : list (string * string)) : json :=
  JObj ((λ '(k, v), (k, JStr v)) <$> fields).

Definition jedge (s h t : string) : json :=
  jnode [("source", s); ("source_handle", h); ("target", t)].

(** trigger -> tool -> condition -> one of two outputs *)
Definition sample_flow_json (tool expression : string) : RawMessage :=
  RawDoc (JObj
    [("nodes", JArr
       [jnode [("id", "start"); ("type", "trigger")];
        jnode [("id", "tool"); ("type", "mcp_tool"); ("server_id", "s1"); ("tool", tool)];
        jnode [("id", "file"); ("type", "output"); ("kind", "file"); ("target", "out.txt"); ("value", "$input")];
        jnode [("id", "cond"); ("type", "condition"); ("expression", expression)];
        jnode [("id", "db"); ("type", "output"); ("kind", "database"); ("target", "main")]]);
     ("edges", JArr
       [jedge "start" "" "tool"; jedge "tool" "" "file"; jedge "file" "" "cond";
        jedge "cond" "true" "db"])]).

Definition sample_flow (tool expression : string) : Flow :=
  mkFlow "f1" "t1" "sample" (sample_flow_json tool expression)
    (mkFlowPermissionSet [] ["out.txt"] []) true 0%Z 0%Z.

Definition run_sample (tool expression : string) :=
  Execute Z.of_nat sorted_order (sample_flow tool expression) sample_world.

Lemma Execute_terminates_witness :
  (∃ res, (run_sample "report" "result.kind == 'db'").1 = Ok res) ∨
  (∃ why g, (run_sample "report" "result.kind == 'db'").1 = Panic why ∧
            ParseAndValidate (sample_flow_json "report" "result.kind == 'db'") = Ok g ∧ panics g why).
Proof. exact (Execute_terminates Z.of_nat sorted_order (sample_flow "report" "result.kind == 'db'") sample_world). Defined.

Lemma Execute_failure_restores_witness :
  let r := run_sample "report" "result.kind == 'file'" in
  ∃ res, r.1 = Ok res ∧ Exec_Status res = RunStatusRolledBack ∧
         UndoLog (w_effects r.2) ≠ [] ∧ w_effects r.2 ≡ w_effects sample_world.
Proof.
  eexists. split; [vm_compute; reflexivity|]. split; [reflexivity|].
  split; [vm_compute; discriminate|].
  refine (proj1 (Execute_failure_restores Z.of_nat sorted_order
    (sample_flow "report" "result.kind == 'file'") sample_world _ _ _ _)).
  - vm_compute; reflexivity.
  - vm_compute; discriminate.
Defined.

Lemma Execute_success_witness :
  ∃ res w' g trigger outs,
    run_sample "report" "result.kind == 'db'" = (Ok res, w') ∧
    ParseAndValidate (sample_flow_json "report" "result.kind == 'db'") = Ok g ∧
    Exec_Result res = marshalResult (VMap outs) ∧
    (∀ v, is_Some (outs !! v) ↔ rtc (taken g outs) (Node_ID trigger) v).
Proof.
  eexists _, _. edestruct (Execute_success Z.of_nat sorted_order
    (sample_flow "report" "result.kind == 'db'") sample_world)
    as (g & trigger & outs & H1 & _ & _ & H2 & H3 & _);
    [vm_compute; reflexivity|vm_compute; reflexivity|].
  exists g, trigger, outs. split; [vm_compute; reflexivity|]. split_and!; [exact H1|exact H2|exact H3].
Defined.

Lemma Execute_effects_permitted_witness :
  ∃ res w' g recs,
    run_sample "report" "result.kind == 'db'" = (Ok res, w') ∧
    Value "file" "out.txt" (w_effects w') =
      (VMap {[ "server_id" := VString "s1"; "tool" := VString "report";
               "output" := VString "report done" ]}, true) ∧
    applied (w_effects sample_world) recs (w_effects w') ∧
    Forall (λ r, ∃ id node, Nodes g !! id = Some node ∧
      effect_of (sample_flow "report" "result.kind == 'db'") node (Rec_Effect r)) recs.
Proof.
  eexists _, _. edestruct (Execute_effects_permitted Z.of_nat sorted_order
    (sample_flow "report" "result.kind == 'db'") sample_world)
    as (g & outs & recs & _ & _ & H1 & H2 & _); [vm_compute; reflexivity|vm_compute; reflexivity|].
  exists g, recs. split; [vm_compute; reflexivity|]. split; [vm_compute; reflexivity|].
  split; [exact H1|exact H2].
Defined.

(** A panic in a condition is not caught by the engine: in the sample
    flow, with the expression [true || (], the execution panics after the
    tool call and the file output, nothing is rolled back, and the output
    stays in the side-effect store. *)
Theorem panic_keeps_side_effects :
  let r := run_sample "report" "true || (" in
  r.1 = Panic index_panic ∧
  Value "file" "out.txt" (w_effects sample_world) = (VNil, false) ∧
  (Value "file" "out.txt" (w_effects r.2)).2 = true ∧
  UndoLog (w_effects r.2) = [].
Proof. split_and!; vm_compute; reflexivity. Qed.
