(* ===== verification/Auth.v ===== *)
(** * Authentication and authorization (internal/auth)

    The role matrix (rbac.go), the token manager (auth.go) over the JWT
    library it calls, and the two middlewares (middleware.go) as functions on
    handlers. *)
From Stdlib Require Import Ascii.
From S2P Require Import Prelude GoStr Model.

(** ** rbac.go *)
Definition roleRank (role : string) : nat :=
  if bool_decide (role = RoleOwner) then 3
  else if bool_decide (role = RoleOperator) then 2
  else if bool_decide (role = RoleViewer) then 1
  else 0.

Definition HasRole (actor required : string) : bool := roleRank required <=? roleRank actor.

Definition httpMethodGet : string := "GET".
Definition httpMethodHead : string := "HEAD".
Definition httpMethodPost : string := "POST".

Definition RequiredRole (method path0 : string) : string :=
  let path := before_byte "?" path0 in
  if negb (has_prefix path "/api/v1/") then RoleViewer
  else if bool_decide (method = httpMethodPost) && bool_decide (path = "/api/v1/auth/login") then RoleViewer
  else if bool_decide (method = httpMethodPost) && bool_decide (path = "/api/v1/tasks") then RoleOperator
  else if bool_decide (method = httpMethodPost) && has_suffix path "/run" && has_prefix path "/api/v1/flows/"
  then RoleOperator
  else if bool_decide (method = httpMethodGet) || bool_decide (method = httpMethodHead) then RoleViewer
  else RoleOwner.

Definition Allowed (method path role : string) : bool := HasRole role (RequiredRole method path).

(** ** auth.go *)
Record RegisteredClaims := mkRegisteredClaims {
  Subject : string;
  IssuedAt : Time;
  ExpiresAt : Time;
  Issuer : string
}.

Record Claims := mkClaims {
  Claims_TenantID : string;
  Claims_Role : string;
  Claims_UserID : string;
  Registered : RegisteredClaims
}.

Record Manager := mkManager {
  secret : string;
  expiry : Z
}.

Definition NewManager (s : string) (e : Z) : Manager := mkManager s e.

Definition ErrInvalidToken : error := ErrorsNew "auth: invalid token".
Definition ErrExpiredToken : error := ErrorsNew "auth: expired token".

(** The JWT library: signing with HS256, and parsing with a key function that
    is told whether the token's method is an HMAC one and the algorithm it
    names. [NumericDate] truncates to seconds. *)
Class JWT := {
  SignedString : string → Claims → outcome string;
  ParseWithClaims : (bool → string → outcome string) → string → outcome (Claims * bool);
  is_expired : error → bool;
  NumericDate : Time → Time
}.

Section Tokens.
Context `{JWT} (m : Manager).

(** [now] is the reading of the manager's clock. *)
Definition Issue (now : Time) (subject userID tenantID role : string) : outcome string :=
  SignedString (secret m)
    (mkClaims tenantID role userID
       (mkRegisteredClaims subject (NumericDate now) (NumericDate (now + expiry m)%Z) "agent-hub-core")).

Definition keyfunc (hmac : bool) (alg : string) : outcome string :=
  if hmac then Ok (secret m)
  else Err (Errorf "auth: unexpected signing method %v" [FStr alg]).

Definition Verify (tokenString : string) : outcome Claims :=
  match ParseWithClaims keyfunc tokenString with
  | Err err => if is_expired err then Err ErrExpiredToken else Err ErrInvalidToken
  | Ok (claims, valid) =>
      if negb valid then Err ErrInvalidToken
      else if bool_decide (Claims_TenantID claims = "") || bool_decide (Claims_Role claims = "")
      then Err ErrInvalidToken
      else Ok claims
  | Panic w => Panic w
  | NoFuel => NoFuel
  end.
End Tokens.

(** ** middleware.go

    What the middlewares read of a request, with the values stored in its
    context; a handler maps it to a response. *)
Record Request := mkRequest {
  Method : string;
  URL_Path : string;
  Authorization : string;
  ctx_claims : option Claims;
  ctx_request_id : option string
}.

Definition WithClaims (r : Request) (c : Claims) : Request :=
  mkRequest (Method r) (URL_Path r) (Authorization r) (Some c) (ctx_request_id r).
Definition ClaimsFrom (r : Request) : option Claims := ctx_claims r.
Definition TenantIDFrom (r : Request) : string :=
  match ClaimsFrom r with Some c => Claims_TenantID c | None => "" end.
Definition RoleFrom (r : Request) : string :=
  match ClaimsFrom r with Some c => Claims_Role c | None => "" end.
Definition WithRequestID (r : Request) (id : string) : Request :=
  mkRequest (Method r) (URL_Path r) (Authorization r) (ctx_claims r) (Some id).
Definition RequestIDFrom (r : Request) : string := default "" (ctx_request_id r).

Definition requiresAuth (path : string) : bool :=
  if bool_decide (path ∈ ["/healthz"; "/readyz"; "/metrics"]) then false
  else if bool_decide (path = "/api/v1/auth/login") then false
  else true.

Definition bearerToken (r : Request) : string :=
  let h := Authorization r in
  if bool_decide (h = "") then ""
  else match split2 " " h with
       | Some (scheme, rest) =>
           if equal_fold_ascii scheme "Bearer" then trim_space rest else ""
       | None => ""
       end.

Definition StatusUnauthorized : Z := 401.
Definition StatusForbidden : Z := 403.

(** A response: a status and a message of the middleware's own, or what the
    next handler made of the request it was given. *)
Inductive Response (A : Type) :=
  | HttpError (body : string) (status : Z)
  | Served (a : A).
Arguments HttpError {A} body status.
Arguments Served {A} a.

Definition Handler (A : Type) : Type := Request → Response A.

Definition json_error_body (msg : string) : string :=
  "{" +:+ String "034" ("error" +:+ String "034" (":" +:+ String "034" (msg +:+ String "034" "}"))).

Definition Authenticator `{JWT} (m : Manager) {A} (next : Handler A) : Handler A := λ r,
  if negb (requiresAuth (URL_Path r)) then next r
  else
    let token := bearerToken r in
    if bool_decide (token = "") then HttpError (json_error_body "missing bearer token") StatusUnauthorized
    else match Verify m token with
         | Ok claims => next (WithClaims r claims)
         | _ => HttpError (json_error_body "invalid or expired token") StatusUnauthorized
         end.

Definition Authorizer {A} (next : Handler A) : Handler A := λ r,
  if negb (requiresAuth (URL_Path r)) then next r
  else match ClaimsFrom r with
       | None => HttpError (json_error_body "unauthorized") StatusUnauthorized
       | Some claims =>
           if negb (Allowed (Method r) (URL_Path r) (Claims_Role claims))
           then HttpError (json_error_body "forbidden") StatusForbidden
           else next r
       end.

(** The group of protected routes: [r.Use(s.Auth.Authenticator)], then
    [r.Use(auth.Authorizer)]. *)
Definition protected `{JWT} (m : Manager) {A} (next : Handler A) : Handler A :=
  Authenticator m (Authorizer next).

(** ** The matrix *)
Lemma roleRank_known role : roleRank role ≠ 0 ↔ role ∈ [RoleViewer; RoleOperator; RoleOwner].
Proof.
  unfold roleRank. repeat case_bool_decide; subst; split; try done; try set_solver.
Qed.

Lemma RequiredRole_known method path :
  RequiredRole method path ∈ [RoleViewer; RoleOperator; RoleOwner].
Proof. unfold RequiredRole. repeat case_if; set_solver. Qed.

(** Requests that only need a viewer, and those an operator may also make. *)
Definition public_or_read (method path : string) : bool :=
  negb (has_prefix path "/api/v1/")
  || bool_decide (method = httpMethodPost) && bool_decide (path = "/api/v1/auth/login")
  || bool_decide (method = httpMethodGet) || bool_decide (method = httpMethodHead).

Definition operator_write (method path : string) : bool :=
  bool_decide (method = httpMethodPost) &&
  (bool_decide (path = "/api/v1/tasks")
   || has_suffix path "/run" && has_prefix path "/api/v1/flows/").

Definition matrix (method path role : string) : bool :=
  bool_decide (role = RoleOwner)
  || bool_decide (role = RoleOperator) && (public_or_read method path || operator_write method path)
  || bool_decide (role = RoleViewer) && public_or_read method path.

Lemma Allowed_is_matrix method path0 role :
  Allowed method path0 role = matrix method (before_byte "?" path0) role.
Proof.
  unfold Allowed, HasRole, RequiredRole, matrix, public_or_read, operator_write.
  set (path := before_byte "?" path0).
  destruct (decide (method = httpMethodPost)) as [->|Hp].
  - rewrite !(bool_decide_eq_true_2 (httpMethodPost = httpMethodPost)) by done.
    rewrite !(bool_decide_eq_false_2 (httpMethodPost = httpMethodGet)),
      !(bool_decide_eq_false_2 (httpMethodPost = httpMethodHead)) by done.
    destruct (has_prefix path "/api/v1/"), (bool_decide (path = "/api/v1/auth/login")),
      (bool_decide (path = "/api/v1/tasks")), (has_suffix path "/run"),
      (has_prefix path "/api/v1/flows/");
      simpl; unfold roleRank; repeat case_bool_decide; subst; done.
  - rewrite !(bool_decide_eq_false_2 (method = httpMethodPost)) by done.
    destruct (has_prefix path "/api/v1/"), (bool_decide (method = httpMethodGet)),
      (bool_decide (method = httpMethodHead));
      simpl; unfold roleRank; repeat case_bool_decide; subst; done.
Qed.

(** The permission matrix, in full. An unknown role is refused
    everything, an owner nothing; a viewer may do what is outside the API,
    log in, and use GET and HEAD; an operator may in addition create tasks
    and run flows. Only the path before a
    question mark counts. A role of higher rank is allowed at least as much. *)
Theorem Allowed_matrix method path0 role :
  Allowed method path0 role = matrix method (before_byte "?" path0) role ∧
  ∀ role', roleRank role ≤ roleRank role' →
    Allowed method path0 role = true → Allowed method path0 role' = true.
Proof.
  split; [apply Allowed_is_matrix|]. intros role' Hr. unfold Allowed, HasRole.
  rewrite !Nat.leb_le. lia.
Qed.

(** The comment on the user routes in router.go says "owner only via RBAC";
    the matrix lets a viewer list and read users. *)
Example viewer_may_list_users :
  Allowed "GET" "/api/v1/users" RoleViewer = true ∧ Allowed "GET" "/api/v1/users/u1" RoleViewer = true ∧
  Allowed "POST" "/api/v1/users" RoleOperator = false.
Proof. by vm_compute. Qed.

(** ** The middlewares *)
Section Middleware.
Context {jwt : JWT} (m : Manager).

Lemma Verify_Ok token c :
  Verify m token = Ok c →
  Claims_TenantID c ≠ "" ∧ Claims_Role c ≠ "" ∧
  ParseWithClaims (keyfunc m) token = Ok (c, true).
Proof.
  unfold Verify. destruct (ParseWithClaims _ token) as [[c' valid]|e|w|]; try done; [|by case_if].
  destruct valid; [|done]. simpl. case_if; [done|]. intros [= <-]. by bool_to_prop.
Qed.

Lemma protected_Served r r' :
  requiresAuth (URL_Path r) = true →
  protected m Served r = Served r' ↔
  bearerToken r ≠ "" ∧
  ∃ c, Verify m (bearerToken r) = Ok c ∧
       Allowed (Method r) (URL_Path r) (Claims_Role c) = true ∧ r' = WithClaims r c.
Proof.
  intros Hreq. unfold protected, Authenticator. rewrite Hreq. simpl.
  case_bool_decide as Ht; [split; [done|by intros [? _]]|].
  destruct (Verify m (bearerToken r)) as [c|e|w|]; try (split; [done|by intros (_ & c & ? & _)]).
  unfold Authorizer, WithClaims. simpl. rewrite Hreq. simpl.
  destruct (Allowed _ _ _) eqn:Ha; simpl.
  - split; [intros [= <-]; eauto 6|]. intros (_ & c' & [= <-] & _ & ->). done.
  - split; [done|]. intros (_ & c' & [= <-] & Ha' & _). by rewrite Ha in Ha'.
Qed.

Lemma protected_refuses r msg status :
  protected m Served r = HttpError msg status → status = StatusUnauthorized ∨ status = StatusForbidden.
Proof.
  unfold protected, Authenticator, Authorizer. repeat (case_if || case_match); naive_solver.
Qed.

(** C27: Through the two middlewares a request to a path that needs
    authentication reaches the handler exactly when it carries a non-empty
    bearer token that verifies and the role in the token is allowed the
    method and path; the handler then sees the request with the token's
    claims, whose tenant is not empty and whose role is one of the three
    known ones. *)
Theorem protected_serves_authorized r r' :
  requiresAuth (URL_Path r) = true →
  (protected m Served r = Served r' ↔
   bearerToken r ≠ "" ∧
   ∃ c, Verify m (bearerToken r) = Ok c ∧
        Allowed (Method r) (URL_Path r) (Claims_Role c) = true ∧ r' = WithClaims r c) ∧
  (protected m Served r = Served r' →
   TenantIDFrom r' ≠ "" ∧ RoleFrom r' ∈ [RoleViewer; RoleOperator; RoleOwner] ∧
   ParseWithClaims (keyfunc m) (bearerToken r) = Ok (default (mkClaims "" "" "" (mkRegisteredClaims "" 0%Z 0%Z "")) (ClaimsFrom r'), true)).
Proof.
  intros Hreq. split; [by apply protected_Served|].
  intros (_ & c & Hv & Ha & ->)%protected_Served; [|done].
  apply Verify_Ok in Hv as (Ht & _ & Hp). split_and!; [done| |done].
  apply roleRank_known. intros H0. unfold RoleFrom, WithClaims in H0. simpl in H0.
  unfold Allowed, HasRole in Ha. rewrite H0 in Ha.
  pose proof (proj2 (roleRank_known _) (RequiredRole_known (Method r) (URL_Path r))) as Hk.
  apply Nat.leb_le in Ha. lia.
Qed.

(** No write without the role for it. A request under /api/v1/ other
    than the login, with a method other than GET and HEAD, that reaches a
    handler was made with a verified token of an owner, or of an operator
    who posts a task or runs a flow. *)
Theorem writes_need_role r r' :
  requiresAuth (URL_Path r) = true →
  public_or_read (Method r) (before_byte "?" (URL_Path r)) = false →
  protected m Served r = Served r' →
  ∃ c, Verify m (bearerToken r) = Ok c ∧ r' = WithClaims r c ∧
    (Claims_Role c = RoleOwner ∨
     Claims_Role c = RoleOperator ∧
     operator_write (Method r) (before_byte "?" (URL_Path r)) = true).
Proof.
  intros Hreq Hw (_ & c & Hv & Ha & ->)%protected_Served; [|done].
  exists c. split_and!; [done..|]. rewrite Allowed_is_matrix in Ha. unfold matrix in Ha.
  rewrite Hw in Ha. simpl in Ha. rewrite andb_false_r, orb_false_r in Ha.
  apply orb_true_iff in Ha as [Ha|Ha]; bool_to_prop; auto.
Qed.
End Middleware.

(** A library that knows one token. *)
Definition sample_claims (role : string) : Claims :=
  mkClaims "t1" role "u1" (mkRegisteredClaims "ada" 0%Z 100%Z "agent-hub-core").

Definition sample_jwt (role : string) : JWT := {|
  SignedString := λ key c, Ok ("token-" +:+ key);
  ParseWithClaims := λ kf tok,
    key ← kf true "HS256";
    if bool_decide (tok = "token-" +:+ key) then Ok (sample_claims role, true)
    else Err (ErrorsNew "token signature is invalid");
  is_expired := λ _, false;
  NumericDate := λ t, t
|}.

Definition sample_request (method path : string) : Request :=
  mkRequest method path "bearer   token-k " None None.

Lemma protected_serves_authorized_witness :
  let r := sample_request "GET" "/api/v1/agents" in
  let r' := WithClaims r (sample_claims RoleViewer) in
  requiresAuth (URL_Path r) = true ∧
  protected (H := sample_jwt RoleViewer) (NewManager "k" 1%Z) Served r = Served r' ∧
  TenantIDFrom r' ≠ "".
Proof.
  cbv zeta. assert (E : protected (H := sample_jwt RoleViewer) (NewManager "k" 1%Z) Served
    (sample_request "GET" "/api/v1/agents")
    = Served (WithClaims (sample_request "GET" "/api/v1/agents") (sample_claims RoleViewer)))
    by (vm_compute; reflexivity).
  split; [reflexivity|]. split; [exact E|].
  exact (proj1 (proj2 (protected_serves_authorized (jwt := sample_jwt RoleViewer) (NewManager "k" 1%Z)
    (sample_request "GET" "/api/v1/agents") _ eq_refl) E)).
Defined.

Lemma writes_need_role_witness :
  let r := sample_request "POST" "/api/v1/flows/f1/run" in
  let jwt := sample_jwt RoleOperator in
  protected (NewManager "k" 1%Z) Served r = Served (WithClaims r (sample_claims RoleOperator)) ∧
  ∃ c, Verify (NewManager "k" 1%Z) (bearerToken r) = Ok c ∧
    (Claims_Role c = RoleOwner ∨ Claims_Role c = RoleOperator).
Proof.
  cbv zeta. assert (E : protected (H := sample_jwt RoleOperator) (NewManager "k" 1%Z) Served
    (sample_request "POST" "/api/v1/flows/f1/run")
    = Served (WithClaims (sample_request "POST" "/api/v1/flows/f1/run") (sample_claims RoleOperator)))
    by (vm_compute; reflexivity).
  split; [exact E|].
  destruct (writes_need_role (jwt := sample_jwt RoleOperator) (NewManager "k" 1%Z)
    (sample_request "POST" "/api/v1/flows/f1/run") _ eq_refl eq_refl E) as (c & Hv & _ & Hr).
  exists c. split; [exact Hv|]. destruct Hr as [Hr|[Hr _]]; [left|right]; exact Hr.
Defined.
