(* ===== verification/Hub.v ===== *)
(** * The WebSocket hub (internal/ws/hub.go)

    Clients are allocated objects: a number stands for the pointer, and
    [objects] holds for each its tenant, the contents of its channel and
    whether the channel is closed.  Sending on a closed channel and closing
    one twice are the panics they are in Go; both are proved not to happen.
    Each method holds the hub's lock while it touches the state: one step. *)
From S2P Require Import Prelude GoStr GoValue Json Model.

Record Msg := mkMsg {
  Msg_Type : string;
  Msg_Tenant : string;
  Msg_Payload : value;
  Msg_Time : Time
}.

Record client := mkClient {
  tenant : string;
  send : list json;
  closed : bool
}.

(** [make(chan []byte, 64)] *)
Definition send_capacity : nat := 64.

Record Hub := mkHub {
  clients : gset nat;
  byTenant : gmap string (gset nat);
  objects : gmap nat client
}.

Definition NewHub : Hub := mkHub ∅ ∅ ∅.

(** [h.byTenant[tenant]]: a nil set reads as empty. *)
Definition room (h : Hub) (t : string) : gset nat := default ∅ (byTenant h !! t).

Definition Register (t : string) : M Hub nat := λ h,
  let c := fresh (dom (objects h)) in
  (Ok c, mkHub ({[c]} ∪ clients h) (<[t := {[c]} ∪ room h t]> (byTenant h))
           (<[c := mkClient t [] false]> (objects h))).

(** [close(c.send)] *)
Definition close_send (c : nat) : M Hub unit := λ h,
  match objects h !! c with
  | Some o =>
      if closed o then (Panic "close of closed channel", h)
      else (Ok tt, mkHub (clients h) (byTenant h) (<[c := mkClient (tenant o) (send o) true]> (objects h)))
  | None => (Panic "nil pointer dereference", h)
  end.

(** The function [Register] returns, for client [c] of tenant [t]. *)
Definition deregister (c : nat) (t : string) : M Hub unit := λ h,
  if bool_decide (c ∈ clients h) then
    let clients' := clients h ∖ {[c]} in
    let room' := room h t ∖ {[c]} in
    let byTenant' := if bool_decide (size room' = 0) then delete t (byTenant h)
                     else <[t := room']> (byTenant h) in
    close_send c (mkHub clients' byTenant' (objects h))
  else (Ok tt, h).

(** [select { case c.send <- data: default: }] *)
Definition deliver (data : json) (c : nat) : M Hub unit := λ h,
  match objects h !! c with
  | Some o =>
      if closed o then (Panic "send on closed channel", h)
      else if length (send o) <? send_capacity
      then (Ok tt, mkHub (clients h) (byTenant h)
                     (<[c := mkClient (tenant o) (send o ++ [data]) false]> (objects h)))
      else (Ok tt, h)
  | None => (Panic "nil pointer dereference", h)
  end.

Fixpoint deliver_all (data : json) (cs : list nat) : M Hub unit :=
  match cs with
  | [] => mret tt
  | c :: rest => _ ← deliver data c; deliver_all data rest
  end.

(** The encoded envelope: an empty tenant is left out. [time_text] renders a
    time as encoding/json does. *)
Definition encode_message (time_text : Time → string) (m : Msg) : outcome json :=
  p ← encode_any (Msg_Payload m);
  Ok (JObj ([("type", JStr (Msg_Type m))]
            ++ (if bool_decide (Msg_Tenant m = "") then [] else [("tenant", JStr (Msg_Tenant m))])
            ++ [("payload", p); ("time", JStr (time_text (Msg_Time m)))])).

(** [visit] is the order in which the set of clients is ranged over. *)
Definition Broadcast (time_text : Time → string) (visit : gset nat → list nat) (now : Time)
    (t msgType : string) (payload : value) : M Hub unit := λ h,
  match encode_message time_text (mkMsg msgType t payload now) with
  | Ok data =>
      if bool_decide (t = "") then deliver_all data (visit (clients h)) h
      else deliver_all data (visit (room h t)) h
  | _ => (Ok tt, h)
  end.

Definition ClientCount (h : Hub) : nat := size (clients h).

(** The subscriber takes the next message; [None] when its channel is closed
    and empty. *)
Definition receive (c : nat) (h : Hub) : option (option json * Hub) :=
  o ← objects h !! c;
  match send o with
  | d :: rest => Some (Some d, mkHub (clients h) (byTenant h)
                         (<[c := mkClient (tenant o) rest (closed o)]> (objects h)))
  | [] => if closed o then Some (None, h) else None
  end.

(** ** The invariant *)
Record hub_ok (h : Hub) : Prop := {
  hb_open : ∀ c, c ∈ clients h ↔ ∃ o, objects h !! c = Some o ∧ closed o = false;
  hb_room : ∀ t c, c ∈ room h t ↔ c ∈ clients h ∧ ∃ o, objects h !! c = Some o ∧ tenant o = t;
  hb_nonempty : ∀ t cs, byTenant h !! t = Some cs → cs ≠ ∅;
  hb_bound : ∀ c o, objects h !! c = Some o → length (send o) ≤ send_capacity
}.

(** ** Steps of the hub *)
Inductive hub_step (time_text : Time → string) : Hub → Hub → Prop :=
  | step_register t h :
      hub_step time_text h (Register t h).2
  | step_deregister c o h :
      objects h !! c = Some o → hub_step time_text h (deregister c (tenant o) h).2
  | step_broadcast visit now t ty payload h :
      (∀ s, visit s ≡ₚ elements s) →
      hub_step time_text h (Broadcast time_text visit now t ty payload h).2
  | step_receive c d h h' :
      receive c h = Some (d, h') → hub_step time_text h h'.

Lemma room_insert h t t' cs :
  default ∅ (<[t := cs]> (byTenant h) !! t') = if decide (t = t') then cs else room h t'.
Proof. unfold room. case_decide; subst; [by rewrite lookup_insert_eq|by rewrite lookup_insert_ne]. Qed.

Lemma room_delete h t t' :
  default ∅ (delete t (byTenant h) !! t') = if decide (t = t') then ∅ else room h t'.
Proof. unfold room. case_decide; subst; [by rewrite lookup_delete_eq|by rewrite lookup_delete_ne]. Qed.

Lemma NewHub_ok : hub_ok NewHub.
Proof.
  constructor; simpl.
  - intros c. rewrite lookup_empty. set_solver.
  - intros t c. unfold room. simpl. rewrite !lookup_empty. simpl. set_solver.
  - intros t cs. by rewrite lookup_empty.
  - intros c o. by rewrite lookup_empty.
Qed.

Lemma Register_ok t h : hub_ok h → hub_ok (Register t h).2.
Proof.
  intros [Ho Hr Hn Hb]. unfold Register. simpl.
  set (c := fresh (dom (objects h))).
  assert (Hc : objects h !! c = None) by (apply not_elem_of_dom, is_fresh).
  assert (Hcc : c ∉ clients h) by (rewrite Ho, Hc; naive_solver).
  constructor; simpl.
  - intros x. destruct (decide (x = c)) as [->|Hne].
    + rewrite lookup_insert_eq. split; [eauto|]. intros _. apply elem_of_union_l, elem_of_singleton_2. done.
    + rewrite lookup_insert_ne, <- Ho, elem_of_union, elem_of_singleton by done. tauto.
  - intros t' x. unfold room at 1. simpl. rewrite room_insert.
    rewrite elem_of_union, elem_of_singleton.
    assert (Hm : x ∈ (if decide (t = t') then {[c]} ∪ room h t else room h t') ↔
                 (t = t' ∧ x = c) ∨ x ∈ room h t').
    { destruct (decide (t = t')) as [<-|]; [rewrite elem_of_union, elem_of_singleton|]; tauto. }
    rewrite Hm, Hr. destruct (decide (x = c)) as [->|Hne].
    + rewrite lookup_insert_eq. naive_solver.
    + rewrite lookup_insert_ne by done. tauto.
  - intros t' cs [[<- <-]|[_ Hcs]]%lookup_insert_Some; [set_solver|by eapply Hn].
  - intros x o [[<- <-]|[_ Hx]]%lookup_insert_Some; [simpl; lia|by eapply Hb].
Qed.

Lemma deregister_run c o h :
  hub_ok h → objects h !! c = Some o →
  ∃ h', deregister c (tenant o) h = (Ok tt, h') ∧ hub_ok h' ∧ c ∉ clients h' ∧
        clients h' = clients h ∖ {[c]}.
Proof.
  intros Hok Hc. pose proof Hok as [Ho Hr Hn Hb]. unfold deregister. case_bool_decide as Hin; cycle 1.
  { exists h. split_and!; [done..|set_solver]. }
  assert (Hopen : closed o = false).
  { apply Ho in Hin as (o' & Hc' & Hcl). by rewrite Hc in Hc'; injection Hc' as <-. }
  unfold close_send. simpl. rewrite Hc, Hopen. eexists. split; [done|].
  split; [|simpl; set_solver].
  assert (Hroom : ∀ t', default ∅
    ((if bool_decide (size (room h (tenant o) ∖ {[c]}) = 0) then delete (tenant o) (byTenant h)
      else <[tenant o := room h (tenant o) ∖ {[c]}]> (byTenant h)) !! t')
    = if decide (tenant o = t') then room h (tenant o) ∖ {[c]} else room h t').
  { intros t'. case_bool_decide as Hs.
    - rewrite room_delete. case_decide; [|done]. symmetry. by apply leibniz_equiv, size_empty_inv.
    - apply room_insert. }
  constructor; simpl.
  - intros x. destruct (decide (x = c)) as [->|Hne].
    + rewrite lookup_insert_eq, elem_of_difference, elem_of_singleton. naive_solver.
    + rewrite lookup_insert_ne, <- Ho, elem_of_difference, elem_of_singleton by done. tauto.
  - intros t' x. unfold room at 1. simpl. rewrite Hroom.
    assert (Hm : x ∈ (if decide (tenant o = t') then room h (tenant o) ∖ {[c]} else room h t') ↔
                 x ∈ room h t' ∧ (tenant o = t' → x ≠ c)).
    { destruct (decide (tenant o = t')) as [<-|]; [rewrite elem_of_difference, elem_of_singleton|]; tauto. }
    rewrite Hm, Hr, elem_of_difference, elem_of_singleton.
    destruct (decide (x = c)) as [->|Hne].
    + rewrite lookup_insert_eq, Hc. naive_solver.
    + rewrite lookup_insert_ne by done. tauto.
  - intros t' cs. case_bool_decide as Hs.
    + intros [_ H]%lookup_delete_Some. by eapply Hn.
    + intros [[<- <-]|[_ H]]%lookup_insert_Some; [|by eapply Hn].
      intros E. apply Hs. by rewrite E, size_empty.
  - intros x o' [[<- <-]|[_ Hx]]%lookup_insert_Some; [simpl; by eapply Hb|by eapply Hb].
Qed.

(** Changing the buffer of one client. *)
Lemma hub_ok_update h c o o' :
  hub_ok h → objects h !! c = Some o → tenant o' = tenant o → closed o' = closed o →
  length (send o') ≤ send_capacity →
  hub_ok (mkHub (clients h) (byTenant h) (<[c := o']> (objects h))).
Proof.
  intros [Ho Hr Hn Hb] Hc Ht Hcl Hl. constructor; simpl; [| |done|].
  - intros x. rewrite Ho. destruct (decide (x = c)) as [->|Hne].
    + rewrite lookup_insert_eq, Hc. split; intros (y & [= <-] & ?); eexists; (split; [done|congruence]).
    + rewrite lookup_insert_ne by done. reflexivity.
  - intros t x. unfold room at 1. simpl. fold (room h t). rewrite Hr.
    destruct (decide (x = c)) as [->|Hne].
    + rewrite lookup_insert_eq, Hc.
      split; intros (? & y & [= <-] & ?); (split; [done|]); eexists; (split; [done|congruence]).
    + rewrite lookup_insert_ne by done. reflexivity.
  - intros x y [[<- <-]|[_ Hx]]%lookup_insert_Some; [done|by eapply Hb].
Qed.

(** What a client's object becomes when a message is offered to it: it is
    dropped when the buffer is full. *)
Definition offer (data : json) (o : client) : client :=
  if length (send o) <? send_capacity then mkClient (tenant o) (send o ++ [data]) (closed o) else o.

Lemma deliver_run data c o h :
  hub_ok h → c ∈ clients h → objects h !! c = Some o →
  ∃ h', deliver data c h = (Ok tt, h') ∧ hub_ok h' ∧ clients h' = clients h ∧
        byTenant h' = byTenant h ∧ objects h' = <[c := offer data o]> (objects h).
Proof.
  intros Hok Hin Hc. unfold deliver, offer. rewrite Hc.
  assert (Hcl : closed o = false).
  { apply (hb_open _ Hok) in Hin as (o' & Hc' & ?). congruence. }
  rewrite Hcl. case_if; eexists; (split; [done|]); simpl.
  - split_and!; try done. eapply hub_ok_update; try done. simpl.
    apply Nat.ltb_lt in E. rewrite length_app. simpl. lia.
  - split_and!; try done. by rewrite insert_id.
Qed.

Lemma deliver_all_run data cs h :
  hub_ok h → NoDup cs → (∀ c, c ∈ cs → c ∈ clients h) →
  ∃ h', deliver_all data cs h = (Ok tt, h') ∧ hub_ok h' ∧ clients h' = clients h ∧
        byTenant h' = byTenant h ∧
        ∀ c, objects h' !! c = (if decide (c ∈ cs) then offer data else id) <$> objects h !! c.
Proof.
  revert h; induction cs as [|c cs IH]; intros h Hok Hnd Hcs.
  { exists h. split_and!; try done. intros c. rewrite decide_False by apply not_elem_of_nil.
    by rewrite option_fmap_id. }
  apply NoDup_cons in Hnd as [Hc Hnd].
  destruct (proj1 (hb_open _ Hok c)) as (o & Ho & _); [apply Hcs; by left|].
  destruct (deliver_run data c o h Hok) as (h1 & Hd & Hok1 & Hcl1 & Hb1 & Hobj1); [apply Hcs; by left|done|].
  destruct (IH h1 Hok1 Hnd) as (h' & Hrun & Hok' & Hcl' & Hb' & Hobj').
  { intros x Hx. rewrite Hcl1. apply Hcs. by right. }
  exists h'. cbn [deliver_all]. erewrite bind_ok by exact Hd. split_and!; [done|done|congruence..|].
  intros x. rewrite Hobj', Hobj1. destruct (decide (x = c)) as [->|Hne].
  - rewrite decide_False by done. rewrite lookup_insert_eq, Ho. rewrite decide_True by (by left). done.
  - rewrite lookup_insert_ne by done.
    destruct (decide (x ∈ cs)) as [Hx|Hx]; [by rewrite decide_True by (by right)|].
    by rewrite decide_False by (by intros [?|?]%elem_of_cons).
Qed.

Section Run.
Context (time_text : Time → string).

(** The clients a message for tenant [t] is meant for. *)
Definition addressed (h : Hub) (t : string) (c : nat) (o : client) : Prop :=
  c ∈ clients h ∧ (t = "" ∨ tenant o = t).

#[export] Instance addressed_dec h t c o : Decision (addressed h t c o).
Proof. unfold addressed. apply _. Defined.

Lemma visit_NoDup (visit : gset nat → list nat) s :
  (∀ s, visit s ≡ₚ elements s) → NoDup (visit s) ∧ ∀ c, c ∈ visit s ↔ c ∈ s.
Proof.
  intros Hv. split; [rewrite Hv; apply NoDup_elements|].
  intros c. rewrite (Hv s). apply elem_of_elements.
Qed.

Lemma Broadcast_run visit now t ty payload h :
  (∀ s, visit s ≡ₚ elements s) → hub_ok h →
  ∃ h', Broadcast time_text visit now t ty payload h = (Ok tt, h') ∧ hub_ok h' ∧
    clients h' = clients h ∧ byTenant h' = byTenant h ∧
    ∀ c o, objects h !! c = Some o →
      objects h' !! c = Some
        match encode_message time_text (mkMsg ty t payload now) with
        | Ok data => if decide (addressed h t c o) then offer data o else o
        | _ => o
        end.
Proof.
  intros Hv Hok. unfold Broadcast.
  destruct (encode_message _ _) as [data|e|w|]; try (exists h; by split_and!).
  set (s := if bool_decide (t = "") then clients h else room h t).
  destruct (visit_NoDup visit s Hv) as [Hnd Hmem].
  assert (Hs : ∀ c, c ∈ s ↔ c ∈ clients h ∧
    ∃ o, objects h !! c = Some o ∧ (t = "" ∨ tenant o = t)).
  { intros c. unfold s. pose proof (hb_open _ Hok c) as Hopen. case_bool_decide as Ht.
    - split; [|tauto]. intros Hc. split; [done|]. apply Hopen in Hc as (o & ? & _). eauto.
    - rewrite (hb_room _ Hok). naive_solver. }
  destruct (deliver_all_run data (visit s) h Hok Hnd) as (h' & Hrun & Hok' & Hcl & Hb & Hobj).
  { intros c Hc. by apply Hmem, Hs in Hc as [? _]. }
  exists h'. split_and!; try done.
  - rewrite <- Hrun. unfold s. by case_bool_decide.
  - intros c o Ho. rewrite Hobj, Ho. simpl. f_equal.
    assert (c ∈ visit s ↔ addressed h t c o).
    { rewrite Hmem, Hs. unfold addressed. naive_solver. }
    destruct (decide (c ∈ visit s)), (decide (addressed h t c o)); tauto.
Qed.

Lemma receive_ok c d h h' : receive c h = Some (d, h') → hub_ok h → hub_ok h'.
Proof.
  intros Hr Hok. unfold receive in Hr.
  destruct (objects h !! c) as [o|] eqn:Ho; [|done]. simpl in Hr.
  destruct (send o) as [|x rest] eqn:Hs.
  - destruct (closed o); [by injection Hr as <- <-|done].
  - injection Hr as <- <-. eapply hub_ok_update; try done. simpl.
    pose proof (hb_bound _ Hok _ _ Ho) as Hb. rewrite Hs in Hb. simpl in Hb. lia.
Qed.

Lemma hub_step_ok h h' : hub_step time_text h h' → hub_ok h → hub_ok h'.
Proof.
  intros Hstep Hok. destruct Hstep as [t h|c o h Hc|visit now t ty p h Hv|c d h h' Hr].
  - by apply Register_ok.
  - by destruct (deregister_run c o h Hok Hc) as (h' & -> & ? & _).
  - by destruct (Broadcast_run visit now t ty p h Hv Hok) as (h' & -> & ? & _).
  - by eapply receive_ok.
Qed.

Lemma hub_steps_ok h h' : rtc (hub_step time_text) h h' → hub_ok h → hub_ok h'.
Proof. induction 1 as [|a b c Hab _ IH]; [done|]. intros Ha. by eapply IH, hub_step_ok. Qed.

Lemma reachable_ok h : rtc (hub_step time_text) NewHub h → hub_ok h.
Proof. intros Hr. by eapply hub_steps_ok, NewHub_ok. Qed.
End Run.

(** C24: In every state the hub can reach, by registrations,
    deregistrations, broadcasts and receives in any order: a client is
    registered exactly as long as its channel is open; the rooms partition
    the registered clients by tenant and none is empty; no buffer exceeds its
    capacity; and no method panics: nothing is sent on a closed channel and
    none is closed twice. *)
Theorem hub_invariant time_text h :
  rtc (hub_step time_text) NewHub h →
  hub_ok h ∧
  (∀ t, ∃ c, (Register t h).1 = Ok c ∧ objects h !! c = None) ∧
  (∀ c o, objects h !! c = Some o → (deregister c (tenant o) h).1 = Ok tt) ∧
  (∀ visit now t ty p, (∀ s, visit s ≡ₚ elements s) →
     (Broadcast time_text visit now t ty p h).1 = Ok tt).
Proof.
  intros Hr. pose proof (reachable_ok _ _ Hr) as Hok. split_and!; [done| | |].
  - intros t. eexists. split; [done|]. apply not_elem_of_dom, is_fresh.
  - intros c o Hc. by destruct (deregister_run c o h Hok Hc) as (h' & -> & _).
  - intros visit now t ty p Hv. by destruct (Broadcast_run time_text visit now t ty p h Hv Hok) as (h' & -> & _).
Qed.

Definition hub_with_two : Hub := (Register "b" (Register "a" NewHub).2).2.

Lemma hub_with_two_reachable time_text : rtc (hub_step time_text) NewHub hub_with_two.
Proof.
  unfold hub_with_two. eapply rtc_l; [apply (step_register _ "a")|].
  eapply rtc_l; [apply (step_register _ "b")|]. apply rtc_refl.
Qed.

Lemma hub_invariant_witness :
  rtc (hub_step pretty) NewHub hub_with_two ∧ hub_ok hub_with_two ∧ ClientCount hub_with_two = 2.
Proof.
  split; [apply hub_with_two_reachable|]. split; [|reflexivity].
  exact (proj1 (hub_invariant pretty hub_with_two (hub_with_two_reachable pretty))).
Defined.

(** C31: A broadcast reaches exactly the registered clients it is addressed
    to (those of its tenant, or all when the tenant is empty): each gets the
    encoded message at the end of its buffer if there is room and loses it
    otherwise; every other client, of another tenant or deregistered, is as
    before. A payload that cannot be encoded reaches nobody. *)
Theorem broadcast_delivery time_text visit now t ty payload h :
  rtc (hub_step time_text) NewHub h → (∀ s, visit s ≡ₚ elements s) →
  let h' := (Broadcast time_text visit now t ty payload h).2 in
  clients h' = clients h ∧
  ∀ c o, objects h !! c = Some o →
    objects h' !! c = Some
      match encode_message time_text (mkMsg ty t payload now) with
      | Ok data =>
          if decide (c ∈ clients h ∧ (t = "" ∨ tenant o = t))
          then if length (send o) <? send_capacity
               then mkClient (tenant o) (send o ++ [data]) (closed o) else o
          else o
      | _ => o
      end.
Proof.
  intros Hr Hv. pose proof (reachable_ok _ _ Hr) as Hok.
  destruct (Broadcast_run time_text visit now t ty payload h Hv Hok) as (h' & -> & _ & Hcl & _ & Hobj).
  split; [done|]. intros c o Ho. simpl. rewrite (Hobj c o Ho). f_equal.
Qed.

Lemma broadcast_delivery_witness :
  let h' := (Broadcast pretty elements 7%Z "a" "run_update" (VBool true) hub_with_two).2 in
  (send <$> objects h' !! 0) =
    Some [JObj [("type", JStr "run_update"); ("tenant", JStr "a"); ("payload", JBool true); ("time", JStr "7")]] ∧
  (send <$> objects h' !! 1) = Some [] ∧ clients h' = clients hub_with_two.
Proof.
  cbv zeta. split; [vm_compute; reflexivity|]. split; [vm_compute; reflexivity|].
  exact (proj1 (broadcast_delivery pretty elements 7%Z "a" "run_update" (VBool true) hub_with_two
    (hub_with_two_reachable pretty) (λ s, reflexivity _))).
Defined.

(** Deregistering removes the client and closes its channel; calling the
    returned function again changes nothing; and what was already in the
    buffer can still be received, followed by the end of the channel. *)
Theorem deregister_once time_text c o h :
  rtc (hub_step time_text) NewHub h → objects h !! c = Some o → c ∈ clients h →
  ∃ h1, deregister c (tenant o) h = (Ok tt, h1) ∧
    clients h1 = clients h ∖ {[c]} ∧
    objects h1 = <[c := mkClient (tenant o) (send o) true]> (objects h) ∧
    deregister c (tenant o) h1 = (Ok tt, h1) ∧
    (send o = [] → receive c h1 = Some (None, h1)).
Proof.
  intros Hr Hc Hin. pose proof (reachable_ok _ _ Hr) as Hok.
  destruct (deregister_run c o h Hok Hc) as (h1 & Hd & Hok1 & Hout & Hcl).
  assert (Hobj : objects h1 = <[c := mkClient (tenant o) (send o) true]> (objects h)).
  { unfold deregister in Hd. rewrite bool_decide_eq_true_2 in Hd by done.
    unfold close_send in Hd. simpl in Hd. rewrite Hc in Hd.
    destruct (closed o); [done|]. by injection Hd as <-. }
  exists h1. split_and!; [done|done|done| |].
  - unfold deregister. by rewrite bool_decide_eq_false_2.
  - intros Hs. unfold receive. rewrite Hobj, lookup_insert_eq. simpl. by rewrite Hs.
Qed.

Lemma deregister_once_witness :
  ∃ h1, deregister 0 "a" hub_with_two = (Ok tt, h1) ∧ clients h1 = {[1]} ∧
        deregister 0 "a" h1 = (Ok tt, h1).
Proof.
  destruct (deregister_once pretty 0 (mkClient "a" [] false) hub_with_two
    (hub_with_two_reachable pretty) eq_refl) as (h1 & Hd & Hcl & _ & Hd' & _).
  { vm_compute. reflexivity. }
  exists h1. split; [exact Hd|]. split; [|exact Hd'].
  rewrite Hcl. vm_compute. reflexivity.
Defined.
