(* ===== verification/History.v ===== *)
(** * The dashboard history (internal/api/dashboard_history.go)

    The ring buffer of samples as the code indexes it (Go's truncated [%],
    checked slice accesses), proved to hold the most recent [capacity]
    samples. *)
From S2P Require Import Prelude GoStr GoValue.

Record Sample := mkSample {
  Sample_Time : Z;
  CPU : float64;
  SysMemory : Z;
  Goroutines : Z;
  WebSocketClients : Z
}.

Definition zero_Sample : Sample := mkSample 0 (S754_zero false) 0 0 0.

Record HistoryCollector := mkHistory {
  capacity : Z;
  samples : list Sample;
  ring_head : Z;
  count : Z;
  interval : Z
}.

(** The collector that is made, with its capacity and interval put right. *)
Definition new_ring (cap : Z) (every : Z) : HistoryCollector :=
  let cap' := if (cap <? 1)%Z then 1%Z else cap in
  let every' := if (every <=? 0)%Z then 5000000000%Z else every in
  mkHistory cap' (replicate (Z.to_nat cap') zero_Sample) 0 0 every'.

(** [make([]Sample, capacity)] panics when the slice, of five words a sample,
    does not fit the 48 bits of addresses that the runtime allocates from. *)
Definition makeslice_fits (len : Z) : bool := (40 * len <=? 2 ^ 48)%Z.
Definition makeslice_panic : string := "runtime error: makeslice: len out of range".

Definition NewHistoryCollector (cap : Z) (every : Z) : outcome HistoryCollector :=
  if makeslice_fits (if (cap <? 1)%Z then 1%Z else cap) then Ok (new_ring cap every)
  else Panic makeslice_panic.

(** Checked accesses to a slice. *)
Definition slice_get {A} (l : list A) (i : Z) : outcome A :=
  if (0 <=? i)%Z then
    match l !! Z.to_nat i with Some x => Ok x | None => Panic "index out of range" end
  else Panic "index out of range".

Definition slice_set {A} (l : list A) (i : Z) (x : A) : outcome (list A) :=
  if (0 <=? i)%Z && (i <? Z.of_nat (length l))%Z then Ok (<[Z.to_nat i := x]> l)
  else Panic "index out of range".

(** Go's [a % b]: truncated, a panic for zero. *)
Definition go_rem (a b : Z) : outcome Z :=
  if (b =? 0)%Z then Panic "integer divide by zero" else Ok (Z.rem a b).

Definition index (c : HistoryCollector) (offset : Z) : outcome Z :=
  r ← go_rem offset (capacity c); go_rem (r + capacity c) (capacity c).

Definition write (s : Sample) (c : HistoryCollector) : outcome HistoryCollector :=
  l ← slice_set (samples c) (ring_head c) s;
  h ← go_rem (ring_head c + 1) (capacity c);
  Ok (mkHistory (capacity c) l h
        (if (count c <? capacity c)%Z then count c + 1 else count c)%Z (interval c)).

(** One sample taken from the clock, the CPU sampler and the runtime. *)
Definition Capture (reading : Sample) : M HistoryCollector Sample := λ c,
  match write reading c with
  | Ok c' => (Ok reading, c')
  | Err e => (Err e, c)
  | Panic w => (Panic w, c)
  | NoFuel => (NoFuel, c)
  end.

Definition Latest (c : HistoryCollector) : outcome Sample :=
  if (count c =? 0)%Z then Ok zero_Sample
  else i ← index c (ring_head c - 1); slice_get (samples c) i.

(** [for i := 0; i < c.count; i++], with [n] iterations to go. *)
Fixpoint snapshot_from (c : HistoryCollector) (n : nat) (i : Z) : outcome (list Sample) :=
  match n with
  | 0 => Ok []
  | S n' =>
      j ← index c (ring_head c - count c + i);
      s ← slice_get (samples c) j;
      rest ← snapshot_from c n' (i + 1);
      Ok (s :: rest)
  end.

Definition Snapshot (c : HistoryCollector) : outcome (list Sample) :=
  snapshot_from c (Z.to_nat (count c)) 0.

Fixpoint capture_all (readings : list Sample) : M HistoryCollector unit :=
  match readings with
  | [] => mret tt
  | r :: rest => _ ← Capture r; capture_all rest
  end.

(** ** The specification: the last [n] of all samples *)
Definition last_n {A} (n : nat) (l : list A) : list A := drop (length l - n) l.

(** The collector after the samples [ss], oldest first. *)
Record holds (c : HistoryCollector) (ss : list Sample) : Prop := {
  h_capacity : (1 ≤ capacity c)%Z;
  h_length : Z.of_nat (length (samples c)) = capacity c;
  h_head : ring_head c = (Z.of_nat (length ss) mod capacity c)%Z;
  h_count : count c = Z.min (Z.of_nat (length ss)) (capacity c);
  h_slots : ∀ i s, ss !! i = Some s → (Z.of_nat (length ss) - capacity c ≤ Z.of_nat i)%Z →
    samples c !! Z.to_nat (Z.of_nat i mod capacity c) = Some s
}.

Lemma New_holds cap every : holds (new_ring cap every) [].
Proof.
  unfold new_ring. set (k := if (cap <? 1)%Z then 1%Z else cap).
  assert (Hk : (1 ≤ k)%Z) by (unfold k; destruct (Z.ltb_spec cap 1); lia).
  constructor; simpl; [done| | | |].
  - rewrite length_replicate. lia.
  - by rewrite Z.mod_0_l by lia.
  - lia.
  - intros i s H. by rewrite lookup_nil in H.
Qed.

Lemma mod_distinct a b n :
  (0 < n → a < b → b < a + n → a mod n ≠ b mod n)%Z.
Proof.
  intros Hn Hab Hb E. rewrite (Z.mod_eq a n), (Z.mod_eq b n) in E by lia.
  assert (n * (b / n - a / n) = b - a)%Z as Hd by lia.
  assert (0 < b / n - a / n)%Z by nia. assert (b / n - a / n < 1)%Z by nia. lia.
Qed.

Lemma write_holds c ss s :
  holds c ss → ∃ c', write s c = Ok c' ∧ holds c' (ss ++ [s]).
Proof.
  intros [Hcap Hlen Hhead Hcount Hslots]. unfold write.
  pose proof (Z.mod_pos_bound (Z.of_nat (length ss)) (capacity c) ltac:(lia)) as Hb.
  unfold slice_set, go_rem. rewrite (proj2 (Z.leb_le 0 (ring_head c))) by lia.
  rewrite (proj2 (Z.ltb_lt (ring_head c) (Z.of_nat (length (samples c))))) by lia.
  cbn [andb mbind outcome_bind]. rewrite (proj2 (Z.eqb_neq (capacity c) 0)) by lia.
  cbn [mbind outcome_bind].
  eexists. split; [done|]. constructor; simpl; rewrite ?length_insert, ?length_app; simpl.
  - done.
  - done.
  - rewrite Z.rem_mod_nonneg, Hhead, Z.add_mod_idemp_l by lia. f_equal. lia.
  - rewrite Hcount. destruct (Z.ltb_spec (Z.min (Z.of_nat (length ss)) (capacity c)) (capacity c)); lia.
  - intros i x Hi Hle. rewrite Hhead.
    destruct (decide (i = length ss)) as [->|Hne].
    + rewrite list_lookup_insert_eq by lia.
      rewrite lookup_app_r, Nat.sub_diag in Hi by lia. simpl in Hi. congruence.
    + assert (i < length ss).
      { apply lookup_lt_Some in Hi. rewrite length_app in Hi. simpl in Hi. lia. }
      rewrite lookup_app_l in Hi by done.
      rewrite list_lookup_insert_ne; [apply Hslots; [done|lia]|].
      intros E. apply (f_equal Z.of_nat) in E.
      rewrite !Z2Nat.id in E by (apply Z.mod_pos_bound; lia).
      symmetry in E. by apply (mod_distinct (Z.of_nat i) (Z.of_nat (length ss)) (capacity c)) in E; [|lia..].
Qed.

Lemma index_mod c offset : (1 ≤ capacity c)%Z → index c offset = Ok (offset mod capacity c)%Z.
Proof.
  intros Hc. unfold index, go_rem. rewrite (proj2 (Z.eqb_neq (capacity c) 0)) by lia. simpl. f_equal.
  pose proof (Z.rem_bound_abs offset (capacity c) ltac:(lia)) as Hb.
  rewrite Z.rem_mod_nonneg by lia.
  rewrite <- (Z.mul_1_l (capacity c)) at 2. rewrite Z.mod_add by lia.
  pose proof (Z.quot_rem offset (capacity c) ltac:(lia)) as Hq.
  rewrite Hq at 2. rewrite Z.add_comm, Z.mul_comm, Z.mod_add by lia. done.
Qed.

Lemma read_slot c ss i s :
  holds c ss → ss !! i = Some s → (Z.of_nat (length ss) - capacity c ≤ Z.of_nat i)%Z →
  ∀ offset, (offset mod capacity c = Z.of_nat i mod capacity c)%Z →
  (j ← index c offset; slice_get (samples c) j) = Ok s.
Proof.
  intros [Hcap Hlen _ _ Hslots] Hi Hle offset Ho. rewrite index_mod by done. simpl.
  unfold slice_get. pose proof (Z.mod_pos_bound offset (capacity c) ltac:(lia)).
  rewrite (proj2 (Z.leb_le 0 (offset mod capacity c))) by lia. by rewrite Ho, (Hslots i s Hi Hle).
Qed.

Lemma snapshot_holds c ss : holds c ss → Snapshot c = Ok (last_n (Z.to_nat (capacity c)) ss).
Proof.
  intros Hh. pose proof Hh as [Hcap _ Hhead Hcount _]. unfold Snapshot, last_n.
  assert (H : ∀ n i, (i + n = Z.to_nat (count c))%nat →
    snapshot_from c n (Z.of_nat i) = Ok (drop (length ss - n) ss)).
  { induction n as [|n IH]; intros i Hi; cbn [snapshot_from].
    - rewrite Nat.sub_0_r, drop_all. done.
    - assert (Hlt : length ss - S n < length ss) by lia.
      apply lookup_lt_is_Some_2 in Hlt as [s Hs].
      assert (Hread : (j ← index c (ring_head c - count c + Z.of_nat i); slice_get (samples c) j) = Ok s).
      { eapply read_slot; [done|exact Hs|lia|]. rewrite Hhead.
        replace (Z.of_nat (length ss) mod capacity c - count c + Z.of_nat i)%Z
          with (Z.of_nat (length ss) mod capacity c + (Z.of_nat i - count c))%Z by lia.
        rewrite Z.add_mod_idemp_l by lia. f_equal. lia. }
      destruct (index c _) as [j|?|?|]; try done. simpl in *. rewrite Hread. simpl.
      replace (Z.of_nat i + 1)%Z with (Z.of_nat (S i)) by lia. rewrite IH by lia.
      rewrite (drop_S _ s (length ss - S n)) by done.
      cbn [mbind outcome_bind]. do 3 f_equal. lia. }
  change 0%Z with (Z.of_nat 0). rewrite H by lia. do 2 f_equal. lia.
Qed.

Lemma capture_all_holds readings c ss :
  holds c ss → ∃ c', capture_all readings c = (Ok tt, c') ∧ holds c' (ss ++ readings) ∧
                     capacity c' = capacity c.
Proof.
  revert c ss; induction readings as [|r rs IH]; intros c ss Hc; simpl.
  { exists c. by rewrite app_nil_r. }
  destruct (write_holds c ss r Hc) as (c1 & Hw & Hc1).
  assert (Hcap : capacity c1 = capacity c).
  { unfold write in Hw. apply outcome_bind_Ok in Hw as (l & _ & Hw).
    by apply outcome_bind_Ok in Hw as (h & _ & [= <-]). }
  destruct (IH c1 _ Hc1) as (c' & Hrun & Hc' & Hcap').
  exists c'. rewrite <- app_assoc in Hc'. split; [|by rewrite Hcap'].
  erewrite bind_ok; [exact Hrun|]. unfold Capture. by rewrite Hw.
Qed.

Lemma latest_holds c ss : holds c ss → Latest c = Ok (default zero_Sample (last ss)).
Proof.
  intros Hh. pose proof Hh as [Hc1 _ Hhead Hcount _]. unfold Latest.
  destruct ss as [|r rs _] using rev_ind; [by rewrite Hcount, Z.min_l by (simpl; lia)|].
  rewrite length_app in *. simpl in *.
  destruct (Z.eqb_spec (count c) 0); [lia|]. rewrite last_snoc. simpl.
  eapply (read_slot c _ (length rs)); [done|by apply list_lookup_middle|rewrite length_app; simpl; lia|].
  rewrite Hhead.
  replace (Z.of_nat (length rs + 1) mod capacity c - 1)%Z
    with (Z.of_nat (length rs + 1) mod capacity c + -1)%Z by lia.
  rewrite Z.add_mod_idemp_l by lia. f_equal. lia.
Qed.

(** The history is the most recent samples. Whatever samples are taken,
    and whatever capacity was asked for (one at least is used), the ring
    buffer never fails an access, [Snapshot] returns the last [capacity] of
    all samples, oldest first, and [Latest] the last of them (the zero sample
    when there is none). *)
Theorem history_keeps_latest cap every (readings : list Sample) :
  let c0 := new_ring cap every in
  ∃ c, capture_all readings c0 = (Ok tt, c) ∧ capacity c = Z.max 1 cap ∧
    Snapshot c = Ok (last_n (Z.to_nat (Z.max 1 cap)) readings) ∧
    Latest c = Ok (default zero_Sample (last readings)).
Proof.
  intros c0. destruct (capture_all_holds readings c0 [] (New_holds cap every)) as (c & Hrun & Hh & Hcap).
  assert (Hmax : capacity c = Z.max 1 cap).
  { rewrite Hcap. unfold c0, new_ring. simpl.
    destruct (Z.ltb_spec cap 1); lia. }
  exists c. split_and!; [done|done| |].
  - rewrite <- Hmax. by apply snapshot_holds.
  - by apply latest_holds.
Qed.
