(* ===== verification/Sampler.v ===== *)
(** * The background sampler (internal/api/dashboard_history.go)

    [Start], [Stop] and the goroutine [run] of the history collector, with
    its two channels, as interleaved steps: any number of callers start and
    stop it and take samples of their own, in any order.  Closing a closed
    channel is the panic it is in Go: a step to a state with [crashed]. *)
From S2P Require Import Prelude GoValue History.

(** Where [run] is: not there yet, before a capture, in the [select], before
    the deferred close of [done], over. *)
Inductive loop_pc := NotRunning | Capturing | Selecting | Leaving | Exited.

(** Where the one call of Start that [startOnce] lets through is. *)
Inductive start_pc := NotStarted | Storing | Spawning | StartDone.

(** Where a call of Stop is: before [stopOnce], before the load of
    [started], before the receive from [done], returned (with whether it
    waited for [done]). *)
Inductive stop_pc := Stopping | Loading | Waiting | Returned (waited : bool).

Record Sampler := mkSampler {
  collector : HistoryCollector;
  started : bool;
  starter : start_pc;
  stop_once : bool;
  stop_closed : bool;
  done_closed : bool;
  loop : loop_pc;
  stoppers : list stop_pc;
  captured : list Sample;
  crashed : bool
}.

Definition NewSampler (cap every : Z) : Sampler :=
  mkSampler (new_ring cap every) false NotStarted false false false NotRunning [] [] false.

Definition set_loop (l : loop_pc) (s : Sampler) : Sampler :=
  mkSampler (collector s) (started s) (starter s) (stop_once s) (stop_closed s) (done_closed s) l
    (stoppers s) (captured s) (crashed s).
Definition set_starter (st : bool) (p : start_pc) (s : Sampler) : Sampler :=
  mkSampler (collector s) st p (stop_once s) (stop_closed s) (done_closed s) (loop s)
    (stoppers s) (captured s) (crashed s).
Definition set_stoppers (l : list stop_pc) (s : Sampler) : Sampler :=
  mkSampler (collector s) (started s) (starter s) (stop_once s) (stop_closed s) (done_closed s) (loop s)
    l (captured s) (crashed s).

(** [close(c.stop)] under [stopOnce], and [close(c.done)]. *)
Definition close_stop (s : Sampler) : Sampler :=
  mkSampler (collector s) (started s) (starter s) true true (done_closed s) (loop s)
    (stoppers s) (captured s) (crashed s || stop_closed s).
Definition close_done (s : Sampler) : Sampler :=
  mkSampler (collector s) (started s) (starter s) (stop_once s) (stop_closed s) true Exited
    (stoppers s) (captured s) (crashed s || done_closed s).

(** [c.Capture()]; an access out of range would be a panic. *)
Definition capture (reading : Sample) (s : Sampler) : Sampler :=
  let '(o, c) := Capture reading (collector s) in
  mkSampler c (started s) (starter s) (stop_once s) (stop_closed s) (done_closed s) (loop s)
    (stoppers s) (captured s ++ [reading]) (crashed s || match o with Ok _ => false | _ => true end).

(** A step of the goroutine. *)
Inductive run_step : Sampler → Sampler → Prop :=
  | run_capture reading s : loop s = Capturing → run_step s (set_loop Selecting (capture reading s))
  | run_tick s : loop s = Selecting → run_step s (set_loop Capturing s)
  | run_stop s : loop s = Selecting → stop_closed s = true → run_step s (set_loop Leaving s)
  | run_leave s : loop s = Leaving → run_step s (close_done s).

(** A step of the call of Start that goes through; the others do nothing. *)
Inductive start_step : Sampler → Sampler → Prop :=
  | start_enter s : starter s = NotStarted → start_step s (set_starter (started s) Storing s)
  | start_store s : starter s = Storing → start_step s (set_starter true Spawning s)
  | start_spawn s :
      starter s = Spawning → start_step s (set_loop Capturing (set_starter (started s) StartDone s)).

(** A step of the call of Stop number [i]. *)
Inductive stop_step (i : nat) : Sampler → Sampler → Prop :=
  | stop_first s :
      stoppers s !! i = Some Stopping → stop_once s = false →
      stop_step i s (set_stoppers (<[i := Loading]> (stoppers s)) (close_stop s))
  | stop_again s :
      stoppers s !! i = Some Stopping → stop_once s = true →
      stop_step i s (set_stoppers (<[i := Loading]> (stoppers s)) s)
  | stop_not_started s :
      stoppers s !! i = Some Loading → started s = false →
      stop_step i s (set_stoppers (<[i := Returned false]> (stoppers s)) s)
  | stop_started s :
      stoppers s !! i = Some Loading → started s = true →
      stop_step i s (set_stoppers (<[i := Waiting]> (stoppers s)) s)
  | stop_done s :
      stoppers s !! i = Some Waiting → done_closed s = true →
      stop_step i s (set_stoppers (<[i := Returned true]> (stoppers s)) s).

(** The whole: a step of the goroutine, of Start, of a Stop, a new call of
    Stop, or a sample taken by a handler of the dashboard. *)
Inductive sampler_step : Sampler → Sampler → Prop :=
  | step_run s s' : run_step s s' → sampler_step s s'
  | step_start s s' : start_step s s' → sampler_step s s'
  | step_stop i s s' : stop_step i s s' → sampler_step s s'
  | step_call s : sampler_step s (set_stoppers (stoppers s ++ [Stopping]) s)
  | step_capture reading s : sampler_step s (capture reading s).

(** The steps that are not of new callers. *)
Inductive inner_step : Sampler → Sampler → Prop :=
  | own_run s s' : run_step s s' → inner_step s s'
  | own_start s s' : start_step s s' → inner_step s s'
  | own_stop i s s' : stop_step i s s' → inner_step s s'.

Lemma inner_sampler_step s s' : inner_step s s' → sampler_step s s'.
Proof. intros []; eauto using step_run, step_start, step_stop. Qed.

(** ** The invariant *)

(** What the program counter of a Stop says of the shared state. *)
Definition stop_pc_ok (s : Sampler) (p : stop_pc) : Prop :=
  match p with
  | Stopping => True
  | Loading | Returned false => stop_closed s = true
  | Waiting => stop_closed s = true ∧ started s = true
  | Returned true => done_closed s = true
  end.

Record sampler_ok (s : Sampler) : Prop := {
  so_holds : holds (collector s) (captured s);
  so_stop : stop_closed s = stop_once s;
  so_done : done_closed s = true ↔ loop s = Exited;
  so_spawned : loop s ≠ NotRunning ↔ starter s = StartDone;
  so_started : started s = true ↔ starter s = Spawning ∨ starter s = StartDone;
  so_leaving : loop s = Leaving ∨ loop s = Exited → stop_closed s = true;
  so_stoppers : Forall (stop_pc_ok s) (stoppers s);
  so_fine : crashed s = false
}.

Lemma NewSampler_ok cap every : sampler_ok (NewSampler cap every).
Proof. constructor; simpl; try done; try naive_solver. apply New_holds. Qed.

(** Nothing that a Stop has seen is undone. *)
Lemma stop_pc_ok_mono s s' p :
  (stop_closed s = true → stop_closed s' = true) → (done_closed s = true → done_closed s' = true) →
  (started s = true → started s' = true) → stop_pc_ok s p → stop_pc_ok s' p.
Proof. intros. destruct p as [| | |[]]; simpl in *; naive_solver. Qed.

Lemma capture_eq reading s :
  sampler_ok s → ∃ c, holds c (captured s ++ [reading]) ∧
  capture reading s = mkSampler c (started s) (starter s) (stop_once s) (stop_closed s) (done_closed s)
    (loop s) (stoppers s) (captured s ++ [reading]) false.
Proof.
  intros H. destruct (write_holds _ _ reading (so_holds _ H)) as (c & Hw & Hc). exists c. split; [done|].
  unfold capture, Capture. by rewrite Hw, (so_fine _ H).
Qed.

Lemma capture_ok reading s : sampler_ok s → sampler_ok (capture reading s).
Proof.
  intros H. destruct (capture_eq reading s H) as (c & Hc & ->). destruct H. by constructor.
Qed.

(** A change of the goroutine's place that is not its start or its end. *)
Lemma set_loop_ok l s :
  sampler_ok s → loop s ≠ NotRunning → loop s ≠ Exited → l ≠ NotRunning → l ≠ Exited →
  (l = Leaving → stop_closed s = true) → sampler_ok (set_loop l s).
Proof. intros [] ? ? ? ? ?. constructor; simpl; try done; naive_solver. Qed.

Lemma set_stoppers_ok l s : sampler_ok s → Forall (stop_pc_ok s) l → sampler_ok (set_stoppers l s).
Proof. intros [] Hl. by constructor. Qed.

Lemma run_step_ok s s' : run_step s s' → sampler_ok s → sampler_ok s'.
Proof.
  intros [reading x E|x E|x E Hs|x E] H.
  - pose proof (capture_ok reading x H) as Hc.
    assert (loop (capture reading x) = Capturing) as El.
    { by destruct (capture_eq reading x H) as (? & _ & ->). }
    by apply set_loop_ok; rewrite ?El.
  - by apply set_loop_ok; rewrite ?E.
  - by apply set_loop_ok; rewrite ?E.
  - destruct H as [? ? Hd ? ? Hl Hst Hf]. assert (done_closed x = false) as Ed.
    { apply not_true_is_false. intros D. apply Hd in D. congruence. }
    constructor; simpl; try done; [naive_solver congruence|intros _; apply Hl; auto| |by rewrite Hf, Ed].
    eapply Forall_impl; [exact Hst|]. intros p. by apply stop_pc_ok_mono.
Qed.

Lemma start_step_ok s s' : start_step s s' → sampler_ok s → sampler_ok s'.
Proof.
  intros [x E|x E|x E] H; pose proof (so_spawned _ H) as Hr; pose proof (so_started _ H) as Hs;
    rewrite E in Hr, Hs; destruct H as [? ? Hd _ _ Hl Hst ?]; constructor; simpl; try done.
  - split; [|done]. intros Hn. by apply Hr in Hn.
  - rewrite Hs. split; intros [|]; congruence.
  - split; [|done]. intros Hn. by apply Hr in Hn.
  - split; auto.
  - eapply Forall_impl; [exact Hst|]. intros p. by apply stop_pc_ok_mono.
  - rewrite Hd. split; [|done]. intros Ex. assert (loop x ≠ NotRunning) as Hn by congruence. by apply Hr in Hn.
  - rewrite Hs. split; auto.
  - intros [|]; congruence.
Qed.

Lemma stop_step_ok i s s' : stop_step i s s' → sampler_ok s → sampler_ok s'.
Proof.
  intros [x E Ho|x E Ho|x E Hs|x E Hs|x E Hd] H.
  - destruct H as [? Hstop ? ? ? ? Hst Hf]. constructor; simpl; try done.
    + apply Forall_insert; [|done]. eapply Forall_impl; [exact Hst|]. intros p. by apply stop_pc_ok_mono.
    + by rewrite Hf, Hstop, Ho.
  - apply set_stoppers_ok; [done|]. apply Forall_insert; [apply H|]. simpl. by rewrite (so_stop _ H).
  - apply set_stoppers_ok; [done|]. apply Forall_insert; [apply H|].
    apply (Forall_lookup_1 _ _ _ _ (so_stoppers _ H) E).
  - apply set_stoppers_ok; [done|]. apply Forall_insert; [apply H|].
    split; [apply (Forall_lookup_1 _ _ _ _ (so_stoppers _ H) E)|done].
  - apply set_stoppers_ok; [done|]. by apply Forall_insert; [apply H|].
Qed.

Lemma sampler_step_ok s s' : sampler_step s s' → sampler_ok s → sampler_ok s'.
Proof.
  intros [] ?; eauto using run_step_ok, start_step_ok, stop_step_ok, capture_ok.
  apply set_stoppers_ok; [done|]. apply Forall_app. split; [by apply so_stoppers|]. by repeat constructor.
Qed.

Lemma sampler_reachable_ok cap every s : rtc sampler_step (NewSampler cap every) s → sampler_ok s.
Proof. apply (rtc_ind_r sampler_ok); eauto using sampler_step_ok, NewSampler_ok. Qed.

(** The capacity never changes. *)
Lemma step_capacity s s' : sampler_step s s' → capacity (collector s') = capacity (collector s).
Proof.
  assert (Hc : ∀ r x, capacity (collector (capture r x)) = capacity (collector x)).
  { intros r x. unfold capture, Capture. destruct (write r (collector x)) eqn:Hw; try done.
    unfold write in Hw. apply outcome_bind_Ok in Hw as (l & _ & Hw).
    by apply outcome_bind_Ok in Hw as (h & _ & [= <-]). }
  intros [? ? []|? ? []|? ? ? []| |]; simpl; auto.
Qed.

(** ** A Stop can always end *)
Lemma run_leaves s :
  sampler_ok s → stop_closed s = true → starter s = Spawning ∨ starter s = StartDone →
  ∃ s', rtc inner_step s s' ∧ done_closed s' = true ∧ stoppers s' = stoppers s.
Proof.
  intros Hok Hs Hst.
  assert (Hsel : ∀ x, sampler_ok x → stop_closed x = true → loop x = Selecting →
    ∃ x', rtc inner_step x x' ∧ done_closed x' = true ∧ stoppers x' = stoppers x).
  { intros x Hx Hxs El. exists (close_done (set_loop Leaving x)). split_and!; [|done..].
    eapply rtc_l; [apply own_run, run_stop; done|]. eapply rtc_once, own_run, run_leave. done. }
  assert (Hcap : ∀ x, sampler_ok x → stop_closed x = true → loop x = Capturing →
    ∃ x', rtc inner_step x x' ∧ done_closed x' = true ∧ stoppers x' = stoppers x).
  { intros x Hx Hxs El. pose proof (run_capture zero_Sample x El) as Hstep.
    pose proof (run_step_ok _ _ Hstep Hx) as Hok'.
    destruct (capture_eq zero_Sample x Hx) as (c & _ & E). rewrite E in *. simpl in *.
    destruct (Hsel _ Hok' Hxs eq_refl) as (x' & ? & ? & ?). exists x'. split_and!; [|done..].
    eapply rtc_l; [by apply own_run|done]. }
  destruct (loop s) eqn:El.
  - destruct Hst as [Hst|Hst]; [|apply (so_spawned _ Hok) in Hst; congruence].
    pose proof (start_spawn s Hst) as Hstep.
    destruct (Hcap _ (start_step_ok _ _ Hstep Hok) Hs eq_refl) as (x' & ? & ? & ?).
    exists x'. split_and!; [|done..]. eapply rtc_l; [by apply own_start|done].
  - by apply Hcap.
  - by apply Hsel.
  - exists (close_done s). split_and!; [|done..]. by apply rtc_once, own_run, run_leave.
  - exists s. split_and!; [done|by apply (so_done _ Hok)|done].
Qed.

(** From its load of [started] on. *)
Lemma stop_ends_loaded i s :
  sampler_ok s → stoppers s !! i = Some Loading ∨ stoppers s !! i = Some Waiting →
  ∃ s' w, rtc inner_step s s' ∧ stoppers s' !! i = Some (Returned w).
Proof.
  intros Hok Hi.
  assert (Hwait : ∀ x, sampler_ok x → stoppers x !! i = Some Waiting →
    ∃ s' w, rtc inner_step x s' ∧ stoppers s' !! i = Some (Returned w)).
  { intros x Hx Ei. destruct (Forall_lookup_1 _ _ _ _ (so_stoppers _ Hx) Ei) as [Hc Hst].
    destruct (run_leaves x Hx Hc) as (y & Hy & Hd & El); [by apply (so_started _ Hx)|].
    rewrite <- El in Ei. eexists _, true. split.
    - eapply rtc_r; [exact Hy|]. by apply (own_stop i), stop_done.
    - simpl. apply list_lookup_insert_eq. by eapply lookup_lt_Some. }
  destruct Hi as [Ei|Ei]; [|by apply Hwait]. pose proof (lookup_lt_Some _ _ _ Ei) as Hlt.
  destruct (started s) eqn:Hst.
  - pose proof (stop_started i s Ei Hst) as Hstep.
    destruct (Hwait _ (stop_step_ok _ _ _ Hstep Hok)) as (s' & w & ? & ?); [by apply list_lookup_insert_eq|].
    exists s', w. split; [|done]. eapply rtc_l; [by apply (own_stop i)|done].
  - eexists _, false. split; [eapply rtc_once, (own_stop i), stop_not_started; done|].
    by apply list_lookup_insert_eq.
Qed.

Lemma stop_ends i p s :
  sampler_ok s → stoppers s !! i = Some p →
  ∃ s' w, rtc inner_step s s' ∧ stoppers s' !! i = Some (Returned w).
Proof.
  intros Hok Ei. pose proof (lookup_lt_Some _ _ _ Ei) as Hlt. destruct p as [| | |w].
  - assert (∃ s1, stop_step i s s1 ∧ stoppers s1 !! i = Some Loading) as (s1 & Hstep & E1).
    { destruct (stop_once s) eqn:Ho; eexists; (split; [constructor; done|]);
        by apply list_lookup_insert_eq. }
    destruct (stop_ends_loaded i s1 (stop_step_ok _ _ _ Hstep Hok)) as (s' & w & ? & ?); [by left|].
    exists s', w. split; [|done]. eapply rtc_l; [by apply (own_stop i)|done].
  - apply stop_ends_loaded; auto.
  - apply stop_ends_loaded; auto.
  - by exists s, w.
Qed.

(** C16: The sampler is started and stopped safely.  Whatever calls of Start
    and Stop there are and however their steps, those of the sampling
    goroutine and the captures of the dashboard interleave: no channel is
    closed twice and no slot of the ring is out of range; [Snapshot] returns
    the last [capacity] of all samples taken; a Stop that waited returns only
    once the goroutine is over, and the goroutine ends only after a Stop;
    and every call of Stop that has begun can still return, whichever state
    it is in. *)
Theorem sampler_safe cap every s :
  rtc sampler_step (NewSampler cap every) s →
  crashed s = false ∧
  Snapshot (collector s) = Ok (last_n (Z.to_nat (Z.max 1 cap)) (captured s)) ∧
  (∀ i, stoppers s !! i = Some (Returned true) → loop s = Exited) ∧
  (loop s = Exited → stop_closed s = true ∧ starter s = StartDone) ∧
  (∀ i p, stoppers s !! i = Some p →
    ∃ s' w, rtc sampler_step s s' ∧ stoppers s' !! i = Some (Returned w)).
Proof.
  intros Hr. pose proof (sampler_reachable_ok _ _ _ Hr) as Hok.
  assert (Hcap : capacity (collector s) = Z.max 1 cap).
  { revert Hr. clear Hok. apply (rtc_ind_r (λ x, capacity (collector x) = Z.max 1 cap)).
    - simpl. destruct (Z.ltb_spec cap 1); lia.
    - intros x y _ Hxy <-. by apply step_capacity. }
  split_and!; [apply Hok|rewrite <- Hcap; apply snapshot_holds, Hok| | |].
  - intros i Ei. apply (so_done _ Hok), (Forall_lookup_1 _ _ _ _ (so_stoppers _ Hok) Ei).
  - intros El. split; [apply (so_leaving _ Hok); auto|]. apply (so_spawned _ Hok). congruence.
  - intros i p Hp. destruct (stop_ends i p s Hok Hp) as (s' & w & Hs & Hw). exists s', w. split; [|done].
    eapply rtc_subrel; [|exact Hs]. apply inner_sampler_step.
Qed.

(** A run in which Stop overtakes the goroutine Start has not spawned yet:
    Start stores [started], Stop closes [stop] and waits. *)
Lemma sampler_safe_witness :
  let s := set_stoppers [Waiting] (close_stop (set_starter true Spawning (NewSampler 2 0))) in
  rtc sampler_step (NewSampler 2 0) s ∧ crashed s = false ∧
  ∃ s' w, rtc sampler_step s s' ∧ stoppers s' !! 0 = Some (Returned w).
Proof.
  intros s.
  assert (H : rtc sampler_step (NewSampler 2 0) s).
  { eapply rtc_l; [apply step_start, start_enter; reflexivity|].
    eapply rtc_l; [apply step_start, start_store; reflexivity|].
    eapply rtc_l; [apply step_call|].
    eapply rtc_l; [apply (step_stop 0), stop_first; reflexivity|].
    eapply rtc_l; [apply (step_stop 0), stop_started; reflexivity|]. apply rtc_refl. }
  destruct (sampler_safe 2 0 s H) as (Hc & _ & _ & _ & Hst).
  split; [exact H|]. split; [exact Hc|]. apply (Hst 0 Waiting). reflexivity.
Defined.

(** A Stop before Start does not keep the sampler from starting: it returns
    without waiting, and the goroutine of the later Start still takes a
    sample before it sees the closed channel. *)
Lemma stop_before_start :
  ∃ s, rtc sampler_step (NewSampler 2 0) s ∧ stoppers s = [Returned false] ∧
       loop s = Capturing ∧ captured s = [].
Proof.
  eexists. split.
  - eapply rtc_l; [apply step_call|].
    eapply rtc_l; [apply (step_stop 0), stop_first; reflexivity|].
    eapply rtc_l; [apply (step_stop 0), stop_not_started; reflexivity|].
    eapply rtc_l; [apply step_start, start_enter; reflexivity|].
    eapply rtc_l; [apply step_start, start_store; reflexivity|].
    eapply rtc_l; [apply step_start, start_spawn; reflexivity|]. apply rtc_refl.
  - by split_and!.
Qed.
