(* ===== verification/Decomposer.v ===== *)
(** * Task decomposition (internal/orchestrator/decomposer.go)

    Matching a task's text against the skills of the agents.  The lower-case
    mapping of non-ASCII text is a parameter ([unicode_lower]); the stable
    sort is the insertion sort of [GoSort]. *)
From stdpp Require Import sorting.
From S2P Require Import Prelude GoStr GoSort Json Model.

Record SubtaskSpec := mkSubtaskSpec {
  Spec_AgentID : string;
  Spec_Description : string;
  Spec_Skills : list Skill;
  Score : Z
}.

Section Decompose.
Context (unicode_lower : string → string).

Definition keywordMatch (lowerText keyword : string) : bool :=
  let keyword := to_lower unicode_lower (trim_space keyword) in
  if String.length keyword <? 2 then false else contains lowerText keyword.

Definition buildDescription (text : string) (skills : list Skill) : string :=
  "process: " +:+ text +:+ " (skills: " +:+ join (Skill_Name <$> skills) ", " +:+ ")".

(** The inner loop: the skills of an agent that match. *)
Fixpoint matched_skills (lower : string) (skills : list Skill) : list Skill :=
  match skills with
  | [] => []
  | s :: rest =>
      if keywordMatch lower (Skill_Name s) || keywordMatch lower (Skill_Tool s)
      then s :: matched_skills lower rest
      else matched_skills lower rest
  end.

(** The outer loop. *)
Fixpoint collect_specs (text lower : string) (agents : list Agent) : list SubtaskSpec :=
  match agents with
  | [] => []
  | a :: rest =>
      if negb (Agent_Enabled a) then collect_specs text lower rest
      else
        let matched := matched_skills lower (Agent_Skills a) in
        if bool_decide (length matched = 0) then collect_specs text lower rest
        else mkSubtaskSpec (Agent_ID a) (buildDescription text matched) matched
               (Z.of_nat (length matched)) :: collect_specs text lower rest
  end.

Definition spec_less (x y : SubtaskSpec) : bool :=
  if negb (Score x =? Score y)%Z then (Score y <? Score x)%Z
  else str_ltb (Spec_AgentID x) (Spec_AgentID y).

Definition Decompose (text : string) (agents : list Agent) : list SubtaskSpec :=
  let lower := to_lower unicode_lower text in
  let specs := sort_slice spec_less (collect_specs text lower agents) in
  if bool_decide (length specs = 0) then [mkSubtaskSpec "" text [] 0] else specs.

(** ** What matches *)
Definition relevant (text : string) (s : Skill) : Prop :=
  ∃ kw, kw ∈ [Skill_Name s; Skill_Tool s] ∧
    let k := to_lower unicode_lower (trim_space kw) in
    2 ≤ String.length k ∧ ∃ a b, to_lower unicode_lower text = a +:+ k +:+ b.

Lemma keywordMatch_spec lower kw :
  keywordMatch lower kw = true ↔
  let k := to_lower unicode_lower (trim_space kw) in
  2 ≤ String.length k ∧ ∃ a b, lower = a +:+ k +:+ b.
Proof.
  unfold keywordMatch. cbv zeta. destruct (Nat.ltb_spec (String.length
    (to_lower unicode_lower (trim_space kw))) 2).
  - split; [done|lia].
  - rewrite contains_spec. tauto.
Qed.

Lemma relevant_iff text s :
  relevant text s ↔
  keywordMatch (to_lower unicode_lower text) (Skill_Name s)
  || keywordMatch (to_lower unicode_lower text) (Skill_Tool s) = true.
Proof.
  rewrite orb_true_iff, !keywordMatch_spec. unfold relevant. split.
  - intros (kw & Hkw & H). apply elem_of_cons in Hkw as [->|Hkw]; [by left|right].
    by apply list_elem_of_singleton in Hkw as ->.
  - intros [H|H]; eexists; (split; [|exact H]); [by left|right; by left].
Qed.

#[export] Instance relevant_dec text s : Decision (relevant text s).
Proof.
  destruct (keywordMatch (to_lower unicode_lower text) (Skill_Name s)
    || keywordMatch (to_lower unicode_lower text) (Skill_Tool s)) eqn:E;
    [left|right]; rewrite relevant_iff, E; done.
Defined.

Lemma matched_skills_filter text skills :
  matched_skills (to_lower unicode_lower text) skills = filter (relevant text) skills.
Proof.
  induction skills as [|s skills IH]; [done|]. simpl. rewrite IH, filter_cons.
  case_if; [by rewrite decide_True by (by apply relevant_iff)|].
  rewrite decide_False; [done|]. by rewrite relevant_iff, E.
Qed.

(** The subtask of one agent, when it has one. *)
Definition subtask_of (text : string) (a : Agent) : option SubtaskSpec :=
  let m := filter (relevant text) (Agent_Skills a) in
  if Agent_Enabled a && negb (bool_decide (m = [])) then
    Some (mkSubtaskSpec (Agent_ID a) (buildDescription text m) m (Z.of_nat (length m)))
  else None.

Lemma collect_specs_omap text agents :
  collect_specs text (to_lower unicode_lower text) agents = omap (subtask_of text) agents.
Proof.
  induction agents as [|a agents IH]; [done|]. cbn [collect_specs omap list_omap].
  unfold subtask_of at 1. rewrite matched_skills_filter.
  destruct (Agent_Enabled a); simpl; [|exact IH].
  destruct (filter (relevant text) (Agent_Skills a)) as [|s l]; simpl; [exact IH|].
  f_equal. exact IH.
Qed.

Lemma spec_less_asym x y : spec_less x y = true → spec_less y x = false.
Proof.
  unfold spec_less. rewrite (Z.eqb_sym (Score y)). destruct (Z.eqb_spec (Score x) (Score y)); simpl.
  - intros H. destruct (str_ltb (Spec_AgentID y) (Spec_AgentID x)) eqn:E; [|done].
    by rewrite <- (str_ltb_irrefl (Spec_AgentID x)), (str_ltb_trans _ _ _ H E).
  - rewrite Z.ltb_lt, Z.ltb_ge. lia.
Qed.

(** [y] may follow [x]: a higher score, or the same and an id not smaller. *)
Definition ranked (x y : SubtaskSpec) : Prop :=
  (Score y < Score x)%Z ∨ Score x = Score y ∧ str_leb (Spec_AgentID x) (Spec_AgentID y) = true.

Lemma in_order_ranked x y : in_order spec_less x y ↔ ranked x y.
Proof.
  unfold in_order, spec_less, ranked. rewrite str_leb_ltb, negb_true_iff.
  destruct (Z.eqb_spec (Score y) (Score x)) as [->|Hne]; simpl.
  - split; [tauto|]. intros [?|[_ ?]]; [lia|done].
  - rewrite Z.ltb_ge. split; [lia|]. intros [?|[? _]]; lia.
Qed.

Lemma str_leb_trans a b c : str_leb a b = true → str_leb b c = true → str_leb a c = true.
Proof.
  rewrite !str_leb_ltb, !negb_true_iff. intros H1 H2.
  destruct (str_ltb c a) eqn:E; [|done]. destruct (str_ltb a b) eqn:E1.
  - by rewrite (str_ltb_trans _ _ _ E E1) in H2.
  - by rewrite (str_ltb_trichotomy _ _ E1 H1), H2 in E.
Qed.

Lemma spec_le_trans x y z :
  spec_less y x = false → spec_less z y = false → spec_less z x = false.
Proof.
  intros H1%in_order_ranked H2%in_order_ranked. apply in_order_ranked.
  destruct H1 as [?|[? H1]], H2 as [?|[? H2]]; unfold ranked; try (left; lia).
  right. split; [lia|]. by eapply str_leb_trans.
Qed.

(** C36: The decomposition of a task holds one subtask for every enabled
    agent with a relevant skill (one whose name or tool, trimmed and in
    lower case, has at least two bytes and occurs in the text) and no
    others, each with the agent's relevant skills in their order and their
    number as score; the subtasks are in order of falling score and, among
    equals, of agent id. When there is none the result is the single
    generic subtask that carries the text. It is never empty. *)
Theorem Decompose_spec text agents :
  let specs := omap (subtask_of text) agents in
  (specs = [] → Decompose text agents = [mkSubtaskSpec "" text [] 0]) ∧
  (specs ≠ [] →
     Decompose text agents ≡ₚ specs ∧ StronglySorted ranked (Decompose text agents)) ∧
  Decompose text agents ≠ [].
Proof.
  intros specs. unfold Decompose. rewrite collect_specs_omap. fold specs.
  pose proof (sort_slice_perm spec_less specs) as Hp.
  rewrite sort_slice_length. destruct specs as [|s l]; [by split_and!|].
  rewrite bool_decide_eq_false_2 by done. split_and!; [done| |].
  - intros _. split; [done|].
    eapply strongly_sorted_impl; [intros x y; apply in_order_ranked|].
    apply sort_slice_sorted; [apply spec_less_asym|apply spec_le_trans].
  - intros E. rewrite E in Hp. by apply Permutation_nil_cons in Hp.
Qed.
End Decompose.

Definition sample_agent (i : string) (enabled : bool) (skills : list string) : Agent :=
  mkAgent i "t1" i "" "" ((λ s, mkSkill s "s1" "run") <$> skills) enabled 0%Z 0%Z.

Example Decompose_example :
  Spec_AgentID <$> Decompose id "Send the REPORT by mail"
    [sample_agent "b" true ["report"]; sample_agent "a" true [" Mail "; "x"];
     sample_agent "c" true ["mail"; "report"]; sample_agent "d" false ["mail"]]
  = ["c"; "a"; "b"].
Proof. vm_compute. reflexivity. Qed.
