(* ===== verification/Threads.v ===== *)
(** * Goroutines as sequences of atomic actions

    The body of a goroutine is a [proc]: it returns, or does one action on
    the shared data and goes on with what the action gave.  Actions of
    different goroutines interleave in any order.  [secure] is the
    rely-guarantee reading of a body: whatever the others do within [R]
    between its actions, no action panics, each keeps [G], and the body ends
    in [Q]; [bounded n] says that it does at most [n] actions. *)
From S2P Require Import Prelude.

Inductive proc (D A : Type) :=
  | Ret (a : A)
  | Act (B : Type) (m : M D B) (k : B → proc D A).
Arguments Ret {D A} _.
Arguments Act {D A B} _ _.

#[export] Instance proc_ret D : MRet (proc D) := λ A, Ret.
#[export] Instance proc_bind D : MBind (proc D) := λ A B k,
  fix go p :=
    match p with
    | Ret a => k a
    | Act m f => Act m (λ b, go (f b))
    end.

(** One action that cannot fail, and one whose error is a result. *)
Definition do_ {D B} (m : M D B) : proc D B := Act m Ret.
Definition try_ {D B} (m : M D B) : proc D (B + error) := Act (mtry m) Ret.

(** The next action, when the body has one and it does not panic. *)
Definition pstep {D A} (p : proc D A) (d : D) : option (proc D A * D) :=
  match p with
  | Ret _ => None
  | Act m k => match m d with (Ok b, d') => Some (k b, d') | _ => None end
  end.

Fixpoint bounded {D A} (n : nat) (p : proc D A) {struct p} : Prop :=
  match p with
  | Ret _ => True
  | Act _ k => match n with 0 => False | S n' => ∀ b, bounded n' (k b) end
  end.

Fixpoint secure {D A} (R G : relation D) (Q : A → D → Prop) (p : proc D A) (d : D) : Prop :=
  match p with
  | Ret a => Q a d
  | Act m k => ∀ d1, R d d1 → ∃ b d2, m d1 = (Ok b, d2) ∧ G d1 d2 ∧ secure R G Q (k b) d2
  end.

Section Threads.
Context {D : Type}.
Implicit Types (d : D) (R G : relation D).

Lemma bounded_mono {A} (p : proc D A) n m : bounded n p → n ≤ m → bounded m p.
Proof.
  revert n m. induction p as [|B act k IH]; intros n m; simpl; [done|].
  destruct n as [|n]; [done|]. destruct m as [|m]; [lia|]. intros H ? b. eapply IH; [apply H|lia].
Qed.

Lemma bounded_bind {A B} (p : proc D A) (k : A → proc D B) n m :
  bounded n p → (∀ a, bounded m (k a)) → bounded (n + m) (p ≫= k).
Proof.
  intros Hp Hk. revert n Hp. induction p as [a|C act f IH]; intros n Hp; simpl.
  - eapply bounded_mono; [apply Hk|lia].
  - destruct n as [|n]; [done|]. simpl. intros b. apply IH, Hp.
Qed.

Lemma bounded_act {B} (m : M D B) : bounded 1 (do_ m).
Proof. done. Qed.

Lemma bounded_try {B} (m : M D B) : bounded 1 (try_ m).
Proof. done. Qed.

Lemma bounded_pstep {A} (p p' : proc D A) d d' n :
  bounded n p → pstep p d = Some (p', d') → ∃ n', n = S n' ∧ bounded n' p'.
Proof.
  destruct p as [a|B m k]; simpl; [done|]. destruct n as [|n]; [done|].
  intros Hk. destruct (m d) as [[]]; naive_solver.
Qed.

Lemma secure_bind {A B} R G (p : proc D A) (k : A → proc D B) Q Q' d :
  secure R G Q p d → (∀ a d', Q a d' → secure R G Q' (k a) d') → secure R G Q' (p ≫= k) d.
Proof.
  intros Hp Hk. revert d Hp. induction p as [a|C m f IH]; intros d Hp; simpl in *; [by apply Hk|].
  intros d1 Hd1. destruct (Hp d1 Hd1) as (b & d2 & ? & ? & Hf). exists b, d2. eauto.
Qed.

Lemma secure_mono {A} R G (p : proc D A) Q Q' d :
  secure R G Q p d → (∀ a d', Q a d' → Q' a d') → secure R G Q' p d.
Proof.
  intros Hp H. revert d Hp. induction p as [a|C m f IH]; intros d Hp; simpl in *; [by apply H|].
  intros d1 Hd1. destruct (Hp d1 Hd1) as (b & d2 & ? & ? & Hf). exists b, d2. eauto.
Qed.

Lemma secure_do {B} R G (m : M D B) (Q : B → D → Prop) d :
  (∀ d1, R d d1 → ∃ b d2, m d1 = (Ok b, d2) ∧ G d1 d2 ∧ Q b d2) → secure R G Q (do_ m) d.
Proof. done. Qed.

Lemma secure_try {B} R G (m : M D B) (Q : B + error → D → Prop) d :
  (∀ d1, R d d1 → ∃ r d2, mtry m d1 = (Ok r, d2) ∧ G d1 d2 ∧ Q r d2) →
  secure R G Q (try_ m) d.
Proof. done. Qed.

(** A secure body is never stuck, and its action keeps what it promised. *)
Lemma secure_pstep {A} R G (p : proc D A) Q d d1 :
  secure R G Q p d → R d d1 →
  (∃ a, p = Ret a ∧ Q a d) ∨
  ∃ p' d2, pstep p d1 = Some (p', d2) ∧ G d1 d2 ∧ secure R G Q p' d2.
Proof.
  destruct p as [a|B m k]; simpl; intros Hp Hd; [by left; eauto|].
  right. destruct (Hp d1 Hd) as (b & d2 & Hm & ? & ?). rewrite Hm. eauto.
Qed.
End Threads.
