(* ===== verification/Orchestrator.v ===== *)
(** * Task distribution (internal/orchestrator/task_distribution.go)

    [Distribute] writes the task, hands its subtasks to a bounded pool of
    goroutines, and writes the result.  [Data] is what the goroutines share:
    the store and the MCP client, the context, the array behind
    [task.Subtasks] (one array, which every copy of the task refers to: a
    [taskVar] says whether it does), the array of results, the semaphore and
    the wait group.  The body of a goroutine is a [proc]; [machine] is the
    loop of [execute] with the goroutines it started, and a step of it is one
    action of the loop, of one goroutine, or of the rest of the program. *)
From S2P Require Import Prelude GoStr GoValue GoSort GoFmt Json Model Store StoreSpec.
From S2P Require Import Mcp Decomposer Threads.

(** ** Options *)
Record Orchestrator := mkOrchestrator {
  o_workers : Z;
  o_timeout : Z
}.

Definition WithWorkers (n : Z) (o : Orchestrator) : Orchestrator := mkOrchestrator n (o_timeout o).
Definition WithTimeout (d : Z) (o : Orchestrator) : Orchestrator := mkOrchestrator (o_workers o) d.

Definition default_timeout : Z := (30 * 1000000000)%Z.

Definition New (opts : list (Orchestrator → Orchestrator)) : Orchestrator :=
  let o := foldl (λ o opt, opt o) (mkOrchestrator 4 default_timeout) opts in
  if (o_workers o <? 1)%Z then mkOrchestrator 1 (o_timeout o) else o.

(** ** Tasks and the array of their subtasks *)
Definition zero_Task : Task := mkTask "" "" "" "" [] RawEmpty zero_time zero_time.

Definition set_Subtasks (l : list Subtask) (t : Task) : Task :=
  mkTask (Task_ID t) (Task_TenantID t) (Task_Input t) (Task_Status t) l (Task_Result t)
    (Task_CreatedAt t) (Task_UpdatedAt t).
Definition set_TaskStatus (st : TaskStatus) (t : Task) : Task :=
  mkTask (Task_ID t) (Task_TenantID t) (Task_Input t) st (Task_Subtasks t) (Task_Result t)
    (Task_CreatedAt t) (Task_UpdatedAt t).
Definition set_TaskResult (r : RawMessage) (t : Task) : Task :=
  mkTask (Task_ID t) (Task_TenantID t) (Task_Input t) (Task_Status t) (Task_Subtasks t) r
    (Task_CreatedAt t) (Task_UpdatedAt t).
Definition set_TaskUpdatedAt (u : Time) (t : Task) : Task :=
  mkTask (Task_ID t) (Task_TenantID t) (Task_Input t) (Task_Status t) (Task_Subtasks t)
    (Task_Result t) (Task_CreatedAt t) u.

(** A variable that holds a task: when [tv_shared], its [Subtasks] are the
    shared array, and the field of [tv_task] is not looked at. *)
Record taskVar := mkTaskVar {
  tv_task : Task;
  tv_shared : bool
}.
Definition on_task (f : Task → Task) (v : taskVar) : taskVar :=
  mkTaskVar (f (tv_task v)) (tv_shared v).

(** What a write to the shared array does to the task that the store keeps:
    a store that keeps the slice it was given shows the write at once, one
    that copies does not. *)
Class TaskSlices (S : Type) := touch : string → string → list Subtask → S → S.

Class TaskSliceLaws (S : Type) `{StoreLaws S} `{TaskSlices S} := {
  touch_view : ∀ t i l (s : S),
    view (touch t i l s) = view s ∨
    view (touch t i l s) = up_tasks (alter (set_Subtasks l) (t, i) (vw_tasks (view s))) (view s)
}.

(** The in-memory store keeps the slice. *)
#[export] Instance Memory_TaskSlices : TaskSlices Memory := λ t i l m,
  set_tasks (alter (alter (set_Subtasks l) i) t (tasks m)) m.

Record subtaskOutcome := mkOutcome {
  out_index : Z;
  out_result : string;
  out_err : option error
}.
Definition zero_outcome : subtaskOutcome := mkOutcome 0 "" None.

Definition context_Canceled : error := ErrorsNew "context canceled".
Definition context_DeadlineExceeded : error := ErrorsNew "context deadline exceeded".

(** ** Text *)
Fixpoint join_parts (i : nat) (out : string) (parts : list string) : string :=
  match parts with
  | [] => out
  | p :: rest =>
      if bool_decide (p = "") then join_parts (S i) out rest
      else
        let out := if (0 <? i) && negb (bool_decide (out = "")) then out +:+ newline else out in
        join_parts (S i) (out +:+ p) rest
  end.
Definition joinNonEmpty (parts : list string) : string := join_parts 0 "" parts.

(** [b, _ := json.Marshal(v)] *)
Definition marshal_or_nil (v : value) : RawMessage :=
  match encode_any v with Ok j => RawDoc j | _ => RawEmpty end.

Definition tenantFromCtx (ctx_tenant : string) : string :=
  if bool_decide (ctx_tenant = "") then "default" else ctx_tenant.

(** ** What the goroutines share *)
Record Data (St Mc : Type) := mkData {
  d_store : St;
  d_mcp : Mc;
  d_ctx : option error;
  d_timers : gmap nat (option error);
  d_subtasks : list Subtask;
  d_results : list subtaskOutcome;
  d_sem : Z;
  d_wg : Z;
  d_clock : nat
}.
Arguments mkData {St Mc} _ _ _ _ _ _ _ _ _.
Arguments d_store {St Mc} _.
Arguments d_mcp {St Mc} _.
Arguments d_ctx {St Mc} _.
Arguments d_timers {St Mc} _.
Arguments d_subtasks {St Mc} _.
Arguments d_results {St Mc} _.
Arguments d_sem {St Mc} _.
Arguments d_wg {St Mc} _.
Arguments d_clock {St Mc} _.

Section Orchestrator.
Context {St Mc : Type}.
Context {st_ops : Store St} {slices : TaskSlices St} {mc_ops : Client Mc} {quoting : FmtQuote}.
Context (now_at : nat → Time) (unicode_lower : string → string).
Context (o : Orchestrator).
Abbreviation D := (Data St Mc).

Definition set_store (s : St) (d : D) : D :=
  mkData s (d_mcp d) (d_ctx d) (d_timers d) (d_subtasks d) (d_results d) (d_sem d) (d_wg d) (d_clock d).
Definition set_mcp (s : Mc) (d : D) : D :=
  mkData (d_store d) s (d_ctx d) (d_timers d) (d_subtasks d) (d_results d) (d_sem d) (d_wg d) (d_clock d).
Definition set_ctx (e : option error) (ts : gmap nat (option error)) (d : D) : D :=
  mkData (d_store d) (d_mcp d) e ts (d_subtasks d) (d_results d) (d_sem d) (d_wg d) (d_clock d).
Definition set_subtasks (l : list Subtask) (d : D) : D :=
  mkData (d_store d) (d_mcp d) (d_ctx d) (d_timers d) l (d_results d) (d_sem d) (d_wg d) (d_clock d).
Definition set_results (l : list subtaskOutcome) (d : D) : D :=
  mkData (d_store d) (d_mcp d) (d_ctx d) (d_timers d) (d_subtasks d) l (d_sem d) (d_wg d) (d_clock d).
Definition set_sync (sem wg : Z) (d : D) : D :=
  mkData (d_store d) (d_mcp d) (d_ctx d) (d_timers d) (d_subtasks d) (d_results d) sem wg (d_clock d).
Definition set_clock (n : nat) (d : D) : D :=
  mkData (d_store d) (d_mcp d) (d_ctx d) (d_timers d) (d_subtasks d) (d_results d) (d_sem d) (d_wg d) n.

Definition in_store {A} (op : StoreOp A) : M D A := λ d,
  let '(r, s) := store_exec op (d_store d) in (r, set_store s d).
Definition in_mcp {A} (op : M Mc A) : M D A := λ d,
  let '(r, s) := op (d_mcp d) in (r, set_mcp s d).
Definition now : M D Time := λ d, (Ok (now_at (d_clock d)), set_clock (S (d_clock d)) d).

(** The task a variable stands for. *)
Definition deref (d : D) (v : taskVar) : Task :=
  if tv_shared v then set_Subtasks (d_subtasks d) (tv_task v) else tv_task v.

(** Both stores return the task they were given. *)
Definition store_task (op : Task → StoreOp Task) (v : taskVar) : M D taskVar :=
  d ← mget; t ← in_store (op (deref d v)); mret (mkTaskVar t (tv_shared v)).

(** [sub := task.Subtasks[idx]; ...; task.Subtasks[idx] = sub] *)
Definition write_subtask (v : taskVar) (idx : nat) (status : SubtaskStatus) (result : string)
    : M D unit := λ d,
  match (if tv_shared v then d_subtasks d else Task_Subtasks (tv_task v)) !! idx with
  | None => (Panic "index out of range", d)
  | Some sub =>
      let r := if bool_decide (status = SubtaskStatusSuccess)
                  || bool_decide (status = SubtaskStatusFailed)
               then marshal_or_nil (VString result) else Subtask_Result sub in
      let sub' := mkSubtask (Subtask_ID sub) (Subtask_AgentID sub) (Subtask_Description sub)
                    status r in
      let l := <[idx := sub']> (d_subtasks d) in
      (Ok tt, set_store (touch (Task_TenantID (tv_task v)) (Task_ID (tv_task v)) l (d_store d))
                (set_subtasks l d))
  end.

(** ** A subtask *)
Definition markStatus (task : taskVar) (idx : nat) (status : SubtaskStatus) (result : string)
    : proc D taskVar :=
  if bool_decide (Task_TenantID (tv_task task) = "") then mret task
  else
    _ ← do_ (write_subtask task idx status result);
    u ← do_ now;
    let task := on_task (set_TaskUpdatedAt u) task in
    updated ← try_ (store_task OpUpdateTask task);
    mret (match updated with inl t => t | inr _ => task end).

(** [context.WithTimeout], and [subCtx.Err()]. *)
Definition with_timeout (idx : nat) : M D unit := λ d,
  (Ok tt, if (0 <? o_timeout o)%Z then set_ctx (d_ctx d) (<[idx := d_ctx d]> (d_timers d)) d else d).
Definition sub_err (idx : nat) : M D (option error) := λ d,
  (Ok (if (0 <? o_timeout o)%Z then default None (d_timers d !! idx) else d_ctx d), d).

(** The loop over the skills: the outputs so far, and [out.err]. *)
Fixpoint call_skills (idx : nat) (tenant : string) (spec : SubtaskSpec) (agent : Agent)
    (skills : list Skill) (outputs : list string) : proc D (list string * option error) :=
  match skills with
  | [] => mret (outputs, None)
  | skill :: rest =>
      e ← do_ (sub_err idx);
      match e with
      | Some _ => mret (outputs, None)
      | None =>
          server ← try_ (in_store (OpGetMcpServer tenant (Skill_ServerID skill)));
          match server with
          | inr err =>
              mret (outputs, Some (Wrapf "load server %s: %w" [FStr (Skill_ServerID skill)] err))
          | inl server =>
              transport ← try_ (λ d, (TransportFromServer (McpServer_Transport server), d));
              match transport with
              | inr err =>
                  mret (outputs, Some (Wrapf "parse transport for %s: %w"
                                         [FStr (McpServer_Name server)] err))
              | inl transport =>
                  res ← try_ (in_mcp (CallTool transport (Skill_Tool skill)
                    {[ "task" := VString (Spec_Description spec);
                       "agent" := VString (Agent_Name agent);
                       "prompt" := VString (Agent_SystemPrompt agent) ]}));
                  match res with
                  | inr err =>
                      mret (outputs, Some (Wrapf "call tool %s: %w" [FStr (Skill_Tool skill)] err))
                  | inl res =>
                      call_skills idx tenant spec agent rest (outputs ++ [CallToolResult res])
                  end
              end
          end
      end
  end.

Definition fail_subtask (task : taskVar) (idx : nat) (result : string) (err : error)
    : proc D subtaskOutcome :=
  _ ← markStatus task idx SubtaskStatusFailed result;
  mret (mkOutcome (Z.of_nat idx) result (Some err)).

Definition runSubtask (task : taskVar) (idx : nat) (spec : SubtaskSpec) : proc D subtaskOutcome :=
  if bool_decide (Spec_AgentID spec = "") then
    fail_subtask task idx "" (ErrorsNew "no matching agent for subtask")
  else
    agent ← try_ (in_store (OpGetAgent (Task_TenantID (tv_task task)) (Spec_AgentID spec)));
    match agent with
    | inr err => fail_subtask task idx "" (Wrapf "load agent %s: %w" [FStr (Spec_AgentID spec)] err)
    | inl agent =>
        task ← markStatus task idx SubtaskStatusRunning "";
        _ ← do_ (with_timeout idx);
        r ← call_skills idx (Task_TenantID (tv_task task)) spec agent (Spec_Skills spec) [];
        err ← (match r.2 with Some e => mret (Some e) | None => do_ (sub_err idx) end
               : proc D (option error));
        let result := joinNonEmpty r.1 in
        match err with
        | Some e => fail_subtask task idx result e
        | None =>
            _ ← markStatus task idx SubtaskStatusSuccess result;
            mret (mkOutcome (Z.of_nat idx) result None)
        end
    end.

(** ** The pool *)

(** Where the loop of [execute] is: before the context is looked at, before
    the send on [sem], before [wg.Wait()], after it. *)
Inductive main_pc :=
  | Loop (i : nat)
  | Acquire (i : nat)
  | Wait
  | Finished.

(** A goroutine: its call of [runSubtask], the receive from [sem], [wg.Done],
    over. *)
Inductive goroutine :=
  | Running (p : proc D subtaskOutcome)
  | Releasing
  | Signalling
  | Exited.

Record machine := mkMachine {
  pc : main_pc;
  pool : list (nat * goroutine);
  data : D
}.

Definition write_result (i : nat) (out : subtaskOutcome) (d : D) : D :=
  set_results (<[i := out]> (d_results d)) d.

(** One step of a goroutine. *)
Inductive go_step (i : nat) : goroutine → D → goroutine → D → Prop :=
  | go_action p d p' d' : pstep p d = Some (p', d') → go_step i (Running p) d (Running p') d'
  | go_result out d :
      i < length (d_results d) →
      go_step i (Running (Ret out)) d Releasing (write_result i out d)
  | go_release d : go_step i Releasing d Signalling (set_sync (d_sem d - 1) (d_wg d) d)
  | go_done d : go_step i Signalling d Exited (set_sync (d_sem d) (d_wg d - 1) d).

Inductive main_step (task : taskVar) (specs : list SubtaskSpec) : machine → machine → Prop :=
  | main_cancelled i e ps d :
      i < length specs → i < length (d_results d) → d_ctx d = Some e →
      main_step task specs (mkMachine (Loop i) ps d)
        (mkMachine (Loop (S i)) ps (write_result i (mkOutcome (Z.of_nat i) "" (Some e)) d))
  | main_live i ps d :
      i < length specs → d_ctx d = None →
      main_step task specs (mkMachine (Loop i) ps d)
        (mkMachine (Acquire i) ps (set_sync (d_sem d) (d_wg d + 1) d))
  | main_spawn i spec ps d :
      specs !! i = Some spec → (d_sem d < o_workers o)%Z →
      main_step task specs (mkMachine (Acquire i) ps d)
        (mkMachine (Loop (S i)) (ps ++ [(i, Running (runSubtask task i spec))])
           (set_sync (d_sem d + 1) (d_wg d) d))
  | main_loop_end i ps d :
      length specs ≤ i →
      main_step task specs (mkMachine (Loop i) ps d) (mkMachine Wait ps d)
  | main_waited ps d :
      d_wg d = 0%Z →
      main_step task specs (mkMachine Wait ps d) (mkMachine Finished ps d).

(** A step of the program's own: of the loop, or of one of its goroutines. *)
Inductive own_step (task : taskVar) (specs : list SubtaskSpec) : machine → machine → Prop :=
  | own_main m m' : main_step task specs m m' → own_step task specs m m'
  | own_go c ps n i g g' d d' :
      ps !! n = Some (i, g) → go_step i g d g' d' →
      own_step task specs (mkMachine c ps d) (mkMachine c (<[n := (i, g')]> ps) d').

(** The rest of the program: other requests use the store (other calls of
    [Distribute] with tasks of their own), the MCP servers live on, the
    context may be cancelled and the timers of the subtasks may run out. *)
Definition foreign {A} (t i : string) (op : StoreOp A) : Prop :=
  match op with
  | OpCreateTask v | OpUpdateTask v => (Task_TenantID v, Task_ID v) ≠ (t, i)
  | _ => True
  end.

Definition cancel_all (e : error) (ts : gmap nat (option error)) : gmap nat (option error) :=
  (λ x, match x with Some e' => Some e' | None => Some e end) <$> ts.

Inductive env_step (t i : string) : D → D → Prop :=
  | env_store {A} (op : StoreOp A) d :
      foreign t i op → env_step t i d (set_store (store_exec op (d_store d)).2 d)
  | env_touch t' i' l d :
      (t', i') ≠ (t, i) → env_step t i d (set_store (touch t' i' l (d_store d)) d)
  | env_mcp s d : env_step t i d (set_mcp s d)
  | env_clock d : env_step t i d (set_clock (S (d_clock d)) d)
  | env_cancel e d :
      d_ctx d = None → env_step t i d (set_ctx (Some e) (cancel_all e (d_timers d)) d)
  | env_timeout n d :
      d_timers d !! n = Some None →
      env_step t i d (set_ctx (d_ctx d) (<[n := Some context_DeadlineExceeded]> (d_timers d)) d).

Inductive machine_step (task : taskVar) (specs : list SubtaskSpec) : machine → machine → Prop :=
  | step_own m m' : own_step task specs m m' → machine_step task specs m m'
  | step_env c ps d d' :
      env_step (Task_TenantID (tv_task task)) (Task_ID (tv_task task)) d d' →
      machine_step task specs (mkMachine c ps d) (mkMachine c ps d').

(** ** Distribute *)

(** Up to the call of [execute]: the task, its specs, the arrays. *)
Definition prepare (ctx_tenant newID taskText : string) : M D (taskVar * list SubtaskSpec) :=
  let tenantID := tenantFromCtx ctx_tenant in
  agents ← in_store (OpListAgents tenantID);
  let specs := Decompose unicode_lower taskText agents in
  created ← now;
  updated ← now;
  let subs := imap (λ i spec, mkSubtask (newID +:+ "-" +:+ pretty i) (Spec_AgentID spec)
                                (Spec_Description spec) SubtaskStatusPending RawEmpty) specs in
  let task := mkTask newID tenantID taskText TaskStatusPending [] RawEmpty created updated in
  _ ← mmodify (set_subtasks subs);
  task ← store_task OpCreateTask (mkTaskVar task true);
  let task := on_task (set_TaskStatus TaskStatusRunning) task in
  r ← mtry (store_task OpUpdateTask task);
  let task := match r with inl t => t | inr _ => mkTaskVar zero_Task false end in
  _ ← mmodify (λ d, set_results (replicate (length specs) zero_outcome) (set_sync 0 0 d));
  mret (task, specs).

(** The loop of [finalize]: the number of failures and the lines. *)
Fixpoint tally (i : nat) (results : list subtaskOutcome) : Z * list string :=
  match results with
  | [] => (0%Z, [])
  | r :: rest =>
      let '(failed, lines) := tally (S i) rest in
      ((if out_err r then failed + 1 else failed)%Z,
       if bool_decide (out_result r = "") then lines
       else ("subtask " +:+ pretty i +:+ ": " +:+ out_result r) :: lines)
  end.

Definition finalize (task : taskVar) : M D Task :=
  d ← mget;
  let results := sort_slice (λ a b, out_index a <? out_index b)%Z (d_results d) in
  let '(failed, lines) := tally 0 results in
  let status := if (0 <? failed)%Z || bool_decide (is_Some (d_ctx d))
                then TaskStatusFailed else TaskStatusSuccess in
  let lines := match d_ctx d with
               | Some e => lines ++ ["context: " +:+ error_text e]
               | None => lines
               end in
  let result := VMap {[ "subtasks_completed" := VInt (Z.of_nat (length results) - failed);
                        "subtasks_failed" := VInt failed;
                        "results" := VList (VString <$> lines) ]} in
  u ← now;
  let task := on_task (λ t, set_TaskUpdatedAt u
                        (set_TaskResult (marshal_or_nil result) (set_TaskStatus status t))) task in
  r ← mtry (store_task OpUpdateTask task);
  d ← mget;
  mret (deref d (match r with inl t => t | inr _ => task end)).

Definition start (d : D) : machine := mkMachine (Loop 0) [] d.

(** A run of [Distribute] that returns [task] in [d2]. *)
Inductive distributes (ctx_tenant newID taskText : string) (d : D) : Task → D → Prop :=
  | distributes_intro v specs d1 ps d' task d2 :
      prepare ctx_tenant newID taskText d = (Ok (v, specs), d1) →
      rtc (machine_step v specs) (start d1) (mkMachine Finished ps d') →
      finalize v d' = (Ok task, d2) →
      distributes ctx_tenant newID taskText d task d2.
End Orchestrator.
