(* ===== verification/OrchestratorTheory.v ===== *)
(** * Reasoning about the worker pool

    What a goroutine relies on and guarantees, the security of [runSubtask]
    under it, and the invariant of the machine. *)
From S2P Require Import Prelude GoStr GoValue GoSort GoFmt Json Model Store StoreSpec.
From S2P Require Import Mcp Decomposer Threads Orchestrator.

(** A store call that only reads a resource answers, and changes nothing. *)
Lemma spec_foreign {A} (op : StoreOp A) w r w' t i :
  spec op w r w' → foreign t i op → vw_tasks w' !! (t, i) = vw_tasks w !! (t, i).
Proof.
  destruct op; cbn [spec foreign]; unfold reads, does, zoom, sp_get, sp_create, sp_update, sp_delete;
    intros H Hf; try (by destruct H as [-> _]); repeat (case_match || case_decide);
    simplify_eq/=; try done.
  all: rewrite lookup_insert_ne; [done|congruence].
Qed.

Section Pool.
Context {St Mc : Type}.
Context {st_ops : Store St} {st_laws : StoreLaws St}.
Context {slices : TaskSlices St} {slice_laws : TaskSliceLaws St}.
Context {mc_ops : Client Mc} {mc_laws : ClientLaws Mc} {quoting : FmtQuote}.
Context (now_at : nat → Time) (o : Orchestrator).
Context (t id : string).
Abbreviation D := (Data St Mc).
Implicit Types (d : D) (sub : Subtask) (v : taskVar).

(** The store holds the task that is being distributed. *)
Definition present d : Prop := is_Some (vw_tasks (view (d_store d)) !! (t, id)).

(** ** What everybody keeps, and what goroutine [j] relies on *)
Record keeps d d' : Prop := {
  k_subtasks : length (d_subtasks d') = length (d_subtasks d);
  k_results : length (d_results d') = length (d_results d);
  k_present : present d → present d';
  k_ctx : ∀ e, d_ctx d = Some e → d_ctx d' = Some e
}.

Definition others (P : nat → Prop) d d' : Prop :=
  ∀ j, P j → d_subtasks d' !! j = d_subtasks d !! j ∧ d_results d' !! j = d_results d !! j.

Definition rely (j : nat) d d' : Prop := keeps d d' ∧ others (eq j) d d'.

(** The body of goroutine [j] writes its own subtask only, and none of the
    results, the semaphore and the wait group. *)
Record guar (j : nat) d d' : Prop := {
  g_keeps : keeps d d';
  g_subtasks : ∀ i, i ≠ j → d_subtasks d' !! i = d_subtasks d !! i;
  g_results : d_results d' = d_results d;
  g_sem : d_sem d' = d_sem d;
  g_wg : d_wg d' = d_wg d
}.

#[export] Instance keeps_preorder : PreOrder keeps.
Proof.
  split; [by constructor|]. intros d1 d2 d3 [] []. constructor; [congruence|congruence|auto|auto].
Qed.

#[export] Instance rely_preorder j : PreOrder (rely j).
Proof.
  split; [by split|]. intros d1 d2 d3 [K1 O1] [K2 O2]. split; [by etrans|].
  intros i <-. destruct (O1 j eq_refl), (O2 j eq_refl). split; congruence.
Qed.

Lemma guar_rely i j d d' : guar i d d' → j ≠ i → rely j d d'.
Proof. intros [] ?. split; [done|]. intros ? <-. split; [by auto|congruence]. Qed.

(** ** Actions *)
Lemma store_proper_guar {A} (op : StoreOp A) d j :
  (∀ s, proper_outcome (store_exec op s).1) → foreign t id op →
  ∃ r d', mtry (in_store op) d = (Ok r, d') ∧ guar j d d' ∧ d_subtasks d' = d_subtasks d.
Proof.
  intros Hp Hf. pose proof (exec_spec op (d_store d)) as Hs. specialize (Hp (d_store d)).
  unfold mtry, in_store. destruct (store_exec op (d_store d)) as [r s]. simpl in *.
  apply (spec_foreign op _ _ _ t id) in Hs; [|done].
  destruct r; try done; (do 2 eexists; split; [done|split; [|done]]);
    (constructor; [|done..]); (constructor; [done|done| |done]); unfold present; simpl; by rewrite Hs.
Qed.

Lemma mcp_guar {A} (op : M Mc A) d j :
  (∀ s, proper_outcome (op s).1) →
  ∃ r d', mtry (in_mcp op) d = (Ok r, d') ∧ guar j d d' ∧ d_subtasks d' = d_subtasks d.
Proof.
  intros Hp. specialize (Hp (d_mcp d)). unfold mtry, in_mcp.
  destruct (op (d_mcp d)) as [r s]. simpl in *.
  destruct r; try done; (do 2 eexists; split; [done|split; [|done]]); by constructor.
Qed.

(** The task variables of a distribution whose task is stored. *)
Definition own_task v : Prop :=
  tv_shared v = true ∧ Task_TenantID (tv_task v) = t ∧ Task_ID (tv_task v) = id.

Lemma update_stored (x : Task) (s : St) :
  Task_TenantID x = t → Task_ID x = id → is_Some (vw_tasks (view s) !! (t, id)) →
  ∃ s', store_exec (OpUpdateTask x) s = (Ok x, s') ∧
    view s' = up_tasks (<[(t, id) := x]> (vw_tasks (view s))) (view s).
Proof.
  intros Ht Hi [y Hy]. pose proof (exec_spec (OpUpdateTask x) s) as H.
  unfold spec, does, zoom, sp_update in H. rewrite Ht, Hi, Hy in H.
  destruct (store_exec (OpUpdateTask x) s) as [r s']. simpl in H. injection H as <- Hv. eauto.
Qed.

(** Goroutine [j] holds its subtask, the task is stored. *)
Definition holds (j : nat) sub d : Prop := present d ∧ d_subtasks d !! j = Some sub.

Lemma holds_rely j sub d d' : holds j sub d → rely j d d' → holds j sub d'.
Proof.
  intros [Hp Hs] [[] Ho]. destruct (Ho j eq_refl) as [E _]. split; [auto|congruence].
Qed.

Definition marked (status : SubtaskStatus) (result : string) sub : Subtask :=
  mkSubtask (Subtask_ID sub) (Subtask_AgentID sub) (Subtask_Description sub) status
    (if bool_decide (status = SubtaskStatusSuccess) || bool_decide (status = SubtaskStatusFailed)
     then marshal_or_nil (VString result) else Subtask_Result sub).

Lemma write_subtask_runs v j status result sub d :
  own_task v → holds j sub d →
  ∃ d', write_subtask v j status result d = (Ok tt, d') ∧ guar j d d' ∧
    holds j (marked status result sub) d'.
Proof.
  intros (Hsh & Ht & Hi) [Hp Hj]. unfold write_subtask. rewrite Hsh, Hj, Ht, Hi.
  set (l := <[j := _]> _).
  assert (Hp' : is_Some (vw_tasks (view (touch t id l (d_store d))) !! (t, id))).
  { destruct (touch_view t id l (d_store d)) as [-> | ->]; [done|]. simpl.
    rewrite lookup_alter_eq. by apply fmap_is_Some. }
  eexists. split; [done|]. split; [|split; [done|]].
  - constructor; [|intros k Hk; apply list_lookup_insert_ne; done|done..].
    constructor; [apply length_insert|done|done|done].
  - simpl. apply list_lookup_insert_eq. by eapply lookup_lt_Some.
Qed.

Lemma store_update_runs v j sub d :
  own_task v → holds j sub d →
  ∃ v' d', mtry (store_task OpUpdateTask v) d = (Ok (inl v'), d') ∧ guar j d d' ∧
    own_task v' ∧ holds j sub d'.
Proof.
  intros (Hsh & Ht & Hi) [Hp Hj].
  destruct (update_stored (deref d v) (d_store d)) as (s' & Hs & Hv);
    [unfold deref; by rewrite Hsh..|done|].
  unfold mtry, store_task, mbind, M_bind, mget, in_store. rewrite Hs.
  assert (Hp' : present (set_store s' d)).
  { unfold present. simpl. rewrite Hv. simpl. rewrite lookup_insert_eq. eauto. }
  do 2 eexists. split; [done|]. split_and!; [by constructor| |by split].
  unfold deref. rewrite Hsh. by split_and!.
Qed.

(** ** Bodies *)
Abbreviation safe_body j := (secure (rely j) (guar j)).

Lemma markStatus_secure v j status result sub d :
  t ≠ "" → own_task v → holds j sub d →
  safe_body j (λ v' d', own_task v' ∧ holds j (marked status result sub) d')
    (markStatus now_at v j status result) d.
Proof.
  intros Hne Hv Hd. unfold markStatus. rewrite bool_decide_eq_false_2 by (by destruct Hv as (_ & -> & _)).
  eapply (secure_bind _ _ _ _ (λ _ d', holds j (marked status result sub) d')).
  { apply secure_do. intros d1 Hr.
    destruct (write_subtask_runs v j status result sub d1) as (d2 & ? & ? & ?);
      [done|by eapply holds_rely|]. eauto. }
  intros _ d1 H1.
  eapply (secure_bind _ _ _ _ (λ _ d', holds j (marked status result sub) d')).
  { apply secure_do. intros d2 Hr. eapply holds_rely in Hr; [|exact H1].
    do 2 eexists. split; [done|]. split; [by constructor|done]. }
  intros u d2 H2.
  eapply (secure_bind _ _ _ _ (λ r d', ∃ v', r = inl v' ∧ own_task v' ∧
    holds j (marked status result sub) d')).
  { apply secure_try. intros d3 Hr. eapply holds_rely in Hr; [|exact H2].
    destruct (store_update_runs (on_task (set_TaskUpdatedAt u) v) j (marked status result sub) d3)
      as (v' & d4 & ? & ? & ? & ?); [done|done|]. eauto 10. }
  intros r d3 (v' & -> & ? & ?). done.
Qed.

(** An action that leaves the subtasks alone keeps what the goroutine holds. *)
Lemma keeps_holds j sub d d' :
  guar j d d' → d_subtasks d' = d_subtasks d → holds j sub d → holds j sub d'.
Proof. intros [[] ? ? ? ?] E [? ?]. split; [auto|by rewrite E]. Qed.

Lemma quiet_try {B} (m : M D B) j sub d :
  (∀ d1, ∃ r d2, mtry m d1 = (Ok r, d2) ∧ guar j d1 d2 ∧ d_subtasks d2 = d_subtasks d1) →
  holds j sub d → safe_body j (λ _, holds j sub) (try_ m) d.
Proof.
  intros Hm Hd. apply secure_try. intros d1 Hr.
  destruct (Hm d1) as (r & d2 & ? & ? & ?). exists r, d2. split_and!; [done|done|].
  eapply keeps_holds; [done|done|]. by eapply holds_rely.
Qed.

Lemma quiet_do {B} (m : M D B) j sub d :
  (∀ d1, ∃ r d2, m d1 = (Ok r, d2) ∧ guar j d1 d2 ∧ d_subtasks d2 = d_subtasks d1) →
  holds j sub d → safe_body j (λ _, holds j sub) (do_ m) d.
Proof.
  intros Hm Hd. apply secure_do. intros d1 Hr.
  destruct (Hm d1) as (r & d2 & ? & ? & ?). exists r, d2. split_and!; [done|done|].
  eapply keeps_holds; [done|done|]. by eapply holds_rely.
Qed.

Lemma guar_refl j d : guar j d d.
Proof. by constructor. Qed.

Lemma sub_err_quiet j sub d : holds j sub d → safe_body j (λ _, holds j sub) (do_ (sub_err o j)) d.
Proof.
  apply quiet_do. intros d1. do 2 eexists. split; [done|]. split; [apply guar_refl|done].
Qed.

Lemma with_timeout_quiet j sub d :
  holds j sub d → safe_body j (λ _, holds j sub) (do_ (with_timeout o j)) d.
Proof.
  apply quiet_do. intros d1. do 2 eexists. split; [done|].
  case_match; (split; [by constructor|done]).
Qed.

Lemma call_skills_secure j k spec agent skills outs sub d :
  holds j sub d →
  safe_body j (λ _, holds j sub) (call_skills o j k spec agent skills outs) d.
Proof.
  revert outs d. induction skills as [|skill rest IH]; intros outs d Hd; [done|].
  cbn [call_skills].
  eapply secure_bind; [by apply sub_err_quiet|]. intros [e|] d1 H1; [done|].
  eapply secure_bind.
  { eapply (quiet_try _ j sub); [|done]. intros. apply store_proper_guar; [apply exec_answers|done]. }
  intros [server|err] d2 H2; [|done].
  eapply secure_bind.
  { eapply (quiet_try _ j sub); [|done]. intros d3.
    pose proof (transport_proper (McpServer_Transport server)) as Hp. unfold mtry.
    destruct (TransportFromServer _); try done;
      (do 2 eexists; split; [done|]; split; [apply guar_refl|done]). }
  intros [tr|err] d3 H3; [|done].
  eapply secure_bind; [eapply (quiet_try _ j sub); [|done]; intros; apply mcp_guar, call_proper|].
  intros [res|err] d4 H4; [|done]. by apply IH.
Qed.

(** How a subtask ends: its status and result say what its outcome says. *)
Definition closed_as sub (out : subtaskOutcome) sub' : Prop :=
  sub' = marked (if out_err out then SubtaskStatusFailed else SubtaskStatusSuccess)
           (out_result out) sub.

Definition finished (j : nat) sub (out : subtaskOutcome) d : Prop :=
  out_index out = Z.of_nat j ∧ ∃ sub', holds j sub' d ∧ closed_as sub out sub'.

Lemma marked_marked s1 r1 s2 r2 sub :
  bool_decide (s2 = SubtaskStatusSuccess) || bool_decide (s2 = SubtaskStatusFailed) = true →
  marked s2 r2 (marked s1 r1 sub) = marked s2 r2 sub.
Proof. unfold marked. by intros ->. Qed.

Lemma fail_subtask_secure v j result err sub d :
  t ≠ "" → own_task v → holds j sub d →
  safe_body j (finished j sub) (fail_subtask now_at v j result err) d.
Proof.
  intros Hne Hv Hd. eapply secure_bind; [by eapply markStatus_secure|].
  intros v' d' [_ H]. split; [done|]. eexists. split; [exact H|done].
Qed.

Lemma finished_running j sub out d :
  finished j (marked SubtaskStatusRunning "" sub) out d → finished j sub out d.
Proof.
  intros (? & sub' & ? & ->). split; [done|]. eexists. split; [done|]. unfold closed_as.
  rewrite marked_marked; [done|]. by destruct (out_err out).
Qed.

Lemma runSubtask_secure v j spec sub d :
  t ≠ "" → own_task v → holds j sub d →
  safe_body j (finished j sub) (runSubtask now_at o v j spec) d.
Proof.
  intros Hne Hv Hd. unfold runSubtask. case_if; [by apply fail_subtask_secure|].
  eapply secure_bind.
  { eapply (quiet_try _ j sub); [|done]. intros. apply store_proper_guar; [apply exec_answers|done]. }
  intros [agent|err] d1 H1; [|by apply fail_subtask_secure].
  eapply secure_bind; [by eapply markStatus_secure|]. intros v1 d2 [Hv1 H2].
  eapply secure_bind; [by eapply with_timeout_quiet|]. intros ? d3 H3.
  eapply secure_bind; [eapply call_skills_secure; exact H3|]. intros [outs err] d4 H4.
  eapply (secure_bind _ _ _ _ (λ _, holds j (marked SubtaskStatusRunning "" sub))).
  { destruct err; [done|by apply sub_err_quiet]. }
  intros [e|] d5 H5.
  - eapply secure_mono; [by apply fail_subtask_secure|]. intros. by apply finished_running.
  - eapply secure_bind; [by eapply markStatus_secure|]. intros v2 d6 [_ H6].
    apply finished_running. split; [done|]. eexists. split; [exact H6|done].
Qed.
End Pool.
