(* ===== verification/OrchestratorProps.v ===== *)
(** * What the worker pool guarantees

    The invariant of the machine, that it is never stuck, that it ends, and
    what a run of [Distribute] leaves behind. *)
From S2P Require Import Prelude GoStr GoValue GoSort GoFmt Json Model Store StoreSpec.
From S2P Require Import Mcp Decomposer Threads Orchestrator OrchestratorTheory.

Section Props.
Context {St Mc : Type}.
Context {st_ops : Store St} {st_laws : StoreLaws St}.
Context {slices : TaskSlices St} {slice_laws : TaskSliceLaws St}.
Context {mc_ops : Client Mc} {mc_laws : ClientLaws Mc} {quoting : FmtQuote}.
Context (now_at : nat → Time) (unicode_lower : string → string) (o : Orchestrator).
Abbreviation D := (Data St Mc).
Abbreviation machine := (@machine St Mc).
Abbreviation goroutine := (@goroutine St Mc).
Implicit Types (d : D) (g : goroutine) (m : machine).

(** ** Counting goroutines *)
Definition weigh (f : goroutine → nat) (ps : list (nat * goroutine)) : nat :=
  sum_list_with (λ p, f p.2) ps.

Lemma weigh_app f ps qs : weigh f (ps ++ qs) = weigh f ps + weigh f qs.
Proof. apply sum_list_with_app. Qed.

Lemma weigh_insert f ps n i g g' :
  ps !! n = Some (i, g) → weigh f (<[n := (i, g')]> ps) + f g = weigh f ps + f g'.
Proof.
  unfold weigh. generalize dependent n. induction ps as [|p ps IH]; intros [|k] H; simplify_eq/=; [lia|].
  specialize (IH k H). lia.
Qed.

Lemma weigh_pos f ps : 0 < weigh f ps → ∃ n i g, ps !! n = Some (i, g) ∧ 0 < f g.
Proof.
  unfold weigh. induction ps as [|[i g] ps IH]; simpl; [lia|]. intros H.
  destruct (decide (0 < f g)) as [?|?]; [by exists 0, i, g|].
  destruct IH as (k & j & h & ? & ?); [lia|]. by exists (S k), j, h.
Qed.

Lemma weigh_zero f ps n i g : weigh f ps = 0 → ps !! n = Some (i, g) → f g = 0.
Proof.
  unfold weigh. generalize dependent n. induction ps as [|p ps IH]; intros [|k] H Hl; simplify_eq/=; [lia|].
  eapply IH; [lia|done].
Qed.

(** It has a slot of the semaphore; the wait group waits for it. *)
Definition slot g : nat := match g with Running _ | Releasing => 1 | _ => 0 end.
Definition live g : nat := match g with Exited => 0 | _ => 1 end.

(** ** The invariant *)
Section Invariant.
Context (task : taskVar) (specs : list SubtaskSpec) (subs : list Subtask).
Abbreviation t := (Task_TenantID (tv_task task)).
Abbreviation id := (Task_ID (tv_task task)).

(** Subtask [j] was not started because the context was over. *)
Definition skipped (j : nat) (sub : Subtask) (out : subtaskOutcome) (sub' : Subtask) d : Prop :=
  sub' = sub ∧ ∃ e, d_ctx d = Some e ∧ out = mkOutcome (Z.of_nat j) "" (Some e).

(** Subtask [j] is over: its outcome and its entry agree. *)
Definition settled (j : nat) d : Prop :=
  ∃ sub out sub', subs !! j = Some sub ∧ d_results d !! j = Some out ∧
    d_subtasks d !! j = Some sub' ∧ out_index out = Z.of_nat j ∧
    (closed_as sub out sub' ∨ skipped j sub out sub' d).

Definition goroutine_ok (j : nat) g d : Prop :=
  match g with
  | Running p =>
      ∃ sub d0, subs !! j = Some sub ∧ rely t id j d0 d ∧
        secure (rely t id j) (guar t id j) (finished t id j sub) p d0
  | _ => settled j d
  end.

#[local] Instance main_pc_eq_dec : EqDecision main_pc.
Proof. solve_decision. Defined.

(** The number of iterations the loop has begun and ended. *)
Definition reached (c : main_pc) : nat :=
  match c with Loop i | Acquire i => i | Wait | Finished => length specs end.

Definition pc_ok (c : main_pc) d : Prop :=
  match c with
  | Loop i => i ≤ length specs
  | Acquire i => i < length specs
  | Wait => True
  | Finished => d_wg d = 0%Z
  end.

Definition to_add (c : main_pc) : Z := match c with Acquire _ => 1 | _ => 0 end.

Record pool_ok m : Prop := {
  p_subtasks : length (d_subtasks (data m)) = length specs;
  p_results : length (d_results (data m)) = length specs;
  p_present : present t id (data m);
  p_nodup : NoDup (pool m).*1;
  p_started : ∀ n j g, pool m !! n = Some (j, g) → j < reached (pc m);
  p_begun : ∀ j, j < reached (pc m) → j ∈ (pool m).*1 ∨ settled j (data m);
  p_goroutines : ∀ n j g, pool m !! n = Some (j, g) → goroutine_ok j g (data m);
  p_later : ∀ j, reached (pc m) ≤ j → d_subtasks (data m) !! j = subs !! j;
  p_sem : d_sem (data m) = Z.of_nat (weigh slot (pool m));
  p_workers : (d_sem (data m) ≤ o_workers o)%Z;
  p_wg : d_wg (data m) = (Z.of_nat (weigh live (pool m)) + to_add (pc m))%Z;
  p_pc : pc_ok (pc m) (data m)
}.

Lemma settled_frame j d d' : rely t id j d d' → settled j d → settled j d'.
Proof.
  intros [K O] (sub & out & sub' & H1 & H2 & H3 & H4 & H5).
  destruct (O j eq_refl) as [E1 E2]. exists sub, out, sub'. rewrite E1, E2.
  split_and!; [done..|]. destruct H5 as [?|(-> & e & He & ->)]; [by left|right].
  split; [done|]. exists e. split; [by apply (k_ctx _ _ _ _ K)|done].
Qed.

Lemma goroutine_frame j g d d' : rely t id j d d' → goroutine_ok j g d → goroutine_ok j g d'.
Proof.
  destruct g; simpl; [|apply settled_frame..]. intros Hr (sub & d0 & ? & ? & ?).
  exists sub, d0. split_and!; [done|by etrans|done].
Qed.

(** The data moves on and every goroutine can rely on it. *)
Lemma pool_frame c ps d d' :
  keeps t id d d' → (∀ j, rely t id j d d') → d_subtasks d' = d_subtasks d →
  d_sem d' = d_sem d → d_wg d' = d_wg d →
  pool_ok (mkMachine c ps d) → pool_ok (mkMachine c ps d').
Proof.
  intros K R Es E1 E2 []. constructor; simpl in *; rewrite ?E1, ?E2, ?Es; try done.
  - by rewrite (k_results _ _ _ _ K).
  - by apply (k_present _ _ _ _ K).
  - intros j Hj. destruct (p_begun0 j Hj); [by left|right]. eapply settled_frame; [apply R|done].
  - intros n j g Hn. eapply goroutine_frame; [apply R|by eapply p_goroutines0].
  - destruct c; simpl in *; congruence.
Qed.

Lemma env_frame d d' :
  env_step t id d d' →
  keeps t id d d' ∧ (∀ j, rely t id j d d') ∧ d_subtasks d' = d_subtasks d ∧
  d_sem d' = d_sem d ∧ d_wg d' = d_wg d.
Proof.
  intros H. assert (K : keeps t id d d' ∧ d_subtasks d' = d_subtasks d ∧ d_results d' = d_results d ∧
    d_sem d' = d_sem d ∧ d_wg d' = d_wg d).
  { destruct H as [A op d Hf|t' i' l d Hne|s d|d|e d Hc|n d Hn]; split_and!; try done;
      constructor; try done; unfold present; simpl.
    - by rewrite (spec_foreign _ _ _ _ _ _ (exec_spec op (d_store d)) Hf).
    - destruct (touch_view t' i' l (d_store d)) as [-> | ->]; [done|]. simpl.
      by rewrite lookup_alter_ne.
    - intros e' ?. congruence. }
  destruct K as (K & E1 & E2 & E3 & E4). split_and!; try done.
  intros j. split; [done|]. intros ? _. by rewrite E1, E2.
Qed.

(** Goroutine [i], the [n]th of the pool, moves on. *)
Lemma pool_update c ps d n i g g' d' :
  pool_ok (mkMachine c ps d) → ps !! n = Some (i, g) → 0 < live g →
  keeps t id d d' → (∀ j, j ≠ i → rely t id j d d') → goroutine_ok i g' d' →
  (d_sem d' + Z.of_nat (slot g) = d_sem d + Z.of_nat (slot g'))%Z → slot g' ≤ slot g →
  (d_wg d' + Z.of_nat (live g) = d_wg d + Z.of_nat (live g'))%Z →
  pool_ok (mkMachine c (<[n := (i, g')]> ps) d').
Proof.
  intros [] Hn Hlive K R Hg Hsem Hslot Hwg. simpl in *.
  assert (Hfst : (<[n := (i, g')]> ps).*1 = ps.*1).
  { rewrite list_fmap_insert. simpl. apply list_insert_id. by rewrite list_lookup_fmap, Hn. }
  pose proof (weigh_insert slot ps n i g g' Hn). pose proof (weigh_insert live ps n i g g' Hn).
  constructor; simpl; rewrite ?Hfst; try done.
  - by rewrite (k_subtasks _ _ _ _ K).
  - by rewrite (k_results _ _ _ _ K).
  - by apply (k_present _ _ _ _ K).
  - intros k j h [(-> & [= <- <-] & _)|[_ Hk]]%list_lookup_insert_Some; eauto.
  - intros j Hj. destruct (decide (j = i)) as [->|Hji].
    + left. apply list_elem_of_fmap. exists (i, g). split; [done|]. by eapply list_elem_of_lookup_2.
    + destruct (p_begun0 j Hj); [by left|right]. eapply settled_frame; [by apply R|done].
  - intros k j h [(-> & [= <- <-] & _)|[Hkn Hk]]%list_lookup_insert_Some; [done|].
    eapply goroutine_frame; [|by eapply p_goroutines0]. apply R. intros ->.
    apply Hkn. eapply (NoDup_lookup ps.*1); [done|by rewrite list_lookup_fmap, Hn|by rewrite list_lookup_fmap, Hk].
  - intros j Hj. pose proof (p_started0 _ _ _ Hn) as Hi.
    assert (Hne : j ≠ i) by (intros ->; lia).
    destruct (R j Hne) as [_ O]. destruct (O j eq_refl) as [-> _]. eauto.
  - lia.
  - lia.
  - lia.
  - destruct c; try done. simpl in *.
    assert (Hz : weigh live ps = 0) by lia. pose proof (weigh_zero live ps n i g Hz Hn). lia.
Qed.

Lemma write_result_keeps i out d :
  keeps t id d (write_result i out d) ∧ (∀ j, j ≠ i → rely t id j d (write_result i out d)).
Proof.
  assert (K : keeps t id d (write_result i out d)).
  { constructor; try done. apply length_insert. }
  split; [done|]. intros j Hj. split; [done|]. intros ? <-. split; [done|].
  simpl. by apply list_lookup_insert_ne.
Qed.

Lemma sync_rely sem wg j d : rely t id j d (set_sync sem wg d).
Proof. by split. Qed.

(** What a goroutine that has returned leaves. *)
Lemma result_settled i out d :
  goroutine_ok i (Running (Ret out)) d → i < length (d_results d) →
  settled i (write_result i out d).
Proof.
  intros (sub & d0 & Hs & [K O] & (Hidx & sub' & [_ Hsub'] & Hc)) Hi.
  destruct (O i eq_refl) as [E _]. exists sub, out, sub'. simpl. split_and!; try done.
  - by apply list_lookup_insert_eq.
  - congruence.
  - by left.
Qed.

Lemma go_step_ok c ps d n i g g' d' :
  pool_ok (mkMachine c ps d) → ps !! n = Some (i, g) → go_step i g d g' d' →
  pool_ok (mkMachine c (<[n := (i, g')]> ps) d').
Proof.
  intros Hok Hn Hstep. pose proof (p_goroutines _ Hok _ _ _ Hn) as Hg. simpl in Hg.
  pose proof (p_workers _ Hok) as Hw. simpl in Hw.
  destruct Hstep as [p d p' d' Hp|out d Hi|d|d].
  - destruct Hg as (sub & d0 & Hs & Hr & Hsec).
    destruct (secure_pstep _ _ _ _ _ _ Hsec Hr) as [(a & -> & _)|(p2 & d2 & Hp2 & G & Hsec2)]; [done|].
    rewrite Hp in Hp2. injection Hp2 as <- <-.
    eapply pool_update; [done|done|simpl; lia|apply G|intros; by eapply guar_rely| | |done|].
    + exists sub, d'. split_and!; [done|reflexivity|done].
    + simpl. by rewrite (g_sem _ _ _ _ _ G).
    + simpl. by rewrite (g_wg _ _ _ _ _ G).
  - destruct (write_result_keeps i out d) as [K R].
    eapply pool_update; [done|done|simpl; lia|done|done| |done|done|done].
    by apply result_settled.
  - eapply pool_update; [done|done|simpl; lia|by constructor|intros; apply sync_rely| | | |]; simpl; try lia.
    eapply settled_frame; [apply sync_rely|done].
  - eapply pool_update; [done|done|simpl; lia|by constructor|intros; apply sync_rely| | | |]; simpl; try lia.
    eapply settled_frame; [apply sync_rely|done].
Qed.

(** ** Every step keeps the invariant *)
Section Preservation.
Context (Ht : t ≠ "") (Hshared : tv_shared task = true).
Context (Hsubs : length subs = length specs).

Lemma own_this : own_task t id task.
Proof using Hshared. by split_and!. Qed.

Lemma pool_spawn i spec ps d :
  pool_ok (mkMachine (Acquire i) ps d) → specs !! i = Some spec → (d_sem d < o_workers o)%Z →
  pool_ok (mkMachine (Loop (S i)) (ps ++ [(i, Running (runSubtask now_at o task i spec))])
             (set_sync (d_sem d + 1) (d_wg d) d)).
Proof using Ht Hshared Hsubs slice_laws mc_laws.
  intros [] Hi Hw. simpl in *. apply lookup_lt_Some in Hi as Hlt.
  destruct (lookup_lt_is_Some_2 subs i) as [sub Hsub]; [lia|].
  constructor; simpl; rewrite ?fmap_app; try done.
  - apply NoDup_app. split_and!; [done| |apply NoDup_singleton].
    intros j Hj ->%list_elem_of_singleton.
    apply list_elem_of_fmap in Hj as ([j' g] & Hj' & Hg). simpl in Hj'. subst j'.
    apply list_elem_of_lookup_1 in Hg as [n Hn]. specialize (p_started0 _ _ _ Hn). lia.
  - intros n j g [Hn|[_ Hn]]%lookup_app_Some; [specialize (p_started0 _ _ _ Hn); lia|].
    apply list_lookup_singleton_Some in Hn as [_ [= <- <-]]. lia.
  - intros j Hj. destruct (decide (j = i)) as [->|Hji].
    + left. apply elem_of_app. right. by apply list_elem_of_singleton.
    + destruct (p_begun0 j) as [?|?]; [lia| |by right]. left. apply elem_of_app. by left.
  - intros n j g [Hn|[_ Hn]]%lookup_app_Some.
    + eapply goroutine_frame; [apply sync_rely|by eapply p_goroutines0].
    + apply list_lookup_singleton_Some in Hn as [_ [= <- <-]]. exists sub, d.
      split_and!; [done|apply sync_rely|]. apply runSubtask_secure; [done|by apply own_this|].
      split; [done|]. by rewrite p_later0 by lia.
  - intros j Hj. apply p_later0. lia.
  - rewrite weigh_app. simpl. lia.
  - lia.
  - rewrite weigh_app. simpl. lia.
Qed.

Lemma main_step_ok m m' : pool_ok m → main_step now_at o task specs m m' → pool_ok m'.
Proof using Ht Hshared Hsubs slice_laws mc_laws.
  intros Hok Hstep. revert Hok. destruct Hstep as [i e ps d Hi Hr He|i ps d Hi He|i spec ps d Hi Hw|i ps d Hi|ps d Hwg]; intros Hok.
  - destruct (write_result_keeps i (mkOutcome (Z.of_nat i) "" (Some e)) d) as [K R].
    destruct Hok as [? ? ? ? Hst Hb Hg Hl ? ? ? ?]. simpl in *.
    assert (Hne : ∀ n j g, ps !! n = Some (j, g) → j ≠ i) by (intros n j g Hn ->; apply Hst in Hn; lia).
    destruct (lookup_lt_is_Some_2 subs i) as [sub Hsub]; [lia|].
    constructor; simpl; try done.
    + by rewrite length_insert.
    + intros n j g Hn. apply Hst in Hn. lia.
    + intros j Hj. destruct (decide (j = i)) as [->|Hji].
      * right. exists sub, (mkOutcome (Z.of_nat i) "" (Some e)), sub. simpl. split_and!; try done.
        { by apply list_lookup_insert_eq. } { by rewrite Hl by lia. }
        right. split; [done|]. by exists e.
      * destruct (Hb j) as [?|?]; [lia|by left|right]. eapply settled_frame; [by apply R|done].
    + intros n j g Hn. eapply goroutine_frame; [|by eapply Hg]. apply R. by eapply Hne.
    + intros j Hj. apply Hl. lia.
  - destruct Hok. constructor; simpl in *; try done.
    + intros n j g Hn. eapply goroutine_frame; [apply sync_rely|by eapply p_goroutines0].
    + lia.
  - by apply pool_spawn.
  - destruct Hok as [? ? ? ? Hst Hb ? Hl ? ? ? Hp]. simpl in *.
    assert (i = length specs) as -> by lia. by constructor.
  - destruct Hok. constructor; simpl in *; try done.
Qed.

Lemma own_step_ok m m' : pool_ok m → own_step now_at o task specs m m' → pool_ok m'.
Proof using Ht Hshared Hsubs slice_laws mc_laws.
  intros Hok H. revert Hok. destruct H as [? ? H|c ps n i g g' d d' Hn H]; intros Hok; [by eapply main_step_ok|by eapply go_step_ok].
Qed.

Lemma machine_step_ok m m' : pool_ok m → machine_step now_at o task specs m m' → pool_ok m'.
Proof using Ht Hshared Hsubs slice_laws mc_laws.
  intros Hok H. revert Hok. destruct H as [? ? H|c ps d d' H]; intros Hok; [by eapply own_step_ok|].
  destruct (env_frame _ _ H) as (? & ? & ? & ? & ?). by eapply pool_frame.
Qed.

Lemma machine_run_ok m m' : rtc (machine_step now_at o task specs) m m' → pool_ok m → pool_ok m'.
Proof using Ht Hshared Hsubs slice_laws mc_laws.
  induction 1 as [|m m1 m' H _ IH]; [done|]. intros Hm. by eapply IH, machine_step_ok.
Qed.

End Preservation.

(** ** Progress *)
Lemma go_progress j g d :
  goroutine_ok j g d → 0 < live g → j < length (d_results d) → ∃ g' d', go_step j g d g' d'.
Proof.
  destruct g as [p| | |]; simpl; intros Hg Hl Hj; [|by do 2 eexists; constructor..|lia].
  destruct Hg as (sub & d0 & _ & Hr & Hsec).
  destruct (secure_pstep _ _ _ _ _ _ Hsec Hr) as [(a & -> & _)|(p' & d2 & Hp & _)];
    do 2 eexists; by constructor.
Qed.

Lemma own_progress m :
  pool_ok m → (1 ≤ o_workers o)%Z → pc m ≠ Finished → ∃ m', own_step now_at o task specs m m'.
Proof.
  intros Hok Hw Hpc. destruct m as [c ps d]. pose proof (p_results _ Hok) as Hlen. simpl in Hlen.
  assert (Hgo : ∀ n j g, ps !! n = Some (j, g) → 0 < live g →
    ∃ m', own_step now_at o task specs (mkMachine c ps d) m').
  { intros n j g Hn Hl. destruct (go_progress j g d) as (g' & d' & Hs);
      [by eapply (p_goroutines _ Hok)|done| |].
    - rewrite Hlen. pose proof (p_started _ Hok _ _ _ Hn). pose proof (p_pc _ Hok).
      simpl in *. destruct c; simpl in *; lia.
    - eexists. by eapply own_go. }
  destruct c as [i|i| |]; try done.
  - destruct (decide (i < length specs)) as [Hi|Hi].
    + destruct (d_ctx d) as [e|] eqn:He; eexists; apply own_main.
      * eapply main_cancelled; [done|lia|done].
      * by apply main_live.
    + eexists. apply own_main, main_loop_end. lia.
  - destruct (decide (d_sem d < o_workers o)%Z) as [Hs|Hs].
    + destruct (lookup_lt_is_Some_2 specs i) as [spec Hspec]; [apply (p_pc _ Hok)|].
      eexists. by eapply own_main, main_spawn.
    + pose proof (p_sem _ Hok) as E. simpl in E.
      destruct (weigh_pos slot ps) as (n & j & g & Hn & Hg); [lia|].
      eapply Hgo; [done|]. destruct g; simpl in *; lia.
  - destruct (decide (d_wg d = 0)%Z) as [Hz|Hz]; [eexists; by apply own_main, main_waited|].
    pose proof (p_wg _ Hok) as E. simpl in E.
    destruct (weigh_pos live ps) as (n & j & g & Hn & Hg); [lia|]. by eapply Hgo.
Qed.

(** ** The number of steps *)
Definition subtask_cost (spec : SubtaskSpec) : nat := 4 * length (Spec_Skills spec) + 9.

Lemma markStatus_bounded v j st r : bounded 3 (markStatus now_at v j st r : proc D taskVar).
Proof. unfold markStatus. by case_if. Qed.

Lemma call_skills_bounded j k spec agent skills outs :
  bounded (4 * length skills) (call_skills o j k spec agent skills outs : proc D _).
Proof.
  revert outs. induction skills as [|s rest IH]; intros outs; [done|].
  replace (4 * length (s :: rest)) with (1 + (1 + (1 + (1 + 4 * length rest)))) by (simpl; lia).
  cbn [call_skills]. apply bounded_bind; [done|]. intros [e|]; [done|].
  apply bounded_bind; [done|]. intros [server|e]; [|done].
  apply bounded_bind; [done|]. intros [tr|e]; [|done].
  apply bounded_bind; [done|]. intros [res|e]; [apply IH|done].
Qed.

Lemma fail_subtask_bounded v j r e n : 3 ≤ n → bounded n (fail_subtask now_at v j r e : proc D subtaskOutcome).
Proof.
  intros Hn. eapply bounded_mono; [|done]. apply (bounded_bind _ _ 3 0); [|done].
  apply markStatus_bounded.
Qed.

Lemma runSubtask_bounded j spec : bounded (subtask_cost spec) (runSubtask now_at o task j spec : proc D subtaskOutcome).
Proof.
  unfold runSubtask, subtask_cost. case_if; [apply fail_subtask_bounded; lia|].
  replace (4 * length (Spec_Skills spec) + 9)
    with (1 + (3 + (1 + (4 * length (Spec_Skills spec) + (1 + 3))))) by lia.
  apply bounded_bind; [done|]. intros [agent|e]; [|apply fail_subtask_bounded; lia].
  apply bounded_bind; [apply markStatus_bounded|]. intros v.
  apply bounded_bind; [done|]. intros _.
  apply bounded_bind; [apply call_skills_bounded|]. intros [outs err].
  apply bounded_bind; [by destruct err|]. intros [e|]; [by apply fail_subtask_bounded|].
  apply (bounded_bind _ _ 3 0); [apply markStatus_bounded|done].
Qed.

Definition within (p : nat * goroutine) (c : nat) : Prop :=
  match p.2 with
  | Running b => ∃ c', bounded c' b ∧ c = c' + 3
  | Releasing => c = 2
  | Signalling => c = 1
  | Exited => c = 0
  end.

Definition loop_cost (l : list SubtaskSpec) : nat := sum_list_with (λ s, subtask_cost s + 5) l.

Definition main_cost (c : main_pc) : nat :=
  match c with
  | Loop i => loop_cost (drop i specs) + 2
  | Acquire i => loop_cost (drop i specs) + 1
  | Wait => 1
  | Finished => 0
  end.

(** At most [k] more steps of its own. *)
Definition fits m (k : nat) : Prop :=
  ∃ cs, Forall2 within (pool m) cs ∧ k = main_cost (pc m) + sum_list cs.

Lemma within_step i g g' d d' c :
  within (i, g) c → go_step i g d g' d' → ∃ c', within (i, g') c' ∧ c' < c.
Proof.
  intros Hc Hs. unfold within in *. destruct Hs as [p d p' d' Hp|out d Hi|d|d]; simpl in *; subst.
  - destruct Hc as (c' & Hb & ->). destruct (bounded_pstep _ _ _ _ _ Hb Hp) as (n & -> & ?).
    exists (n + 3). split; [by eexists|lia].
  - destruct Hc as (c' & _ & ->). exists 2. split; [done|lia].
  - exists 1. split; [done|lia].
  - exists 0. split; [done|lia].
Qed.

Lemma sum_list_insert n (cs : list nat) c c' :
  cs !! n = Some c → sum_list (<[n := c']> cs) + c = sum_list cs + c'.
Proof.
  revert n. induction cs as [|x cs IH]; intros [|n] H; simplify_eq/=; [lia|]. specialize (IH n H). lia.
Qed.

Lemma own_step_fits m m' k :
  fits m k → own_step now_at o task specs m m' → ∃ k', k' < k ∧ fits m' k'.
Proof.
  intros (cs & Hcs & ->) Hstep. revert Hcs.
  destruct Hstep as [m1 m2 Hs|c ps n i g g' d d' Hn Hs]; intros Hcs; simpl in *.
  - revert Hcs. destruct Hs as [i e ps d Hi Hr He|i ps d Hi He|i spec ps d Hi Hw|i ps d Hi|ps d Hwg]; intros Hcs; simpl in *.
    + destruct (lookup_lt_is_Some_2 specs i) as [spec Hspec]; [done|].
      exists (loop_cost (drop (S i) specs) + 2 + sum_list cs). split; [|by exists cs].
      rewrite (drop_S _ _ _ Hspec). simpl. lia.
    + exists (loop_cost (drop i specs) + 1 + sum_list cs). split; [lia|by exists cs].
    + exists (loop_cost (drop (S i) specs) + 2 + sum_list (cs ++ [subtask_cost spec + 3])). split.
      * rewrite sum_list_with_app, (drop_S _ _ _ Hi). simpl. lia.
      * exists (cs ++ [subtask_cost spec + 3]). split; [|done]. simpl.
        apply Forall2_app; [done|]. constructor; [|constructor]. unfold within. simpl.
        eexists. split; [apply runSubtask_bounded|done].
    + exists (1 + sum_list cs). split; [lia|by exists cs].
    + exists (sum_list cs). split; [lia|by exists cs].
  - destruct (Forall2_lookup_l _ _ _ _ _ Hcs Hn) as (x & Hx & Hw).
    destruct (within_step _ _ _ _ _ _ Hw Hs) as (x' & Hw' & Hlt).
    pose proof (sum_list_insert n cs x x' Hx). exists (main_cost c + sum_list (<[n := x']> cs)).
    split; [lia|]. exists (<[n := x']> cs). split; [|done]. by apply Forall2_insert.
Qed.

(** Runs, with the number of steps that are the program's own. *)
Inductive runs : nat → machine → machine → Prop :=
  | runs_nil m : runs 0 m m
  | runs_own n m m1 m2 : own_step now_at o task specs m m1 → runs n m1 m2 → runs (S n) m m2
  | runs_env n c ps d d' m2 :
      env_step t id d d' → runs n (mkMachine c ps d') m2 → runs n (mkMachine c ps d) m2.

Lemma runs_fits n m m' k : runs n m m' → fits m k → n ≤ k.
Proof.
  intros Hr. revert k. induction Hr as [m|n m m1 m2 Hs _ IH|n c ps d d' m2 _ _ IH]; intros k Hk; [lia| |].
  - destruct (own_step_fits _ _ _ Hk Hs) as (k' & ? & Hk'). specialize (IH k' Hk'). lia.
  - by apply IH.
Qed.

(** Left to itself the machine gets to the end. *)
Lemma run_to_end m k :
  t ≠ "" → tv_shared task = true → length subs = length specs →
  pool_ok m → fits m k → (1 ≤ o_workers o)%Z →
  ∃ ps d, rtc (machine_step now_at o task specs) m (mkMachine Finished ps d).
Proof using slice_laws mc_laws.
  intros Ht Hshared Hsubs Hok Hk Hw. revert m Hok Hk. induction k as [k IH] using (well_founded_induction lt_wf).
  intros m Hok Hk. destruct (decide (pc m = Finished)) as [E|E].
  { destruct m as [c ps d]. simpl in E. subst. by exists ps, d. }
  destruct (own_progress m Hok Hw E) as [m1 Hs].
  destruct (own_step_fits _ _ _ Hk Hs) as (k1 & Hlt & Hk1).
  destruct (IH k1 Hlt m1) as (ps & d & Hr); [by eapply own_step_ok|done|].
  exists ps, d. eapply rtc_l; [by apply step_own|done].
Qed.
End Invariant.
End Props.
