(* ===== verification/DistributeProps.v ===== *)
(** * Runs of Distribute

    What comes before and after the pool, and the theorems about a whole
    call: it ends, it never blocks, it respects the bound on its goroutines,
    and the task it returns and stores agrees with what happened. *)
From stdpp Require Import sorting.
From S2P Require Import Prelude GoStr GoValue GoSort GoFmt Json Model Store StoreSpec.
From S2P Require Import Mcp Decomposer Threads Orchestrator OrchestratorTheory OrchestratorProps.

(** The lines of the report: the results that are not empty, with their
    numbers. *)
Definition report (i : nat) (outs : list subtaskOutcome) : list string :=
  concat (imap (λ k r, if bool_decide (out_result r = "") then []
                       else ["subtask " +:+ pretty (i + k) +:+ ": " +:+ out_result r]) outs).

Definition failures (outs : list subtaskOutcome) : list subtaskOutcome :=
  filter (λ r, is_Some (out_err r)) outs.

Lemma report_cons i r outs :
  report i (r :: outs) =
    (if bool_decide (out_result r = "") then [] else ["subtask " +:+ pretty i +:+ ": " +:+ out_result r])
    ++ report (S i) outs.
Proof.
  unfold report. simpl. rewrite Nat.add_0_r. f_equal. f_equal. apply imap_ext.
  intros k x _. simpl. by rewrite Nat.add_succ_r.
Qed.

Lemma tally_spec i outs : tally i outs = (Z.of_nat (length (failures outs)), report i outs).
Proof.
  revert i. induction outs as [|r outs IH]; intros i; [done|].
  cbn [tally]. rewrite IH, report_cons. unfold failures. rewrite filter_cons. f_equal.
  - destruct (out_err r) as [e|]; [rewrite decide_True by eauto; simpl; lia|].
    rewrite decide_False; [done|]. by intros [? ?].
  - by case_bool_decide.
Qed.

Lemma no_failures outs : (Z.of_nat (length (failures outs)) <= 0)%Z ↔ Forall (λ r, out_err r = None) outs.
Proof.
  unfold failures. induction outs as [|r outs IH]; [done|]. rewrite filter_cons, Forall_cons, <- IH.
  destruct (out_err r); [rewrite decide_True by eauto; simpl; split; [lia|by intros [? _]]|].
  rewrite decide_False by (by intros [? ?]). tauto.
Qed.

Section Distribute.
Context {St Mc : Type}.
Context {st_ops : Store St} {st_laws : StoreLaws St}.
Context {slices : TaskSlices St} {slice_laws : TaskSliceLaws St}.
Context {mc_ops : Client Mc} {mc_laws : ClientLaws Mc} {quoting : FmtQuote}.
Context (now_at : nat → Time) (unicode_lower : string → string) (o : Orchestrator).
Abbreviation D := (Data St Mc).
Implicit Types (d : D).

(** ** Before the pool *)
Definition pending_subtask (newID : string) (i : nat) (spec : SubtaskSpec) : Subtask :=
  mkSubtask (newID +:+ "-" +:+ pretty i) (Spec_AgentID spec) (Spec_Description spec)
    SubtaskStatusPending RawEmpty.

(** What [prepare] leaves: the stored task and its fresh arrays. *)
Record prepared (tenant newID text : string) (v : taskVar) (specs : list SubtaskSpec) d d1 : Prop := {
  pr_tenant : Task_TenantID (tv_task v) = tenant;
  pr_id : Task_ID (tv_task v) = newID;
  pr_input : Task_Input (tv_task v) = text;
  pr_shared : tv_shared v = true;
  pr_specs : ∃ agents, listing keep_all (less_by Agent_Name) tenant (vw_agents (view (d_store d))) agents ∧
    specs = Decompose unicode_lower text agents;
  pr_present : present tenant newID d1;
  pr_subtasks : d_subtasks d1 = imap (pending_subtask newID) specs;
  pr_results : d_results d1 = replicate (length specs) zero_outcome;
  pr_sync : d_sem d1 = 0%Z ∧ d_wg d1 = 0%Z
}.

Lemma create_runs (x : Task) (s : St) :
  let r := store_exec (OpCreateTask x) s in
  if decide (Task_ID x ≠ "" ∧ vw_tasks (view s) !! (Task_TenantID x, Task_ID x) = None)
  then r.1 = Ok x ∧ vw_tasks (view r.2) = <[(Task_TenantID x, Task_ID x) := x]> (vw_tasks (view s))
  else ∃ e, r.1 = Err e.
Proof.
  intros r. pose proof (exec_spec (OpCreateTask x) s) as H.
  unfold spec, does, zoom, sp_create in H. subst r.
  destruct (store_exec (OpCreateTask x) s) as [r s']. simpl in *.
  case_decide as E; [rewrite decide_False by tauto; naive_solver|].
  destruct (vw_tasks (view s) !! _) eqn:El.
  - rewrite decide_False by (intros [? ?]; congruence). injection H as <- _. eauto.
  - rewrite decide_True by done. injection H as <- <-. done.
Qed.

Lemma list_agents_runs t (s : St) :
  ∃ l s', store_exec (OpListAgents t) s = (Ok l, s') ∧ view s' = view s ∧
    listing keep_all (less_by Agent_Name) t (vw_agents (view s)) l.
Proof.
  pose proof (exec_spec (OpListAgents t) s) as H. unfold spec, reads in H.
  destruct (store_exec _ s) as [r s']. simpl in H. destruct H as (? & l & -> & ?). eauto.
Qed.

Lemma store_task_eq (op : Task → StoreOp Task) v d :
  store_task op v d =
    let r := store_exec (op (deref d v)) (d_store d) in
    (x ← r.1; Ok (mkTaskVar x (tv_shared v)), set_store r.2 d).
Proof.
  unfold store_task, mbind, M_bind, mget, in_store. simpl.
  by destruct (store_exec _ _) as [[] s].
Qed.

Lemma prepare_cases ct newID text d :
  let tenant := tenantFromCtx ct in
  if decide (newID ≠ "" ∧ vw_tasks (view (d_store d)) !! (tenant, newID) = None)
  then ∃ v specs d1, prepare now_at unicode_lower ct newID text d = (Ok (v, specs), d1) ∧
         prepared tenant newID text v specs d d1
  else ∃ e d1, prepare now_at unicode_lower ct newID text d = (Err e, d1).
Proof.
  intros tenant. unfold prepare. fold tenant.
  destruct (list_agents_runs tenant (d_store d)) as (agents & s1 & Hl & Hv & Hlist).
  rewrite (bind_ok (in_store (OpListAgents tenant)) _ _ (set_store s1 d) agents)
    by (unfold in_store; by rewrite Hl).
  set (specs := Decompose unicode_lower text agents).
  unfold mbind, M_bind, now, mmodify, mret, M_ret, mtry.
  rewrite !store_task_eq. cbv zeta. set (subs := imap _ specs). unfold deref. simpl tv_shared. simpl tv_task.
  match goal with |- context [store_exec (OpCreateTask ?y) _] => set (x := y) end.
  simpl d_store. pose proof (create_runs x s1) as Hc. rewrite Hv in Hc. simpl in Hc.
  destruct (store_exec (OpCreateTask x) s1) as [r s2]. simpl in Hc.
  case_decide as Hd; cycle 1.
  { destruct Hc as [e ->]. by do 2 eexists. }
  destruct Hc as [-> Hv2]. simpl. rewrite store_task_eq. unfold deref. simpl.
  match goal with |- context [store_exec (OpUpdateTask ?y) _] => set (z := y) end.
  destruct (update_stored tenant newID z s2) as (s3 & Hu & Hv3); [done..| |].
  { rewrite Hv2, lookup_insert_eq. eauto. }
  rewrite Hu. simpl. do 3 eexists. split; [done|]. constructor; try done.
  - by exists agents.
  - unfold present. simpl. rewrite Hv3. simpl. rewrite lookup_insert_eq. eauto.
Qed.

Lemma prepared_by ct newID text d v specs d1 :
  prepare now_at unicode_lower ct newID text d = (Ok (v, specs), d1) →
  prepared (tenantFromCtx ct) newID text v specs d d1.
Proof.
  intros H. pose proof (prepare_cases ct newID text d) as Hc. cbv zeta in Hc. case_decide.
  - destruct Hc as (v' & specs' & d1' & Hc & Hp). rewrite H in Hc. by injection Hc as <- <- <-.
  - destruct Hc as (e & d1' & Hc). congruence.
Qed.

Lemma tenant_known ct : tenantFromCtx ct ≠ "".
Proof. unfold tenantFromCtx. by case_bool_decide. Qed.

(** The pool starts in order. *)
Lemma pool_start_ok ct newID text v specs d d1 :
  (1 ≤ o_workers o)%Z → prepared (tenantFromCtx ct) newID text v specs d d1 →
  pool_ok o v specs (d_subtasks d1) (start d1).
Proof.
  intros Hw []. destruct pr_sync0 as [Es Eg]. subst newID. constructor; simpl.
  - by rewrite pr_subtasks0, length_imap.
  - by rewrite pr_results0, length_replicate.
  - by rewrite pr_tenant0.
  - constructor.
  - intros n j g H. by rewrite lookup_nil in H.
  - lia.
  - intros n j g H. by rewrite lookup_nil in H.
  - done.
  - done.
  - lia.
  - by rewrite Eg.
  - lia.
Qed.

(** ** After the pool *)
Definition final_status (outs : list subtaskOutcome) (ctx : option error) : TaskStatus :=
  if bool_decide (Forall (λ r, out_err r = None) outs ∧ ctx = None)
  then TaskStatusSuccess else TaskStatusFailed.

Definition final_result (outs : list subtaskOutcome) (ctx : option error) : RawMessage :=
  let failed := Z.of_nat (length (failures outs)) in
  let lines := report 0 outs ++ match ctx with Some e => ["context: " +:+ error_text e] | None => [] end in
  marshal_or_nil (VMap {[
    "subtasks_completed" := VInt (Z.of_nat (length outs) - failed);
    "subtasks_failed" := VInt failed;
    "results" := VList (VString <$> lines) ]}).

Lemma sorted_results outs :
  (∀ j out, outs !! j = Some out → out_index out = Z.of_nat j) →
  sort_slice (λ a b, out_index a <? out_index b)%Z outs = outs.
Proof.
  intros H. apply sort_slice_id.
  assert (Hk : ∀ k l, (∀ j out, l !! j = Some out → out_index out = Z.of_nat (k + j)) →
    StronglySorted (in_order (λ a b, out_index a <? out_index b)%Z) l).
  { intros k l. revert k. induction l as [|x l IH]; intros k Hl; constructor.
    - apply (IH (S k)). intros j out Hj. rewrite (Hl (S j) out Hj). lia.
    - apply list.Forall_forall. intros y [j Hj]%list_elem_of_lookup_1. unfold in_order.
      apply Z.ltb_ge. rewrite (Hl 0 x eq_refl), (Hl (S j) y Hj). lia. }
  by apply (Hk 0).
Qed.

Lemma finalize_runs v d task d2 t id :
  own_task t id v → present t id d →
  (∀ j out, d_results d !! j = Some out → out_index out = Z.of_nat j) →
  finalize now_at v d = (Ok task, d2) →
  Task_ID task = id ∧ Task_TenantID task = t ∧ Task_Input task = Task_Input (tv_task v) ∧
  Task_Subtasks task = d_subtasks d ∧
  Task_Status task = final_status (d_results d) (d_ctx d) ∧
  Task_Result task = final_result (d_results d) (d_ctx d) ∧
  vw_tasks (view (d_store d2)) !! (t, id) = Some task ∧ d_ctx d2 = d_ctx d.
Proof.
  intros (Hsh & Ht & Hi) Hp Hidx H. unfold finalize in H.
  unfold mbind, M_bind, mget, now, mtry, mret, M_ret in H. simpl in H.
  rewrite (sorted_results _ Hidx), tally_spec in H. rewrite store_task_eq in H.
  unfold deref in H. simpl in H. rewrite Hsh in H. simpl in H.
  match type of H with context [store_exec (OpUpdateTask ?y) _] => set (x := y) in H end.
  destruct (update_stored t id x (d_store d)) as (s' & Hu & Hv); [done..|].
  rewrite Hu in H. simpl in H. injection H as <- <-. simpl. split_and!; try done.
  - unfold final_status. case_match eqn:Eb; bool_to_prop.
    + rewrite bool_decide_eq_false_2; [done|]. intros [Hf%no_failures Hc]. rewrite Hc in Eb.
      apply orb_true_iff in Eb as [?%Z.ltb_lt|Eb]; [lia|].
      rewrite bool_decide_eq_true in Eb. by destruct Eb.
    + rewrite bool_decide_eq_true_2; [done|]. split; [apply no_failures; lia|].
      by apply eq_None_not_Some.
  - unfold final_result. destruct (d_ctx d); [done|]. by rewrite app_nil_r.
  - rewrite Hv. simpl. by rewrite lookup_insert_eq.
Qed.

(** ** The theorems *)

(** A subtask of the task that is returned, against its outcome: done with
    the text of its outcome; failed, with the text so far; or never started,
    because the context was over, and still pending. *)
Definition subtask_matches (newID : string) (ctx : option error) (j : nat) (spec : SubtaskSpec)
    (out : subtaskOutcome) (sub : Subtask) : Prop :=
  Subtask_ID sub = newID +:+ "-" +:+ pretty j ∧ Subtask_AgentID sub = Spec_AgentID spec ∧
  Subtask_Description sub = Spec_Description spec ∧
  let closed := Subtask_Result sub = marshal_or_nil (VString (out_result out)) in
  match out_err out with
  | None => Subtask_Status sub = SubtaskStatusSuccess ∧ closed
  | Some e =>
      Subtask_Status sub = SubtaskStatusFailed ∧ closed ∨
      Subtask_Status sub = SubtaskStatusPending ∧ Subtask_Result sub = RawEmpty ∧
        out_result out = "" ∧ ctx = Some e
  end.

Lemma settled_matches newID specs subs j spec d :
  subs = imap (pending_subtask newID) specs → specs !! j = Some spec → settled subs j d →
  ∃ out sub, d_results d !! j = Some out ∧ d_subtasks d !! j = Some sub ∧
    out_index out = Z.of_nat j ∧ subtask_matches newID (d_ctx d) j spec out sub.
Proof.
  intros -> Hj (sub & out & sub' & Hs & Hr & Hs' & Hidx & Hc).
  rewrite list_lookup_imap, Hj in Hs. injection Hs as <-.
  exists out, sub'. split_and!; [done..|].
  destruct Hc as [->|(-> & e & He & ->)]; unfold subtask_matches; simpl.
  - split_and!; [done..|]. destruct (out_err out); [by left|done].
  - split_and!; [done..|]. by right.
Qed.

(** The invariant holds all along. *)
Lemma pool_reached ct newID text v specs d d1 m :
  (1 ≤ o_workers o)%Z → prepared (tenantFromCtx ct) newID text v specs d d1 →
  rtc (machine_step now_at o v specs) (start d1) m → pool_ok o v specs (d_subtasks d1) m.
Proof.
  intros Hw Hp Hr. eapply machine_run_ok; [| | |exact Hr|by eapply pool_start_ok].
  - rewrite (pr_tenant _ _ _ _ _ _ _ Hp). apply tenant_known.
  - apply (pr_shared _ _ _ _ _ _ _ Hp).
  - by rewrite (pr_subtasks _ _ _ _ _ _ _ Hp), length_imap.
Qed.

(** What the run of the pool has done when it is over. *)
Lemma pool_end ct newID text v specs d d1 ps d' :
  (1 ≤ o_workers o)%Z → prepared (tenantFromCtx ct) newID text v specs d d1 →
  rtc (machine_step now_at o v specs) (start d1) (mkMachine Finished ps d') →
  pool_ok o v specs (d_subtasks d1) (mkMachine Finished ps d') ∧
  ∀ j, j < length specs → settled (d_subtasks d1) j d'.
Proof.
  intros Hw Hp Hr. assert (Hok : pool_ok o v specs (d_subtasks d1) (mkMachine Finished ps d')).
  { by eapply pool_reached. }
  split; [done|]. destruct Hok as [? ? ? ? ? Hb Hg ? ? ? Hwg Hz]. simpl in *. intros j Hj.
  destruct (Hb j Hj) as [Hin|?]; [|done].
  apply list_elem_of_fmap in Hin as ([j' g] & Hj' & Hin). simpl in Hj'. subst j'.
  apply list_elem_of_lookup_1 in Hin as [n Hn]. specialize (Hg _ _ _ Hn).
  assert (E : weigh live ps = 0) by lia. pose proof (weigh_zero live ps n j g E Hn) as E'.
  by destruct g.
Qed.

Lemma distributes_outcome ct newID text d task d2
    (Hw : (1 ≤ o_workers o)%Z)
    (Hrun : distributes now_at unicode_lower o ct newID text d task d2) :
  let tenant := tenantFromCtx ct in
  Task_ID task = newID ∧ Task_TenantID task = tenant ∧ Task_Input task = text ∧
  vw_tasks (view (d_store d2)) !! (tenant, newID) = Some task ∧
  ∃ agents outs,
    listing keep_all (less_by Agent_Name) tenant (vw_agents (view (d_store d))) agents ∧
    let specs := Decompose unicode_lower text agents in
    length outs = length specs ∧ length (Task_Subtasks task) = length specs ∧
    (∀ j spec, specs !! j = Some spec →
       ∃ out sub, outs !! j = Some out ∧ Task_Subtasks task !! j = Some sub ∧
         subtask_matches newID (d_ctx d2) j spec out sub) ∧
    Task_Status task = final_status outs (d_ctx d2) ∧
    Task_Result task = final_result outs (d_ctx d2).
Proof.
  intros tenant. destruct Hrun as [v specs d1 ps d' task d2 Hp%prepared_by Hr Hf].
  destruct (pool_end _ _ _ _ _ _ _ _ _ Hw Hp Hr) as [Hok Hset].
  destruct Hp as [Ht Hi Hin Hsh (agents & Hl & Hspecs) _ Hsubs _ _].
  assert (Hm : ∀ j spec, specs !! j = Some spec → ∃ out sub, d_results d' !! j = Some out ∧
    d_subtasks d' !! j = Some sub ∧ out_index out = Z.of_nat j ∧
    subtask_matches newID (d_ctx d') j spec out sub).
  { intros j spec Hj. eapply settled_matches; [done..|]. apply Hset. by eapply lookup_lt_Some. }
  destruct Hok as [Hls Hlr Hpres _ _ _ _ _ _ _ _ _]. simpl in *. rewrite Ht, Hi in Hpres.
  destruct (finalize_runs v d' task d2 tenant newID) as (-> & -> & -> & -> & -> & -> & -> & ->); try done.
  { intros j out Hj. destruct (lookup_lt_is_Some_2 specs j) as [spec Hspec].
    { rewrite <- Hlr. by eapply lookup_lt_Some. }
    destruct (Hm j spec Hspec) as (out' & _ & E & _ & ? & _). by simplify_eq. }
  split_and!; [done..|]. exists agents, (d_results d'). subst specs.
  split_and!; [done..| |done|done].
  intros j spec Hj. destruct (Hm j spec Hj) as (out & sub & ? & ? & _ & ?). eauto.
Qed.

(** C5: Whatever the interleaving of the goroutines and of the rest of the
    program, the task that [Distribute] returns is the one the store holds at
    that moment, with the identifier, tenant and text it was made for, and
    with one subtask for every part of the decomposition, in order: each is
    done, failed, or still pending because the context was over, as its
    outcome says, and carries that outcome's text. The task is a success
    exactly when no subtask has an error and the context is live; otherwise
    it is failed; and its result counts the outcomes and lists their texts in
    the order of the subtasks. *)
Theorem Distribute_outcome ct newID text d task d2
    (Hw : (1 ≤ o_workers o)%Z)
    (Hrun : distributes now_at unicode_lower o ct newID text d task d2) :
  let tenant := tenantFromCtx ct in
  Task_ID task = newID ∧ Task_TenantID task = tenant ∧ Task_Input task = text ∧
  vw_tasks (view (d_store d2)) !! (tenant, newID) = Some task ∧
  ∃ agents outs,
    listing keep_all (less_by Agent_Name) tenant (vw_agents (view (d_store d))) agents ∧
    let specs := Decompose unicode_lower text agents in
    length outs = length specs ∧ length (Task_Subtasks task) = length specs ∧
    (∀ j spec, specs !! j = Some spec →
       ∃ out sub, outs !! j = Some out ∧ Task_Subtasks task !! j = Some sub ∧
         subtask_matches newID (d_ctx d2) j spec out sub) ∧
    Task_Status task = final_status outs (d_ctx d2) ∧
    Task_Result task = final_result outs (d_ctx d2).
Proof. by apply distributes_outcome. Qed.

(** The two ways to write a run. *)
Lemma runs_rtc v specs n m m' :
  runs now_at o v specs n m m' → rtc (machine_step now_at o v specs) m m'.
Proof.
  induction 1 as [m|n m m1 m2 H _ IH|n c ps d d' m2 H _ IH]; [done| |];
    (eapply rtc_l; [|exact IH]); by constructor.
Qed.

(** C20: The loop of [execute] and its goroutines never block for good and
    never panic, and they end: from the call on, in every run and whatever
    the rest of the program does in between, the program has done at most
    [4 * skills + 14] steps per subtask and two more, and as long as
    [execute] has not returned it can do another one. *)
Theorem execute_terminates ct newID text d v specs d1 n m
    (Hw : (1 ≤ o_workers o)%Z)
    (Hp : prepare now_at unicode_lower ct newID text d = (Ok (v, specs), d1))
    (Hr : runs now_at o v specs n (start d1) m) :
  n ≤ sum_list_with (λ s, 4 * length (Spec_Skills s) + 14) specs + 2 ∧
  (pc m ≠ Finished → ∃ m', own_step now_at o v specs m m').
Proof.
  apply prepared_by in Hp. split.
  - eapply runs_fits; [exact Hr|]. exists []. split; [constructor|]. simpl.
    unfold loop_cost, subtask_cost. rewrite drop_0, Nat.add_0_r. f_equal.
    clear. induction specs as [|s l IH]; [done|]. cbn [sum_list_with]. rewrite <- IH. lia.
  - intros Hpc. eapply own_progress; [|done|done]. eapply pool_reached; [done|done|by eapply runs_rtc].
Qed.

(** In its call of [runSubtask], or about to give its slot back. *)
Definition working (g : @goroutine St Mc) : bool :=
  match g with Running _ | Releasing => true | _ => false end.

(** Its deferred [wg.Done] has not run. *)
Definition awaited (g : @goroutine St Mc) : bool := match g with Exited => false | _ => true end.

Definition counted (f : @goroutine St Mc → bool) (m : machine) : Z :=
  Z.of_nat (length (filter (λ p, f p.2 = true) (pool m))).

(** Between its [wg.Add] and its [go] the loop is waited for too. *)
Definition adding (c : main_pc) : Z := match c with Acquire _ => 1 | _ => 0 end.

Lemma weigh_counted (f : @goroutine St Mc → bool) (w : @goroutine St Mc → nat) m :
  (∀ g, w g = if f g then 1 else 0) → counted f m = Z.of_nat (weigh w (pool m)).
Proof.
  intros Hf. unfold counted, weigh. f_equal. induction (pool m) as [|[i g] l IH]; [done|].
  rewrite filter_cons. simpl. rewrite Hf, <- IH. by destruct (f g).
Qed.

(** C19: At every moment of a run the semaphore holds exactly one slot for each
    goroutine that works on a subtask or is about to give its slot back, and
    never more than the pool has workers; the wait group counts exactly the
    goroutines that have not signalled their end, and the one that the loop
    is about to start; no subtask is worked on by two goroutines. When
    [execute] returns, every goroutine has ended and the semaphore is empty. *)
Theorem execute_pool_bounded ct newID text d v specs d1 n m
    (Hw : (1 ≤ o_workers o)%Z)
    (Hp : prepare now_at unicode_lower ct newID text d = (Ok (v, specs), d1))
    (Hr : runs now_at o v specs n (start d1) m) :
  d_sem (data m) = counted working m ∧ (d_sem (data m) ≤ o_workers o)%Z ∧
  d_wg (data m) = (counted awaited m + adding (pc m))%Z ∧
  NoDup (pool m).*1 ∧
  (pc m = Finished → Forall (λ p, p.2 = Exited) (pool m) ∧ d_sem (data m) = 0%Z).
Proof.
  apply prepared_by in Hp.
  assert (Hok : pool_ok o v specs (d_subtasks d1) m).
  { eapply pool_reached; [done|done|by eapply runs_rtc]. }
  rewrite (weigh_counted working slot), (weigh_counted awaited live) by by intros [].
  split_and!; [apply (p_sem _ _ _ _ _ Hok)|apply (p_workers _ _ _ _ _ Hok)|apply (p_wg _ _ _ _ _ Hok)
    |apply (p_nodup _ _ _ _ _ Hok)|].
  intros E. pose proof (p_pc _ _ _ _ _ Hok) as Hz. pose proof (p_wg _ _ _ _ _ Hok) as Hg. rewrite E in Hz, Hg.
  simpl in Hz, Hg. assert (Hx : Forall (λ p, p.2 = Exited) (pool m)).
  { apply Forall_lookup. intros k [i g] Hk. assert (Hl : weigh live (pool m) = 0) by lia.
    pose proof (weigh_zero _ _ _ _ _ Hl Hk). by destruct g. }
  split; [done|]. rewrite (p_sem _ _ _ _ _ Hok). unfold weigh. clear -Hx.
  induction Hx as [|[i g] l E _ IH]; [done|]. simpl in *. by rewrite E.
Qed.

(** A call ends when the identifier is new to the store. *)
Lemma finalize_total v d t id :
  own_task t id v → present t id d →
  (∀ j out, d_results d !! j = Some out → out_index out = Z.of_nat j) →
  ∃ task d2, finalize now_at v d = (Ok task, d2).
Proof.
  intros (Hsh & Ht & Hi) Hp Hidx. unfold finalize.
  unfold mbind, M_bind, mget, now, mtry, mret, M_ret. simpl.
  rewrite (sorted_results _ Hidx), tally_spec, store_task_eq. unfold deref. simpl. rewrite Hsh. simpl.
  match goal with |- context [store_exec (OpUpdateTask ?y) _] => set (x := y) end.
  destruct (update_stored t id x (d_store d)) as (s' & Hu & _); [done..|]. rewrite Hu. by do 2 eexists.
Qed.

Lemma distributes_exists ct newID text d :
  (1 ≤ o_workers o)%Z → newID ≠ "" →
  vw_tasks (view (d_store d)) !! (tenantFromCtx ct, newID) = None →
  ∃ task d2, distributes now_at unicode_lower o ct newID text d task d2.
Proof.
  intros Hw Hne Hfree. pose proof (prepare_cases ct newID text d) as Hc. cbv zeta in Hc.
  rewrite decide_True in Hc by done. destruct Hc as (v & specs & d1 & Hprep & Hp).
  destruct (run_to_end now_at o v specs (d_subtasks d1) (start d1) (loop_cost specs + 2))
    as (ps & d' & Hr); [| | |by eapply pool_start_ok| |done|].
  - rewrite (pr_tenant _ _ _ _ _ _ _ Hp). apply tenant_known.
  - apply (pr_shared _ _ _ _ _ _ _ Hp).
  - by rewrite (pr_subtasks _ _ _ _ _ _ _ Hp), length_imap.
  - exists []. split; [constructor|]. simpl. by rewrite drop_0, Nat.add_0_r.
  - destruct (pool_end _ _ _ _ _ _ _ _ _ Hw Hp Hr) as [Hok Hset].
    destruct (finalize_total v d' (Task_TenantID (tv_task v)) (Task_ID (tv_task v)))
      as (task & d2 & Hf).
    + by split_and!; [apply (pr_shared _ _ _ _ _ _ _ Hp)| |].
    + apply (p_present _ _ _ _ _ Hok).
    + intros j out Hj. destruct (Hset j) as (? & out' & ? & _ & E & _ & ? & _); [|by simplify_eq].
      pose proof (p_results _ _ _ _ _ Hok) as E. simpl in E. rewrite <- E. by eapply lookup_lt_Some.
    + exists task, d2. by eapply distributes_intro.
Qed.

(** A call of [Distribute] with an identifier that is new to the store
    can always run to its end. *)
Theorem Distribute_returns ct newID text d
    (Hw : (1 ≤ o_workers o)%Z) (Hne : newID ≠ "")
    (Hfree : vw_tasks (view (d_store d)) !! (tenantFromCtx ct, newID) = None) :
  ∃ task d2, distributes now_at unicode_lower o ct newID text d task d2.
Proof. by apply distributes_exists. Qed.
End Distribute.

(** ** The in-memory store *)
#[export] Instance Memory_TaskSliceLaws (order : MapOrder) :
  TaskSliceLaws Memory (H := Memory_Store order).
Proof.
  constructor. intros t i l m. simpl. right. unfold view_memory, touch, Memory_TaskSlices, up_tasks.
  simpl. f_equal. apply map_eq. intros [t' i']. rewrite flat_lookup.
  destruct (decide ((t', i') = (t, i))) as [[= -> ->]|Hne].
  - rewrite lookup_alter_eq, flat_lookup. unfold tenant_of. rewrite lookup_alter_eq.
    destruct (tasks m !! t); simpl; [by rewrite lookup_alter_eq|by rewrite !lookup_empty].
  - rewrite lookup_alter_ne, flat_lookup by congruence. unfold tenant_of.
    destruct (decide (t' = t)) as [->|Ht]; [|by rewrite lookup_alter_ne].
    rewrite lookup_alter_eq. destruct (tasks m !! t); simpl; [|done].
    rewrite lookup_alter_ne; [done|congruence].
Qed.

(** ** Witnesses: an agent with one skill on one server *)
Definition demo_store : Memory :=
  set_servers {[ "default" := {[ "s1" := mkMcpServer "s1" "default" "echo"
      (RawDoc (JObj [("type", JStr "stdio")])) true "connected" 0%Z 0%Z ]} ]}
    (set_agents {[ "default" := {[ "a" := mkAgent "a" "default" "A" "" ""
        [mkSkill "report" "s1" "run"] true 0%Z 0%Z ]} ]} NewMemoryStore).

Definition demo_data : Data Memory MockClient :=
  mkData demo_store NewMockClient None ∅ [] [] 0 0 0.

Definition demo_handler (server : Transport) (name : string) (args : gmap string value)
    : outcome string := Ok name.

Definition demo_client : Client MockClient := Mock_Client (Some demo_handler) (λ _, EmptyString).

Lemma demo_laws : ClientLaws MockClient (H := demo_client).
Proof. by apply Mock_ClientLaws. Qed.

Definition demo_order : MapOrder := sorted_order.
Definition demo_distributes := distributes (st_ops := Memory_Store demo_order) (mc_ops := demo_client)
  (quoting := plain_quote) Z.of_nat id (New []) "" "n1" "the report" demo_data.
Definition demo_prepare := prepare (st_ops := Memory_Store demo_order) (Mc := MockClient)
  Z.of_nat id "" "n1" "the report" demo_data.

Lemma demo_free : vw_tasks (view_memory demo_store) !! ("default", "n1") = None.
Proof. done. Qed.

Lemma Distribute_outcome_witness :
  ∃ task d2, demo_distributes task d2 ∧
    vw_tasks (view_memory (d_store d2)) !! ("default", "n1") = Some task.
Proof.
  pose proof demo_laws as Hl.
  destruct (distributes_exists (st_ops := Memory_Store demo_order) (mc_ops := demo_client)
    (quoting := plain_quote) Z.of_nat id (New []) "" "n1" "the report" demo_data)
    as (task & d2 & Hr); [by vm_compute|done|exact demo_free|].
  exists task, d2. split; [exact Hr|].
  refine (proj1 (proj2 (proj2 (proj2 (Distribute_outcome (st_ops := Memory_Store demo_order)
    (mc_ops := demo_client) (quoting := plain_quote) Z.of_nat id (New []) "" "n1" "the report"
    demo_data task d2 _ Hr))))). by vm_compute.
Defined.

Lemma Distribute_returns_witness :
  ∃ task d2, demo_distributes task d2.
Proof.
  pose proof demo_laws as Hl.
  apply (Distribute_returns (st_ops := Memory_Store demo_order) (mc_ops := demo_client)
    (quoting := plain_quote)); [by vm_compute|done|exact demo_free].
Defined.

(** Two steps into the run, with one goroutine in the pool. *)
Lemma demo_started :
  ∃ v specs d1 i g d', demo_prepare = (Ok (v, specs), d1) ∧
    runs (st_ops := Memory_Store demo_order) (mc_ops := demo_client) Z.of_nat (New []) v specs
      2 (start d1) (mkMachine (Loop 1) [(i, g)] d').
Proof.
  assert (H : ∃ v spec d1, demo_prepare = (Ok (v, [spec]), d1) ∧ d_ctx d1 = None ∧ d_sem d1 = 0%Z).
  { do 3 eexists. split_and!; vm_compute; reflexivity. }
  destruct H as (v & spec & d1 & Hp & Hc & Hs). exists v, [spec], d1. do 3 eexists.
  split; [exact Hp|].
  eapply runs_own; [apply own_main, main_live; [simpl; lia|done]|].
  eapply runs_own; [apply own_main, main_spawn; [done|simpl; rewrite Hs; by vm_compute]|].
  constructor.
Qed.

Lemma execute_terminates_witness :
  ∃ v specs (d1 : Data Memory MockClient), demo_prepare = (Ok (v, specs), d1) ∧
    2 ≤ sum_list_with (λ s, 4 * length (Spec_Skills s) + 14) specs + 2.
Proof.
  pose proof demo_laws as Hl. destruct demo_started as (v & specs & d1 & i & g & d' & Hp & Hr).
  exists v, specs, d1. split; [exact Hp|].
  refine (proj1 (execute_terminates (st_ops := Memory_Store demo_order) (mc_ops := demo_client)
    Z.of_nat id (New []) "" "n1" "the report" demo_data v specs d1 2 _ _ Hp Hr)).
  by vm_compute.
Defined.

Lemma execute_pool_bounded_witness :
  ∃ (i : nat) (g : @goroutine Memory MockClient) (d' : Data Memory MockClient),
    d_sem d' = counted working (mkMachine (Loop 1) [(i, g)] d') ∧ (d_sem d' ≤ 4)%Z.
Proof.
  pose proof demo_laws as Hl. destruct demo_started as (v & specs & d1 & i & g & d' & Hp & Hr).
  destruct (execute_pool_bounded (st_ops := Memory_Store demo_order) (mc_ops := demo_client)
    Z.of_nat id (New []) "" "n1" "the report" demo_data v specs d1 2 _ ltac:(by vm_compute) Hp Hr) as (Hs & Hle & _).
  exists i, g, d'. split; [exact Hs|exact Hle].
Defined.
