(* ===== verification/Config.v ===== *)
(** * Configuration (internal/config, internal/logging, NewServer)

    The environment is a partial map from names to texts.  The parsers of
    strconv and time that the code calls are written out, with their bounds:
    an integer outside the 64 bits and a duration of more than 2^63-1
    nanoseconds are errors, and an error means the default. *)
From Stdlib Require Import Ascii.
From S2P Require Import Prelude GoStr GoValue History Mcp Decomposer Threads Orchestrator Auth.

Definition env : Type := string → option string.

Definition min_int64 : Z := (- 2 ^ 63)%Z.
Definition max_int64 : Z := (2 ^ 63 - 1)%Z.
Definition in_int64 (z : Z) : bool := (min_int64 <=? z)%Z && (z <=? max_int64)%Z.

(** ** strconv.Atoi: a sign, then decimal digits *)
Definition digit_val (c : ascii) : Z := (Z.of_nat (byte_val c) - 48)%Z.

Fixpoint digits_val (s : string) (acc : Z) : option Z :=
  match s with
  | EmptyString => Some acc
  | String c s' => if is_digit c then digits_val s' (acc * 10 + digit_val c)%Z else None
  end.

Definition signed (s : string) : bool * string :=
  match s with
  | String "-"%char s' => (true, s')
  | String "+"%char s' => (false, s')
  | _ => (false, s)
  end.

Definition Atoi (s : string) : option Z :=
  let '(neg, body) := signed s in
  if bool_decide (body = "") then None
  else
    n ← digits_val body 0;
    let z := if neg then (- n)%Z else n in
    if in_int64 z then Some z else None.

(** ** strconv.ParseBool *)
Definition ParseBool (s : string) : option bool :=
  if bool_decide (s ∈ ["1"; "t"; "T"; "TRUE"; "true"; "True"]) then Some true
  else if bool_decide (s ∈ ["0"; "f"; "F"; "FALSE"; "false"; "False"]) then Some false
  else None.

(** ** time.ParseDuration, in nanoseconds *)
Definition units : list (string * Z) :=
  [("ns", 1%Z); ("us", 1000%Z); (bytes [194; 181; 115], 1000%Z); (bytes [206; 188; 115], 1000%Z);
   ("ms", 1000000%Z); ("s", 1000000000%Z); ("m", (60 * 1000000000)%Z); ("h", (3600 * 1000000000)%Z)].

Definition unit_of (u : string) : option Z := (λ p, p.2.2) <$> list_find (λ p, p.1 = u) units.

(** [leadingInt]: [None] on overflow. *)
Fixpoint leadingInt (s : string) (x : Z) : option (Z * string) :=
  match s with
  | String c s' =>
      if is_digit c then
        if (2 ^ 63 / 10 <? x)%Z then None
        else
          let y := (x * 10 + digit_val c)%Z in
          if (2 ^ 63 <? y)%Z then None else leadingInt s' y
      else Some (x, s)
  | EmptyString => Some (x, s)
  end.

(** [leadingFraction]: the digits, the power of ten they are over, the rest;
    digits that do not fit are read and dropped. *)
Fixpoint leadingFraction (s : string) (x scale : Z) (overflow : bool) : Z * Z * string :=
  match s with
  | String c s' =>
      if is_digit c then
        if overflow then leadingFraction s' x scale true
        else if (max_int64 / 10 <? x)%Z then leadingFraction s' x scale true
        else
          let y := (x * 10 + digit_val c)%Z in
          if (2 ^ 63 <? y)%Z then leadingFraction s' x scale true
          else leadingFraction s' y (scale * 10)%Z false
      else (x, scale, s)
  | EmptyString => (x, scale, s)
  end.

(** The unit: up to the next digit or dot. *)
Fixpoint unit_name (s : string) : string * string :=
  match s with
  | String c s' =>
      if bool_decide (c = "."%char) || is_digit c then (EmptyString, s)
      else let '(u, r) := unit_name s' in (String c u, r)
  | EmptyString => (EmptyString, EmptyString)
  end.

(** [uint64(f)] for a float64 that is not negative, truncated. *)
Definition truncate (f : float64) : Z :=
  match f with
  | S754_finite _ m e => if (0 <=? e)%Z then (Zpos m * 2 ^ e)%Z else (Zpos m / 2 ^ (- e))%Z
  | _ => 0%Z
  end.

(** [float64(f) * (float64(unit) / scale)]; the powers of ten up to the
    nineteenth are the float64 nearest to them. *)
Definition fraction_of (f unit scale : Z) : Z :=
  truncate (SFmul 53 1024 (float_of_Z f) (SFdiv 53 1024 (float_of_Z unit) (float_of_Z scale))).

Definition starts_number (s : string) : bool :=
  match s with String c _ => bool_decide (c = "."%char) || is_digit c | EmptyString => false end.

(** One number with its unit, and the rest. *)
Definition duration_part (s : string) : option (Z * string) :=
  if negb (starts_number s) then None
  else
    '(v, s1) ← leadingInt s 0;
    let pre := negb (String.length s =? String.length s1) in
    let '(f, scale, s2, post) :=
      match s1 with
      | String "."%char r =>
          let '(f, scale, r') := leadingFraction r 0 1 false in
          (f, scale, r', negb (String.length r =? String.length r'))
      | _ => (0%Z, 1%Z, s1, false)
      end in
    if negb pre && negb post then None
    else
      let '(u, s3) := unit_name s2 in
      if bool_decide (u = "") then None
      else
        unit ← unit_of u;
        if (2 ^ 63 / unit <? v)%Z then None
        else
          let v' := (v * unit + (if (0 <? f)%Z then fraction_of f unit scale else 0))%Z in
          if (2 ^ 63 <? v')%Z then None else Some (v', s3).

(** The loop, over a 64-bit sum; every turn shortens the text. *)
Fixpoint duration_sum (fuel : nat) (s : string) (d : Z) : option Z :=
  if bool_decide (s = "") then Some d
  else match fuel with
  | 0 => None
  | S f =>
      '(v, s') ← duration_part s;
      let d' := ((d + v) mod 2 ^ 64)%Z in
      if (2 ^ 63 <? d')%Z then None else duration_sum f s' d'
  end.

(** [-Duration(d)] wraps for [d] = 2^63: the result is the least integer. *)
Definition ParseDuration (text : string) : option Z :=
  let '(neg, s) := signed text in
  if bool_decide (s = "0") then Some 0%Z
  else if bool_decide (s = "") then None
  else
    d ← duration_sum (String.length s) s 0;
    if neg then Some (- d)%Z
    else if (max_int64 <? d)%Z then None else Some d.

(** ** Reading the environment *)
Section Env.
Context (e : env).

Definition envStr (key fallback : string) : string :=
  match e key with
  | Some v => if bool_decide (v = "") then fallback else v
  | None => fallback
  end.

Definition env_parse {A} (parse : string → option A) (key : string) (fallback : A) : A :=
  match e key with
  | Some v => if bool_decide (v = "") then fallback else default fallback (parse v)
  | None => fallback
  end.

Definition envInt : string → Z → Z := env_parse Atoi.
Definition envBool : string → bool → bool := env_parse ParseBool.
Definition envDuration : string → Z → Z := env_parse ParseDuration.
End Env.

Definition Second : Z := 1000000000.
Definition Hour : Z := 3600 * Second.

Record Config := mkConfig {
  Port : Z;
  Host : string;
  DatabaseURL : string;
  JWTSecret : string;
  JWTExpiry : Z;
  LogLevel : string;
  Config_SeedOwnerUsername : string;
  Config_SeedOwnerPassword : string;
  UseMemoryStore : bool;
  TaskWorkerPool : Z;
  TaskTimeout : Z;
  DashboardHistoryCapacity : Z;
  DashboardHistoryInterval : Z
}.

Definition Load_config (e : env) : Config := {|
  Port := envInt e "PORT" 8080;
  Host := envStr e "HOST" "0.0.0.0";
  DatabaseURL := envStr e "DATABASE_URL" "";
  JWTSecret := envStr e "JWT_SECRET" "";
  JWTExpiry := envDuration e "JWT_EXPIRY" (24 * Hour);
  LogLevel := envStr e "LOG_LEVEL" "info";
  Config_SeedOwnerUsername := envStr e "SEED_OWNER_USERNAME" "admin";
  Config_SeedOwnerPassword := envStr e "SEED_OWNER_PASSWORD" "admin";
  UseMemoryStore := envBool e "USE_MEMORY_STORE" false;
  TaskWorkerPool := envInt e "TASK_WORKER_POOL" 4;
  TaskTimeout := envDuration e "TASK_TIMEOUT" (30 * Second);
  DashboardHistoryCapacity := envInt e "DASHBOARD_HISTORY_CAPACITY" 120;
  DashboardHistoryInterval := envDuration e "DASHBOARD_HISTORY_INTERVAL" (5 * Second)
|}.

Definition Config_Validate (c : Config) : option error :=
  if (Port c <? 1)%Z || (65535 <? Port c)%Z
  then Some (Errorf "config: PORT must be 1-65535, got %d" [FInt (Port c)])
  else if UseMemoryStore c then None
  else if bool_decide (DatabaseURL c = "")
  then Some (Errorf "config: DATABASE_URL is required unless USE_MEMORY_STORE=true" [])
  else if bool_decide (JWTSecret c = "")
  then Some (Errorf "config: JWT_SECRET is required" [])
  else None.

(** The level of the log (internal/logging). *)
Inductive Level := LevelDebug | LevelInfo | LevelWarn | LevelError.

Definition log_level (unicode_lower : string → string) (level : string) : Level :=
  let l := to_lower unicode_lower level in
  if bool_decide (l = "debug") then LevelDebug
  else if bool_decide (l = "warn") then LevelWarn
  else if bool_decide (l = "error") then LevelError
  else LevelInfo.

(** The components that NewServer (internal/api/router.go) configures. *)
Record Services := mkServices {
  srv_auth : Manager;
  srv_orchestrator : Orchestrator;
  srv_history : HistoryCollector
}.

Definition NewServer (c : Config) : outcome Services :=
  history ← NewHistoryCollector (DashboardHistoryCapacity c) (DashboardHistoryInterval c);
  Ok {|
    srv_auth := NewManager (JWTSecret c) (JWTExpiry c);
    srv_orchestrator := New [WithWorkers (TaskWorkerPool c); WithTimeout (TaskTimeout c)];
    srv_history := history
  |}.

(** ** Durations *)
Lemma leadingInt_length s x v s' : leadingInt s x = Some (v, s') → String.length s' ≤ String.length s.
Proof.
  revert x. induction s as [|c s IH]; intros x; simpl; [by intros [= _ <-]|].
  repeat case_if; try done; [intros H%IH; lia|by intros [= _ <-]].
Qed.

Lemma leadingFraction_length s x scale o f sc s' :
  leadingFraction s x scale o = (f, sc, s') → String.length s' ≤ String.length s.
Proof.
  revert x scale o. induction s as [|c s IH]; intros x scale o; simpl; [by intros [= _ _ <-]|].
  repeat case_if; try (intros H%IH; lia). by intros [= _ _ <-].
Qed.

Lemma unit_name_length s u r : unit_name s = (u, r) →
  String.length s = String.length u + String.length r.
Proof.
  revert u. induction s as [|c s IH]; intros u; simpl; [by intros [= <- <-]|].
  case_if; [by intros [= <- <-]|]. destruct (unit_name s) as [u' r'] eqn:Hu. intros [= <- <-].
  simpl. by rewrite (IH u' eq_refl).
Qed.

Lemma duration_part_shorter s v s' : duration_part s = Some (v, s') → String.length s' < String.length s.
Proof.
  unfold duration_part. case_if; [done|].
  destruct (leadingInt s 0) as [[x s1]|] eqn:Hint; [|done]. apply leadingInt_length in Hint. simpl.
  set (t := match s1 with String "."%char r => _ | _ => _ end).
  assert (Ht : String.length t.1.2 ≤ String.length s1).
  { unfold t. destruct s1 as [|c r]; [done|].
    destruct (decide (c = "."%char)) as [->|Hc].
    - destruct (leadingFraction r 0 1 false) as [[f sc] r'] eqn:Ef. apply leadingFraction_length in Ef. simpl. lia.
    - destruct c as [[] [] [] [] [] [] [] []]; done. }
  destruct t as [[[f sc] s2] post]. simpl in Ht. case_if; [done|].
  destruct (unit_name s2) as [u s3] eqn:Hun. apply unit_name_length in Hun. case_bool_decide as Hu; [done|].
  destruct (unit_of u) as [unit|]; [|done]. simpl. repeat case_if; try done; intros [= _ <-];
    (destruct u; [done|simpl in Hun; lia]).
Qed.

(** The length of the text is enough fuel. *)
Lemma duration_sum_fuel f s d : String.length s ≤ f → duration_sum f s d = duration_sum (String.length s) s d.
Proof.
  revert s d. induction f as [f IH] using lt_wf_ind. intros s d Hf.
  destruct s as [|c s]; [by destruct f|]. destruct f as [|f]; [simpl in Hf; lia|].
  cbn [duration_sum String.length]. case_bool_decide; [done|].
  destruct (duration_part (String c s)) as [[v s']|] eqn:E; [|done]. simpl.
  apply duration_part_shorter in E. simpl in *. case_if; [done|].
  rewrite (IH f), (IH (String.length s)); [done|lia..].
Qed.

Lemma duration_sum_bounds f s d r :
  duration_sum f s d = Some r → (0 ≤ d ≤ 2 ^ 63)%Z → (0 ≤ r ≤ 2 ^ 63)%Z.
Proof.
  revert s d. induction f as [|f IH]; intros s d; cbn [duration_sum]; case_bool_decide; try done.
  - by intros [= <-].
  - by intros [= <-].
  - destruct (duration_part s) as [[v s']|]; [|done]. cbn [mbind option_bind].
    destruct (Z.ltb_spec (2 ^ 63) ((d + v) mod 2 ^ 64)); [done|]. intros Hr _.
    apply (IH _ _ Hr). pose proof (Z.mod_pos_bound (d + v) (2 ^ 64)). lia.
Qed.

Lemma ParseDuration_in_int64 s d : ParseDuration s = Some d → in_int64 d = true.
Proof.
  unfold ParseDuration. destruct (signed s) as [neg body]. case_bool_decide; [by intros [= <-]|].
  case_bool_decide; [done|]. destruct (duration_sum _ _ _) as [r|] eqn:E; [|done]. cbn [mbind option_bind].
  apply duration_sum_bounds in E; [|lia]. unfold in_int64, min_int64, max_int64.
  destruct neg; [|destruct (Z.ltb_spec (2 ^ 63 - 1) r); [done|]]; intros [= <-];
    apply andb_true_intro; rewrite !Z.leb_le; lia.
Qed.

Lemma Atoi_in_int64 s z : Atoi s = Some z → in_int64 z = true.
Proof.
  unfold Atoi. destruct (signed s) as [neg body]. case_bool_decide; [done|].
  destruct (digits_val body 0) as [n|]; [|done]. cbn [mbind option_bind]. case_if; [by intros [= <-]|done].
Qed.

Lemma env_parse_in e (parse : string → option Z) key z :
  (∀ s z, parse s = Some z → in_int64 z = true) → in_int64 z = true → in_int64 (env_parse e parse key z) = true.
Proof.
  intros Hp Hz. unfold env_parse. destruct (e key) as [v|]; [|done]. case_bool_decide; [done|].
  destruct (parse v) eqn:E; simpl; [by eapply Hp|done].
Qed.

Lemma New_workers opts : (1 ≤ o_workers (New opts))%Z.
Proof.
  unfold New. cbv zeta. set (o := foldl _ _ _). destruct (Z.ltb_spec (o_workers o) 1); [|done].
  change (o_workers (mkOrchestrator 1 (o_timeout o))) with 1%Z. done.
Qed.

Lemma new_ring_settings cap every :
  capacity (new_ring cap every) = Z.max 1 cap ∧ (0 < interval (new_ring cap every))%Z.
Proof.
  simpl. destruct (Z.ltb_spec cap 1), (Z.leb_spec every 0); lia.
Qed.

Example duration_examples :
  ParseDuration "1h30m" = Some (5400 * Second)%Z ∧ ParseDuration "1.5s" = Some 1500000000%Z ∧
  ParseDuration "-.5ms" = Some (-500000)%Z ∧ ParseDuration "24" = None ∧ ParseDuration "0" = Some 0%Z ∧
  ParseDuration "9223372036854775807ns" = Some max_int64 ∧ ParseDuration "9223372036854775808ns" = None.
Proof. split_and!; vm_compute; reflexivity. Qed.

Lemma NewServer_outcome c : (∃ sv, NewServer c = Ok sv) ∨ NewServer c = Panic makeslice_panic.
Proof.
  unfold NewServer, NewHistoryCollector. destruct (makeslice_fits _); [left; by eexists|by right].
Qed.

(** C39: Whatever the environment says, every number of the configuration
    fits its 64 bits, and the services that are made from it have at least
    one worker, room for at least one sample and a positive interval; making
    them panics exactly when the samples asked for do not fit the address
    space. A
    configuration passes validation exactly when its port is a port and it
    uses the in-memory store or names a database and a secret. *)
Theorem config_sound (e : env) :
  let c := Load_config e in
  (in_int64 (Port c) && in_int64 (TaskWorkerPool c) && in_int64 (DashboardHistoryCapacity c)
   && in_int64 (JWTExpiry c) && in_int64 (TaskTimeout c) && in_int64 (DashboardHistoryInterval c)) = true ∧
  match NewServer c with
  | Ok sv => (1 ≤ o_workers (srv_orchestrator sv))%Z ∧ capacity (srv_history sv) = Z.max 1 (DashboardHistoryCapacity c) ∧
      (0 < interval (srv_history sv))%Z ∧ (40 * DashboardHistoryCapacity c ≤ 2 ^ 48)%Z
  | Panic why => why = makeslice_panic ∧ (2 ^ 48 < 40 * DashboardHistoryCapacity c)%Z
  | _ => False
  end ∧
  (Config_Validate c = None ↔
   (1 ≤ Port c ≤ 65535)%Z ∧ (UseMemoryStore c = true ∨ DatabaseURL c ≠ "" ∧ JWTSecret c ≠ "")).
Proof.
  intros c. split_and!.
  - unfold c, Load_config, envInt, envDuration. simpl.
    rewrite !env_parse_in; eauto using Atoi_in_int64, ParseDuration_in_int64.
  - unfold NewServer, NewHistoryCollector, makeslice_fits. change (2 ^ 48)%Z with 281474976710656%Z.
    pose proof (new_ring_settings (DashboardHistoryCapacity c) (DashboardHistoryInterval c)) as [Hc Hi].
    destruct (Z.leb_spec (40 * (if (DashboardHistoryCapacity c <? 1)%Z then 1 else DashboardHistoryCapacity c))
      281474976710656)%Z as [Hf|Hf]; destruct (Z.ltb_spec (DashboardHistoryCapacity c) 1).
    all: split_and!; try done; try apply New_workers; lia.
  - unfold Config_Validate. destruct (_ || _) eqn:Hport.
    + split; [done|]. intros [? _]. apply orb_true_iff in Hport. rewrite !Z.ltb_lt in Hport. lia.
    + apply orb_false_iff in Hport. rewrite !Z.ltb_ge in Hport.
      destruct (UseMemoryStore c); [split; [split; [lia|auto]|done]|].
      repeat case_bool_decide; (split; [done|naive_solver]) || (split; [|done]; intros _; split; [lia|auto]).
Qed.
