(* ===== verification/Codec.v ===== *)
(** * Request bodies (internal/store/models.go tags, internal/api)

    Decoding of the model's structs and of the handlers' anonymous request
    structs from a JSON document.  [parse_time] is the text decoding of a
    [time.Time] (RFC 3339). *)
From S2P Require Import Prelude GoStr GoValue Json Model.

Definition dec_bool : decoder bool := λ j old,
  match j with
  | JNull => Ok old
  | JBool b => Ok b
  | _ => Err json_type_error
  end.

(** [json.RawMessage] keeps any document, also null. *)
Definition dec_raw : decoder RawMessage := λ j _, Ok (RawDoc j).

Definition zero_Skill : Skill := mkSkill "" "" "".
Definition zero_Agent : Agent := mkAgent "" "" "" "" "" [] false zero_time zero_time.
Definition zero_McpServer : McpServer := mkMcpServer "" "" "" RawEmpty false "" zero_time zero_time.
Definition zero_Permissions : FlowPermissionSet := mkFlowPermissionSet [] [] [].
Definition zero_Flow : Flow := mkFlow "" "" "" RawEmpty zero_Permissions false zero_time zero_time.

Definition dec_strings : decoder (list string) := dec_slice EmptyString dec_string.

Definition Skill_names : list string := ["name"; "server_id"; "tool"].
Definition Skill_field (name : string) : decoder Skill := λ j s,
  let '(mkSkill n sv tl) := s in
  if bool_decide (name = "name") then x ← dec_string j n; Ok (mkSkill x sv tl)
  else if bool_decide (name = "server_id") then x ← dec_string j sv; Ok (mkSkill n x tl)
  else x ← dec_string j tl; Ok (mkSkill n sv x).
Definition dec_Skill : decoder Skill := dec_struct Skill_names Skill_field.

Definition Permissions_names : list string := ["resources"; "files"; "databases"].
Definition Permissions_field (name : string) : decoder FlowPermissionSet := λ j p,
  let '(mkFlowPermissionSet rs fs ds) := p in
  if bool_decide (name = "resources") then x ← dec_strings j rs; Ok (mkFlowPermissionSet x fs ds)
  else if bool_decide (name = "files") then x ← dec_strings j fs; Ok (mkFlowPermissionSet rs x ds)
  else x ← dec_strings j ds; Ok (mkFlowPermissionSet rs fs x).
Definition dec_Permissions : decoder FlowPermissionSet := dec_struct Permissions_names Permissions_field.

Section Times.
Context (parse_time : string → outcome Time).

Definition dec_time : decoder Time := λ j old,
  match j with
  | JNull => Ok old
  | JStr s => parse_time s
  | _ => Err json_type_error
  end.

Definition Agent_names : list string :=
  ["id"; "tenant_id"; "name"; "profile"; "system_prompt"; "skills"; "enabled"; "created_at"; "updated_at"].

Definition Agent_field (name : string) : decoder Agent := λ j a,
  let '(mkAgent i t n p sp sk en c u) := a in
  if bool_decide (name = "id") then x ← dec_string j i; Ok (mkAgent x t n p sp sk en c u)
  else if bool_decide (name = "tenant_id") then x ← dec_string j t; Ok (mkAgent i x n p sp sk en c u)
  else if bool_decide (name = "name") then x ← dec_string j n; Ok (mkAgent i t x p sp sk en c u)
  else if bool_decide (name = "profile") then x ← dec_string j p; Ok (mkAgent i t n x sp sk en c u)
  else if bool_decide (name = "system_prompt") then x ← dec_string j sp; Ok (mkAgent i t n p x sk en c u)
  else if bool_decide (name = "skills") then x ← dec_slice zero_Skill dec_Skill j sk; Ok (mkAgent i t n p sp x en c u)
  else if bool_decide (name = "enabled") then x ← dec_bool j en; Ok (mkAgent i t n p sp sk x c u)
  else if bool_decide (name = "created_at") then x ← dec_time j c; Ok (mkAgent i t n p sp sk en x u)
  else x ← dec_time j u; Ok (mkAgent i t n p sp sk en c x).

Definition dec_Agent : decoder Agent := dec_struct Agent_names Agent_field.

Definition McpServer_names : list string :=
  ["id"; "tenant_id"; "name"; "transport"; "enabled"; "status"; "created_at"; "updated_at"].

Definition McpServer_field (name : string) : decoder McpServer := λ j s,
  let '(mkMcpServer i t n tr en st c u) := s in
  if bool_decide (name = "id") then x ← dec_string j i; Ok (mkMcpServer x t n tr en st c u)
  else if bool_decide (name = "tenant_id") then x ← dec_string j t; Ok (mkMcpServer i x n tr en st c u)
  else if bool_decide (name = "name") then x ← dec_string j n; Ok (mkMcpServer i t x tr en st c u)
  else if bool_decide (name = "transport") then x ← dec_raw j tr; Ok (mkMcpServer i t n x en st c u)
  else if bool_decide (name = "enabled") then x ← dec_bool j en; Ok (mkMcpServer i t n tr x st c u)
  else if bool_decide (name = "status") then x ← dec_string j st; Ok (mkMcpServer i t n tr en x c u)
  else if bool_decide (name = "created_at") then x ← dec_time j c; Ok (mkMcpServer i t n tr en st x u)
  else x ← dec_time j u; Ok (mkMcpServer i t n tr en st c x).

Definition dec_McpServer : decoder McpServer := dec_struct McpServer_names McpServer_field.

Definition Flow_names : list string :=
  ["id"; "tenant_id"; "name"; "flow_json"; "permissions"; "enabled"; "created_at"; "updated_at"].

Definition Flow_field (name : string) : decoder Flow := λ j f,
  let '(mkFlow i t n fj p en c u) := f in
  if bool_decide (name = "id") then x ← dec_string j i; Ok (mkFlow x t n fj p en c u)
  else if bool_decide (name = "tenant_id") then x ← dec_string j t; Ok (mkFlow i x n fj p en c u)
  else if bool_decide (name = "name") then x ← dec_string j n; Ok (mkFlow i t x fj p en c u)
  else if bool_decide (name = "flow_json") then x ← dec_raw j fj; Ok (mkFlow i t n x p en c u)
  else if bool_decide (name = "permissions") then x ← dec_Permissions j p; Ok (mkFlow i t n fj x en c u)
  else if bool_decide (name = "enabled") then x ← dec_bool j en; Ok (mkFlow i t n fj p x c u)
  else if bool_decide (name = "created_at") then x ← dec_time j c; Ok (mkFlow i t n fj p en x u)
  else x ← dec_time j u; Ok (mkFlow i t n fj p en c x).

Definition dec_Flow : decoder Flow := dec_struct Flow_names Flow_field.
End Times.

(** ** The handlers' own request structs *)
Record LoginRequest := mkLoginRequest {
  Login_Username : string;
  Login_Password : string
}.

Definition dec_LoginRequest : decoder LoginRequest :=
  dec_struct ["username"; "password"] (λ name j r,
    let '(mkLoginRequest u p) := r in
    if bool_decide (name = "username") then x ← dec_string j u; Ok (mkLoginRequest x p)
    else x ← dec_string j p; Ok (mkLoginRequest u x)).

Record UserRequest := mkUserRequest {
  UserReq_Username : string;
  UserReq_Password : string;
  UserReq_Role : string
}.

Definition dec_UserRequest : decoder UserRequest :=
  dec_struct ["username"; "password"; "role"] (λ name j r,
    let '(mkUserRequest u p ro) := r in
    if bool_decide (name = "username") then x ← dec_string j u; Ok (mkUserRequest x p ro)
    else if bool_decide (name = "password") then x ← dec_string j p; Ok (mkUserRequest u x ro)
    else x ← dec_string j ro; Ok (mkUserRequest u p x)).

Definition dec_TaskRequest : decoder string :=
  dec_struct ["task"] (λ _ j t, dec_string j t).

Record chatMessage := mkChatMessage {
  Chat_Type : string;
  Chat_AgentID : string;
  Chat_Content : string
}.

Definition dec_chatMessage : decoder chatMessage :=
  dec_struct ["type"; "agent_id"; "content"] (λ name j m,
    let '(mkChatMessage ty a c) := m in
    if bool_decide (name = "type") then x ← dec_string j ty; Ok (mkChatMessage x a c)
    else if bool_decide (name = "agent_id") then x ← dec_string j a; Ok (mkChatMessage ty x c)
    else x ← dec_string j c; Ok (mkChatMessage ty a x)).

(** [decodeJSON(r, &v)] for a fresh [v]. *)
Definition decodeJSON {A} (dec : decoder A) (zero : A) (body : RawMessage) : outcome A :=
  j ← raw_tree body; dec j zero.

(** [len(raw)]: zero for an absent message, and only then. *)
Definition raw_is_empty (r : RawMessage) : bool := match r with RawEmpty => true | _ => false end.
