(* ===== verification/Traces.v ===== *)
(** * Tracing what is asked of the outside world

    An interface of operations [m : M N A] on an outside world [N] is traced
    by running it on [N * list Ev] and noting an event at each operation.
    [follows m m' P] relates a computation over the interface to the same
    computation over its traced copy: same outcome, same world, an answer,
    and events that satisfy [P]. *)
From S2P Require Import Prelude.

(** [if err != nil { return fmt.Errorf(f, err) }] *)
Definition wrap_err {S A} (f : string) (m : M S A) : M S A := λ s,
  match m s with (Err e, s') => (Err (Wrapf f [] e), s') | r => r end.
Definition of_outcome {S A} (o : outcome A) : M S A := λ s, (o, s).


Section Traces.
Context {N Ev : Type}.
Abbreviation TN := (N * list Ev)%type.

Definition traced {A} (ev : A → list Ev) (m : M N A) : M (N * list Ev) A := λ '(n, tr),
  match m n with
  | (Ok a, n') => (Ok a, (n', tr ++ ev a))
  | (Err e, n') => (Err e, (n', tr))
  | (Panic w, n') => (Panic w, (n', tr))
  | (NoFuel, n') => (NoFuel, (n', tr))
  end.

(** An attempt counts whether it succeeds or not. *)
Definition noted {A} (ev : list Ev) (m : M N A) : M (N * list Ev) A := λ '(n, tr),
  let '(o, n') := m n in (o, (n', tr ++ ev)).

(** A computation over the traced world: it does what it does over the
    world, answers, and adds a trace that satisfies [P]. *)
Definition follows {A} (m : M N A) (m' : M TN A) (P : outcome A → list Ev → Prop) : Prop :=
  ∀ n tr, ∃ o n' mid, m n = (o, n') ∧ m' (n, tr) = (o, (n', tr ++ mid)) ∧ proper_outcome o ∧ P o mid.

Lemma follows_noted {A} (m : M N A) ev : (∀ n, proper_outcome (m n).1) →
  follows m (noted ev m) (λ _ mid, mid = ev).
Proof.
  intros Hm n tr. specialize (Hm n). unfold noted. destruct (m n) as [o n'].
  by exists o, n', ev.
Qed.

Lemma follows_traced {A} (m : M N A) ev : (∀ n, proper_outcome (m n).1) →
  follows m (traced ev m) (λ o mid, mid = match o with Ok a => ev a | _ => [] end).
Proof.
  intros Hm n tr. specialize (Hm n). unfold traced. destruct (m n) as [[a|e|w|] n']; try done;
    do 3 eexists; (split_and!; [done| |done|reflexivity]); by rewrite ?app_nil_r.
Qed.

Lemma follows_pure {A} (o : outcome A) : proper_outcome o →
  follows (of_outcome o) (of_outcome o) (λ o' mid, o' = o ∧ mid = []).
Proof. intros Ho n tr. exists o, n, []. by rewrite app_nil_r. Qed.

Lemma follows_wrap {A} f (m : M N A) m' P :
  follows m m' P → follows (wrap_err f m) (wrap_err f m') (λ o mid, ∃ o', P o' mid ∧
    o = match o' with Err e => Err (Wrapf f [] e) | r => r end).
Proof.
  intros H n tr. destruct (H n tr) as (o & n' & mid & E & E' & Ho & HP). unfold wrap_err. rewrite E, E'.
  destruct o as [a|e|w|]; try done; do 3 eexists; (split_and!; [done|done|done|]); eexists; by split.
Qed.

Lemma follows_bind {A B} (m : M N A) m' (k : A → M N B) k' P (Q : outcome B → list Ev → Prop) :
  follows m m' P →
  (∀ a mid1, P (Ok a) mid1 → follows (k a) (k' a) (λ o mid, Q o (mid1 ++ mid))) →
  (∀ e mid, P (Err e) mid → Q (Err e) mid) →
  follows (m ≫= k) (m' ≫= k') Q.
Proof.
  intros Hm Hk He n tr. destruct (Hm n tr) as (o & n1 & mid & E & E' & Ho & HP).
  unfold mbind, M_bind. rewrite E, E'. destruct o as [a|e|w|]; try done.
  - destruct (Hk a mid HP n1 (tr ++ mid)) as (o2 & n2 & mid2 & E2 & E2' & Ho2 & HQ).
    exists o2, n2, (mid ++ mid2). by rewrite E2', <- app_assoc.
  - exists (Err e), n1, mid. split_and!; auto.
Qed.

Lemma follows_mono {A} (m : M N A) m' (P Q : outcome A → list Ev → Prop) :
  follows m m' P → (∀ o mid, P o mid → Q o mid) → follows m m' Q.
Proof. intros H HPQ n tr. destruct (H n tr) as (o & n' & mid & ? & ? & ? & ?). eauto 10. Qed.

End Traces.
