(* ===== verification/Rpc.v ===== *)
(** * The pure-Go MCP client (internal/mcp/client_go.go)

    JSON-RPC 2.0 over the standard streams of a child process or over a
    websocket.  The operating system and the websocket library are a
    parameter, the class [Net]; what the client does with them is here: the
    envelopes, the connection of each call, and the six methods, which make
    [goClient] an instance of the [Client] interface. *)
From S2P Require Import Prelude GoStr GoValue GoFmt Json Codec Mcp Traces.

(** ** Envelopes *)
Record jsonrpcErr := mkRpcErr {
  Err_Code : Z;
  Err_Message : string
}.

Record jsonrpcResponse := mkRpcResponse {
  Resp_JSONRPC : string;
  Resp_ID : Z;
  Resp_Result : RawMessage;
  Resp_Error : option jsonrpcErr
}.

(** [int] and [int64] fields: integer literals in range. *)
Definition dec_int64 : decoder Z := λ j old,
  match j with
  | JNull => Ok old
  | JNum (NInt z) => if (- 2 ^ 63 <=? z)%Z && (z <? 2 ^ 63)%Z then Ok z else Err json_type_error
  | _ => Err json_type_error
  end.

(** A pointer field: null is nil, anything else goes into the value there
    was, or a new one. *)
Definition dec_ptr {A} (zero : A) (dec : decoder A) : decoder (option A) := λ j old,
  match j with
  | JNull => Ok None
  | _ => x ← dec j (default zero old); Ok (Some x)
  end.

Definition Err_field (name : string) : decoder jsonrpcErr := λ j e,
  let '(mkRpcErr c m) := e in
  if bool_decide (name = "code") then x ← dec_int64 j c; Ok (mkRpcErr x m)
  else x ← dec_string j m; Ok (mkRpcErr c x).
Definition dec_jsonrpcErr : decoder jsonrpcErr := dec_struct ["code"; "message"] Err_field.

Definition Resp_field (name : string) : decoder jsonrpcResponse := λ j r,
  let '(mkRpcResponse v i res e) := r in
  if bool_decide (name = "jsonrpc") then x ← dec_string j v; Ok (mkRpcResponse x i res e)
  else if bool_decide (name = "id") then x ← dec_int64 j i; Ok (mkRpcResponse v x res e)
  else if bool_decide (name = "result") then x ← dec_raw j res; Ok (mkRpcResponse v i x e)
  else x ← dec_ptr (mkRpcErr 0 "") dec_jsonrpcErr j e; Ok (mkRpcResponse v i res x).
Definition dec_jsonrpcResponse : decoder jsonrpcResponse :=
  dec_struct ["jsonrpc"; "id"; "result"; "error"] Resp_field.
Definition zero_response : jsonrpcResponse := mkRpcResponse "" 0 RawEmpty None.

(** The request as a document; nil parameters are left out. *)
Definition encode_request (id : Z) (method : string) (params : option value) : outcome json :=
  let head := [("jsonrpc", JStr "2.0"); ("id", JNum (NInt id)); ("method", JStr method)] in
  match params with
  | None => Ok (JObj head)
  | Some v => p ← encode_any v; Ok (JObj (head ++ [("params", p)]))
  end.

Definition decodeResponse {A} (dec : decoder A) (zero : A) (resp : jsonrpcResponse) : outcome A :=
  match Resp_Error resp with
  | Some e => Err (Wrapf "%w: [%d] %s" [FInt (Err_Code e); FStr (Err_Message e)] ErrRPCError)
  | None =>
      match Resp_Result resp with
      | RawEmpty => Ok zero
      | r => j ← raw_tree r; dec j zero
      end
  end.

(** ** Results *)
Definition zero_Tool : Tool := mkTool "" "" RawEmpty.
Definition zero_Resource : Resource := mkResource "" "" "" "".
Definition zero_Prompt : Prompt := mkPrompt "" "".
Definition zero_Block : ContentBlock := mkContentBlock "" "" "" "".
Definition zero_Message : PromptMessage := mkPromptMessage "" zero_Block.

Definition Tool_field (name : string) : decoder Tool := λ j t,
  let '(mkTool n d s) := t in
  if bool_decide (name = "name") then x ← dec_string j n; Ok (mkTool x d s)
  else if bool_decide (name = "description") then x ← dec_string j d; Ok (mkTool n x s)
  else x ← dec_raw j s; Ok (mkTool n d x).
Definition dec_Tool : decoder Tool := dec_struct ["name"; "description"; "inputSchema"] Tool_field.

Definition Resource_field (name : string) : decoder Resource := λ j r,
  let '(mkResource u n d m) := r in
  if bool_decide (name = "uri") then x ← dec_string j u; Ok (mkResource x n d m)
  else if bool_decide (name = "name") then x ← dec_string j n; Ok (mkResource u x d m)
  else if bool_decide (name = "description") then x ← dec_string j d; Ok (mkResource u n x m)
  else x ← dec_string j m; Ok (mkResource u n d x).
Definition dec_Resource : decoder Resource :=
  dec_struct ["uri"; "name"; "description"; "mimeType"] Resource_field.

Definition Prompt_field (name : string) : decoder Prompt := λ j p,
  let '(mkPrompt n d) := p in
  if bool_decide (name = "name") then x ← dec_string j n; Ok (mkPrompt x d)
  else x ← dec_string j d; Ok (mkPrompt n x).
Definition dec_Prompt : decoder Prompt := dec_struct ["name"; "description"] Prompt_field.

Definition Block_field (name : string) : decoder ContentBlock := λ j b,
  let '(mkContentBlock ty t d m) := b in
  if bool_decide (name = "type") then x ← dec_string j ty; Ok (mkContentBlock x t d m)
  else if bool_decide (name = "text") then x ← dec_string j t; Ok (mkContentBlock ty x d m)
  else if bool_decide (name = "data") then x ← dec_string j d; Ok (mkContentBlock ty t x m)
  else x ← dec_string j m; Ok (mkContentBlock ty t d x).
Definition dec_Block : decoder ContentBlock := dec_struct ["type"; "text"; "data"; "mimeType"] Block_field.

Definition ToolResult_field (name : string) : decoder ToolResult := λ j r,
  let '(mkToolResult c e) := r in
  if bool_decide (name = "content") then x ← dec_slice zero_Block dec_Block j c; Ok (mkToolResult x e)
  else x ← dec_bool j e; Ok (mkToolResult c x).
Definition dec_ToolResult : decoder ToolResult := dec_struct ["content"; "isError"] ToolResult_field.

Definition Message_field (name : string) : decoder PromptMessage := λ j m,
  let '(mkPromptMessage r c) := m in
  if bool_decide (name = "role") then x ← dec_string j r; Ok (mkPromptMessage x c)
  else x ← dec_Block j c; Ok (mkPromptMessage r x).
Definition dec_Message : decoder PromptMessage := dec_struct ["role"; "content"] Message_field.

Definition PromptResult_field (name : string) : decoder PromptResult := λ j p,
  let '(mkPromptResult d m) := p in
  if bool_decide (name = "description") then x ← dec_string j d; Ok (mkPromptResult x m)
  else x ← dec_slice zero_Message dec_Message j m; Ok (mkPromptResult d x).
Definition dec_PromptResult : decoder PromptResult := dec_struct ["description"; "messages"] PromptResult_field.

(** A struct with one field that is a slice. *)
Definition dec_listing {A} (name : string) (zero : A) (dec : decoder A) : decoder (list A) :=
  dec_struct [name] (λ _ j l, dec_slice zero dec j l).

(** ** The outside world *)

(** The moment a [select] on [ctx.Done()] and the channel of a reading
    goroutine looks: what the read has returned so far, an error or a line or
    message, [ctx.Err()] if the context is over, and which of two ready cases
    the runtime takes. *)
Record moment := mkMoment {
  line_read : option (error + RawMessage);
  ctx_over : option error;
  picks_ctx : bool
}.

(** One of its cases is ready. *)
Definition wakes (w : moment) : Prop := line_read w ≠ None ∨ ctx_over w ≠ None.

(** os/exec, and the websocket library; a number stands for a command or a
    connection.  [write_json] is given what the encoding of the request gave;
    the reads are started in a goroutine, and give the moment at which the
    [select] that waits for it looks. *)
Class Net (N : Type) := {
  command : string → list string → M N nat;
  stdin_pipe : nat → M N unit;
  stdout_pipe : nat → M N unit;
  start_process : nat → M N unit;
  write_line : nat → json → M N unit;
  read_line : nat → M N moment;
  end_process : nat → M N unit;
  dial : string → M N nat;
  write_json : nat → outcome json → M N unit;
  read_json : nat → M N moment;
  hang_up : nat → M N unit
}.

Inductive rpcKind := Stdio | Websocket.

Record rpcTransport := mkRpcTransport {
  rpc_kind : rpcKind;
  rpc_conn : nat;
  nextID : Z
}.

Section Client.
Context {N : Type} {net : Net N}.

Definition newStdioTransport (cmd : nat) : M N rpcTransport :=
  _ ← wrap_err "mcp: stdin pipe: %w" (stdin_pipe cmd);
  _ ← wrap_err "mcp: stdout pipe: %w" (stdout_pipe cmd);
  _ ← wrap_err "mcp: start: %w" (start_process cmd);
  mret (mkRpcTransport Stdio cmd 0).

Definition newWSTransport (url : string) : M N rpcTransport :=
  c ← wrap_err "mcp: dial: %w" (dial url);
  mret (mkRpcTransport Websocket c 0).

Definition connect (s : Transport) : M N rpcTransport :=
  if bool_decide (Transport_Type s = "stdio") then
    cmd ← command (Command s) (Args s); newStdioTransport cmd
  else if bool_decide (Transport_Type s = "websocket") then newWSTransport (URL s)
  else mthrow (Wrapf "%w: %q" [FStr (Transport_Type s)] ErrUnsupportedTransport).

Definition close (t : rpcTransport) : M N unit :=
  match rpc_kind t with
  | Stdio => end_process (rpc_conn t)
  | Websocket => hang_up (rpc_conn t)
  end.

(** What the goroutine of readResponse puts on its channel, which has room
    for it whether or not anybody still waits. *)
Definition reader (read : error + RawMessage) : outcome jsonrpcResponse :=
  match read with
  | inl e => Err e
  | inr line => j ← raw_tree line; dec_jsonrpcResponse j zero_response
  end.

(** The case of the channel. *)
Definition from_reader (r : outcome jsonrpcResponse) : outcome jsonrpcResponse :=
  match r with Err e => Err (Wrapf "mcp: read: %w" [] e) | _ => r end.

(** The [select]: it stays blocked as long as no case is ready. *)
Definition readResponse (w : moment) : outcome jsonrpcResponse :=
  match ctx_over w, reader <$> line_read w with
  | None, None => NoFuel
  | Some e, None => Err e
  | None, Some r => from_reader r
  | Some e, Some r => if picks_ctx w then Err e else from_reader r
  end.

Definition stdio_call {A} (c : nat) (id : Z) (method : string) (params : option value)
    (dec : decoder A) (zero : A) : M N A :=
  raw ← of_outcome (encode_request id method params);
  _ ← wrap_err "mcp: write: %w" (write_line c raw);
  w ← read_line c;
  resp ← of_outcome (readResponse w);
  of_outcome (decodeResponse dec zero resp).

Definition ws_call {A} (c : nat) (id : Z) (method : string) (params : option value)
    (dec : decoder A) (zero : A) : M N A :=
  _ ← wrap_err "mcp: write: %w" (write_json c (encode_request id method params));
  w ← read_json c;
  resp ← of_outcome (readResponse w);
  of_outcome (decodeResponse dec zero resp).

(** [t.call]: the identifiers count the calls of the transport. *)
Definition rpc_call {A} (method : string) (params : option value) (dec : decoder A) (zero : A)
    : M (N * rpcTransport) A := λ '(n, t),
  let id := (nextID t + 1)%Z in
  let t' := mkRpcTransport (rpc_kind t) (rpc_conn t) id in
  let '(o, n') := match rpc_kind t with
                  | Stdio => stdio_call (rpc_conn t) id method params dec zero n
                  | Websocket => ws_call (rpc_conn t) id method params dec zero n
                  end in
  (o, (n', t')).

(** [t, err := c.connect(ctx, s); ...; defer t.close()] *)
Definition with_transport {A} (s : Transport) (body : M (N * rpcTransport) A) : M N A :=
  t ← connect s;
  (λ n, let '(o, (n1, t1)) := body (n, t) in (o, (close t1 n1).2)) : M N A.

Definition with_arguments (name : string) (args : option (gmap string value)) : value :=
  VMap (match args with
        | Some a => {[ "name" := VString name; "arguments" := VMap a ]}
        | None => {[ "name" := VString name ]}
        end).

Definition go_ListTools (s : Transport) : M N (list Tool) :=
  with_transport s (rpc_call "tools/list" None (dec_listing "tools" zero_Tool dec_Tool) []).

Definition go_ListResources (s : Transport) : M N (list Resource) :=
  with_transport s (rpc_call "resources/list" None (dec_listing "resources" zero_Resource dec_Resource) []).

Definition go_ListPrompts (s : Transport) : M N (list Prompt) :=
  with_transport s (rpc_call "prompts/list" None (dec_listing "prompts" zero_Prompt dec_Prompt) []).

Definition go_CallTool (s : Transport) (name : string) (args : option (gmap string value))
    : M N ToolResult :=
  with_transport s (rpc_call "tools/call" (Some (with_arguments name args)) dec_ToolResult (mkToolResult [] false)).

Definition go_ReadResource (s : Transport) (uri : string) : M N (list ContentBlock) :=
  with_transport s (rpc_call "resources/read" (Some (VMap {[ "uri" := VString uri ]}))
    (dec_listing "contents" zero_Block dec_Block) []).

Definition go_GetPrompt (s : Transport) (name : string) (args : option (gmap string value))
    : M N PromptResult :=
  with_transport s (rpc_call "prompts/get" (Some (with_arguments name args)) dec_PromptResult
    (mkPromptResult "" [])).

(** The callers of the interface pass maps that are not nil. *)
#[export] Instance goClient : Client N := {
  ListTools := go_ListTools;
  ListResources := go_ListResources;
  ListPrompts := go_ListPrompts;
  CallTool := λ s name args, go_CallTool s name (Some args);
  ReadResource := go_ReadResource;
  GetPrompt := λ s name args, go_GetPrompt s name (Some args)
}.
End Client.

(** ** A connection per call, closed at its end

    [Traced] records what is done to connections, over any [Net]. *)
Inductive event :=
  | Opened (k : rpcKind) (c : nat)
  | Wrote (c : nat) (req : json)
  | ReadFrom (c : nat)
  | Closed (k : rpcKind) (c : nat).

Section Traced.
Context {N : Type} {net : Net N}.

Definition Traced : Net (N * list event) := {|
  command := λ cmd args, noted [] (command cmd args);
  stdin_pipe := λ c, noted [] (stdin_pipe c);
  stdout_pipe := λ c, noted [] (stdout_pipe c);
  start_process := λ c, traced (λ _, [Opened Stdio c]) (start_process c);
  write_line := λ c j, noted [Wrote c j] (write_line c j);
  read_line := λ c, noted [ReadFrom c] (read_line c);
  end_process := λ c, noted [Closed Stdio c] (end_process c);
  dial := λ url, traced (λ c, [Opened Websocket c]) (dial url);
  write_json := λ c o, noted (match o with Ok j => [Wrote c j] | _ => [] end) (write_json c o);
  read_json := λ c, noted [ReadFrom c] (read_json c);
  hang_up := λ c, noted [Closed Websocket c] (hang_up c)
|}.
End Traced.

(** ** The six calls of the interface *)
Inductive client_op : Type → Type :=
  | OpListTools (s : Transport) : client_op (list Tool)
  | OpListResources (s : Transport) : client_op (list Resource)
  | OpListPrompts (s : Transport) : client_op (list Prompt)
  | OpCallTool (s : Transport) (name : string) (args : gmap string value) : client_op ToolResult
  | OpReadResource (s : Transport) (uri : string) : client_op (list ContentBlock)
  | OpGetPrompt (s : Transport) (name : string) (args : gmap string value) : client_op PromptResult.

Definition client_run {S A} (cl : Client S) (op : client_op A) : M S A :=
  match op in client_op A return M S A with
  | OpListTools s => ListTools s
  | OpListResources s => ListResources s
  | OpListPrompts s => ListPrompts s
  | OpCallTool s name args => CallTool s name args
  | OpReadResource s uri => ReadResource s uri
  | OpGetPrompt s name args => GetPrompt s name args
  end.

(** Where an operation goes, the method it names and its parameters. *)
Definition op_transport {A} (op : client_op A) : Transport :=
  match op with
  | OpListTools s | OpListResources s | OpListPrompts s
  | OpCallTool s _ _ | OpReadResource s _ | OpGetPrompt s _ _ => s
  end.

Definition op_request {A} (op : client_op A) : string * option value :=
  match op with
  | OpListTools _ => ("tools/list", None)
  | OpListResources _ => ("resources/list", None)
  | OpListPrompts _ => ("prompts/list", None)
  | OpCallTool _ name args =>
      ("tools/call", Some (VMap {[ "name" := VString name; "arguments" := VMap args ]}))
  | OpReadResource _ uri => ("resources/read", Some (VMap {[ "uri" := VString uri ]}))
  | OpGetPrompt _ name args =>
      ("prompts/get", Some (VMap {[ "name" := VString name; "arguments" := VMap args ]}))
  end.

(** ** What the operating system and the library promise: they answer, a
    read returns or its context is over at last, and a request that cannot
    be encoded is an error of the write. *)
Class NetLaws (N : Type) `{Net N} := {
  command_proper cmd args (n : N) : proper_outcome (command cmd args n).1;
  stdin_proper c (n : N) : proper_outcome (stdin_pipe c n).1;
  stdout_proper c (n : N) : proper_outcome (stdout_pipe c n).1;
  start_proper c (n : N) : proper_outcome (start_process c n).1;
  write_line_proper c j (n : N) : proper_outcome (write_line c j n).1;
  read_line_wakes c (n : N) : ∃ w, (read_line c n).1 = Ok w ∧ wakes w;
  dial_proper url (n : N) : proper_outcome (dial url n).1;
  write_json_proper c o (n : N) : proper_outcome o → proper_outcome (write_json c o n).1;
  write_json_err c e (n : N) : ∃ e', (write_json c (Err e) n).1 = Err e';
  read_json_wakes c (n : N) : ∃ w, (read_json c n).1 = Ok w ∧ wakes w
}.

(** ** Decoding and encoding always answer *)
Lemma dec_raw_proper : decoder_proper dec_raw.
Proof. by intros j old. Qed.
Lemma dec_bool_proper : decoder_proper dec_bool.
Proof. by intros [] old. Qed.
Lemma dec_int64_proper : decoder_proper dec_int64.
Proof. intros [| |[z|f]| | |] old; simpl; try done. by case_if. Qed.
Lemma dec_ptr_proper {A} (zero : A) dec j old :
  decoder_proper dec → proper_outcome (dec_ptr zero dec j old).
Proof. intros H. destruct j; simpl; try done; (apply proper_bind; [apply H|done]). Qed.
#[export] Hint Resolve dec_raw_proper dec_bool_proper dec_int64_proper dec_ptr_proper : decoders.

Lemma dec_jsonrpcErr_proper : decoder_proper dec_jsonrpcErr.
Proof. apply dec_struct_proper. solve_field_proper Err_field. Qed.
#[export] Hint Resolve dec_jsonrpcErr_proper : decoders.
Lemma dec_jsonrpcResponse_proper : decoder_proper dec_jsonrpcResponse.
Proof. apply dec_struct_proper. solve_field_proper Resp_field. Qed.
Lemma dec_Tool_proper : decoder_proper dec_Tool.
Proof. apply dec_struct_proper. solve_field_proper Tool_field. Qed.
Lemma dec_Resource_proper : decoder_proper dec_Resource.
Proof. apply dec_struct_proper. solve_field_proper Resource_field. Qed.
Lemma dec_Prompt_proper : decoder_proper dec_Prompt.
Proof. apply dec_struct_proper. solve_field_proper Prompt_field. Qed.
Lemma dec_Block_proper : decoder_proper dec_Block.
Proof. apply dec_struct_proper. solve_field_proper Block_field. Qed.
#[export] Hint Resolve dec_jsonrpcResponse_proper dec_Tool_proper dec_Resource_proper dec_Prompt_proper
  dec_Block_proper : decoders.
Lemma dec_Message_proper : decoder_proper dec_Message.
Proof. apply dec_struct_proper. solve_field_proper Message_field. Qed.
#[export] Hint Resolve dec_Message_proper : decoders.
Lemma dec_ToolResult_proper : decoder_proper dec_ToolResult.
Proof. apply dec_struct_proper. solve_field_proper ToolResult_field. Qed.
Lemma dec_PromptResult_proper : decoder_proper dec_PromptResult.
Proof. apply dec_struct_proper. solve_field_proper PromptResult_field. Qed.
Lemma dec_listing_proper {A} name (zero : A) dec : decoder_proper dec → decoder_proper (dec_listing name zero dec).
Proof. intros H. apply dec_struct_proper. intros _. by apply dec_slice_proper. Qed.
#[export] Hint Resolve dec_ToolResult_proper dec_PromptResult_proper dec_listing_proper : decoders.

Lemma decodeResponse_proper {A} dec (zero : A) resp :
  decoder_proper dec → proper_outcome (decodeResponse dec zero resp).
Proof.
  intros H. unfold decodeResponse. destruct (Resp_Error resp); [done|].
  destruct (Resp_Result resp); try done. apply H.
Qed.

Lemma reader_proper read : proper_outcome (reader read).
Proof.
  destruct read as [e|line]; [done|]. apply proper_bind; [apply raw_tree_proper|].
  intros j _. apply dec_jsonrpcResponse_proper.
Qed.

Lemma from_reader_proper read : proper_outcome (from_reader (reader read)).
Proof. pose proof (reader_proper read) as H. by destruct (reader read). Qed.

(** A [select] that is woken answers. *)
Lemma readResponse_proper w : wakes w → proper_outcome (readResponse w).
Proof.
  destruct w as [[read|] [e|] []]; unfold wakes, readResponse; simpl; try (intros [? | ?]; done);
    intros _; try done; apply from_reader_proper.
Qed.

Lemma encode_request_proper id m p : proper_outcome (encode_request id m p).
Proof.
  unfold encode_request. destruct p as [v|]; [|done]. apply proper_bind; [apply encode_any_proper|done].
Qed.

(** ** What a call does to its connection *)

(** Nothing, or the one request, or the request and one read. *)
Definition exchange (c : nat) (req : outcome json) (tr : list event) : Prop :=
  tr = [] ∨ ∃ j, req = Ok j ∧ (tr = [Wrote c j] ∨ tr = [Wrote c j; ReadFrom c]).

Definition kind_name (k : rpcKind) : string :=
  match k with Stdio => "stdio" | Websocket => "websocket" end.

Section Exchange.
Context {N : Type} {net : Net N} {net_laws : NetLaws N}.
Abbreviation TN := (N * list event)%type.

(** What a call leaves between opening and closing. *)
Definition exchanged {A} (c : nat) (req : outcome json) (o : outcome A) (mid : list event) : Prop :=
  exchange c req mid ∧ ∀ a, o = Ok a → length mid = 2.

(** From the read on, after the request was written. *)
Lemma answer_follows {A} c raw (rd : M N moment) (dec : decoder A) zero :
  decoder_proper dec → (∀ n, ∃ w, (rd n).1 = Ok w ∧ wakes w) →
  follows (w ← rd; resp ← of_outcome (readResponse w); of_outcome (decodeResponse dec zero resp))
    (w ← noted [ReadFrom c] rd; resp ← of_outcome (readResponse w); of_outcome (decodeResponse dec zero resp))
    (λ o mid, exchanged c (Ok raw) o (Wrote c raw :: mid)).
Proof.
  intros Hd Hrd. eapply (follows_bind _ _ _ _ (λ o mid, mid = [ReadFrom c] ∧ ∃ w, o = Ok w ∧ wakes w)).
  - intros n tr. destruct (Hrd n) as (w & Ew & Hw). unfold noted. destruct (rd n) as [o n']. simpl in Ew. subst o.
    exists (Ok w), n', [ReadFrom c]. split_and!; [done..|eauto].
  - intros w mid1 [-> (w' & [= <-] & Hw)].
    eapply follows_bind; [by apply follows_pure, readResponse_proper| |].
    2: { intros e mid [_ ->]. split; [right; eauto|done]. }
    intros resp mid1 [_ ->]. eapply follows_mono; [by apply follows_pure, decodeResponse_proper|].
    intros o mid [_ ->]. split; [right; eauto|done].
  - by intros e mid [_ (w & ? & _)].
Qed.

Lemma stdio_follows {A} c id m p (dec : decoder A) zero : decoder_proper dec →
  follows (stdio_call c id m p dec zero) (stdio_call (net := Traced) c id m p dec zero)
    (exchanged c (encode_request id m p)).
Proof.
  intros Hd. unfold stdio_call.
  eapply follows_bind; [apply follows_pure, encode_request_proper| |].
  2: { intros e mid [_ ->]. split; [by left|done]. }
  intros raw mid1 [<- ->]. eapply follows_bind; [apply follows_wrap, follows_noted, write_line_proper| |].
  2: { intros e mid (o' & -> & _). split; [right; eauto|done]. }
  intros [] mid1 (o' & -> & _). apply answer_follows; [done|]. apply read_line_wakes.
Qed.

Lemma ws_follows {A} c id m p (dec : decoder A) zero : decoder_proper dec →
  follows (ws_call c id m p dec zero) (ws_call (net := Traced) c id m p dec zero)
    (exchanged c (encode_request id m p)).
Proof.
  intros Hd. unfold ws_call. pose proof (encode_request_proper id m p) as Hp.
  destruct (encode_request id m p) as [raw|e|w|]; try done.
  - eapply follows_bind; [apply follows_wrap, follows_noted; intros n; by apply write_json_proper| |].
    2: { intros e mid (o' & -> & _). split; [right; eauto|done]. }
    intros [] mid1 (o' & -> & _). apply answer_follows; [done|]. apply read_json_wakes.
  - (* the write fails *)
    eapply (follows_bind _ _ _ _ (λ o mid, mid = [] ∧ ∃ e', o = Err e')).
    + intros n tr. destruct (write_json_err c e n) as [e' He]. unfold wrap_err. simpl.
      destruct (write_json c (Err e) n) as [o n']. simpl in He. subst o.
      do 3 eexists. split_and!; eauto.
    + by intros a mid [_ [e' ?]].
    + intros e' mid [-> _]. split; [by left|done].
Qed.

Lemma open_follows s :
  follows (connect s) (connect (net := Traced) s) (λ o mid,
    match o with
    | Ok t => mid = [Opened (rpc_kind t) (rpc_conn t)] ∧ nextID t = 0%Z ∧
              kind_name (rpc_kind t) = Transport_Type s
    | _ => mid = []
    end).
Proof.
  unfold connect. case_bool_decide as Hs; [|case_bool_decide as Hw].
  - eapply follows_bind; [apply follows_noted, command_proper|intros cmd ? ->|by intros ? ? ->].
    unfold newStdioTransport.
    eapply follows_bind; [apply follows_wrap, follows_noted, stdin_proper| |by intros ? ? (? & -> & _)].
    intros [] ? (? & -> & _).
    eapply follows_bind; [apply follows_wrap, follows_noted, stdout_proper| |by intros ? ? (? & -> & _)].
    intros [] ? (? & -> & _).
    eapply follows_bind; [apply follows_wrap, follows_traced, start_proper| |].
    2: { intros e ? (o & -> & E). by destruct o. }
    intros [] ? (o & -> & E). destruct o; try done.
    eapply follows_mono; [by apply (follows_pure (Ok _))|]. by intros o mid [-> ->].
  - unfold newWSTransport.
    eapply follows_bind; [apply follows_wrap, follows_traced, dial_proper| |].
    2: { intros e ? (o & -> & E). by destruct o. }
    intros c ? (o & -> & E). destruct o as [c'| | |]; try done. injection E as ->.
    eapply follows_mono; [by apply (follows_pure (Ok _))|]. by intros o mid [-> ->].
  - eapply follows_mono; [by apply (follows_pure (Err _))|]. by intros o mid [-> ->].
Qed.

(** A whole call. *)
Definition one_exchange {A} (s : Transport) (req : outcome json) (o : outcome A) (tr : list event) : Prop :=
  (tr = [] ∧ ∃ e, o = Err e) ∨
  ∃ k c mid, tr = Opened k c :: mid ++ [Closed k c] ∧ kind_name k = Transport_Type s ∧
    exchanged c req o mid.

Lemma with_transport_follows {A} s m p (dec : decoder A) zero : decoder_proper dec →
  follows (with_transport s (rpc_call m p dec zero))
    (with_transport (net := Traced) s (rpc_call (net := Traced) m p dec zero))
    (one_exchange s (encode_request 1 m p)).
Proof.
  intros Hd. unfold with_transport. eapply follows_bind; [apply open_follows| |].
  2: { intros e mid ->. left. eauto. }
  intros t mid1 (-> & Hid & Hk) n tr. unfold rpc_call. rewrite Hid.
  assert (H : ∃ o n' mid,
    match rpc_kind t with
    | Stdio => stdio_call (rpc_conn t) (0 + 1) m p dec zero n
    | Websocket => ws_call (rpc_conn t) (0 + 1) m p dec zero n
    end = (o, n') ∧
    match rpc_kind t with
    | Stdio => stdio_call (net := Traced) (rpc_conn t) (0 + 1) m p dec zero (n, tr)
    | Websocket => ws_call (net := Traced) (rpc_conn t) (0 + 1) m p dec zero (n, tr)
    end = (o, (n', tr ++ mid)) ∧ proper_outcome o ∧ exchanged (rpc_conn t) (encode_request 1 m p) o mid).
  { destruct (rpc_kind t); [by apply stdio_follows|by apply ws_follows]. }
  destruct H as (o & n' & mid & -> & -> & Ho & Hx).
  destruct t as [[] c id]; simpl in *; unfold close; simpl; unfold noted.
  - destruct (end_process c n') as [oc n2]. exists o, n2, (mid ++ [Closed Stdio c]). rewrite app_assoc.
    split_and!; [done..|]. right. by exists Stdio, c, mid.
  - destruct (hang_up c n') as [oc n2]. exists o, n2, (mid ++ [Closed Websocket c]). rewrite app_assoc.
    split_and!; [done..|]. right. by exists Websocket, c, mid.
Qed.

Lemma goClient_follows {A} (op : client_op A) :
  follows (client_run goClient op) (client_run (goClient (net := Traced)) op)
    (one_exchange (op_transport op) (encode_request 1 (op_request op).1 (op_request op).2)).
Proof.
  destruct op; cbn [client_run op_transport op_request fst snd]; apply with_transport_follows;
    auto with decoders; apply dec_listing_proper; auto with decoders.
Qed.

(** The client keeps the law of the interface. *)
#[export] Instance goClient_ClientLaws : ClientLaws N.
Proof using net_laws.
  constructor. intros s name args n.
  destruct (goClient_follows (OpCallTool s name args) n []) as (o & n' & mid & E & _ & Ho & _).
  change (CallTool s name args n = (o, n')) in E. by rewrite E.
Qed.

(** C17: One connection and at most one exchange per call. Whatever the
    network does, as long as its operations answer (a read may not, when the
    context is over at last), every call of the client answers; either it
    opened nothing, and is an error, or it opened one connection of the kind
    the transport asks for and closed it at its end, and in between wrote at
    most one request, with identifier 1 and the method and parameters of the
    call, and read at most once after that; a call that succeeds did both. *)
Theorem goClient_one_exchange {A} (op : client_op A) (n : N) :
  let '(o, (n', tr)) := client_run (goClient (net := Traced)) op (n, []) in
  client_run goClient op n = (o, n') ∧ proper_outcome o ∧
  one_exchange (op_transport op) (encode_request 1 (op_request op).1 (op_request op).2) o tr.
Proof.
  destruct (goClient_follows op n []) as (o & n' & mid & E & -> & Ho & Hx). by split_and!.
Qed.
End Exchange.

(** ** A server that follows a script

    Every operation succeeds; the reads give the lines of the script. *)
Record Script := mkScript {
  incoming : list RawMessage;
  sent : list json
}.

Definition script_write (j : json) : M Script unit := mmodify (λ sc, mkScript (incoming sc) (sent sc ++ [j])).
Definition line_came (read : error + RawMessage) : moment := mkMoment (Some read) None false.
Definition script_read : M Script moment := λ sc,
  match incoming sc with
  | raw :: rest => (Ok (line_came (inr raw)), mkScript rest (sent sc))
  | [] => (Ok (line_came (inl (ErrorsNew "EOF"))), sc)
  end.

#[export] Instance Script_Net : Net Script := {|
  command := λ _ _, mret 0;
  stdin_pipe := λ _, mret tt;
  stdout_pipe := λ _, mret tt;
  start_process := λ _, mret tt;
  write_line := λ _ j, script_write j;
  read_line := λ _, script_read;
  end_process := λ _, mret tt;
  dial := λ _, mret 0;
  write_json := λ _ o, j ← of_outcome o; script_write j;
  read_json := λ _, script_read;
  hang_up := λ _, mret tt
|}.

Lemma script_read_wakes sc : ∃ w, (script_read sc).1 = Ok w ∧ wakes w.
Proof. unfold script_read. destruct (incoming sc); eexists; (split; [done|by left]). Qed.

#[export] Instance Script_NetLaws : NetLaws Script.
Proof.
  constructor; intros; try exact I; try apply script_read_wakes; [by destruct o|by eexists].
Qed.

(** Lines of a server. *)
Definition result_line (id : Z) (j : json) : RawMessage :=
  RawDoc (JObj [("jsonrpc", JStr "2.0"); ("id", JNum (NInt id)); ("result", j)]).
Definition error_line (id code : Z) (msg : string) : RawMessage :=
  RawDoc (JObj [("jsonrpc", JStr "2.0"); ("id", JNum (NInt id));
                ("error", JObj [("code", JNum (NInt code)); ("message", JStr msg)])]).
Definition notification_line (method : string) (params : json) : RawMessage :=
  RawDoc (JObj [("jsonrpc", JStr "2.0"); ("method", JStr method); ("params", params)]).

Definition int64 (z : Z) : Prop := (- 2 ^ 63 <= z < 2 ^ 63)%Z.

Lemma dec_int64_in z old : int64 z → dec_int64 (JNum (NInt z)) old = Ok z.
Proof. intros [? ?]. unfold dec_int64. by rewrite (proj2 (Z.leb_le _ _)), (proj2 (Z.ltb_lt _ _)). Qed.

#[local] Arguments dec_int64 : simpl never.

(** How an operation reads its result. *)
Definition op_decode {A} (op : client_op A) : decoder A :=
  match op with
  | OpListTools _ => dec_listing "tools" zero_Tool dec_Tool
  | OpListResources _ => dec_listing "resources" zero_Resource dec_Resource
  | OpListPrompts _ => dec_listing "prompts" zero_Prompt dec_Prompt
  | OpCallTool _ _ _ => dec_ToolResult
  | OpReadResource _ _ => dec_listing "contents" zero_Block dec_Block
  | OpGetPrompt _ _ _ => dec_PromptResult
  end.

Definition op_zero {A} (op : client_op A) : A :=
  match op with
  | OpListTools _ | OpListResources _ | OpListPrompts _ | OpReadResource _ _ => []
  | OpCallTool _ _ _ => mkToolResult [] false
  | OpGetPrompt _ _ _ => mkPromptResult "" []
  end.

Lemma client_run_eq {N A} `{Net N} (op : client_op A) :
  client_run goClient op =
    with_transport (op_transport op) (rpc_call (op_request op).1 (op_request op).2 (op_decode op) (op_zero op)).
Proof. by destruct op. Qed.

Lemma of_outcome_bind {S A B} (o : outcome A) (k : A → outcome B) (s : S) :
  (x ← of_outcome o; of_outcome (k x)) s = (o ≫= k, s).
Proof. by destruct o. Qed.

(** A call against a script. *)
Lemma script_call {A} k c m p (dec : decoder A) zero req first rest tr :
  encode_request 1 m p = Ok req →
  match k with
  | Stdio => stdio_call c 1 m p dec zero
  | Websocket => ws_call c 1 m p dec zero
  end (mkScript (first :: rest) tr) =
    (resp ← readResponse (line_came (inr first)); decodeResponse dec zero resp, mkScript rest (tr ++ [req])).
Proof.
  intros Hreq. destruct k; unfold stdio_call, ws_call; rewrite Hreq.
  - do 3 (erewrite bind_ok by reflexivity). apply of_outcome_bind.
  - do 2 (erewrite bind_ok by reflexivity). apply of_outcome_bind.
Qed.

Lemma script_run {A} (op : client_op A) req first rest tr :
  (Transport_Type (op_transport op) = "stdio" ∨ Transport_Type (op_transport op) = "websocket") →
  encode_request 1 (op_request op).1 (op_request op).2 = Ok req →
  client_run goClient op (mkScript (first :: rest) tr) =
    (resp ← readResponse (line_came (inr first)); decodeResponse (op_decode op) (op_zero op) resp,
     mkScript rest (tr ++ [req])).
Proof.
  intros Ht Hreq. rewrite client_run_eq. unfold with_transport, connect.
  assert (Hcall : ∀ k, rpc_call (op_request op).1 (op_request op).2 (op_decode op) (op_zero op)
      (mkScript (first :: rest) tr, mkRpcTransport k 0 0) =
    (resp ← readResponse (line_came (inr first)); decodeResponse (op_decode op) (op_zero op) resp,
     (mkScript rest (tr ++ [req]), mkRpcTransport k 0 1))).
  { intros k. unfold rpc_call. cbn [nextID rpc_kind rpc_conn]. change (0 + 1)%Z with 1%Z.
    pose proof (script_call k 0 _ _ (op_decode op) (op_zero op) req first rest tr Hreq) as H.
    by destruct k; rewrite H. }
  destruct Ht as [-> | ->]; (erewrite bind_ok by reflexivity); cbn beta; by rewrite Hcall.
Qed.

(** The client takes the first line it reads as the answer, whatever it
    is. Against a server whose next line is a result, with any identifier,
    the call gives what that result decodes to; if it is an error, with any
    identifier, the call fails with a JSON-RPC error; and if it is a
    notification, which answers nothing, the call succeeds with an empty
    result. In all cases exactly that line was read and exactly one request
    written. *)
Theorem goClient_first_line_answers {A} (op : client_op A) req first rest tr
    (Ht : Transport_Type (op_transport op) = "stdio" ∨ Transport_Type (op_transport op) = "websocket")
    (Hreq : encode_request 1 (op_request op).1 (op_request op).2 = Ok req) :
  let '(o, sc) := client_run goClient op (mkScript (first :: rest) tr) in
  sc = mkScript rest (tr ++ [req]) ∧
  (∀ id j, int64 id → first = result_line id j → o = op_decode op j (op_zero op)) ∧
  (∀ id code msg, int64 id → int64 code → first = error_line id code msg →
     ∃ e, o = Err e ∧ errors_is e "mcp: json-rpc error" = true) ∧
  (∀ method params, first = notification_line method params → o = Ok (op_zero op)).
Proof.
  rewrite (script_run op req) by done. split; [done|]. split_and!.
  - intros id j Hid ->. unfold readResponse. simpl. rewrite dec_int64_in by done. reflexivity.
  - intros id code msg Hid Hc ->. unfold readResponse. simpl. rewrite dec_int64_in by done. simpl. unfold dec_jsonrpcErr. simpl.
    rewrite dec_int64_in by done. simpl. by eexists.
  - intros method params ->. reflexivity.
Qed.

Lemma goClient_one_exchange_witness :
  let op := OpCallTool (mkTransport "stdio" "server" [] "") "echo" ∅ in
  let r := client_run (goClient (net := Traced)) op
             (mkScript [result_line 1 (JObj [("isError", JBool true)])] [], []) in
  r.1 = Ok (mkToolResult [] true) ∧ length r.2.2 = 4 ∧
  client_run goClient op (mkScript [result_line 1 (JObj [("isError", JBool true)])] []) = (r.1, r.2.1).
Proof.
  cbv zeta. set (op := OpCallTool (mkTransport "stdio" "server" [] "") "echo" ∅).
  set (sc := mkScript [result_line 1 (JObj [("isError", JBool true)])] []).
  split; [vm_compute; reflexivity|]. split; [vm_compute; reflexivity|].
  pose proof (goClient_one_exchange op sc) as H.
  destruct (client_run _ op (sc, [])) as [o [n' tr]]. exact (proj1 H).
Defined.

Definition echo_call : client_op ToolResult := OpCallTool (mkTransport "stdio" "server" [] "") "echo" ∅.

Lemma goClient_first_line_answers_witness :
  (client_run goClient echo_call (mkScript [notification_line "notifications/progress" JNull] [])).1
    = Ok (mkToolResult [] false).
Proof.
  eassert (Hreq : encode_request 1 (op_request echo_call).1 (op_request echo_call).2 = Ok _)
    by (vm_compute; reflexivity).
  pose proof (goClient_first_line_answers echo_call _
    (notification_line "notifications/progress" JNull) [] [] (or_introl eq_refl) Hreq) as H.
  destruct (client_run _ _ _) as [o sc]. exact (proj2 (proj2 (proj2 H)) _ _ eq_refl).
Defined.
