(* ===== verification/Cgo.v ===== *)
(** * The cgo MCP client (internal/mcp/client_cgo.go)

    The client over the C interface of libmcpengine, which is a parameter:
    the class [CEngine], whose functions take and give pointers ([nat]) and
    error buffers.  The client's own part is here: the engine of each call,
    the C strings and their deferred frees, the errors, and the six methods,
    which make [cgoClient] an instance of the [Client] interface.  The mutex
    makes a call of the client one step.  Every C pointer is released exactly
    once, and none is used after that. *)
From S2P Require Import Prelude GoStr GoValue GoFmt Json Codec Mcp Traces Rpc.

Definition errBufSize : nat := 1024.

(** [make([]byte, errBufSize)]. *)
Fixpoint zero_bytes (n : nat) : string :=
  match n with 0 => EmptyString | S n' => String Ascii.zero (zero_bytes n') end.
Definition errBuf : string := zero_bytes errBufSize.

(** Up to the first NUL, or all of it. *)
Fixpoint errString (buf : string) : string :=
  match buf with
  | EmptyString => EmptyString
  | String c rest => if bool_decide (c = Ascii.zero) then EmptyString else String c (errString rest)
  end.

Inductive engine_fn :=
  | mcp_engine_list_tools | mcp_engine_list_resources | mcp_engine_list_prompts
  | mcp_engine_call_tool | mcp_engine_read_resource | mcp_engine_get_prompt.

(** The C side.  [None] is NULL; a function that is given an error buffer
    gives back its contents. *)
Class CEngine (N : Type) := {
  c_string : string → N → nat * N;
  c_free : nat → N → N;
  mcp_engine_new : nat → string → N → (option nat * string) * N;
  mcp_engine_connect : nat → nat → nat → string → N → (Z * string) * N;
  mcp_engine_request : engine_fn → nat → list nat → string → N → (option nat * string) * N;
  go_string : nat → N → string * N;
  mcp_engine_string_free : nat → N → N;
  mcp_engine_free : nat → N → N
}.

Record engine := mkEngine {
  ptr : nat;
  serverID : string
}.

Definition serverIDFor (s : Transport) : string :=
  if bool_decide (URL s ≠ "") then "ws:" +:+ URL s else "stdio:" +:+ Command s.

Definition configJSON : json := JObj [("log_level", JStr "info");
  ("max_message_bytes", JNum (NInt 1048576)); ("sanitize", JBool true);
  ("connect_timeout_ms", JNum (NInt 10000))].

(** [json.Marshal(s)], with the fields that [omitempty] leaves out. *)
Definition encode_Transport (s : Transport) : json :=
  let opt (name : string) (empty : bool) (j : json) := if empty then [] else [(name, j)] in
  JObj ([("type", JStr (Transport_Type s))]
        ++ opt "command" (bool_decide (Command s = "")) (JStr (Command s))
        ++ opt "args" (bool_decide (Args s = [])) (JArr (JStr <$> Args s))
        ++ opt "url" (bool_decide (URL s = "")) (JStr (URL s))).

Section Client.
Context {N : Type} {ce : CEngine N}.
(** The texts of JSON documents, written and read by encoding/json. *)
Context (json_text : json → string) (parse_json : string → RawMessage).

Definition ccall {S A} (f : S → A * S) : M S A := λ s, let '(a, s') := f s in (Ok a, s').
Definition cdo {S} (f : S → S) : M S unit := λ s, (Ok tt, f s).

(** [p := C.CString(s); defer C.free(p)] around the rest of the function. *)
Definition with_cstring {A} (s : string) (k : nat → M N A) : M N A :=
  p ← ccall (c_string s);
  (λ n, let '(o, n') := k p n in (o, c_free p n')) : M N A.

Fixpoint with_cstrings {A} (l : list string) (k : list nat → M N A) : M N A :=
  match l with
  | [] => k []
  | s :: l' => with_cstring s (λ p, with_cstrings l' (λ ps, k (p :: ps)))
  end.

Definition eng_free (e : engine) : M N unit := cdo (mcp_engine_free (ptr e)).

Definition cgo_connect (s : Transport) : M N engine :=
  if bool_decide (Transport_Type s ≠ "stdio") && bool_decide (Transport_Type s ≠ "websocket")
  then mthrow (Wrapf "%w: %s" [FStr (Transport_Type s)] ErrUnsupportedTransport)
  else
    with_cstring (json_text configJSON) (λ cCfg,
      '(e, buf) ← ccall (mcp_engine_new cCfg errBuf);
      match e with
      | None => mthrow (Errorf "mcp: engine allocation failed: %s" [FStr (errString buf)])
      | Some e =>
          let eng := mkEngine e (serverIDFor s) in
          let raw := encode_Transport s in
          with_cstring (serverID eng) (λ cID,
          with_cstring (json_text raw) (λ cTransport,
            '(rc, buf) ← ccall (mcp_engine_connect e cID cTransport buf);
            if (rc =? 0)%Z then mret eng
            else
              _ ← eng_free eng;
              mthrow (Errorf "mcp: connect failed (rc=%d): %s" [FInt rc; FStr (errString buf)])))
      end).

Definition callString (fn : string → N → (option nat * string) * N) : M N string :=
  '(out, buf) ← ccall (fn errBuf);
  match out with
  | None => mthrow (Errorf "mcp: %s" [FStr (errString buf)])
  | Some p =>
      text ← ccall (go_string p);
      _ ← cdo (mcp_engine_string_free p);
      mret text
  end.

(** One of the engine's requests: the identifier of the server and the
    arguments as C strings. *)
Definition eng_request (fn : engine_fn) (args : list string) (e : engine) : M N string :=
  with_cstrings (serverID e :: args) (λ ps, callString (mcp_engine_request fn (ptr e) ps)).

Definition listTools : engine → M N string := eng_request mcp_engine_list_tools [].
Definition listResources : engine → M N string := eng_request mcp_engine_list_resources [].
Definition listPrompts : engine → M N string := eng_request mcp_engine_list_prompts [].
Definition callTool (name argsJSON : string) : engine → M N string :=
  eng_request mcp_engine_call_tool [name; argsJSON].
Definition readResource (uri : string) : engine → M N string :=
  eng_request mcp_engine_read_resource [uri].
Definition getPrompt (name argsJSON : string) : engine → M N string :=
  eng_request mcp_engine_get_prompt [name; argsJSON].

(** [eng, err := c.connect(s); ...; defer eng.free()], and the decoding of
    what the request gave. *)
Definition with_engine {A} (s : Transport) (request : engine → M N string) (dec : decoder A) (zero : A)
    : M N A :=
  eng ← cgo_connect s;
  (λ n, let '(o, n') := (out ← request eng; of_outcome (j ← raw_tree (parse_json out); dec j zero)) n in
        (o, (eng_free eng n').2)) : M N A.

(** Arguments are encoded after the connection; nil ones are an empty map. *)
Definition with_args (args : option (gmap string value)) (k : string → engine → M N string)
    (e : engine) : M N string :=
  argsJSON ← of_outcome (encode_any (VMap (default ∅ args)));
  k (json_text argsJSON) e.

Definition cgo_ListTools (s : Transport) : M N (list Tool) :=
  with_engine s listTools (dec_listing "tools" zero_Tool dec_Tool) [].
Definition cgo_ListResources (s : Transport) : M N (list Resource) :=
  with_engine s listResources (dec_listing "resources" zero_Resource dec_Resource) [].
Definition cgo_ListPrompts (s : Transport) : M N (list Prompt) :=
  with_engine s listPrompts (dec_listing "prompts" zero_Prompt dec_Prompt) [].
Definition cgo_CallTool (s : Transport) (name : string) (args : option (gmap string value))
    : M N ToolResult :=
  with_engine s (with_args args (callTool name)) dec_ToolResult (mkToolResult [] false).
Definition cgo_ReadResource (s : Transport) (uri : string) : M N (list ContentBlock) :=
  with_engine s (readResource uri) (dec_listing "contents" zero_Block dec_Block) [].
Definition cgo_GetPrompt (s : Transport) (name : string) (args : option (gmap string value))
    : M N PromptResult :=
  with_engine s (with_args args (getPrompt name)) dec_PromptResult (mkPromptResult "" []).

(** The callers of the interface pass maps that are not nil. *)
Definition cgoClient : Client N := {|
  ListTools := cgo_ListTools;
  ListResources := cgo_ListResources;
  ListPrompts := cgo_ListPrompts;
  CallTool := λ s name args, cgo_CallTool s name (Some args);
  ReadResource := cgo_ReadResource;
  GetPrompt := λ s name args, cgo_GetPrompt s name (Some args)
|}.
End Client.

(** ** Pointers, as they are taken, used and given back *)
Inductive cptr :=
  | CStr (p : nat)
  | CEng (e : nat)
  | COut (p : nat).

#[export] Instance cptr_eq_dec : EqDecision cptr.
Proof. solve_decision. Defined.

Inductive cevent :=
  | Take (r : cptr)
  | Use (r : cptr)
  | Give (r : cptr).

(** Take the first [r] out of [held]. *)
Fixpoint give_back (r : cptr) (held : list cptr) : option (list cptr) :=
  match held with
  | [] => None
  | x :: held' => if decide (x = r) then Some held' else cons x <$> give_back r held'
  end.

(** The pointers held after a trace; [None] when one was used or given back
    that was not held.  A pointer that C hands out twice is held twice. *)
Fixpoint replay (tr : list cevent) (held : list cptr) : option (list cptr) :=
  match tr with
  | [] => Some held
  | Take r :: tr' => replay tr' (r :: held)
  | Use r :: tr' => if decide (r ∈ held) then replay tr' held else None
  | Give r :: tr' => held' ← give_back r held; replay tr' held'
  end.

Section Traced.
Context {N : Type} {ce : CEngine N}.
Abbreviation TN := (N * list cevent)%type.

Definition noting {A} (ev : A → list cevent) (f : N → A * N) : TN → A * TN := λ '(n, tr),
  let '(a, n') := f n in (a, (n', tr ++ ev a)).
Definition noting_do (ev : list cevent) (f : N → N) : TN → TN := λ '(n, tr), (f n, tr ++ ev).

Definition taken (k : nat → cptr) (r : option nat * string) : list cevent :=
  match r.1 with Some p => [Take (k p)] | None => [] end.

Definition TracedEngine : CEngine TN := {|
  c_string := λ s, noting (λ p, [Take (CStr p)]) (c_string s);
  c_free := λ p, noting_do [Give (CStr p)] (c_free p);
  mcp_engine_new := λ cfg buf, noting (λ r, Use (CStr cfg) :: taken CEng r) (mcp_engine_new cfg buf);
  mcp_engine_connect := λ e cID cT buf,
    noting (λ _, [Use (CEng e); Use (CStr cID); Use (CStr cT)]) (mcp_engine_connect e cID cT buf);
  mcp_engine_request := λ fn e ps buf,
    noting (λ r, Use (CEng e) :: (Use ∘ CStr <$> ps) ++ taken COut r) (mcp_engine_request fn e ps buf);
  go_string := λ p, noting (λ _, [Use (COut p)]) (go_string p);
  mcp_engine_string_free := λ p, noting_do [Give (COut p)] (mcp_engine_string_free p);
  mcp_engine_free := λ e, noting_do [Give (CEng e)] (mcp_engine_free e)
|}.
End Traced.

Lemma replay_app tr1 tr2 L : replay (tr1 ++ tr2) L = replay tr1 L ≫= replay tr2.
Proof.
  revert L. induction tr1 as [|[r|r|r] tr1 IH]; intros L; simpl; [done| | |].
  - apply IH.
  - by case_decide.
  - destruct (give_back r L); simpl; [apply IH|done].
Qed.

Lemma replay_uses (ps : list nat) tr L :
  Forall (λ p, CStr p ∈ L) ps → replay ((Use ∘ CStr <$> ps) ++ tr) L = replay tr L.
Proof. induction 1 as [|p ps Hp _ IH]; [done|]. simpl. by rewrite decide_True. Qed.

Lemma give_back_perm r held L : held ≡ₚ r :: L → ∃ L', give_back r held = Some L' ∧ L' ≡ₚ L.
Proof.
  intros Hp. assert (Hr : r ∈ held) by (rewrite Hp; by left).
  assert (∃ L', give_back r held = Some L' ∧ held ≡ₚ r :: L') as (L' & E & Hp').
  { clear Hp L. induction held as [|x held IH]; [by apply not_elem_of_nil in Hr|]. simpl.
    case_decide as Ex; [exists held; by subst|].
    apply elem_of_cons in Hr as [->|Hr]; [done|]. destruct (IH Hr) as (L' & -> & Hp').
    exists (x :: L'). split; [done|]. rewrite Hp'. apply perm_swap. }
  exists L'. split; [done|]. apply (Permutation_cons_inv (a := r)). by rewrite <- Hp', Hp.
Qed.

Section Safety.
Context {N : Type} {ce : CEngine N}.
Context (json_text : json → string) (parse_json : string → RawMessage).
Abbreviation TN := (N * list cevent)%type.
Abbreviation TE := (@TracedEngine N ce).
Abbreviation nothing := (λ _, []).

(** With [inp] held, and the pointers [need] among all that is held, [m] uses
    and gives back held ones only, and leaves [out] in place of [inp]. *)
Definition balanced {A} (need inp : list cptr) (out : outcome A → list cptr) : outcome A → list cevent → Prop :=
  λ o mid, ∀ L held, held ≡ₚ inp ++ L → need ⊆ held →
    ∃ held', replay mid held = Some held' ∧ held' ≡ₚ out o ++ L.

Definition ptr_safe {A} need inp (out : outcome A → list cptr) (m : M N A) (m' : M TN A) : Prop :=
  follows m m' (balanced need inp out).

Lemma safe_pure {A} need (o : outcome A) out : proper_outcome o → 
  ptr_safe need (out o) out (of_outcome o) (of_outcome o).
Proof.
  intros Ho. eapply follows_mono; [by apply follows_pure|]. intros o' mid [-> ->] L held Hh _. by exists held.
Qed.

Lemma safe_ret {A} need inp (a : A) out : inp = out (Ok a) → ptr_safe need inp out (mret a) (mret a).
Proof. intros ->. by apply (safe_pure need (Ok a)). Qed.

Lemma safe_throw {A} need inp e out : inp = out (Err e) → ptr_safe (A := A) need inp out (mthrow e) (mthrow e).
Proof. intros ->. by apply (safe_pure need (Err e)). Qed.

(** More may be held. *)
Lemma ptr_safe_mono {A} need need' inp out (m : M N A) m' :
  ptr_safe need inp out m m' → need ⊆ need' → ptr_safe need' inp out m m'.
Proof. intros H Hn. eapply follows_mono; [exact H|]. intros o mid Hb L held Hh Hn'. apply Hb; [done|set_solver]. Qed.

Lemma ptr_safe_bind {A B} need inp mid_out out (m : M N A) m' (k : A → M N B) k' :
  ptr_safe need inp mid_out m m' → (∀ a, ptr_safe [] (mid_out (Ok a)) out (k a) (k' a)) →
  (∀ e, out (Err e) = mid_out (Err e)) →
  ptr_safe need inp out (m ≫= k) (m' ≫= k').
Proof.
  intros Hm Hk He. eapply follows_bind; [exact Hm| |].
  - intros a mid Hmid. eapply follows_mono; [apply Hk|]. intros o mid2 H L held Hh Hn.
    destruct (Hmid L held Hh Hn) as (h1 & E1 & Hh1). rewrite replay_app, E1. apply (H L h1 Hh1). set_solver.
  - intros e mid Hmid L held Hh Hn. rewrite He. by apply Hmid.
Qed.

(** A call that takes [get a] when it gives [a]. *)
Lemma safe_ccall {A B} need inp (get : A → list cptr) ev (f : N → A * N) out (k : A → M N B) k' :
  (∀ a held, need ⊆ held → inp ⊆ held → replay (ev a) held = Some (get a ++ held)) →
  (∀ a, ptr_safe need (get a ++ inp) out (k a) (k' a)) →
  ptr_safe need inp out (ccall f ≫= k) (ccall (noting ev f) ≫= k').
Proof.
  intros Hev Hk. eapply follows_bind with (P := λ o mid, ∃ a, o = Ok a ∧ mid = ev a).
  - intros n tr. unfold ccall, noting. destruct (f n) as [a n']. exists (Ok a), n', (ev a).
    split_and!; [done..|by exists a].
  - intros a mid (a' & [= <-] & ->). eapply follows_mono; [apply Hk|]. intros o mid H L held Hh Hn.
    rewrite replay_app, (Hev a held Hn) by (rewrite Hh; set_solver). apply H; [by rewrite <- app_assoc, Hh|set_solver].
  - by intros e mid (? & ? & _).
Qed.

(** A release. *)
Lemma safe_release {B} inp r (f : N → N) out (k : unit → M N B) k' :
  ptr_safe [] inp out (k tt) (k' tt) →
  ptr_safe [] (r :: inp) out (cdo f ≫= k) (cdo (noting_do [Give r] f) ≫= k').
Proof.
  intros Hk. eapply follows_bind with (P := λ o mid, o = Ok tt ∧ mid = [Give r]).
  - intros n tr. by exists (Ok tt), (f n), [Give r].
  - intros [] mid [_ ->]. eapply follows_mono; [exact Hk|]. intros o mid H L held Hh _. simpl.
    destruct (give_back_perm r held (inp ++ L) Hh) as (h & -> & Hp). apply (H L h Hp). set_solver.
  - by intros e mid [? _].
Qed.

(** A deferred release, at the end of [m] whatever it returns. *)
Lemma safe_finally {A} need inp r (f : N → N) out (m : M N A) m' :
  ptr_safe (r :: need) inp out m m' →
  ptr_safe need (r :: inp) out (λ n, let '(o, n') := m n in (o, f n'))
    (λ n, let '(o, n') := m' n in (o, noting_do [Give r] f n')).
Proof.
  intros Hm n tr. destruct (Hm n tr) as (o & n' & mid & E & E' & Ho & Hmid). rewrite E, E'.
  exists o, (f n'), (mid ++ [Give r]). simpl. rewrite app_assoc. split_and!; [done..|].
  intros L held Hh Hn. destruct (Hmid (r :: L) held) as (h & E1 & Hp).
  - rewrite Hh. simpl. apply Permutation_middle.
  - intros x [->|Hx]%elem_of_cons; [|auto]. rewrite Hh. by left.
  - rewrite replay_app, E1. simpl.
    destruct (give_back_perm r h (out o ++ L)) as (h' & -> & Hp'); [|by exists h'].
    rewrite Hp. symmetry. apply Permutation_middle.
Qed.

Lemma safe_with_cstring {A} need inp out s (k : nat → M N A) k' :
  (∀ p, ptr_safe (CStr p :: need) inp out (k p) (k' p)) →
  ptr_safe need inp out (with_cstring s k) (with_cstring (ce := TE) s k').
Proof.
  intros Hk. unfold with_cstring.
  apply (safe_ccall need inp (λ p, [CStr p]) (λ p, [Take (CStr p)])); [done|].
  intros p. apply (safe_finally need inp (CStr p)), Hk.
Qed.

Lemma safe_with_cstrings {A} need inp out l (k : list nat → M N A) k' :
  (∀ ps, ptr_safe ((CStr <$> ps) ++ need) inp out (k ps) (k' ps)) →
  ptr_safe need inp out (with_cstrings l k) (with_cstrings (ce := TE) l k').
Proof.
  revert need k k'. induction l as [|s l IH]; intros need k k' Hk; simpl; [apply (Hk [])|].
  apply safe_with_cstring. intros p. apply IH. intros ps.
  eapply ptr_safe_mono; [apply (Hk (p :: ps))|]. simpl. set_solver.
Qed.

Lemma safe_callString need fn e ps :
  CEng e ∈ need → Forall (λ p, CStr p ∈ need) ps →
  ptr_safe need [] nothing (callString (mcp_engine_request fn e ps))
    (callString (ce := TE) (mcp_engine_request (CEngine := TE) fn e ps)).
Proof.
  intros He Hps. unfold callString.
  apply (safe_ccall need [] (λ r, match r.1 with Some p => [COut p] | None => [] end)
    (λ r, Use (CEng e) :: (Use ∘ CStr <$> ps) ++ taken COut r)).
  { intros [out buf] held HL _. simpl. rewrite decide_True by auto. rewrite replay_uses.
    - by destruct out.
    - eapply Forall_impl; [exact Hps|]. auto. }
  intros [[p|] buf]; simpl; [|by apply safe_throw].
  eapply ptr_safe_mono; [|apply list_subseteq_nil].
  apply (safe_ccall [] [COut p] (λ _, []) (λ _, [Use (COut p)])).
  { intros text held _ Hp. simpl. by rewrite decide_True by set_solver. }
  intros text. apply safe_release. by apply safe_ret.
Qed.

Lemma safe_request need fn args (e : engine) :
  CEng (ptr e) ∈ need →
  ptr_safe need [] nothing (eng_request fn args e) (eng_request (ce := TE) fn args e).
Proof.
  intros He. unfold eng_request. apply safe_with_cstrings. intros ps.
  apply safe_callString; [set_solver|]. apply Forall_forall. intros p Hp.
  apply elem_of_app. left. by apply list_elem_of_fmap_2.
Qed.

(** A connection leaves the engine it gives, and nothing when it fails. *)
Definition engine_held (o : outcome engine) : list cptr :=
  match o with Ok e => [CEng (ptr e)] | _ => [] end.

Lemma safe_connect s :
  ptr_safe [] [] engine_held (cgo_connect json_text s) (cgo_connect (ce := TE) json_text s).
Proof.
  unfold cgo_connect. case_match; [by apply safe_throw|].
  apply safe_with_cstring. intros cfg.
  apply (safe_ccall _ [] (λ r, match r.1 with Some e => [CEng e] | None => [] end)
    (λ r, Use (CStr cfg) :: taken CEng r)).
  { intros [e buf] held Hn _. simpl. rewrite decide_True by set_solver. by destruct e. }
  intros [[e|] buf]; simpl; [|by apply safe_throw].
  apply safe_with_cstring. intros cID. apply safe_with_cstring. intros cT.
  apply (safe_ccall _ [CEng e] (λ _, []) (λ _, [Use (CEng e); Use (CStr cID); Use (CStr cT)])).
  { intros r held Hn Hi. simpl. by rewrite !decide_True by set_solver. }
  intros [rc buf']. simpl. case_match; [by apply safe_ret|].
  eapply ptr_safe_mono; [|apply list_subseteq_nil]. apply safe_release. by apply safe_throw.
Qed.

Lemma safe_with_engine {A} s rq rq' (dec : decoder A) zero :
  decoder_proper dec → (∀ e, ptr_safe [CEng (ptr e)] [] nothing (rq e) (rq' e)) →
  ptr_safe [] [] nothing (with_engine json_text parse_json s rq dec zero)
    (with_engine (ce := TE) json_text parse_json s rq' dec zero).
Proof.
  intros Hd Hrq. unfold with_engine.
  eapply ptr_safe_bind; [apply safe_connect| |done]. intros e. simpl.
  apply (safe_finally [] [] (CEng (ptr e)) (mcp_engine_free (ptr e))).
  eapply ptr_safe_bind; [apply Hrq| |done]. intros out. apply (safe_pure [] _ nothing).
  destruct (parse_json out); [done..|apply Hd].
Qed.

Lemma safe_with_args need args k k' (e : engine) :
  (∀ text, ptr_safe need [] nothing (k text e) (k' text e)) →
  ptr_safe need [] nothing (with_args json_text args k e) (with_args json_text args k' e).
Proof.
  intros Hk. unfold with_args.
  eapply follows_bind; [apply follows_pure, encode_any_proper| |].
  - intros j mid [_ ->]. apply Hk.
  - intros e' mid [_ ->] L held Hh _. by exists held.
Qed.

Lemma cgo_safe {A} (op : client_op A) :
  ptr_safe [] [] nothing (client_run (cgoClient json_text parse_json) op)
    (client_run (cgoClient (ce := TE) json_text parse_json) op).
Proof.
  destruct op; cbn [client_run]; apply safe_with_engine;
    auto with decoders; try (apply dec_listing_proper; auto with decoders);
    intros e; try apply safe_with_args; intros; apply safe_request; by left.
Qed.

(** C18: Every C pointer is given back exactly once and used only while it is
    held.  Whatever libmcpengine answers, every call of the client answers,
    and in its trace each C string, engine and result string that was taken
    is used only before it is given back, is given back once, and none is
    left at the end, on every path, errors included. *)
Theorem cgo_pointers_safe {A} (op : client_op A) (n : N) :
  let '(o, (n', tr)) := client_run (cgoClient (ce := TE) json_text parse_json) op (n, []) in
  client_run (cgoClient json_text parse_json) op n = (o, n') ∧ proper_outcome o ∧
  replay tr [] = Some [].
Proof.
  destruct (cgo_safe op n []) as (o & n' & mid & E & -> & Ho & Hb). split_and!; [done..|].
  destruct (Hb [] []) as (h & Eh & Hp); [done..|]. simpl in *. by apply Permutation_nil_r in Hp as ->.
Qed.

(** The client keeps the law of the interface. *)
Lemma cgoClient_ClientLaws : @ClientLaws N (cgoClient json_text parse_json).
Proof.
  constructor. intros s name args n.
  destruct (cgo_safe (OpCallTool s name args) n []) as (o & n' & mid & E & _ & Ho & _).
  change (@CallTool N (cgoClient json_text parse_json) s name args n = (o, n')) in E. by rewrite E.
Qed.
End Safety.

(** An engine that hands out the numbers in turn, always connects, and
    answers every request with an empty object. *)
#[export] Instance toy_engine : CEngine nat := {|
  c_string := λ _ n, (n, S n);
  c_free := λ _ n, n;
  mcp_engine_new := λ _ buf n, ((Some n, buf), S n);
  mcp_engine_connect := λ _ _ _ buf n, ((0%Z, buf), n);
  mcp_engine_request := λ _ _ _ buf n, ((Some n, buf), S n);
  go_string := λ _ n, ("{}", n);
  mcp_engine_string_free := λ _ n, n;
  mcp_engine_free := λ _ n, n
|}.

Example cgo_list_tools_trace :
  client_run (cgoClient (ce := TracedEngine) (λ _, "{}") (λ _, RawDoc (JObj [])))
    (OpListTools (mkTransport "stdio" "server" [] "")) (0, []) =
  (Ok [], (6,
    [Take (CStr 0); Use (CStr 0); Take (CEng 1); Take (CStr 2); Take (CStr 3);
     Use (CEng 1); Use (CStr 2); Use (CStr 3); Give (CStr 3); Give (CStr 2); Give (CStr 0);
     Take (CStr 4); Use (CEng 1); Use (CStr 4); Take (COut 5); Use (COut 5); Give (COut 5);
     Give (CStr 4); Give (CEng 1)])).
Proof. vm_compute. reflexivity. Qed.
