(* ===== verification/Sql.v ===== *)
(** * The relational database (migrations/0001_init.sql, and what pgx.go asks)

    The schema of the migrations, the statements the PostgreSQL store makes
    with their parameters, and the two things outside the repository as
    classes: [Pgx], the conversions between Go values and columns, and
    [Database], which runs a statement.  Their laws are the documented
    behaviour: a statement that the server refuses changes nothing; one whose
    answer is lost was done or not; one that succeeds does what [sql_insert],
    [sql_update], [sql_delete] and [selects] say, with the keys, references
    and NOT NULL columns of the schema kept; timestamps hold microseconds; jsonb does not keep the order of members or all but the
    last of members with one name. *)
From stdpp Require Import sorting.
From S2P Require Import Prelude GoStr GoValue Json Model Codec.

(** ** The schema *)
Inductive coltype := UUID | TEXT | BOOLEAN | TIMESTAMPTZ | JSONB.

Record column := mkColumn {
  col_name : string;
  col_type : coltype;
  col_nullable : bool
}.

(** [tb_refs]: a column and the table whose id it references, ON DELETE
    CASCADE.  Every table has the primary key id. *)
Record table_def := mkTableDef {
  tb_name : string;
  tb_columns : list column;
  tb_unique : list (list string);
  tb_refs : list (string * string)
}.

Definition not_null (n : string) (t : coltype) : column := mkColumn n t false.
Definition nullable (n : string) (t : coltype) : column := mkColumn n t true.

Definition schema : list table_def := [
  mkTableDef "tenants"
    [not_null "id" UUID; not_null "name" TEXT; not_null "created_at" TIMESTAMPTZ] [] [];
  mkTableDef "users"
    [not_null "id" UUID; not_null "tenant_id" UUID; not_null "username" TEXT;
     not_null "password_hash" TEXT; not_null "role" TEXT; not_null "created_at" TIMESTAMPTZ;
     not_null "updated_at" TIMESTAMPTZ]
    [["tenant_id"; "username"]] [("tenant_id", "tenants")];
  mkTableDef "agents"
    [not_null "id" UUID; not_null "tenant_id" UUID; not_null "name" TEXT; not_null "profile" TEXT;
     not_null "system_prompt" TEXT; not_null "skills" JSONB; not_null "enabled" BOOLEAN;
     not_null "created_at" TIMESTAMPTZ; not_null "updated_at" TIMESTAMPTZ]
    [] [("tenant_id", "tenants")];
  mkTableDef "mcp_servers"
    [not_null "id" UUID; not_null "tenant_id" UUID; not_null "name" TEXT; not_null "transport" JSONB;
     not_null "enabled" BOOLEAN; not_null "status" TEXT; not_null "created_at" TIMESTAMPTZ;
     not_null "updated_at" TIMESTAMPTZ]
    [] [("tenant_id", "tenants")];
  mkTableDef "flows"
    [not_null "id" UUID; not_null "tenant_id" UUID; not_null "name" TEXT; not_null "flow_json" JSONB;
     not_null "permissions" JSONB; not_null "enabled" BOOLEAN; not_null "created_at" TIMESTAMPTZ;
     not_null "updated_at" TIMESTAMPTZ]
    [] [("tenant_id", "tenants")];
  mkTableDef "runs"
    [not_null "id" UUID; not_null "flow_id" UUID; not_null "tenant_id" UUID; not_null "status" TEXT;
     not_null "started_at" TIMESTAMPTZ; nullable "finished_at" TIMESTAMPTZ; not_null "logs" JSONB;
     nullable "result" JSONB]
    [] [("flow_id", "flows"); ("tenant_id", "tenants")];
  mkTableDef "tasks"
    [not_null "id" UUID; not_null "tenant_id" UUID; not_null "input" TEXT; not_null "status" TEXT;
     not_null "subtasks" JSONB; nullable "result" JSONB; not_null "created_at" TIMESTAMPTZ;
     not_null "updated_at" TIMESTAMPTZ]
    [] [("tenant_id", "tenants")]
].

Definition table_def_of (t : string) : option table_def :=
  head (filter (λ d, tb_name d = t) schema).
Definition column_of (t c : string) : option column :=
  d ← table_def_of t; head (filter (λ x, col_name x = c) (tb_columns d)).

(** ** Values *)
Inductive sqlval :=
  | SNull
  | SUuid (u : string)
  | SText (s : string)
  | SBool (b : bool)
  | STime (t : Time)
  | SJson (j : json).

(** The Go values that are passed: strings, bools, times, [*time.Time],
    [json.RawMessage] and the [[]byte] of json.Marshal (empty for nil). *)
Inductive goval :=
  | GString (s : string)
  | GBool (b : bool)
  | GTime (t : Time)
  | GTimePtr (t : option Time)
  | GRaw (r : RawMessage)
  | GBytes (r : RawMessage).

(** [=] in a condition.  NULL equals nothing; no statement here compares
    documents. *)
Definition sql_eq (a b : sqlval) : bool :=
  match a, b with
  | SUuid x, SUuid y => bool_decide (x = y)
  | SText x, SText y => bool_decide (x = y)
  | SBool x, SBool y => bool_decide (x = y)
  | STime x, STime y => bool_decide (x = y)
  | _, _ => false
  end.

(** ** Statements, with the parameters in the order of the columns *)
Inductive sql_stmt :=
  | Insert (t : string) (cols : list string)
  | Update (t : string) (set key : list string)
  | Delete (t : string) (key : list string).

Record sql_select := Select {
  sel_table : string;
  sel_cols : list string;
  sel_key : list string;
  sel_order : option string
}.

Definition stmt_columns (st : sql_stmt) : list (string * string) :=
  match st with
  | Insert t cols => (t,.) <$> cols
  | Update t set key => (t,.) <$> set ++ key
  | Delete t key => (t,.) <$> key
  end.

(** ** Tables: rows by primary key *)
Abbreviation sql_row := (gmap string sqlval).
Abbreviation sql_table := (gmap string sql_row).
Abbreviation sql_tables := (gmap string sql_table).

Definition rows_of (T : sql_tables) (t : string) : sql_table := default ∅ (T !! t).

Definition matches (key : list (string * sqlval)) (r : sql_row) : bool :=
  forallb (λ kv, match r !! kv.1 with Some v => sql_eq v kv.2 | None => false end) key.

Definition not_nulls_ok (d : table_def) (r : sql_row) : bool :=
  forallb (λ c, match r !! col_name c with Some SNull | None => col_nullable c | Some _ => true end)
    (tb_columns d).

Definition agree (cols : list string) (r1 r2 : sql_row) : bool :=
  forallb (λ c, match r1 !! c, r2 !! c with Some a, Some b => sql_eq a b | _, _ => false end) cols.

(** No other row of [tb] agrees with [r], the row of [u], on unique columns. *)
Definition uniques_ok (d : table_def) (tb : sql_table) (u : string) (r : sql_row) : bool :=
  forallb (λ kv, bool_decide (kv.1 = u) || negb (existsb (λ cols, agree cols kv.2 r) (tb_unique d)))
    (map_to_list tb).

Definition refs_ok (d : table_def) (T : sql_tables) (r : sql_row) : bool :=
  forallb (λ cr, match r !! cr.1 with
                 | Some (SUuid u) => bool_decide (is_Some (rows_of T cr.2 !! u))
                 | _ => false
                 end) (tb_refs d).

Definition sql_insert (t : string) (kvs : list (string * sqlval)) (T : sql_tables)
    : option (Z * sql_tables) :=
  d ← table_def_of t;
  let r : sql_row := list_to_map kvs in
  match r !! "id" with
  | Some (SUuid u) =>
      if bool_decide (rows_of T t !! u = None) && not_nulls_ok d r && uniques_ok d (rows_of T t) u r
         && refs_ok d T r
      then Some (1%Z, <[t := <[u := r]> (rows_of T t)]> T) else None
  | _ => None
  end.

Definition set_columns (kvs : list (string * sqlval)) (r : sql_row) : sql_row := list_to_map kvs ∪ r.

(** The new rows; an update of this program never sets a key. *)
Definition updated (set key : list (string * sqlval)) (tb : sql_table) : sql_table :=
  (λ r, if matches key r then set_columns set r else r) <$> tb.

Definition matching (key : list (string * sqlval)) (tb : sql_table) : list (string * sql_row) :=
  filter (λ kv, matches key kv.2 = true) (map_to_list tb).

Definition sql_update (t : string) (set key : list (string * sqlval)) (T : sql_tables)
    : option (Z * sql_tables) :=
  d ← table_def_of t;
  let tb := updated set key (rows_of T t) in
  if forallb (λ kv, not_nulls_ok d (set_columns set kv.2)
                    && uniques_ok d tb kv.1 (set_columns set kv.2)) (matching key (rows_of T t))
  then Some (Z.of_nat (length (matching key (rows_of T t))), <[t := tb]> T) else None.

(** The columns that reference a table. *)
Definition referencing (t : string) : list (string * string) :=
  d ← schema; cr ← tb_refs d; if bool_decide (cr.2 = t) then [(tb_name d, cr.1)] else [].

Definition refers (c : string) (ids : list string) (r : sql_row) : bool :=
  match r !! c with Some (SUuid u) => bool_decide (u ∈ ids) | _ => false end.

(** Delete the rows of [t] that satisfy [p], then those that reference them;
    [n] bounds the chain of references, at most as long as the schema. *)
Fixpoint delete_rows (n : nat) (t : string) (p : sql_row → bool) (T : sql_tables) : sql_tables :=
  match n with
  | 0 => T
  | S n' =>
      let gone := (filter (λ kv, p kv.2 = true) (map_to_list (rows_of T t))).*1 in
      let T1 := <[t := filter (λ kv, p kv.2 = false) (rows_of T t)]> T in
      foldr (λ tc T2, delete_rows n' tc.1 (refers tc.2 gone) T2) T1 (referencing t)
  end.

Definition sql_delete (t : string) (key : list (string * sqlval)) (T : sql_tables) : Z * sql_tables :=
  (Z.of_nat (length (matching key (rows_of T t))), delete_rows (length schema) t (matches key) T).

Definition sql_exec (st : sql_stmt) (vs : list sqlval) (T : sql_tables) : option (Z * sql_tables) :=
  match st with
  | Insert t cols => sql_insert t (zip cols vs) T
  | Update t set key =>
      sql_update t (zip set (take (length set) vs)) (zip key (drop (length set) vs)) T
  | Delete t key => Some (sql_delete t (zip key vs) T)
  end.

Definition project (cols : list string) (r : sql_row) : list sqlval := (λ c, default SNull (r !! c)) <$> cols.

(** ** jsonb *)
Definition last_wins : list (string * json) → list (string * json) :=
  foldr (λ kv acc, if bool_decide (kv.1 ∈ acc.*1) then acc else kv :: acc) [].

(** A document and what jsonb keeps of it. *)
Inductive same_json : json → json → Prop :=
  | same_null : same_json JNull JNull
  | same_bool b : same_json (JBool b) (JBool b)
  | same_num n : same_json (JNum n) (JNum n)
  | same_str s : same_json (JStr s) (JStr s)
  | same_arr l l' : Forall2 same_json l l' → same_json (JArr l) (JArr l')
  | same_obj fs mid fs' :
      Forall2 (λ a b, a.1 = b.1 ∧ same_json a.2 b.2) (last_wins fs) mid → mid ≡ₚ fs' →
      same_json (JObj fs) (JObj fs').

(** ** pgx and the database server *)

(** Microseconds: a timestamp column drops the rest. *)
Definition micros (t : Time) : Time := (t - t mod 1000)%Z.

Class Pgx := {
  to_sql : coltype → goval → outcome sqlval;
  scan_string : sqlval → outcome string;
  scan_bool : sqlval → outcome bool;
  scan_time : sqlval → outcome Time;
  scan_time_ptr : sqlval → outcome (option Time);
  scan_raw : sqlval → outcome RawMessage;
  scan_json : ∀ {A}, decoder A → A → sqlval → outcome A
}.

(** The error of QueryRow when there is no row. *)
Definition pgx_ErrNoRows : error := ErrorsNew "no rows in result set".

(** An error of the driver: none of the store's own, nor ErrNoRows. *)
Definition driver_error (e : error) : Prop :=
  e ≠ pgx_ErrNoRows ∧
  Forall (λ m, errors_is e m = false)
    ["store: not found"; "store: conflict"; "store: invalid input"; "store: unauthorized"].

Definition driver_outcome {A} (o : outcome A) : Prop :=
  match o with Ok _ => True | Err e => driver_error e | _ => False end.

(** A uuid column gives its canonical text; NULL is nil for the types that
    have one; a scan that fails is an error of pgx. *)
Class PgxLaws `(Pgx) := {
  uuid_in s v : to_sql UUID (GString s) = Ok v → ∃ u, v = SUuid u ∧ to_sql UUID (GString u) = Ok v;
  text_in s v : to_sql TEXT (GString s) = Ok v → v = SText s;
  bool_in b v : to_sql BOOLEAN (GBool b) = Ok v → v = SBool b;
  time_in t v : to_sql TIMESTAMPTZ (GTime t) = Ok v → v = STime (micros t);
  time_ptr_in t v : to_sql TIMESTAMPTZ (GTimePtr t) = Ok v →
    v = match t with Some t => STime (micros t) | None => SNull end;
  raw_in g r v : g = GRaw r ∨ g = GBytes r → to_sql JSONB g = Ok v →
    match r with
    | RawEmpty => v = SNull
    | RawMalformed => False
    | RawDoc j => ∃ j', v = SJson j' ∧ same_json j j'
    end;
  uuid_out u : scan_string (SUuid u) = Ok u;
  text_out s : scan_string (SText s) = Ok s;
  bool_out b : scan_bool (SBool b) = Ok b;
  time_out t : scan_time (STime t) = Ok t;
  time_ptr_out t : scan_time_ptr (STime t) = Ok (Some t);
  time_ptr_null : scan_time_ptr SNull = Ok None;
  raw_out j : scan_raw (SJson j) = Ok (RawDoc j);
  raw_null : scan_raw SNull = Ok RawEmpty;
  json_out {A} (dec : decoder A) zero j a : dec j zero = Ok a → scan_json dec zero (SJson j) = Ok a;
  scan_string_answers v : driver_outcome (scan_string v);
  scan_bool_answers v : driver_outcome (scan_bool v);
  scan_time_answers v : driver_outcome (scan_time v);
  scan_time_ptr_answers v : driver_outcome (scan_time_ptr v);
  scan_raw_answers v : driver_outcome (scan_raw v);
  scan_json_answers {A} (dec : decoder A) zero v : decoder_proper dec → driver_outcome (scan_json dec zero v)
}.

Class Database (S : Type) := {
  db_exec : sql_stmt → list goval → M S Z;
  db_query : sql_select → list goval → M S (list (list sqlval));
  sql_le : sqlval → sqlval → bool
}.

(** The parameters as the columns take them. *)
Definition bind_args `{Pgx} (cols : list (string * string)) (args : list goval) (vs : list sqlval) : Prop :=
  Forall2 (λ ct v, match column_of ct.1.1 ct.1.2 with
                   | Some c => to_sql (col_type c) ct.2 = Ok v
                   | None => False
                   end) (zip cols args) vs ∧ length cols = length args.

(** [rows] are the rows that match, each once, in the order asked for. *)
Definition selects (le : sqlval → sqlval → bool) (q : sql_select) (vs : list sqlval) (T : sql_tables)
    (rows : list (list sqlval)) : Prop :=
  ∃ kvs : list (string * sql_row),
    kvs ≡ₚ matching (zip (sel_key q) vs) (rows_of T (sel_table q)) ∧
    rows = project (sel_cols q) <$> kvs.*2 ∧
    match sel_order q with
    | None => True
    | Some c => StronglySorted (λ a b, le (default SNull (a !! c)) (default SNull (b !! c)) = true) kvs.*2
    end.

(** No parameters make the statement one that the schema accepts. *)
Definition refused `{Pgx} (st : sql_stmt) (args : list goval) (T : sql_tables) : Prop :=
  ∀ vs, bind_args (stmt_columns st) args vs → sql_exec st vs T = None.

(** [reachable s]: the server answers the next statement and is able to do
    it.  [db_failure]: the errors of Exec and Query themselves, by which the
    server refuses a statement or pgx says that it has no answer; the errors
    of a Scan are not among them.  A statement whose answer is lost may have
    been done, all of it or nothing; one that a server refuses has not. *)
Class DatabaseLaws (S : Type) `{Pgx} `{Database S} := {
  db_tables : S → sql_tables;
  reachable : S → Prop;
  db_failure : error → Prop;
  db_failure_driver e : db_failure e → driver_error e;
  exec_law st args s :
    match db_exec st args s with
    | (Ok n, s') => ∃ vs, bind_args (stmt_columns st) args vs ∧
        sql_exec st vs (db_tables s) = Some (n, db_tables s')
    | (Err e, s') => db_failure e ∧ (reachable s → refused st args (db_tables s)) ∧
        (db_tables s' = db_tables s ∨
         ∃ vs n, bind_args (stmt_columns st) args vs ∧ sql_exec st vs (db_tables s) = Some (n, db_tables s'))
    | _ => False
    end;
  query_law q args s :
    match db_query q args s with
    | (Ok rows, s') => db_tables s' = db_tables s ∧
        ∃ vs, bind_args ((sel_table q,.) <$> sel_key q) args vs ∧ selects sql_le q vs (db_tables s) rows
    | (Err e, s') => db_tables s' = db_tables s ∧ db_failure e ∧
        (reachable s → ∀ vs, ¬ bind_args ((sel_table q,.) <$> sel_key q) args vs)
    | _ => False
    end
}.
