(* ===== verification/Pg.v ===== *)
(** * The PostgreSQL store (internal/store/pgx.go, json_helpers.go)

    One definition per method, with its statement, its parameters and its
    scan in the order of the code, over any [Database].  [PG_Store] is the
    implementation of the Store interface.  Strings inside documents are
    valid UTF-8, as those decoded from a request are. *)
From S2P Require Import Prelude GoStr GoValue Json Model Store StoreSpec Codec Traces Sql.

(** ** json_helpers.go: the documents of the json columns *)
Definition encode_Skill (s : Skill) : json :=
  JObj [("name", JStr (Skill_Name s)); ("server_id", JStr (Skill_ServerID s)); ("tool", JStr (Skill_Tool s))].

(** A nil slice of strings is null; an empty one, which the data model does not
    tell from it, is [[]]: both are decoded to the empty list. *)
Definition encode_strings (l : list string) : json :=
  match l with [] => JNull | _ => JArr (JStr <$> l) end.

Definition encode_Permissions (p : FlowPermissionSet) : json :=
  JObj [("resources", encode_strings (Resources p)); ("files", encode_strings (Files p));
        ("databases", encode_strings (Databases p))].

(** A RawMessage inside a struct: a malformed one is an error of Marshal; the
    empty one is left out by [omitempty]. *)
Definition encode_Subtask (s : Subtask) : option json :=
  let head := [("id", JStr (Subtask_ID s)); ("agent_id", JStr (Subtask_AgentID s));
               ("description", JStr (Subtask_Description s)); ("status", JStr (Subtask_Status s))] in
  match Subtask_Result s with
  | RawEmpty => Some (JObj head)
  | RawMalformed => None
  | RawDoc j => Some (JObj (head ++ [("result", j)]))
  end.

Definition skillsJSON (skills : list Skill) : goval := GBytes (RawDoc (JArr (encode_Skill <$> skills))).
Definition permissionsJSON (p : FlowPermissionSet) : goval := GBytes (RawDoc (encode_Permissions p)).

(** [b, _ := json.Marshal(subtasks)]: nil after an error. *)
Definition subtasksJSON (subtasks : list Subtask) : goval :=
  GBytes (match mapM encode_Subtask subtasks with Some l => RawDoc (JArr l) | None => RawEmpty end).

Section Times.
Context (time_text : Time → string).
Definition encode_LogEntry (e : LogEntry) : json :=
  JObj [("timestamp", JStr (time_text (Timestamp e))); ("level", JStr (Level e));
        ("message", JStr (Message e)); ("source", JStr (Source e))].
Definition logsJSON (logs : list LogEntry) : goval := GBytes (RawDoc (JArr (encode_LogEntry <$> logs))).
End Times.

(** Their decoding when they are scanned. *)
Definition zero_Subtask : Subtask := mkSubtask "" "" "" "" RawEmpty.
Definition Subtask_names : list string := ["id"; "agent_id"; "description"; "status"; "result"].
Definition Subtask_field (name : string) : decoder Subtask := λ j s,
  let '(mkSubtask i a d st r) := s in
  if bool_decide (name = "id") then x ← dec_string j i; Ok (mkSubtask x a d st r)
  else if bool_decide (name = "agent_id") then x ← dec_string j a; Ok (mkSubtask i x d st r)
  else if bool_decide (name = "description") then x ← dec_string j d; Ok (mkSubtask i a x st r)
  else if bool_decide (name = "status") then x ← dec_string j st; Ok (mkSubtask i a d x r)
  else x ← dec_raw j r; Ok (mkSubtask i a d st x).
Definition dec_Subtask : decoder Subtask := dec_struct Subtask_names Subtask_field.

Definition zero_LogEntry : LogEntry := mkLogEntry zero_time "" "" "".
Definition LogEntry_names : list string := ["timestamp"; "level"; "message"; "source"].
Definition LogEntry_field (parse_time : string → outcome Time) (name : string) : decoder LogEntry := λ j e,
  let '(mkLogEntry t l m s) := e in
  if bool_decide (name = "timestamp") then x ← dec_time parse_time j t; Ok (mkLogEntry x l m s)
  else if bool_decide (name = "level") then x ← dec_string j l; Ok (mkLogEntry t x m s)
  else if bool_decide (name = "message") then x ← dec_string j m; Ok (mkLogEntry t l x s)
  else x ← dec_string j s; Ok (mkLogEntry t l m x).
Definition dec_LogEntry (parse_time : string → outcome Time) : decoder LogEntry :=
  dec_struct LogEntry_names (LogEntry_field parse_time).

(** ** pgx.go *)
Section PG.
Context {S : Type} {pgx : Pgx} {db : Database S}.
Context (parse_time : string → outcome Time) (time_text : Time → string).

Definition wrapNotFound (e : error) : error := if decide (e = pgx_ErrNoRows) then ErrNotFound else e.

(** [Query], then [scan] of every row. *)
Definition query {A} (q : sql_select) (args : list goval) (scan : list sqlval → outcome A) : M S (list A) :=
  rows ← db_query q args; of_outcome (mapM scan rows).

(** [QueryRow], [scan], and [wrapNotFound] of an error. *)
Definition queryRow {A} (q : sql_select) (args : list goval) (scan : list sqlval → outcome A) : M S A :=
  r ← mtry (rows ← db_query q args;
            match rows with [] => mthrow pgx_ErrNoRows | row :: _ => of_outcome (scan row) end);
  match r with inl a => mret a | inr e => mthrow (wrapNotFound e) end.

(** [Exec] of an INSERT, of an UPDATE and of a DELETE. *)
Definition insert {A} (t : string) (cols : list string) (args : list goval) (v : A) : M S A :=
  _ ← db_exec (Insert t cols) args; mret v.

Definition update {A} (t : string) (set key : list string) (args : list goval) (v : A) : M S A :=
  n ← db_exec (Update t set key) args;
  if (n =? 0)%Z then mthrow ErrNotFound else mret v.

Definition remove (t : string) (key : list string) (args : list goval) : M S unit :=
  n ← db_exec (Delete t key) args;
  if (n =? 0)%Z then mthrow ErrNotFound else mret tt.

Definition columns_error : error := ErrorsNew "number of field descriptions must equal number of destinations".

(** Agents *)
Definition agent_cols : list string :=
  ["id"; "tenant_id"; "name"; "profile"; "system_prompt"; "skills"; "enabled"; "created_at"; "updated_at"].

Definition scanAgent (row : list sqlval) : outcome Agent :=
  match row with
  | [i; t; n; p; sp; sk; en; c; u] =>
      i ← scan_string i; t ← scan_string t; n ← scan_string n; p ← scan_string p; sp ← scan_string sp;
      sk ← scan_json (dec_slice zero_Skill dec_Skill) [] sk; en ← scan_bool en;
      c ← scan_time c; u ← scan_time u; Ok (mkAgent i t n p sp sk en c u)
  | _ => Err columns_error
  end.

Definition PG_ListAgents (tenantID : string) : M S (list Agent) :=
  query (Select "agents" agent_cols ["tenant_id"] (Some "name")) [GString tenantID] scanAgent.
Definition PG_GetAgent (tenantID id : string) : M S Agent :=
  queryRow (Select "agents" agent_cols ["tenant_id"; "id"] None) [GString tenantID; GString id] scanAgent.
Definition PG_CreateAgent (a : Agent) : M S Agent :=
  insert "agents" agent_cols
    [GString (Agent_ID a); GString (Agent_TenantID a); GString (Agent_Name a); GString (Agent_Profile a);
     GString (Agent_SystemPrompt a); skillsJSON (Agent_Skills a); GBool (Agent_Enabled a);
     GTime (Agent_CreatedAt a); GTime (Agent_UpdatedAt a)] a.
Definition PG_UpdateAgent (a : Agent) : M S Agent :=
  update "agents" ["name"; "profile"; "system_prompt"; "skills"; "enabled"; "updated_at"] ["tenant_id"; "id"]
    [GString (Agent_Name a); GString (Agent_Profile a); GString (Agent_SystemPrompt a);
     skillsJSON (Agent_Skills a); GBool (Agent_Enabled a); GTime (Agent_UpdatedAt a);
     GString (Agent_TenantID a); GString (Agent_ID a)] a.
Definition PG_DeleteAgent (tenantID id : string) : M S unit :=
  remove "agents" ["tenant_id"; "id"] [GString tenantID; GString id].

(** McpServers *)
Definition server_cols : list string :=
  ["id"; "tenant_id"; "name"; "transport"; "enabled"; "status"; "created_at"; "updated_at"].

Definition scanMcpServer (row : list sqlval) : outcome McpServer :=
  match row with
  | [i; t; n; tr; en; st; c; u] =>
      i ← scan_string i; t ← scan_string t; n ← scan_string n; tr ← scan_raw tr; en ← scan_bool en;
      st ← scan_string st; c ← scan_time c; u ← scan_time u; Ok (mkMcpServer i t n tr en st c u)
  | _ => Err columns_error
  end.

Definition PG_ListMcpServers (tenantID : string) : M S (list McpServer) :=
  query (Select "mcp_servers" server_cols ["tenant_id"] (Some "name")) [GString tenantID] scanMcpServer.
Definition PG_GetMcpServer (tenantID id : string) : M S McpServer :=
  queryRow (Select "mcp_servers" server_cols ["tenant_id"; "id"] None)
    [GString tenantID; GString id] scanMcpServer.
Definition PG_CreateMcpServer (s : McpServer) : M S McpServer :=
  insert "mcp_servers" server_cols
    [GString (McpServer_ID s); GString (McpServer_TenantID s); GString (McpServer_Name s);
     GRaw (McpServer_Transport s); GBool (McpServer_Enabled s); GString (McpServer_Status s);
     GTime (McpServer_CreatedAt s); GTime (McpServer_UpdatedAt s)] s.
Definition PG_UpdateMcpServer (s : McpServer) : M S McpServer :=
  update "mcp_servers" ["name"; "transport"; "enabled"; "status"; "updated_at"] ["tenant_id"; "id"]
    [GString (McpServer_Name s); GRaw (McpServer_Transport s); GBool (McpServer_Enabled s);
     GString (McpServer_Status s); GTime (McpServer_UpdatedAt s);
     GString (McpServer_TenantID s); GString (McpServer_ID s)] s.
Definition PG_DeleteMcpServer (tenantID id : string) : M S unit :=
  remove "mcp_servers" ["tenant_id"; "id"] [GString tenantID; GString id].

(** Flows *)
Definition flow_cols : list string :=
  ["id"; "tenant_id"; "name"; "flow_json"; "permissions"; "enabled"; "created_at"; "updated_at"].

Definition scanFlow (row : list sqlval) : outcome Flow :=
  match row with
  | [i; t; n; fj; p; en; c; u] =>
      i ← scan_string i; t ← scan_string t; n ← scan_string n; fj ← scan_raw fj;
      p ← scan_json dec_Permissions zero_Permissions p; en ← scan_bool en;
      c ← scan_time c; u ← scan_time u; Ok (mkFlow i t n fj p en c u)
  | _ => Err columns_error
  end.

Definition PG_ListFlows (tenantID : string) : M S (list Flow) :=
  query (Select "flows" flow_cols ["tenant_id"] (Some "name")) [GString tenantID] scanFlow.
Definition PG_GetFlow (tenantID id : string) : M S Flow :=
  queryRow (Select "flows" flow_cols ["tenant_id"; "id"] None) [GString tenantID; GString id] scanFlow.
Definition PG_CreateFlow (f : Flow) : M S Flow :=
  insert "flows" flow_cols
    [GString (Flow_ID f); GString (Flow_TenantID f); GString (Flow_Name f); GRaw (Flow_FlowJSON f);
     permissionsJSON (Flow_Permissions f); GBool (Flow_Enabled f); GTime (Flow_CreatedAt f);
     GTime (Flow_UpdatedAt f)] f.
Definition PG_UpdateFlow (f : Flow) : M S Flow :=
  update "flows" ["name"; "flow_json"; "permissions"; "enabled"; "updated_at"] ["tenant_id"; "id"]
    [GString (Flow_Name f); GRaw (Flow_FlowJSON f); permissionsJSON (Flow_Permissions f);
     GBool (Flow_Enabled f); GTime (Flow_UpdatedAt f); GString (Flow_TenantID f); GString (Flow_ID f)] f.
Definition PG_DeleteFlow (tenantID id : string) : M S unit :=
  remove "flows" ["tenant_id"; "id"] [GString tenantID; GString id].

(** Runs *)
Definition run_cols : list string :=
  ["id"; "flow_id"; "tenant_id"; "status"; "started_at"; "finished_at"; "logs"; "result"].

Definition scanRun (row : list sqlval) : outcome Run :=
  match row with
  | [i; f; t; st; sa; fa; lg; rs] =>
      i ← scan_string i; f ← scan_string f; t ← scan_string t; st ← scan_string st; sa ← scan_time sa;
      fa ← scan_time_ptr fa; lg ← scan_json (dec_slice zero_LogEntry (dec_LogEntry parse_time)) [] lg;
      rs ← scan_raw rs; Ok (mkRun i f t st sa fa lg rs)
  | _ => Err columns_error
  end.

Definition PG_CreateRun (r : Run) : M S Run :=
  insert "runs" run_cols
    [GString (Run_ID r); GString (Run_FlowID r); GString (Run_TenantID r); GString (Run_Status r);
     GTime (Run_StartedAt r); GTimePtr (Run_FinishedAt r); logsJSON time_text (Run_Logs r);
     GRaw (Run_Result r)] r.
Definition PG_GetRun (tenantID id : string) : M S Run :=
  queryRow (Select "runs" run_cols ["tenant_id"; "id"] None) [GString tenantID; GString id] scanRun.
Definition PG_ListRuns (tenantID flowID : string) : M S (list Run) :=
  if bool_decide (flowID ≠ "")
  then query (Select "runs" run_cols ["tenant_id"; "flow_id"] (Some "started_at"))
         [GString tenantID; GString flowID] scanRun
  else query (Select "runs" run_cols ["tenant_id"] (Some "started_at")) [GString tenantID] scanRun.
Definition PG_UpdateRun (r : Run) : M S Run :=
  update "runs" ["status"; "started_at"; "finished_at"; "logs"; "result"] ["tenant_id"; "id"]
    [GString (Run_Status r); GTime (Run_StartedAt r); GTimePtr (Run_FinishedAt r);
     logsJSON time_text (Run_Logs r); GRaw (Run_Result r); GString (Run_TenantID r); GString (Run_ID r)] r.

(** Tasks *)
Definition task_cols : list string :=
  ["id"; "tenant_id"; "input"; "status"; "subtasks"; "result"; "created_at"; "updated_at"].

Definition scanTask (row : list sqlval) : outcome Task :=
  match row with
  | [i; t; inp; st; sub; rs; c; u] =>
      i ← scan_string i; t ← scan_string t; inp ← scan_string inp; st ← scan_string st;
      sub ← scan_json (dec_slice zero_Subtask dec_Subtask) [] sub; rs ← scan_raw rs;
      c ← scan_time c; u ← scan_time u; Ok (mkTask i t inp st sub rs c u)
  | _ => Err columns_error
  end.

Definition PG_CreateTask (t : Task) : M S Task :=
  insert "tasks" task_cols
    [GString (Task_ID t); GString (Task_TenantID t); GString (Task_Input t); GString (Task_Status t);
     subtasksJSON (Task_Subtasks t); GRaw (Task_Result t); GTime (Task_CreatedAt t);
     GTime (Task_UpdatedAt t)] t.
Definition PG_GetTask (tenantID id : string) : M S Task :=
  queryRow (Select "tasks" task_cols ["tenant_id"; "id"] None) [GString tenantID; GString id] scanTask.
Definition PG_ListTasks (tenantID : string) : M S (list Task) :=
  query (Select "tasks" task_cols ["tenant_id"] (Some "created_at")) [GString tenantID] scanTask.
Definition PG_UpdateTask (t : Task) : M S Task :=
  update "tasks" ["input"; "status"; "subtasks"; "result"; "updated_at"] ["tenant_id"; "id"]
    [GString (Task_Input t); GString (Task_Status t); subtasksJSON (Task_Subtasks t); GRaw (Task_Result t);
     GTime (Task_UpdatedAt t); GString (Task_TenantID t); GString (Task_ID t)] t.

(** Users *)
Definition user_cols : list string :=
  ["id"; "tenant_id"; "username"; "password_hash"; "role"; "created_at"; "updated_at"].

Definition scanUser (row : list sqlval) : outcome User :=
  match row with
  | [i; t; n; h; r; c; u] =>
      i ← scan_string i; t ← scan_string t; n ← scan_string n; h ← scan_string h; r ← scan_string r;
      c ← scan_time c; u ← scan_time u; Ok (mkUser i t n h r c u)
  | _ => Err columns_error
  end.

Definition PG_ListUsers (tenantID : string) : M S (list User) :=
  query (Select "users" user_cols ["tenant_id"] (Some "username")) [GString tenantID] scanUser.
Definition PG_GetUser (tenantID id : string) : M S User :=
  queryRow (Select "users" user_cols ["tenant_id"; "id"] None) [GString tenantID; GString id] scanUser.
Definition PG_GetUserByUsername (tenantID username : string) : M S User :=
  queryRow (Select "users" user_cols ["tenant_id"; "username"] None)
    [GString tenantID; GString username] scanUser.
Definition PG_CreateUser (u : User) : M S User :=
  insert "users" user_cols
    [GString (User_ID u); GString (User_TenantID u); GString (Username u); GString (PasswordHash u);
     GString (User_Role u); GTime (User_CreatedAt u); GTime (User_UpdatedAt u)] u.
Definition PG_UpdateUser (u : User) : M S User :=
  update "users" ["username"; "password_hash"; "role"; "updated_at"] ["tenant_id"; "id"]
    [GString (Username u); GString (PasswordHash u); GString (User_Role u); GTime (User_UpdatedAt u);
     GString (User_TenantID u); GString (User_ID u)] u.
Definition PG_DeleteUser (tenantID id : string) : M S unit :=
  remove "users" ["tenant_id"; "id"] [GString tenantID; GString id].

(** Tenants *)
Definition tenant_cols : list string := ["id"; "name"; "created_at"].

Definition scanTenant (row : list sqlval) : outcome Tenant :=
  match row with
  | [i; n; c] => i ← scan_string i; n ← scan_string n; c ← scan_time c; Ok (mkTenant i n c)
  | _ => Err columns_error
  end.

Definition PG_GetTenant (id : string) : M S Tenant :=
  queryRow (Select "tenants" tenant_cols ["id"] None) [GString id] scanTenant.
Definition PG_CreateTenant (t : Tenant) : M S Tenant :=
  insert "tenants" tenant_cols [GString (Tenant_ID t); GString (Tenant_Name t); GTime (Tenant_CreatedAt t)] t.

(** The implementation of the interface. *)
Definition PG_Store : Store S := λ A op,
  match op in StoreOp A return M S A with
  | OpListAgents t => PG_ListAgents t
  | OpGetAgent t i => PG_GetAgent t i
  | OpCreateAgent v => PG_CreateAgent v
  | OpUpdateAgent v => PG_UpdateAgent v
  | OpDeleteAgent t i => PG_DeleteAgent t i
  | OpListMcpServers t => PG_ListMcpServers t
  | OpGetMcpServer t i => PG_GetMcpServer t i
  | OpCreateMcpServer v => PG_CreateMcpServer v
  | OpUpdateMcpServer v => PG_UpdateMcpServer v
  | OpDeleteMcpServer t i => PG_DeleteMcpServer t i
  | OpListFlows t => PG_ListFlows t
  | OpGetFlow t i => PG_GetFlow t i
  | OpCreateFlow v => PG_CreateFlow v
  | OpUpdateFlow v => PG_UpdateFlow v
  | OpDeleteFlow t i => PG_DeleteFlow t i
  | OpCreateRun v => PG_CreateRun v
  | OpGetRun t i => PG_GetRun t i
  | OpListRuns t f => PG_ListRuns t f
  | OpUpdateRun v => PG_UpdateRun v
  | OpCreateTask v => PG_CreateTask v
  | OpGetTask t i => PG_GetTask t i
  | OpListTasks t => PG_ListTasks t
  | OpUpdateTask v => PG_UpdateTask v
  | OpListUsers t => PG_ListUsers t
  | OpGetUser t i => PG_GetUser t i
  | OpGetUserByUsername t n => PG_GetUserByUsername t n
  | OpCreateUser v => PG_CreateUser v
  | OpUpdateUser v => PG_UpdateUser v
  | OpDeleteUser t i => PG_DeleteUser t i
  | OpGetTenant i => PG_GetTenant i
  | OpCreateTenant v => PG_CreateTenant v
  end.
End PG.
