(* ===== verification/PgJson.v ===== *)
(** * The documents of the json columns survive jsonb

    Decoding a struct does not depend on the order of the members of its
    document, so what a json helper wrote is read back from any document that
    jsonb may keep of it. *)
From S2P Require Import Prelude GoStr GoValue Json Model Codec Sql Pg.

(** ** Structs are decoded by name *)
Section ByName.
Context {A : Type} (names : list string) (field : string → decoder A).

(** Two fields may be decoded in any order. *)
Definition fields_commute : Prop := ∀ n1 n2 j1 j2 x y,
  n1 ∈ names → n2 ∈ names → n1 ≠ n2 →
  (field n1 j1 x ≫= field n2 j2) = Ok y → (field n2 j2 x ≫= field n1 j1) = Ok y.

Lemma select_field_in k : k ∈ names → select_field names k = Some k.
Proof. intros Hk. unfold select_field. by rewrite bool_decide_eq_true_2. Qed.

Lemma dec_fields_perm fs fs' x y :
  fields_commute → fs ≡ₚ fs' → NoDup fs.*1 → (∀ kv, kv ∈ fs → kv.1 ∈ names) →
  dec_fields names field fs x = Ok y → dec_fields names field fs' x = Ok y.
Proof.
  intros Hc Hp. revert x. induction Hp as [|[k j] fs fs' Hp IH|[k1 j1] [k2 j2] fs|fs1 fs2 fs3 H1 IH1 H2 IH2];
    intros x Hnd Hin; simpl.
  - done.
  - apply NoDup_cons in Hnd as [_ Hnd]. rewrite !(select_field_in k) by (apply (Hin (k, j)); by left).
    intros (z & Hz & Hy)%outcome_bind_Ok. rewrite Hz. simpl.
    apply IH; [done|intros; apply Hin; by right|done].
  - apply NoDup_cons in Hnd as [Hne _]. simpl in Hne.
    assert (k1 ∈ names) by (apply (Hin (k1, j1)); right; by left).
    assert (k2 ∈ names) by (apply (Hin (k2, j2)); by left).
    rewrite !select_field_in by done. intros (z & Hz & (w & Hw & Hy)%outcome_bind_Ok)%outcome_bind_Ok.
    assert (H' : (field k2 j2 x ≫= field k1 j1) = Ok w) by (rewrite Hz; exact Hw).
    apply Hc in H'; [|done|done|set_solver]. apply outcome_bind_Ok in H' as (z' & Hz' & Hw').
    rewrite Hz'. cbn [mbind outcome_bind]. by rewrite Hw'.
  - intros H. apply IH2; [by rewrite <- H1|intros kv Hkv; apply Hin; by rewrite H1|].
    by apply IH1.
Qed.
End ByName.

(** ** What jsonb keeps of a struct's document *)

(** A member whose value has no inner order to lose, or any. *)
Lemma last_wins_NoDup fs : NoDup fs.*1 → last_wins fs = fs.
Proof.
  induction fs as [|kv fs IH]; simpl; [done|]. intros [Hn Hnd]%NoDup_cons. rewrite IH by done.
  by rewrite bool_decide_eq_false_2.
Qed.

Lemma same_obj_inv fs j' : NoDup fs.*1 → same_json (JObj fs) j' →
  ∃ mid fs', j' = JObj fs' ∧ mid ≡ₚ fs' ∧ mid.*1 = fs.*1 ∧
    Forall2 (λ a b, a.1 = b.1 ∧ same_json a.2 b.2) fs mid.
Proof.
  intros Hnd H. inversion H as [| | | | |? mid fs' Hf Hp]; subst. rewrite last_wins_NoDup in Hf by done.
  exists mid, fs'. split_and!; [done|done| |done].
  clear -Hf. induction Hf as [|a b fs mid [E _] _ IH]; [done|]. rewrite !fmap_cons, E. by f_equal.
Qed.

(** A struct whose document has exactly members of its own names: it is
    enough to decode what becomes of the members in their own order. *)
Lemma dec_struct_same {A} names (field : string → decoder A) fs j' x y :
  fields_commute names field → NoDup fs.*1 → (∀ kv, kv ∈ fs → kv.1 ∈ names) →
  same_json (JObj fs) j' →
  (∀ mid, Forall2 (λ a b, a.1 = b.1 ∧ same_json a.2 b.2) fs mid →
     dec_fields names field mid x = Ok y) →
  dec_struct names field j' x = Ok y.
Proof.
  intros Hc Hnd Hin H Hm. destruct (same_obj_inv fs j' Hnd H) as (mid & fs' & -> & Hp & Hk & Hf). simpl.
  apply (dec_fields_perm names field mid); [done|done|by rewrite Hk| |by apply Hm].
  intros kv Hkv. assert (kv.1 ∈ mid.*1) as Hk1 by by apply list_elem_of_fmap_2.
  rewrite Hk in Hk1. apply list_elem_of_fmap in Hk1 as (kv' & -> & Hkv'). by apply Hin.
Qed.

(** ** The fields of the four structs commute *)
Ltac invert_binds :=
  repeat match goal with
  | H : (_ ≫= _) = Ok _ |- _ => apply outcome_bind_Ok in H as (? & ? & ?); simplify_eq/=
  end.

Ltac solve_commute field :=
  let n1 := fresh "n" in let n2 := fresh "n" in
  intros n1 n2 ? ? [] ? ? ? ?; unfold field; intros ?;
  repeat match goal with H : _ ∈ _ |- _ => rewrite ?elem_of_cons, ?elem_of_nil in H end;
  destruct_or!; subst; try done; simpl in *; invert_binds;
  repeat match goal with H : ?l = Ok _ |- context [?l] => rewrite H; simpl end; done.

Lemma Skill_commute : fields_commute Skill_names Skill_field.
Proof. unfold Skill_names. solve_commute Skill_field. Qed.

Lemma Permissions_commute :
  fields_commute Permissions_names Permissions_field.
Proof. unfold Permissions_names. solve_commute Permissions_field. Qed.

Lemma Subtask_commute : fields_commute Subtask_names Subtask_field.
Proof. unfold Subtask_names. solve_commute Subtask_field. Qed.

Lemma LogEntry_commute parse_time : fields_commute LogEntry_names (LogEntry_field parse_time).
Proof. unfold LogEntry_names. solve_commute LogEntry_field. Qed.

(** ** What is read back *)
Lemma same_str_inv s j' : same_json (JStr s) j' → j' = JStr s.
Proof. by inversion 1. Qed.

Lemma same_strs_inv l l' : Forall2 same_json (JStr <$> l) l' → l' = JStr <$> l.
Proof.
  revert l'. induction l as [|s l IH]; intros l' H; inversion H; subst; [done|].
  rewrite fmap_cons. f_equal; [by apply same_str_inv|by apply IH].
Qed.

(** Members and what became of them, one by one. *)
Ltac members H :=
  repeat (apply Forall2_cons_inv_l in H as ([? ?] & ? & [? ?] & H & ->));
  apply Forall2_nil_inv_l in H as ->; simplify_eq/=.

Ltac solve_names := cbn; apply (bool_decide_unpack _); vm_compute; exact I.

Lemma Skill_back s j' : same_json (encode_Skill s) j' → dec_Skill j' zero_Skill = Ok s.
Proof.
  intros H. unfold dec_Skill. eapply dec_struct_same; [apply Skill_commute| | |exact H|].
  - solve_names.
  - unfold Skill_names. set_solver.
  - intros mid Hm. members Hm.
    repeat match goal with Hb : same_json (JStr _) _ |- _ => apply same_str_inv in Hb as -> end.
    by destruct s.
Qed.

Lemma strings_back l j' : same_json (encode_strings l) j' → dec_strings j' [] = Ok l.
Proof.
  intros H. destruct l as [|s l]; [by inversion H|]. unfold encode_strings in H.
  inversion H as [| | | |? l' Hl|]; subst. apply (same_strs_inv (s :: l)) in Hl as ->.
  unfold dec_strings, dec_slice. clear H. generalize (s :: l). clear s l.
  induction l as [|x k IH]; [done|]. rewrite fmap_cons. cbn [dec_elems]. simpl in *. by rewrite IH.
Qed.

Lemma Permissions_back p j' :
  same_json (encode_Permissions p) j' → dec_Permissions j' zero_Permissions = Ok p.
Proof.
  intros H. unfold dec_Permissions. eapply dec_struct_same; [apply Permissions_commute| | |exact H|].
  - solve_names.
  - unfold Permissions_names. set_solver.
  - intros mid Hm. members Hm.
    repeat match goal with Hb : same_json (encode_strings _) _ |- _ => apply strings_back in Hb end.
    destruct p. simpl in *.
    repeat match goal with Hb : ?l = Ok _ |- context [?l] => rewrite Hb; clear Hb; simpl end. done.
Qed.

(** A RawMessage, before and after a jsonb column. *)
Definition same_raw (r r' : RawMessage) : Prop :=
  match r with
  | RawEmpty => r' = RawEmpty
  | RawMalformed => False
  | RawDoc j => ∃ j', r' = RawDoc j' ∧ same_json j j'
  end.

Record same_subtask (s s' : Subtask) : Prop := {
  ss_id : Subtask_ID s' = Subtask_ID s;
  ss_agent : Subtask_AgentID s' = Subtask_AgentID s;
  ss_description : Subtask_Description s' = Subtask_Description s;
  ss_status : Subtask_Status s' = Subtask_Status s;
  ss_result : same_raw (Subtask_Result s) (Subtask_Result s')
}.

Lemma Subtask_back s j j' :
  encode_Subtask s = Some j → same_json j j' →
  ∃ s', dec_Subtask j' zero_Subtask = Ok s' ∧ same_subtask s s'.
Proof.
  intros He H. unfold encode_Subtask in He. destruct (Subtask_Result s) as [| |doc] eqn:Hr; simplify_eq/=.
  - exists s. split; [|constructor; try done; by rewrite Hr].
    unfold dec_Subtask. eapply dec_struct_same; [apply Subtask_commute| | |exact H|].
    + solve_names.
    + unfold Subtask_names. set_solver.
    + intros mid Hm. members Hm.
      repeat match goal with Hb : same_json (JStr _) _ |- _ => apply same_str_inv in Hb as -> end.
      destruct s. simpl in *. by subst.
  - apply same_obj_inv in H as (mid & fs' & -> & Hp & _ & Hf); [|solve_names].
    members Hf.
    repeat match goal with Hb : same_json (JStr _) _ |- _ => apply same_str_inv in Hb as -> end.
    eexists (mkSubtask (Subtask_ID s) (Subtask_AgentID s) (Subtask_Description s) (Subtask_Status s) (RawDoc _)).
    split; [|constructor; simpl; try done; rewrite Hr; eexists; split; [reflexivity|eassumption]].
    unfold dec_Subtask. eapply (dec_fields_perm Subtask_names Subtask_field); [apply Subtask_commute|exact Hp| | |].
    + solve_names.
    + unfold Subtask_names. set_solver.
    + done.
Qed.

Section Times.
Context (parse_time : string → outcome Time) (time_text : Time → string).

(** The text of a time is read back. *)
Definition text_back (t : Time) : Prop := parse_time (time_text t) = Ok t.

Lemma LogEntry_back e j' : text_back (Timestamp e) →
  same_json (encode_LogEntry time_text e) j' → dec_LogEntry parse_time j' zero_LogEntry = Ok e.
Proof.
  intros parse_text H. unfold dec_LogEntry. eapply dec_struct_same; [apply LogEntry_commute| | |exact H|].
  - solve_names.
  - unfold LogEntry_names. set_solver.
  - intros mid Hm. members Hm.
    repeat match goal with Hb : same_json (JStr _) _ |- _ => apply same_str_inv in Hb as -> end.
    destruct e. unfold text_back in parse_text. simpl in *. by rewrite parse_text.
Qed.
End Times.

(** Slices, element by element. *)
Lemma slice_back {A} (zero : A) dec (l : list A) (js : list json) (R : A → A → Prop) j' :
  Forall2 (λ a j, ∀ j', same_json j j' → ∃ a', dec j' zero = Ok a' ∧ R a a') l js →
  same_json (JArr js) j' → ∃ l', dec_slice zero dec j' [] = Ok l' ∧ Forall2 R l l'.
Proof.
  intros Hl H. inversion H as [| | | |? l1 Hl1|]; subst. clear H. simpl.
  revert l1 Hl1. induction Hl as [|a j l js Ha _ IH]; intros l1 Hl1.
  { apply Forall2_nil_inv_l in Hl1 as ->. by exists []. }
  apply Forall2_cons_inv_l in Hl1 as (x & k & Hx & Hk & ->).
  destruct (Ha _ Hx) as (a' & E & Hr). destruct (IH _ Hk) as (l' & Hl' & Hrl).
  exists (a' :: l'). simpl. rewrite E. simpl. rewrite Hl'. simpl. split; [done|by constructor].
Qed.

Lemma skills_back l j' :
  same_json (JArr (encode_Skill <$> l)) j' → dec_slice zero_Skill dec_Skill j' [] = Ok l.
Proof.
  intros H. destruct (slice_back zero_Skill dec_Skill l (encode_Skill <$> l) (λ a b, b = a) j') as (l' & E & Hf).
  - apply Forall2_fmap_r, Forall_Forall2_diag, Forall_forall. intros s _ j1 Hj. exists s. split; [by apply Skill_back|done].
  - done.
  - rewrite E. f_equal. clear -Hf. induction Hf; by subst.
Qed.

Lemma logs_back parse_time time_text l j' :
  Forall (λ e, text_back parse_time time_text (Timestamp e)) l →
  same_json (JArr (encode_LogEntry time_text <$> l)) j' →
  dec_slice zero_LogEntry (dec_LogEntry parse_time) j' [] = Ok l.
Proof.
  intros Ht H. destruct (slice_back zero_LogEntry (dec_LogEntry parse_time) l
    (encode_LogEntry time_text <$> l) (λ a b, b = a) j') as (l' & E & Hf).
  - apply Forall2_fmap_r, Forall_Forall2_diag, (Forall_impl _ _ _ Ht). intros e He j1 Hj.
    exists e. split; [by eapply LogEntry_back|done].
  - done.
  - rewrite E. f_equal. clear -Hf. induction Hf; by subst.
Qed.

Lemma subtasks_back l js j' :
  mapM encode_Subtask l = Some js → same_json (JArr js) j' →
  ∃ l', dec_slice zero_Subtask dec_Subtask j' [] = Ok l' ∧ Forall2 same_subtask l l'.
Proof.
  intros Hm. apply slice_back. apply mapM_Some in Hm. eapply Forall2_impl; [exact Hm|].
  intros s j Hs j1. by apply Subtask_back.
Qed.
