(* ===== verification/PgTheory.v ===== *)
(** * Reasoning about the PostgreSQL store

    What each way of calling the database does to the tables, when the laws
    of [Sql] hold, and the two facts about a resource from which its
    round trips follow. *)
From stdpp Require Import sorting.
From S2P Require Import Prelude GoStr GoValue Json Model Store StoreSpec Codec Traces Sql Pg PgJson.

(** ** Rows and keys *)
Definition well_keyed (T : sql_tables) : Prop :=
  ∀ t u r, rows_of T t !! u = Some r → r !! "id" = Some (SUuid u).

Lemma rows_of_insert T t t' tb :
  rows_of (<[t := tb]> T) t' = if decide (t = t') then tb else rows_of T t'.
Proof. unfold rows_of. case_decide; subst; [by rewrite lookup_insert_eq|by rewrite lookup_insert_ne]. Qed.

Lemma sql_eq_uuid v u : sql_eq v (SUuid u) = true ↔ v = SUuid u.
Proof. destruct v; simpl; try done. rewrite bool_decide_eq_true. split; congruence. Qed.

Lemma matches_cons c v key r : matches ((c, v) :: key) r = true ↔
  (∃ x, r !! c = Some x ∧ sql_eq x v = true) ∧ matches key r = true.
Proof.
  unfold matches. simpl. rewrite andb_true_iff. split; intros [H1 H2]; (split; [|done]).
  - case_match; [eauto|done].
  - destruct H1 as (x & -> & Hx). done.
Qed.

Lemma matches_uuid c u key r : matches ((c, SUuid u) :: key) r = true ↔
  r !! c = Some (SUuid u) ∧ matches key r = true.
Proof.
  rewrite matches_cons. split; intros [H1 H2]; (split; [|done]).
  - destruct H1 as (x & -> & Hx%sql_eq_uuid). by subst.
  - exists (SUuid u). split; [done|]. by apply sql_eq_uuid.
Qed.

Lemma matches_text c x key r : matches ((c, SText x) :: key) r = true ↔
  r !! c = Some (SText x) ∧ matches key r = true.
Proof.
  rewrite matches_cons. split; intros [H1 H2]; (split; [|done]).
  - destruct H1 as ([] & -> & Hx); try done. simpl in Hx. apply bool_decide_eq_true in Hx. by subst.
  - exists (SText x). split; [done|]. by apply bool_decide_eq_true.
Qed.

(** The row of a tenant with an identifier. *)
Definition owner_row (T : sql_tables) (t uT u : string) : option sql_row :=
  r ← rows_of T t !! u; if matches [("tenant_id", SUuid uT)] r then Some r else None.

Lemma owner_row_Some T t uT u r :
  owner_row T t uT u = Some r ↔ rows_of T t !! u = Some r ∧ r !! "tenant_id" = Some (SUuid uT).
Proof.
  unfold owner_row. destruct (rows_of T t !! u) as [r'|]; cbn [mbind option_bind]; [|naive_solver].
  destruct (matches _ r') eqn:E.
  - apply matches_uuid in E as [E _]. naive_solver.
  - split; [done|]. intros [[= ->] E2]. exfalso. apply not_true_iff_false in E. apply E.
    by apply matches_uuid.
Qed.

Lemma one_element {A} (x : A) l : NoDup l → (∀ y, y ∈ l ↔ y = x) → l = [x].
Proof.
  intros Hnd H. destruct l as [|a l]; [by destruct (not_elem_of_nil x); apply H|].
  assert (a = x) as -> by (apply H; by left). f_equal.
  destruct l as [|b l]; [done|]. apply NoDup_cons in Hnd as [Hn _].
  destruct Hn. assert (b = x) as -> by (apply H; right; by left). by left.
Qed.

Lemma matching_elem key tb u r :
  (u, r) ∈ matching key tb ↔ tb !! u = Some r ∧ matches key r = true.
Proof. unfold matching. rewrite list_elem_of_filter, elem_of_map_to_list. simpl. tauto. Qed.

Lemma matching_NoDup key tb : NoDup (matching key tb).
Proof. apply NoDup_filter, NoDup_map_to_list. Qed.

Lemma matching_owner T t uT u :
  well_keyed T →
  matching [("tenant_id", SUuid uT); ("id", SUuid u)] (rows_of T t)
    = match owner_row T t uT u with Some r => [(u, r)] | None => [] end.
Proof.
  intros Hw. set (l := matching _ _).
  assert (Hl : ∀ kv, kv ∈ l ↔ kv.1 = u ∧ owner_row T t uT u = Some kv.2).
  { intros [u' r]. unfold l. rewrite matching_elem, !matches_uuid, owner_row_Some. simpl. split.
    - intros (Hr & Ht & Hi & _). rewrite (Hw t u' r Hr) in Hi. by simplify_eq.
    - intros (-> & Hr & Ht). split_and!; [done|done|by eapply Hw|done]. }
  destruct (owner_row T t uT u) as [r|].
  - apply one_element; [apply matching_NoDup|]. intros [u' r']. rewrite Hl. simpl. naive_solver.
  - destruct l as [|kv l']; [done|]. destruct (proj1 (Hl kv)) as [_ ?]; [by left|done].
Qed.

(** ** Parameters *)
Section Params.
Context {pgx : Pgx} {pgx_laws : PgxLaws pgx}.

Definition uuid (s u : string) : Prop := to_sql UUID (GString s) = Ok (SUuid u).

Lemma uuid_fun s u u' : uuid s u → uuid s u' → u = u'.
Proof. unfold uuid. congruence. Qed.

(** The canonical text of a uuid names it. *)
Lemma uuid_canonical s u : uuid s u → uuid u u.
Proof using pgx_laws. intros H. destruct (uuid_in s _ H) as (u' & [= <-] & Hu). done. Qed.

Lemma bind_nil args vs : bind_args [] args vs → args = [] ∧ vs = [].
Proof. intros [H Hl]. destruct args; [|done]. by apply Forall2_nil_inv_l in H as ->. Qed.

Lemma bind_cons tc cols args vs :
  bind_args (tc :: cols) args vs →
  ∃ g args' v vs', args = g :: args' ∧ vs = v :: vs' ∧
    match column_of tc.1 tc.2 with Some c => to_sql (col_type c) g = Ok v | None => False end ∧
    bind_args cols args' vs'.
Proof.
  intros [H Hl]. destruct args as [|g args]; [done|].
  apply Forall2_cons_inv_l in H as (v & vs' & Hv & H & ->).
  exists g, args, v, vs'. split_and!; [done..|]. split; [done|]. simpl in Hl. lia.
Qed.

Lemma bind_owner t cols args vs :
  column_of t "tenant_id" = Some (not_null "tenant_id" UUID) →
  column_of t "id" = Some (not_null "id" UUID) → cols = ["tenant_id"; "id"] →
  ∀ T i, args = [GString T; GString i] → bind_args ((t,.) <$> cols) args vs →
  ∃ uT u, uuid T uT ∧ uuid i u ∧ vs = [SUuid uT; SUuid u].
Proof using pgx_laws.
  intros Ht Hi -> T i ->. cbn. intros H.
  apply bind_cons in H as (? & ? & v & ? & [= <- <-] & -> & Hv & H). simpl in Hv. rewrite Ht in Hv.
  apply bind_cons in H as (? & ? & v' & ? & [= <- <-] & -> & Hv' & H). simpl in Hv'. rewrite Hi in Hv'.
  apply bind_nil in H as [_ ->]. simpl in *.
  destruct (uuid_in _ _ Hv) as (uT & -> & _), (uuid_in _ _ Hv') as (u & -> & _). by exists uT, u.
Qed.

Lemma bind_app cols1 cols2 args vs :
  bind_args (cols1 ++ cols2) args vs →
  bind_args cols1 (take (length cols1) args) (take (length cols1) vs) ∧
  bind_args cols2 (drop (length cols1) args) (drop (length cols1) vs).
Proof.
  revert args vs. induction cols1 as [|c cols1 IH]; intros args vs H; simpl.
  { split; [by split|exact H]. }
  apply bind_cons in H as (g & args' & v & vs' & -> & -> & Hv & H).
  destruct (IH _ _ H) as [[H1 Hl1] H2]. split; [|exact H2].
  split; [by constructor|]. simpl. by f_equal.
Qed.
End Params.

Lemma project_zip cols vs :
  NoDup cols → length cols = length vs → project cols (list_to_map (zip cols vs)) = vs.
Proof.
  unfold project. revert vs. induction cols as [|c cols IH]; intros [|v vs] Hnd Hl; try done.
  apply NoDup_cons in Hnd as [Hc Hnd]. simpl. rewrite lookup_insert_eq. simpl. f_equal.
  transitivity ((λ c, default SNull ((list_to_map (zip cols vs) : sql_row) !! c)) <$> cols).
  - apply list_fmap_ext. intros i c' Hc'. rewrite lookup_insert_ne; [done|].
    intros ->. apply Hc. by eapply list_elem_of_lookup_2.
  - apply IH; [done|]. simpl in Hl. lia.
Qed.

Lemma not_null_column d c (r : sql_row) :
  not_nulls_ok d r = true → In c (tb_columns d) → col_nullable c = false → r !! col_name c ≠ Some SNull.
Proof.
  unfold not_nulls_ok. rewrite forallb_forall. intros H Hc Hn Hr. specialize (H c Hc).
  rewrite Hr, Hn in H. done.
Qed.

Lemma sql_insert_inv t kvs T n T' :
  sql_insert t kvs T = Some (n, T') →
  ∃ d u, table_def_of t = Some d ∧ (list_to_map kvs : sql_row) !! "id" = Some (SUuid u) ∧
    rows_of T t !! u = None ∧ not_nulls_ok d (list_to_map kvs) = true ∧
    uniques_ok d (rows_of T t) u (list_to_map kvs) = true ∧ refs_ok d T (list_to_map kvs) = true ∧
    T' = <[t := <[u := list_to_map kvs]> (rows_of T t)]> T.
Proof.
  unfold sql_insert. destruct (table_def_of t) as [d|]; [|done]. simpl.
  destruct (_ !! "id") as [[]|] eqn:Hid; try done.
  destruct (bool_decide _) eqn:Hb; [|done]. apply bool_decide_eq_true in Hb.
  destruct (not_nulls_ok _ _) eqn:Hn; [|done]. destruct (uniques_ok _ _ _ _) eqn:Hu; [|done].
  destruct (refs_ok _ _ _) eqn:Hr; [|done]. intros [= <- <-]. by exists d, u.
Qed.

(** ** Updates *)
Lemma set_columns_other kvs (r : sql_row) c : c ∉ kvs.*1 → set_columns kvs r !! c = r !! c.
Proof.
  intros Hc. unfold set_columns. rewrite lookup_union_r; [done|]. by apply not_elem_of_list_to_map_1.
Qed.

Lemma updated_lookup set key tb u :
  updated set key tb !! u = (λ r, if matches key r then set_columns set r else r) <$> tb !! u.
Proof. apply lookup_fmap. Qed.

Lemma set_columns_hit c v kvs (r : sql_row) : set_columns ((c, v) :: kvs) r !! c = Some v.
Proof. unfold set_columns. simpl. apply lookup_union_Some_l, lookup_insert_eq. Qed.

Lemma set_columns_miss c c' v kvs (r : sql_row) :
  c ≠ c' → set_columns ((c, v) :: kvs) r !! c' = set_columns kvs r !! c'.
Proof. intros Hc. unfold set_columns. simpl. by rewrite !lookup_union, lookup_insert_ne. Qed.

Lemma set_columns_nil (r : sql_row) c : set_columns [] r !! c = r !! c.
Proof. by apply set_columns_other, not_elem_of_nil. Qed.

Lemma sql_update_inv t set key T n T' :
  sql_update t set key T = Some (n, T') →
  n = Z.of_nat (length (matching key (rows_of T t))) ∧ T' = <[t := updated set key (rows_of T t)]> T ∧
  ∃ d, table_def_of t = Some d ∧
    ∀ kv, kv ∈ matching key (rows_of T t) → not_nulls_ok d (set_columns set kv.2) = true.
Proof.
  unfold sql_update. destruct (table_def_of t) as [d|]; [|done]. cbn [mbind option_bind].
  destruct (forallb _ _) eqn:Hall; [|done]. intros [= <- <-]. split_and!; [done..|]. exists d. split; [done|].
  intros kv Hkv. rewrite forallb_forall in Hall. specialize (Hall kv).
  rewrite <- list_elem_of_In in Hall. specialize (Hall Hkv). by apply andb_prop in Hall as [? _].
Qed.

Lemma update_keyed t set key T n T' :
  "id" ∉ set.*1 → well_keyed T → sql_update t set key T = Some (n, T') → well_keyed T'.
Proof.
  intros Hid Hw (_ & -> & _)%sql_update_inv t' u r. rewrite rows_of_insert. case_decide; [|apply Hw]. subst.
  rewrite updated_lookup. intros (r0 & Hr0 & ->)%fmap_Some. case_match; [|by eapply Hw].
  rewrite set_columns_other by done. by eapply Hw.
Qed.

(** An update by tenant and identifier concerns one row. *)
Lemma update_owner t set uT u T n T' :
  "tenant_id" ∉ set.*1 → well_keyed T →
  sql_update t set [("tenant_id", SUuid uT); ("id", SUuid u)] T = Some (n, T') →
  match owner_row T t uT u with
  | None => n = 0%Z
  | Some r => n = 1%Z ∧ owner_row T' t uT u = Some (set_columns set r) ∧
      ∃ d, table_def_of t = Some d ∧ not_nulls_ok d (set_columns set r) = true
  end.
Proof.
  intros Ht Hw (-> & -> & d & Hd & Hnn)%sql_update_inv. rewrite matching_owner in * by done.
  destruct (owner_row T t uT u) as [r|] eqn:Hr; [|done]. split; [done|].
  split; [|exists d; split; [done|]; apply (Hnn (u, r)); by left].
  apply owner_row_Some in Hr as [Hr Htn]. apply owner_row_Some.
  assert (Hm : matches [("tenant_id", SUuid uT); ("id", SUuid u)] r = true).
  { apply matches_uuid. split; [done|]. apply matches_uuid. split; [by eapply Hw|done]. }
  rewrite rows_of_insert, decide_True, updated_lookup, Hr by done. split.
  - apply fmap_Some. exists r. by rewrite Hm.
  - by rewrite set_columns_other.
Qed.

(** ** The calls *)
Section Calls.
Context {S : Type} {pgx : Pgx} {pgx_laws : PgxLaws pgx} {db : Database S} {laws : DatabaseLaws S}.
Implicit Types (s : S).

(** A statement that fails and was not done; one that was done, with the
    answer [o'] or without one. *)
Definition not_done {A} s (o : outcome A) s' (rf : Prop) : Prop :=
  ∃ e, o = Err e ∧ db_failure e ∧ db_tables s' = db_tables s ∧ (reachable s → rf).
Definition done_with {A} s (o o' : outcome A) : Prop :=
  o = o' ∨ ∃ e, o = Err e ∧ db_failure e ∧ ¬ reachable s.

Lemma exec_run st args s :
  let '(o, s') := db_exec st args s in
  not_done s o s' (refused st args (db_tables s)) ∨
  ∃ vs n, done_with s o (Ok n) ∧ bind_args (stmt_columns st) args vs ∧
    sql_exec st vs (db_tables s) = Some (n, db_tables s').
Proof.
  pose proof (exec_law st args s) as H. destruct (db_exec st args s) as [[n|e|w|] s']; try done.
  - right. destruct H as (vs & Hb & He). exists vs, n. split; [by left|done].
  - destruct H as (He & Hr & [HT|(vs & n & Hb & Hx)]); [left; by exists e|right].
    exists vs, n. split; [right; exists e; split_and!; [done..|]|done].
    intros Hs. specialize (Hr Hs vs Hb). congruence.
Qed.

Lemma insert_run {A} t cols args (v : A) s :
  let '(o, s') := insert t cols args v s in
  not_done s o s' (refused (Insert t cols) args (db_tables s)) ∨
  (done_with s o (Ok v) ∧ ∃ vs n, bind_args ((t,.) <$> cols) args vs ∧
     sql_insert t (zip cols vs) (db_tables s) = Some (n, db_tables s')).
Proof.
  unfold insert, mbind, M_bind. pose proof (exec_run (Insert t cols) args s) as H.
  destruct (db_exec (Insert t cols) args s) as [o s'].
  destruct H as [(e & -> & H)|(vs & n & [->|(e & -> & H)] & Hb & He)]; [left; by exists e|right..].
  - split; [by left|]. by exists vs, n.
  - split; [right; by exists e|]. by exists vs, n.
Qed.

Lemma update_run {A} t set key args (v : A) s :
  let '(o, s') := update t set key args v s in
  not_done s o s' (refused (Update t set key) args (db_tables s)) ∨
  ∃ vs n, bind_args ((t,.) <$> set ++ key) args vs ∧
    sql_update t (zip set (take (length set) vs)) (zip key (drop (length set) vs)) (db_tables s)
      = Some (n, db_tables s') ∧
    done_with s o (if (n =? 0)%Z then Err ErrNotFound else Ok v).
Proof.
  unfold update, mbind, M_bind. pose proof (exec_run (Update t set key) args s) as H.
  destruct (db_exec (Update t set key) args s) as [o s'].
  destruct H as [(e & -> & H)|(vs & n & [->|(e & -> & H)] & Hb & He)]; [left; by exists e| |]; simpl in He.
  - destruct (n =? 0)%Z eqn:E; right; exists vs, n; rewrite E; (split_and!; [done|done|by left]).
  - right. exists vs, n. split_and!; [done|done|right; by exists e].
Qed.

Lemma remove_run t key args s :
  let '(o, s') := remove t key args s in
  not_done s o s' (refused (Delete t key) args (db_tables s)) ∨
  ∃ vs n, bind_args ((t,.) <$> key) args vs ∧ sql_delete t (zip key vs) (db_tables s) = (n, db_tables s') ∧
    done_with s o (if (n =? 0)%Z then Err ErrNotFound else Ok tt).
Proof.
  unfold remove, mbind, M_bind. pose proof (exec_run (Delete t key) args s) as H.
  destruct (db_exec (Delete t key) args s) as [o s'].
  destruct H as [(e & -> & H)|(vs & n & [->|(e & -> & H)] & Hb & He)]; [left; by exists e| |]; cbn [sql_exec] in He;
    try apply (inj Some) in He.
  - destruct (n =? 0)%Z eqn:E; right; exists vs, n; rewrite E; (split_and!; [done|done|by left]).
  - right. exists vs, n. split_and!; [done|done|right; by exists e].
Qed.

(** A read gives rows that match, and leaves the tables. *)
Lemma rows_run q args s :
  let '(o, s') := db_query q args s in
  db_tables s' = db_tables s ∧
  ((∃ e, o = Err e ∧ db_failure e ∧
      (reachable s → ∀ vs, ¬ bind_args ((sel_table q,.) <$> sel_key q) args vs)) ∨
   ∃ rows vs, o = Ok rows ∧ bind_args ((sel_table q,.) <$> sel_key q) args vs ∧
     selects sql_le q vs (db_tables s) rows).
Proof.
  pose proof (query_law q args s) as H. destruct (db_query q args s) as [[rows|e|w|] s']; try done.
  - destruct H as (Ht & vs & Hb & Hs). split; [done|]. right. by exists rows, vs.
  - destruct H as [Ht He]. split; [done|]. left. by exists e.
Qed.

Lemma wrap_driver e : driver_error e → wrapNotFound e = e.
Proof. intros [Hne _]. unfold wrapNotFound. by rewrite decide_False. Qed.

Lemma wrap_failure e : db_failure e → wrapNotFound e = e.
Proof. intros H. by apply wrap_driver, db_failure_driver. Qed.

(** Identifiers that name uuids are parameters the database takes. *)
Lemma owner_binds t T i uT u :
  column_of t "tenant_id" = Some (not_null "tenant_id" UUID) →
  column_of t "id" = Some (not_null "id" UUID) → uuid T uT → uuid i u →
  bind_args ((t,.) <$> ["tenant_id"; "id"]) [GString T; GString i] [SUuid uT; SUuid u].
Proof. intros Ht Hi HT Hu. split; [|done]. cbn. repeat constructor; cbn; by rewrite ?Ht, ?Hi. Qed.

(** A lookup by tenant and identifier. *)
Lemma get_run {A} t cols (scan : list sqlval → outcome A) T i s :
  column_of t "tenant_id" = Some (not_null "tenant_id" UUID) →
  column_of t "id" = Some (not_null "id" UUID) → well_keyed (db_tables s) →
  let '(o, s') := queryRow (Select t cols ["tenant_id"; "id"] None) [GString T; GString i] scan s in
  db_tables s' = db_tables s ∧
  ((∃ e, o = Err e ∧ db_failure e ∧ (reachable s → ∀ uT u, uuid T uT → uuid i u → False)) ∨
   ∃ uT u, uuid T uT ∧ uuid i u ∧
     match owner_row (db_tables s) t uT u with
     | Some r => o = match scan (project cols r) with Err e => Err (wrapNotFound e) | x => x end
     | None => o = Err ErrNotFound
     end).
Proof using pgx_laws.
  intros Ht Hi Hw. unfold queryRow, mtry, mbind, M_bind.
  pose proof (rows_run (Select t cols ["tenant_id"; "id"] None) [GString T; GString i] s) as H.
  destruct (db_query _ _ s) as [o s']. destruct H as (HT & [(e & -> & He & Hno)|(rows & vs & -> & Hb & Hs)]).
  { split; [done|]. left. exists e. rewrite wrap_failure by done. split_and!; [done..|].
    intros Hs uT u HuT Hu. by eapply (Hno Hs), owner_binds. }
  simpl in Hb. destruct (bind_owner t _ _ _ Ht Hi eq_refl T i eq_refl Hb) as (uT & u & HuT & Hu & ->).
  destruct Hs as (kvs & Hp & -> & _). simpl in Hp. rewrite matching_owner in Hp by done.
  destruct (owner_row (db_tables s) t uT u) as [r|] eqn:Hr.
  - apply Permutation_singleton_r in Hp as ->. simpl. unfold of_outcome.
    destruct (scan (project cols r)) eqn:Hsc; (split; [done|]; right; exists uT, u; by rewrite Hr, Hsc).
  - apply Permutation_nil_r in Hp as ->. simpl. split; [done|]. right. exists uT, u. by rewrite Hr.
Qed.

Lemma insert_keyed t kvs T n T' : well_keyed T → sql_insert t kvs T = Some (n, T') → well_keyed T'.
Proof.
  intros Hw (d & u & _ & Hid & _ & _ & _ & _ & ->)%sql_insert_inv t' u' r.
  rewrite rows_of_insert. case_decide; [|apply Hw]. subst.
  intros [[<- <-]|[_ H]]%lookup_insert_Some; [done|by eapply Hw].
Qed.

(** [o] is the answer to writing [v], which leaves [s1]: it was not done, for
    an error of the database; or it was, the answer is [v] unless the server
    could not be reached, and then [read] gives a value with [R], unless the
    server cannot be reached. *)
Definition read_after {A} s s1 (o : outcome A) (v : A) (read : M S A) (R : A → Prop) : Prop :=
  (∃ e, o = Err e ∧ db_failure e ∧ db_tables s1 = db_tables s) ∨
  done_with s o (Ok v) ∧
  let '(o', s2) := read s1 in
  (∃ e, o' = Err e ∧ db_failure e ∧ ¬ reachable s1) ∨ ∃ v', o' = Ok v' ∧ R v'.

(** What is created can be read back, if what is written is scanned as [R]
    says. *)
Lemma create_get {A} t cols args (v : A) (scan : list sqlval → outcome A) (R : A → Prop) T i s :
  column_of t "tenant_id" = Some (not_null "tenant_id" UUID) →
  column_of t "id" = Some (not_null "id" UUID) → well_keyed (db_tables s) →
  NoDup cols → length cols = length args →
  (∀ d vs, table_def_of t = Some d → bind_args ((t,.) <$> cols) args vs →
     not_nulls_ok d (list_to_map (zip cols vs)) = true →
     ∃ uT u, uuid T uT ∧ uuid i u ∧
       (list_to_map (zip cols vs) : sql_row) !! "tenant_id" = Some (SUuid uT) ∧
       (list_to_map (zip cols vs) : sql_row) !! "id" = Some (SUuid u) ∧
       ∃ v', scan vs = Ok v' ∧ R v') →
  let '(o, s1) := insert t cols args v s in
  read_after s s1 o v (queryRow (Select t cols ["tenant_id"; "id"] None) [GString T; GString i] scan) R.
Proof using pgx_laws.
  intros Ht Hi Hw Hnd Hlen Hv. pose proof (insert_run t cols args v s) as H.
  destruct (insert t cols args v s) as [o s1].
  destruct H as [(e & Ho & He & HT & _)|(Ho & vs & n & Hb & He)]; [left; by exists e|].
  right. split; [done|]. pose proof (insert_keyed _ _ _ _ _ Hw He) as Hw1.
  apply sql_insert_inv in He as (d & u & Hd & Hid & _ & Hnn & _ & _ & HT).
  destruct (Hv d vs Hd Hb Hnn) as (uT & u' & HuT & Hu' & Htn & Hid' & v' & Hsc & HR).
  rewrite Hid in Hid'. injection Hid' as <-.
  pose proof (get_run t cols scan T i s1 Ht Hi Hw1) as H. destruct (queryRow _ _ _ s1) as [o' s2].
  destruct H as (_ & [(e & Ho' & He & Hno)|(uT2 & u2 & HuT2 & Hu2 & H)]).
  { left. exists e. split_and!; [done..|]. intros Hs. by eapply Hno. }
  right.
  rewrite (uuid_fun _ _ _ HuT2 HuT), (uuid_fun _ _ _ Hu2 Hu') in H.
  assert (Hr : owner_row (db_tables s1) t uT u = Some (list_to_map (zip cols vs))).
  { apply owner_row_Some. split; [|done].
    by rewrite HT, rows_of_insert, decide_True, lookup_insert_eq. }
  rewrite Hr, project_zip, Hsc in H; [by exists v'|done|].
  destruct Hb as [Hb _]. apply Forall2_length in Hb. rewrite length_zip, length_fmap in Hb. lia.
Qed.

(** An update changes the row that was there, if what is written is scanned
    as [R] says. *)
Lemma update_get {A} t cols set args (v : A) (scan : list sqlval → outcome A) (R : A → A → Prop) T i s old :
  column_of t "tenant_id" = Some (not_null "tenant_id" UUID) →
  column_of t "id" = Some (not_null "id" UUID) → well_keyed (db_tables s) →
  "tenant_id" ∉ set → "id" ∉ set → length args = (length set + 2)%nat →
  drop (length set) args = [GString T; GString i] →
  (∀ d vs (r : sql_row), table_def_of t = Some d →
     bind_args ((t,.) <$> set) (take (length set) args) vs →
     not_nulls_ok d (set_columns (zip set vs) r) = true → scan (project cols r) = Ok old →
     ∃ new, scan (project cols (set_columns (zip set vs) r)) = Ok new ∧ R old new) →
  (∃ s0, queryRow (Select t cols ["tenant_id"; "id"] None) [GString T; GString i] scan s = (Ok old, s0)) →
  let '(o, s1) := update t set ["tenant_id"; "id"] args v s in
  read_after s s1 o v (queryRow (Select t cols ["tenant_id"; "id"] None) [GString T; GString i] scan) (R old).
Proof using pgx_laws.
  intros Ht Hi Hw Hnt Hni Hlen Hargs HR [s0 Hold].
  pose proof (get_run t cols scan T i s Ht Hi Hw) as H0. rewrite Hold in H0.
  destruct H0 as (_ & [(e & [=] & _)|(uT & u & HuT & Hu & H0)]).
  destruct (owner_row (db_tables s) t uT u) as [r|] eqn:Hr; [|done].
  assert (Hsc : scan (project cols r) = Ok old) by (destruct (scan (project cols r)); congruence).
  pose proof (update_run t set ["tenant_id"; "id"] args v s) as H.
  destruct (update t set _ args v s) as [o s1]. destruct H as [(e & Ho & He & HT & _)|(vs & n & Hb & He & Ho)]; [left; by exists e|].
  rewrite fmap_app in Hb. destruct (bind_app _ _ _ _ Hb) as [Hb1 Hb2].
  rewrite length_fmap in Hb1, Hb2. rewrite Hargs in Hb2.
  destruct (bind_owner t _ _ _ Ht Hi eq_refl T i eq_refl Hb2) as (uT2 & u2 & HuT2 & Hu2 & Hvs).
  rewrite (uuid_fun _ _ _ HuT2 HuT), (uuid_fun _ _ _ Hu2 Hu) in Hvs. rewrite Hvs in He. simpl in He.
  assert (Hfst : (zip set (take (length set) vs)).*1 = set).
  { apply fst_zip. destruct Hb1 as [Hb1 _]. apply Forall2_length in Hb1.
    rewrite length_zip, length_fmap, length_take in Hb1. lia. }
  pose proof (update_owner t _ uT u _ n _ ltac:(by rewrite Hfst) Hw He) as Hrow. rewrite Hr in Hrow.
  destruct Hrow as (-> & Hrow & d & Hd & Hnn). right. split; [done|].
  pose proof (update_keyed _ _ _ _ _ _ ltac:(by rewrite Hfst) Hw He) as Hw1.
  pose proof (get_run t cols scan T i s1 Ht Hi Hw1) as H. destruct (queryRow _ _ _ s1) as [o' s2].
  destruct H as (_ & [(e & Ho' & He' & Hno)|(uT3 & u3 & HuT3 & Hu3 & H)]).
  { left. exists e. split_and!; [done..|]. intros Hs. by eapply Hno. }
  right.
  rewrite (uuid_fun _ _ _ HuT3 HuT), (uuid_fun _ _ _ Hu3 Hu), Hrow in H.
  destruct (HR d _ r Hd Hb1 Hnn Hsc) as (new & Hnew & Hrel). rewrite Hnew in H. by exists new.
Qed.
End Calls.
