(* ===== verification/PgProps.v ===== *)
(** * What is written to the PostgreSQL store is read back

    For each kind of resource: what a value becomes in its columns, and what
    is scanned from the row after a create and after an update. *)
From stdpp Require Import sorting.
From S2P Require Import Prelude GoStr GoValue Json Model Store StoreSpec StoreProps Codec Traces.
From S2P Require Import Sql Pg PgJson PgTheory.

(** ** The resources *)
Inductive resource : Type → Type :=
  | RAgent : resource Agent
  | RServer : resource McpServer
  | RFlow : resource Flow
  | RRun : resource Run
  | RTask : resource Task
  | RUser : resource User.

Definition create_of {V} (k : resource V) : V → StoreOp V :=
  match k with
  | RAgent => OpCreateAgent | RServer => OpCreateMcpServer | RFlow => OpCreateFlow
  | RRun => OpCreateRun | RTask => OpCreateTask | RUser => OpCreateUser
  end.
Definition update_of {V} (k : resource V) : V → StoreOp V :=
  match k with
  | RAgent => OpUpdateAgent | RServer => OpUpdateMcpServer | RFlow => OpUpdateFlow
  | RRun => OpUpdateRun | RTask => OpUpdateTask | RUser => OpUpdateUser
  end.
Definition get_of {V} (k : resource V) : string → string → StoreOp V :=
  match k with
  | RAgent => OpGetAgent | RServer => OpGetMcpServer | RFlow => OpGetFlow
  | RRun => OpGetRun | RTask => OpGetTask | RUser => OpGetUser
  end.
Definition tenant_of_value {V} (k : resource V) : V → string :=
  match k with
  | RAgent => Agent_TenantID | RServer => McpServer_TenantID | RFlow => Flow_TenantID
  | RRun => Run_TenantID | RTask => Task_TenantID | RUser => User_TenantID
  end.
Definition id_of_value {V} (k : resource V) : V → string :=
  match k with
  | RAgent => Agent_ID | RServer => McpServer_ID | RFlow => Flow_ID
  | RRun => Run_ID | RTask => Task_ID | RUser => User_ID
  end.

(** Parameters and the values that the laws say they become. *)
Ltac bind_all H :=
  cbn in H;
  repeat (let Hv := fresh "Hv" in
    apply bind_cons in H as (? & ? & ? & ? & [= <- <-] & -> & Hv & H);
    match type of Hv with
    | match column_of ?t ?n with _ => _ end =>
        let t' := eval cbn in t in let n' := eval cbn in n in
        let c := eval vm_compute in (column_of t' n') in
        change (column_of t n) with c in Hv; cbn in Hv
    end);
  apply bind_nil in H as [_ ->].

Ltac read_params :=
  repeat match goal with
  | H : to_sql TEXT (GString _) = Ok _ |- _ => apply text_in in H; subst
  | H : to_sql BOOLEAN (GBool _) = Ok _ |- _ => apply bool_in in H; subst
  | H : to_sql TIMESTAMPTZ (GTime _) = Ok _ |- _ => apply time_in in H; subst
  | H : to_sql TIMESTAMPTZ (GTimePtr _) = Ok _ |- _ => apply time_ptr_in in H; subst
  | H : to_sql JSONB (GRaw ?r) = Ok _ |- _ => apply (raw_in _ r) in H; [|by left]
  | H : to_sql JSONB (GBytes ?r) = Ok _ |- _ => apply (raw_in _ r) in H; [|by right]
  | H : to_sql UUID (GString ?s) = Ok ?v |- _ =>
      is_var v; let u := fresh "u" in destruct (uuid_in s v H) as (u & -> & _); fold (uuid s u) in H
  end.

Ltac not_listed := apply (bool_decide_unpack _); vm_compute; exact I.

Ltac lookups :=
  repeat first [rewrite lookup_insert_eq | rewrite lookup_insert_ne by done | rewrite lookup_empty]; simpl.

Section Store.
Context {S : Type} {pgx : Pgx} {pgx_laws : PgxLaws pgx} {db : Database S} {laws : DatabaseLaws S}.
Context (parse_time : string → outcome Time) (time_text : Time → string).
Implicit Types (s : S).

(** What is read after [v] was created: identifiers in canonical form,
    times in microseconds, documents as jsonb keeps them. *)
Definition written {V} (k : resource V) : V → V → Prop :=
  match k with
  | RAgent => λ a a', uuid (Agent_ID a) (Agent_ID a') ∧ uuid (Agent_TenantID a) (Agent_TenantID a') ∧
      a' = mkAgent (Agent_ID a') (Agent_TenantID a') (Agent_Name a) (Agent_Profile a) (Agent_SystemPrompt a)
             (Agent_Skills a) (Agent_Enabled a) (micros (Agent_CreatedAt a)) (micros (Agent_UpdatedAt a))
  | RServer => λ a a', uuid (McpServer_ID a) (McpServer_ID a') ∧
      uuid (McpServer_TenantID a) (McpServer_TenantID a') ∧
      same_raw (McpServer_Transport a) (McpServer_Transport a') ∧
      a' = mkMcpServer (McpServer_ID a') (McpServer_TenantID a') (McpServer_Name a) (McpServer_Transport a')
             (McpServer_Enabled a) (McpServer_Status a) (micros (McpServer_CreatedAt a))
             (micros (McpServer_UpdatedAt a))
  | RFlow => λ a a', uuid (Flow_ID a) (Flow_ID a') ∧ uuid (Flow_TenantID a) (Flow_TenantID a') ∧
      same_raw (Flow_FlowJSON a) (Flow_FlowJSON a') ∧
      a' = mkFlow (Flow_ID a') (Flow_TenantID a') (Flow_Name a) (Flow_FlowJSON a') (Flow_Permissions a)
             (Flow_Enabled a) (micros (Flow_CreatedAt a)) (micros (Flow_UpdatedAt a))
  | RRun => λ a a', uuid (Run_ID a) (Run_ID a') ∧ uuid (Run_TenantID a) (Run_TenantID a') ∧
      uuid (Run_FlowID a) (Run_FlowID a') ∧ same_raw (Run_Result a) (Run_Result a') ∧
      a' = mkRun (Run_ID a') (Run_FlowID a') (Run_TenantID a') (Run_Status a) (micros (Run_StartedAt a))
             (micros <$> Run_FinishedAt a) (Run_Logs a) (Run_Result a')
  | RTask => λ a a', uuid (Task_ID a) (Task_ID a') ∧ uuid (Task_TenantID a) (Task_TenantID a') ∧
      Forall2 same_subtask (Task_Subtasks a) (Task_Subtasks a') ∧ same_raw (Task_Result a) (Task_Result a') ∧
      a' = mkTask (Task_ID a') (Task_TenantID a') (Task_Input a) (Task_Status a) (Task_Subtasks a')
             (Task_Result a') (micros (Task_CreatedAt a)) (micros (Task_UpdatedAt a))
  | RUser => λ a a', uuid (User_ID a) (User_ID a') ∧ uuid (User_TenantID a) (User_TenantID a') ∧
      a' = mkUser (User_ID a') (User_TenantID a') (Username a) (PasswordHash a) (User_Role a)
             (micros (User_CreatedAt a)) (micros (User_UpdatedAt a))
  end.

(** Scans of columns the laws speak of. *)
Ltac scans :=
  repeat (first [rewrite uuid_out | rewrite text_out | rewrite bool_out | rewrite time_out
                | rewrite time_ptr_out | rewrite time_ptr_null | rewrite raw_out | rewrite raw_null
                | erewrite json_out by eassumption
                | match goal with H : ?l = Ok _ |- context [?l] => rewrite H end];
          cbn [mbind outcome_bind]).

(** Documents that were read: what they decode to. *)
Ltac documents :=
  repeat match goal with
  | H : ∃ j', _ = SJson j' ∧ _ |- _ => destruct H as (? & -> & H)
  | H : same_json (JArr (encode_Skill <$> _)) _ |- _ => apply skills_back in H
  | H : same_json (encode_Permissions _) _ |- _ => apply Permissions_back in H
  | H : same_json (JArr (encode_LogEntry _ <$> _)) _ |- _ => apply (logs_back parse_time) in H; [|assumption]
  end.

Ltac created :=
  let d := fresh "d" in let vs := fresh "vs" in let Hd := fresh "Hd" in let H := fresh "H" in
  let Hnn := fresh "Hnn" in
  intros d vs Hd H Hnn; bind_all H;
  unfold skillsJSON, permissionsJSON, logsJSON, subtasksJSON in *; read_params; documents;
  do 2 eexists; split_and!;
    [eassumption|eassumption|cbn; lookups; reflexivity|cbn; lookups; reflexivity|].

Lemma agent_created (a : Agent) s : well_keyed (db_tables s) →
  let '(o, s1) := PG_CreateAgent a s in
  read_after s s1 o a (PG_GetAgent (Agent_TenantID a) (Agent_ID a)) (written RAgent a).
Proof using pgx_laws.
  intros Hw. apply create_get; [done|done|done|solve_names|done|].
  created. eexists. split; [unfold scanAgent; scans; reflexivity|]. by split_and!.
Qed.

Lemma server_created (a : McpServer) s : well_keyed (db_tables s) →
  let '(o, s1) := PG_CreateMcpServer a s in
  read_after s s1 o a (PG_GetMcpServer (McpServer_TenantID a) (McpServer_ID a)) (written RServer a).
Proof using pgx_laws.
  intros Hw. apply create_get; [done|done|done|solve_names|done|].
  created. destruct (McpServer_Transport a) as [| |j] eqn:Hr; [|done|]; documents; subst;
    (eexists; split; [unfold scanMcpServer; scans; reflexivity|]; split_and!; rewrite ?Hr; simpl; eauto).
Qed.

Lemma flow_created (a : Flow) s : well_keyed (db_tables s) →
  let '(o, s1) := PG_CreateFlow a s in
  read_after s s1 o a (PG_GetFlow (Flow_TenantID a) (Flow_ID a)) (written RFlow a).
Proof using pgx_laws.
  intros Hw. apply create_get; [done|done|done|solve_names|done|].
  created. destruct (Flow_FlowJSON a) as [| |j] eqn:Hr; [|done|]; documents; subst;
    (eexists; split; [unfold scanFlow; scans; reflexivity|]; split_and!; rewrite ?Hr; simpl; eauto).
Qed.

Lemma run_created (a : Run) s :
  Forall (λ e, text_back parse_time time_text (Timestamp e)) (Run_Logs a) → well_keyed (db_tables s) →
  let '(o, s1) := PG_CreateRun time_text a s in
  read_after s s1 o a (PG_GetRun parse_time (Run_TenantID a) (Run_ID a)) (written RRun a).
Proof using pgx_laws.
  intros Ht Hw. apply create_get; [done|done|done|solve_names|done|].
  created. destruct (Run_FinishedAt a) as [f|] eqn:Hf, (Run_Result a) as [| |j] eqn:Hr; try done; documents;
    subst; (eexists; split; [unfold scanRun; scans; reflexivity|]; split_and!; rewrite ?Hr, ?Hf; simpl; eauto).
Qed.

(** Subtasks that do not encode are NULL, which the column refuses. *)
Lemma task_created (a : Task) s : well_keyed (db_tables s) →
  let '(o, s1) := PG_CreateTask a s in
  read_after s s1 o a (PG_GetTask (Task_TenantID a) (Task_ID a)) (written RTask a).
Proof using pgx_laws.
  intros Hw. apply create_get; [done|done|done|solve_names|done|].
  created. destruct (mapM encode_Subtask (Task_Subtasks a)) as [js|] eqn:Hjs.
  2: { subst. vm_compute in Hd. injection Hd as <-. by vm_compute in Hnn. }
  documents.
  match goal with H : same_json (JArr js) _ |- _ => destruct (subtasks_back _ _ _ Hjs H) as (l & Hl & Hs) end.
  destruct (Task_Result a) as [| |j] eqn:Hr; try done; documents; subst;
    (eexists; split; [unfold scanTask; scans; reflexivity|]; split_and!; rewrite ?Hr; simpl; eauto).
Qed.

Lemma user_created (a : User) s : well_keyed (db_tables s) →
  let '(o, s1) := PG_CreateUser a s in
  read_after s s1 o a (PG_GetUser (User_TenantID a) (User_ID a)) (written RUser a).
Proof using pgx_laws.
  intros Hw. apply create_get; [done|done|done|solve_names|done|].
  created. eexists. split; [unfold scanUser; scans; reflexivity|]. by split_and!.
Qed.

(** ** Updates *)

(** What is read after [v] was written over [old]: identifiers, references
    and the time of creation are not among the columns of the UPDATE. *)
Definition rewritten {V} (k : resource V) : V → V → V → Prop :=
  match k with
  | RAgent => λ v old new, new = mkAgent (Agent_ID old) (Agent_TenantID old) (Agent_Name v) (Agent_Profile v)
      (Agent_SystemPrompt v) (Agent_Skills v) (Agent_Enabled v) (Agent_CreatedAt old) (micros (Agent_UpdatedAt v))
  | RServer => λ v old new, same_raw (McpServer_Transport v) (McpServer_Transport new) ∧
      new = mkMcpServer (McpServer_ID old) (McpServer_TenantID old) (McpServer_Name v) (McpServer_Transport new)
        (McpServer_Enabled v) (McpServer_Status v) (McpServer_CreatedAt old) (micros (McpServer_UpdatedAt v))
  | RFlow => λ v old new, same_raw (Flow_FlowJSON v) (Flow_FlowJSON new) ∧
      new = mkFlow (Flow_ID old) (Flow_TenantID old) (Flow_Name v) (Flow_FlowJSON new) (Flow_Permissions v)
        (Flow_Enabled v) (Flow_CreatedAt old) (micros (Flow_UpdatedAt v))
  | RRun => λ v old new, same_raw (Run_Result v) (Run_Result new) ∧
      new = mkRun (Run_ID old) (Run_FlowID old) (Run_TenantID old) (Run_Status v) (micros (Run_StartedAt v))
        (micros <$> Run_FinishedAt v) (Run_Logs v) (Run_Result new)
  | RTask => λ v old new, same_raw (Task_Result v) (Task_Result new) ∧
      Forall2 same_subtask (Task_Subtasks v) (Task_Subtasks new) ∧
      new = mkTask (Task_ID old) (Task_TenantID old) (Task_Input v) (Task_Status v) (Task_Subtasks new)
        (Task_Result new) (Task_CreatedAt old) (micros (Task_UpdatedAt v))
  | RUser => λ v old new, new = mkUser (User_ID old) (User_TenantID old) (Username v) (PasswordHash v)
      (User_Role v) (User_CreatedAt old) (micros (User_UpdatedAt v))
  end.

Ltac set_lookups :=
  repeat first [rewrite set_columns_hit | rewrite set_columns_miss by done | rewrite set_columns_nil];
  cbn [default from_option id].

Ltac changed :=
  let d := fresh "d" in let vs := fresh "vs" in let r := fresh "r" in let Hd := fresh "Hd" in
  let H := fresh "H" in let Hnn := fresh "Hnn" in let Hsc := fresh "Hsc" in
  intros d vs r Hd H Hnn Hsc; bind_all H;
  unfold skillsJSON, permissionsJSON, logsJSON, subtasksJSON in *; read_params; documents;
  unfold project, agent_cols, server_cols, flow_cols, run_cols, task_cols, user_cols in Hsc |- *;
  cbn [fmap list_fmap zip] in Hsc, Hnn |- *;
  unfold scanAgent, scanMcpServer, scanFlow, scanRun, scanTask, scanUser in Hsc |- *;
  invert_binds; set_lookups.

Lemma agent_updated (a old : Agent) s : well_keyed (db_tables s) →
  (∃ s0, PG_GetAgent (Agent_TenantID a) (Agent_ID a) s = (Ok old, s0)) →
  let '(o, s1) := PG_UpdateAgent a s in
  read_after s s1 o a (PG_GetAgent (Agent_TenantID a) (Agent_ID a)) (rewritten RAgent a old).
Proof using pgx_laws.
  intros Hw. apply update_get; [done|done|done|not_listed|not_listed|done|done|].
  changed. eexists. split; [scans; reflexivity|done].
Qed.

Lemma server_updated (a old : McpServer) s : well_keyed (db_tables s) →
  (∃ s0, PG_GetMcpServer (McpServer_TenantID a) (McpServer_ID a) s = (Ok old, s0)) →
  let '(o, s1) := PG_UpdateMcpServer a s in
  read_after s s1 o a (PG_GetMcpServer (McpServer_TenantID a) (McpServer_ID a)) (rewritten RServer a old).
Proof using pgx_laws.
  intros Hw. apply update_get; [done|done|done|not_listed|not_listed|done|done|].
  changed. destruct (McpServer_Transport a) as [| |j] eqn:Hr; try done; documents; subst;
    (eexists; split; [scans; reflexivity|]; split_and!; rewrite ?Hr; simpl; eauto).
Qed.

Lemma flow_updated (a old : Flow) s : well_keyed (db_tables s) →
  (∃ s0, PG_GetFlow (Flow_TenantID a) (Flow_ID a) s = (Ok old, s0)) →
  let '(o, s1) := PG_UpdateFlow a s in
  read_after s s1 o a (PG_GetFlow (Flow_TenantID a) (Flow_ID a)) (rewritten RFlow a old).
Proof using pgx_laws.
  intros Hw. apply update_get; [done|done|done|not_listed|not_listed|done|done|].
  changed. destruct (Flow_FlowJSON a) as [| |j] eqn:Hr; try done; documents; subst;
    (eexists; split; [scans; reflexivity|]; split_and!; rewrite ?Hr; simpl; eauto).
Qed.

Lemma run_updated (a old : Run) s :
  Forall (λ e, text_back parse_time time_text (Timestamp e)) (Run_Logs a) → well_keyed (db_tables s) →
  (∃ s0, PG_GetRun parse_time (Run_TenantID a) (Run_ID a) s = (Ok old, s0)) →
  let '(o, s1) := PG_UpdateRun time_text a s in
  read_after s s1 o a (PG_GetRun parse_time (Run_TenantID a) (Run_ID a)) (rewritten RRun a old).
Proof using pgx_laws.
  intros Ht Hw. apply update_get; [done|done|done|not_listed|not_listed|done|done|].
  changed. destruct (Run_FinishedAt a) as [f|] eqn:Hf, (Run_Result a) as [| |j] eqn:Hr; try done; documents;
    subst; (eexists; split; [scans; reflexivity|]; split_and!; rewrite ?Hr, ?Hf; simpl; eauto).
Qed.

Lemma task_updated (a old : Task) s : well_keyed (db_tables s) →
  (∃ s0, PG_GetTask (Task_TenantID a) (Task_ID a) s = (Ok old, s0)) →
  let '(o, s1) := PG_UpdateTask a s in
  read_after s s1 o a (PG_GetTask (Task_TenantID a) (Task_ID a)) (rewritten RTask a old).
Proof using pgx_laws.
  intros Hw. apply update_get; [done|done|done|not_listed|not_listed|done|done|].
  changed. destruct (mapM encode_Subtask (Task_Subtasks a)) as [js|] eqn:Hjs.
  2: { subst. vm_compute in Hd. injection Hd as <-. exfalso.
    apply (not_null_column _ (not_null "subtasks" JSONB) _ Hnn); [do 4 right; by left|done|by set_lookups]. }
  documents.
  match goal with H : same_json (JArr js) _ |- _ => destruct (subtasks_back _ _ _ Hjs H) as (l & Hl & Hs) end.
  destruct (Task_Result a) as [| |j] eqn:Hr; try done; documents; subst;
    (eexists; split; [scans; reflexivity|]; split_and!; rewrite ?Hr; simpl; eauto).
Qed.

Lemma user_updated (a old : User) s : well_keyed (db_tables s) →
  (∃ s0, PG_GetUser (User_TenantID a) (User_ID a) s = (Ok old, s0)) →
  let '(o, s1) := PG_UpdateUser a s in
  read_after s s1 o a (PG_GetUser (User_TenantID a) (User_ID a)) (rewritten RUser a old).
Proof using pgx_laws.
  intros Hw. apply update_get; [done|done|done|not_listed|not_listed|done|done|].
  changed. eexists. split; [scans; reflexivity|done].
Qed.

End Store.
