(* ===== verification/PgFrame.v ===== *)
(** * Which rows a call of the PostgreSQL store concerns

    Every statement carries the tenant of its call: it changes rows of that
    tenant only, with the runs that a deleted flow takes with it, reads rows
    of that tenant only, and says "not found" only when it changed nothing. *)
From stdpp Require Import sorting.
From S2P Require Import Prelude GoStr GoValue Json Model Store StoreSpec StoreProps Codec Traces.
From S2P Require Import Sql Pg PgJson PgTheory.

(** The rows of everybody but the tenant. *)
Definition others (uT : string) (tb : sql_table) : sql_table :=
  filter (λ kv, matches [("tenant_id", SUuid uT)] kv.2 = false) tb.

Definition same_rows (T0 T1 : sql_tables) : Prop := ∀ t, rows_of T1 t = rows_of T0 t.

(** What a call for the tenant [T] does to the tables. *)
Definition touches `{Pgx} (T : string) (T0 T1 : sql_tables) : Prop :=
  same_rows T0 T1 ∨ ∃ uT, uuid T uT ∧ ∀ t, others uT (rows_of T1 t) = others uT (rows_of T0 t).

(** Every run is of the tenant of its flow. *)
Definition runs_follow_flows (T : sql_tables) : Prop :=
  ∀ u r f fr, rows_of T "runs" !! u = Some r → r !! "flow_id" = Some (SUuid f) →
    rows_of T "flows" !! f = Some fr → r !! "tenant_id" = fr !! "tenant_id".

Lemma others_lookup uT tb u :
  others uT tb !! u = (r ← tb !! u; if matches [("tenant_id", SUuid uT)] r then None else Some r).
Proof.
  unfold others. rewrite map_lookup_filter.
  destruct (tb !! u) as [r|]; cbn [mbind option_bind]; [|done].
  destruct (matches [("tenant_id", SUuid uT)] r) eqn:E.
  - rewrite option_guard_False by (cbn [snd]; by rewrite E). done.
  - rewrite option_guard_True by (cbn [snd]; by rewrite E). done.
Qed.

Lemma matches_tenant uT r : matches [("tenant_id", SUuid uT)] r = true ↔ r !! "tenant_id" = Some (SUuid uT).
Proof. rewrite matches_uuid. split; [by intros []|done]. Qed.

Lemma others_ext uT tb tb' :
  (∀ u, tb' !! u = tb !! u ∨
     (∀ r, tb !! u = Some r → r !! "tenant_id" = Some (SUuid uT)) ∧
     (∀ r, tb' !! u = Some r → r !! "tenant_id" = Some (SUuid uT))) →
  others uT tb' = others uT tb.
Proof.
  intros H. apply map_eq. intros u. rewrite !others_lookup.
  destruct (H u) as [->|[H1 H2]]; [done|].
  assert (Hno : ∀ o : option sql_row, (∀ r, o = Some r → r !! "tenant_id" = Some (SUuid uT)) →
    (r ← o; if matches [("tenant_id", SUuid uT)] r then None else Some r) = None).
  { intros [r|] Hr; [|done]. cbn [mbind option_bind]. by rewrite (proj2 (matches_tenant _ _) (Hr r eq_refl)). }
  by rewrite !Hno.
Qed.

Lemma rows_insert_others uT T t tb :
  others uT tb = others uT (rows_of T t) →
  ∀ t', others uT (rows_of (<[t := tb]> T) t') = others uT (rows_of T t').
Proof. intros H t'. rewrite rows_of_insert. case_decide; by subst. Qed.

(** ** Deleting *)
Lemma delete_leaf n t p T :
  referencing t = [] → delete_rows (Datatypes.S n) t p T = <[t := filter (λ kv, p kv.2 = false) (rows_of T t)]> T.
Proof. intros H. simpl. by rewrite H. Qed.

Lemma filter_others uT (p : sql_row → bool) tb :
  (∀ u r, tb !! u = Some r → p r = true → r !! "tenant_id" = Some (SUuid uT)) →
  others uT (filter (λ kv, p kv.2 = false) tb) = others uT tb.
Proof.
  intros Hp. apply others_ext. intros u. rewrite map_lookup_filter.
  destruct (tb !! u) as [r|] eqn:Hr; cbn [mbind option_bind]; [|by left].
  destruct (p r) eqn:E; [right|left; rewrite option_guard_True; [done|exact E]].
  rewrite option_guard_False by (cbn [snd]; congruence). split; [|done]. intros r' [= <-]. by eapply Hp.
Qed.

Lemma keyed_filter T t (P : string * sql_row → Prop) `{∀ kv, Decision (P kv)} :
  well_keyed T → well_keyed (<[t := filter P (rows_of T t)]> T).
Proof.
  intros Hw t' u r. rewrite rows_of_insert. case_decide; [|apply Hw]. subst.
  intros [Hr _]%map_lookup_filter_Some. by eapply Hw.
Qed.

Lemma delete_keyed n t p T : well_keyed T → well_keyed (delete_rows n t p T).
Proof.
  revert t p T. induction n as [|n IH]; intros t p T Hw; [done|]. cbn [delete_rows].
  generalize (referencing t). intros l. induction l as [|tc l IHl]; simpl; [by apply keyed_filter|].
  apply IH, IHl.
Qed.

(** Deleting nothing. *)
Lemma same_rows_trans T0 T1 T2 : same_rows T0 T1 → same_rows T1 T2 → same_rows T0 T2.
Proof. intros H1 H2 t. by rewrite H2, H1. Qed.

Lemma delete_none n t p T :
  (∀ u r, rows_of T t !! u = Some r → p r = false) → same_rows T (delete_rows n t p T).
Proof.
  revert t p T. induction n as [|n IH]; intros t p T Hp; [done|]. cbn [delete_rows].
  assert (Hgone : filter (λ kv : string * sql_row, p kv.2 = true) (map_to_list (rows_of T t)) = []).
  { destruct (filter _ _) as [|[u r] l] eqn:E; [done|].
    assert (Hin : (u, r) ∈ (u, r) :: l) by left. rewrite <- E in Hin.
    apply list_elem_of_filter in Hin as [Hpr Hr%elem_of_map_to_list]. simpl in Hpr.
    by rewrite (Hp u r Hr) in Hpr. }
  rewrite Hgone. generalize (referencing t). intros l. induction l as [|tc l IHl]; simpl.
  - intros t'. rewrite rows_of_insert. case_decide; [|done]. subst t'.
    apply map_filter_id. intros u r Hr. by eapply Hp.
  - eapply same_rows_trans; [exact IHl|]. apply IH. intros u r _. unfold refers. by repeat case_match.
Qed.

(** Deleting flows takes their runs. *)
Lemma delete_flows n p T :
  let gone := (filter (λ kv, p kv.2 = true) (map_to_list (rows_of T "flows"))).*1 in
  let T1 := <["flows" := filter (λ kv, p kv.2 = false) (rows_of T "flows")]> T in
  delete_rows (Datatypes.S (Datatypes.S n)) "flows" p T
    = <["runs" := filter (λ kv, refers "flow_id" gone kv.2 = false) (rows_of T1 "runs")]> T1.
Proof. done. Qed.

Lemma delete_flows_others n p T uT :
  runs_follow_flows T → (∀ r, p r = true → r !! "tenant_id" = Some (SUuid uT)) →
  ∀ t, others uT (rows_of (delete_rows (Datatypes.S (Datatypes.S n)) "flows" p T) t) = others uT (rows_of T t).
Proof.
  intros Hrf Hp t. rewrite delete_flows. cbv zeta. rewrite rows_of_insert. case_decide as Ht.
  - subst t. rewrite !rows_of_insert, decide_False by done. apply filter_others. intros u r Hr. unfold refers.
    destruct (r !! "flow_id") as [[| f| | | | ]|] eqn:Hf; try done. rewrite bool_decide_eq_true.
    intros ([f' fr] & -> & [Hpf Hfr]%list_elem_of_filter)%list_elem_of_fmap.
    apply elem_of_map_to_list in Hfr. simpl in *. by rewrite (Hrf u r f' fr), (Hp fr).
  - rewrite rows_of_insert. case_decide; [|done]. subst t. apply filter_others. intros u r _. apply Hp.
Qed.

(** ** The calls *)
Section Calls.
Context {S : Type} {pgx : Pgx} {pgx_laws : PgxLaws pgx} {db : Database S} {laws : DatabaseLaws S}.
Implicit Types (s : S).

(** A call that fails says so with the store's own "not found", and leaves
    the tables, or with an error of the driver, and leaves the tables unless
    the server could not be reached. *)
Definition answers {A} s (o : outcome A) s' : Prop :=
  match o with
  | Ok _ => True
  | Err e => (e = ErrNotFound ∨ driver_error e) ∧
      (e = ErrNotFound ∨ reachable s → same_rows (db_tables s) (db_tables s'))
  | _ => False
  end.

Lemma same_rows_eq T0 T1 : T1 = T0 → same_rows T0 T1.
Proof. by intros -> t. Qed.

Lemma not_done_answers {A} s (o : outcome A) s' rf : not_done s o s' rf → answers s o s'.
Proof.
  intros (e & -> & He & HT & _). split; [right; by apply db_failure_driver|]. intros _. by apply same_rows_eq.
Qed.

Lemma lost_answers {A} s s' (o : outcome A) e :
  o = Err e → db_failure e → ¬ reachable s → answers s o s'.
Proof.
  intros -> He Hs. apply db_failure_driver in He. split; [by right|]. intros [->|?]; [|done].
  destruct He as [_ He]. by apply Forall_cons in He as [? _].
Qed.

(** What is promised of a call for [T]. *)
Record call_ok {A} (T : string) s (o : outcome A) s' : Prop := {
  ok_answers : answers s o s';
  ok_touches : touches T (db_tables s) (db_tables s');
  ok_keyed : well_keyed (db_tables s')
}.

(** A statement that concerns no row says "not found". *)
Lemma none_matching key tb u r :
  (Z.of_nat (length (matching key tb)) =? 0)%Z = true → tb !! u = Some r → matches key r = false.
Proof.
  intros E Hr. apply not_true_iff_false. intros Hm. apply Z.eqb_eq in E.
  assert (Hin : (u, r) ∈ matching key tb) by by apply matching_elem.
  destruct (matching _ _); [by apply not_elem_of_nil in Hin|done].
Qed.

Lemma insert_answers {A} t cols args (v : A) s : let '(o, s') := insert t cols args v s in answers s o s'.
Proof.
  pose proof (insert_run t cols args v s) as H. destruct (insert t cols args v s) as [o s'].
  destruct H as [H|([->|(e & Ho & He & Hs)] & _)]; [by eapply not_done_answers|done|by eapply lost_answers].
Qed.

Lemma update_answers {A} t set key args (v : A) s :
  let '(o, s') := update t set key args v s in answers s o s'.
Proof.
  pose proof (update_run t set key args v s) as H. destruct (update _ _ _ _ _ s) as [o s'].
  destruct H as [H|(vs & n & _ & He & [->|(e & Ho & Hf & Hs)])];
    [by eapply not_done_answers| |by eapply lost_answers].
  apply sql_update_inv in He as (Hn & HT & _). destruct (n =? 0)%Z eqn:E; [|done]. split; [by left|].
  intros _. subst n. intros t'. rewrite HT, rows_of_insert. case_decide; [subst t'|done].
  apply map_eq. intros u. rewrite updated_lookup.
  destruct (rows_of (db_tables s) t !! u) as [r|] eqn:Hr; [|done]. cbn [fmap option_fmap option_map].
  by rewrite (none_matching _ _ _ _ E Hr).
Qed.

Lemma remove_answers t key args s : let '(o, s') := remove t key args s in answers s o s'.
Proof.
  pose proof (remove_run t key args s) as H. destruct (remove _ _ _ s) as [o s'].
  destruct H as [H|(vs & n & _ & He & [->|(e & Ho & Hf & Hs)])];
    [by eapply not_done_answers| |by eapply lost_answers].
  unfold sql_delete in He. apply pair_equal_spec in He as [<- HT].
  destruct (_ =? 0)%Z eqn:E; [|done]. split; [by left|]. intros _. rewrite <- HT.
  apply delete_none. intros u r. by apply none_matching.
Qed.

(** ... and one that does changes rows of its tenant. *)
Lemma unchanged T s s' : well_keyed (db_tables s) → db_tables s' = db_tables s →
  touches T (db_tables s) (db_tables s') ∧ well_keyed (db_tables s').
Proof. intros Hw ->. split; [by left|done]. Qed.

Lemma insert_ok {A} t cols args (v : A) T s :
  well_keyed (db_tables s) →
  (∀ vs, bind_args ((t,.) <$> cols) args vs →
     ∃ uT, uuid T uT ∧ (list_to_map (zip cols vs) : sql_row) !! "tenant_id" = Some (SUuid uT)) →
  let '(o, s') := insert t cols args v s in call_ok T s o s'.
Proof.
  intros Hw Hb. pose proof (insert_run t cols args v s) as H. pose proof (insert_answers t cols args v s) as Ha.
  destruct (insert t cols args v s) as [o s'].
  cut (touches T (db_tables s) (db_tables s') ∧ well_keyed (db_tables s')); [by intros []|].
  destruct H as [(e & _ & _ & HT & _)|(_ & vs & n & Hvs & He)]; [by apply unchanged|].
  destruct (Hb vs Hvs) as (uT & HuT & Htn). split; [|by eapply insert_keyed].
  apply sql_insert_inv in He as (d & u & _ & _ & Hno & _ & _ & _ & ->).
  right. exists uT. split; [done|]. apply rows_insert_others, others_ext. intros u'.
  destruct (decide (u' = u)) as [->|Hne]; [right|left; by rewrite lookup_insert_ne].
  rewrite Hno, lookup_insert_eq. split; [done|]. by intros r [= <-].
Qed.

Lemma update_ok {A} t set ks args gs (v : A) T s :
  column_of t "tenant_id" = Some (not_null "tenant_id" UUID) →
  well_keyed (db_tables s) → "tenant_id" ∉ set → "id" ∉ set →
  drop (length set) args = GString T :: gs →
  let '(o, s') := update t set ("tenant_id" :: ks) args v s in call_ok T s o s'.
Proof using pgx_laws.
  intros Hc Hw Hnt Hni Hargs. pose proof (update_run t set ("tenant_id" :: ks) args v s) as H.
  pose proof (update_answers t set ("tenant_id" :: ks) args v s) as Ha.
  destruct (update _ _ _ _ _ s) as [o s'].
  cut (touches T (db_tables s) (db_tables s') ∧ well_keyed (db_tables s')); [by intros []|]. clear Ha.
  destruct H as [(e & _ & _ & HT & _)|(vs & n & Hb & He & _)]; [by apply unchanged|].
  rewrite fmap_app in Hb. apply bind_app in Hb as [Hb1 Hb2]. rewrite length_fmap in *.
  rewrite Hargs, fmap_cons in Hb2.
  apply bind_cons in Hb2 as (? & ? & x & vs' & [= <- <-] & Hvs & Hv & _). simpl in Hv. rewrite Hc in Hv.
  simpl in Hv. destruct (uuid_in _ _ Hv) as (uT & -> & _). rewrite Hvs in He. simpl in He.
  assert (Hfst : (zip set (take (length set) vs)).*1 = set).
  { apply fst_zip. destruct Hb1 as [Hb1 Hl1]. apply Forall2_length in Hb1.
    rewrite length_zip, <- Hl1, length_fmap in Hb1. lia. }
  split; [|eapply update_keyed; [|exact Hw|exact He]; by rewrite Hfst].
  apply sql_update_inv in He as (_ & HT & _). right. exists uT. split; [done|].
  rewrite HT. apply rows_insert_others, others_ext. intros u. rewrite updated_lookup.
  destruct (rows_of (db_tables s) t !! u) as [r|]; cbn [fmap option_fmap option_map]; [|by left].
  match goal with |- context [if ?c then _ else _] => destruct c eqn:Hm; [right|by left] end.
  apply matches_uuid in Hm as [Hm _].
  split; intros ? [= <-]; [done|]. rewrite set_columns_other; [done|by rewrite Hfst].
Qed.

Lemma remove_ok t ks gs T s :
  column_of t "tenant_id" = Some (not_null "tenant_id" UUID) → well_keyed (db_tables s) →
  (∀ uT p, (∀ r, p r = true → r !! "tenant_id" = Some (SUuid uT)) → ∀ t',
     others uT (rows_of (delete_rows (length schema) t p (db_tables s)) t') = others uT (rows_of (db_tables s) t')) →
  let '(o, s') := remove t ("tenant_id" :: ks) (GString T :: gs) s in call_ok T s o s'.
Proof using pgx_laws.
  intros Hc Hw Hd. pose proof (remove_run t ("tenant_id" :: ks) (GString T :: gs) s) as H.
  pose proof (remove_answers t ("tenant_id" :: ks) (GString T :: gs) s) as Ha.
  destruct (remove _ _ _ s) as [o s'].
  cut (touches T (db_tables s) (db_tables s') ∧ well_keyed (db_tables s')); [by intros []|]. clear Ha.
  destruct H as [(e & _ & _ & HT & _)|(vs & n & Hb & He & _)]; [by apply unchanged|].
  rewrite fmap_cons in Hb.
  apply bind_cons in Hb as (? & ? & x & vs' & [= <- <-] & -> & Hv & _). simpl in Hv. rewrite Hc in Hv.
  destruct (uuid_in _ _ Hv) as (uT & -> & _). unfold sql_delete in He.
  apply pair_equal_spec in He as [_ HT]. rewrite <- HT. split; [|by apply delete_keyed].
  right. exists uT. split; [done|]. apply Hd. intros r Hr. cbn [zip zip_with] in Hr.
  by apply matches_uuid in Hr as [? _].
Qed.

Lemma driver_bind {A B} (o : outcome A) (k : A → outcome B) :
  driver_outcome o → (∀ a, driver_outcome (k a)) → driver_outcome (o ≫= k).
Proof. destruct o; simpl; auto. Qed.

Lemma scan_rows {A} (scan : list sqlval → outcome A) rows :
  (∀ row, driver_outcome (scan row)) → driver_outcome (mapM scan rows).
Proof.
  intros H. induction rows as [|row rows IH]; [done|]. cbn [mapM].
  apply driver_bind; [apply H|intros a]. by apply driver_bind.
Qed.

Lemma scan_rows_Ok {A} (scan : list sqlval → outcome A) rows l :
  mapM scan rows = Ok l → ∀ a, a ∈ l → ∃ row, row ∈ rows ∧ scan row = Ok a.
Proof.
  revert l. induction rows as [|row rows IH]; intros l; cbn [mapM].
  { intros [= <-] a Ha. by apply not_elem_of_nil in Ha. }
  intros (b & Hb & (l' & Hl & [= <-])%outcome_bind_Ok)%outcome_bind_Ok a [->|Ha]%elem_of_cons.
  - exists row. split; [by left|done].
  - destruct (IH _ Hl a Ha) as (row' & Hr & Hs). exists row'. split; [by right|done].
Qed.

(** What a read gives satisfies [P] if what is scanned of matching rows does. *)
Definition read_as {A} (q : sql_select) args (scan : list sqlval → outcome A) (P : A → Prop) : Prop :=
  (∀ row, driver_outcome (scan row)) ∧
  ∀ vs r a, bind_args ((sel_table q,.) <$> sel_key q) args vs → matches (zip (sel_key q) vs) r = true →
    scan (project (sel_cols q) r) = Ok a → P a.

Lemma selected q vs T rows row :
  selects sql_le q vs T rows → row ∈ rows →
  ∃ r, row = project (sel_cols q) r ∧ matches (zip (sel_key q) vs) r = true.
Proof.
  intros (kvs & Hp & -> & _) (r & -> & Hr)%list_elem_of_fmap. exists r. split; [done|].
  apply list_elem_of_fmap in Hr as ([u r'] & -> & Hr). rewrite Hp in Hr. by apply matching_elem in Hr as [_ ?].
Qed.

Lemma query_reads {A} q args (scan : list sqlval → outcome A) P s :
  read_as q args scan P →
  let '(o, s') := query q args scan s in
  db_tables s' = db_tables s ∧ answers s o s' ∧ ∀ l, o = Ok l → Forall P l.
Proof.
  intros [Hd HP]. unfold query, mbind, M_bind. pose proof (rows_run q args s) as H.
  destruct (db_query q args s) as [o s']. destruct H as (HT & [(e & -> & He & _)|(rows & vs & -> & Hb & Hs)]).
  { apply db_failure_driver in He. split_and!; [done|simpl; split; [by right|intros _; by apply same_rows_eq]|done]. }
  unfold of_outcome. pose proof (scan_rows scan rows Hd) as Hm. destruct (mapM scan rows) as [l|e|w|] eqn:Hl; try done.
  - split_and!; [done..|]. intros ? [= <-]. apply Forall_forall. intros a Ha.
    destruct (scan_rows_Ok _ _ _ Hl a Ha) as (row & Hrow & Hsc).
    destruct (selected _ _ _ _ _ Hs Hrow) as (r & -> & Hr). by eapply HP.
  - split_and!; [done|simpl; split; [by right|intros _; by apply same_rows_eq]|done].
Qed.

Lemma queryRow_reads {A} q args (scan : list sqlval → outcome A) P s :
  read_as q args scan P →
  let '(o, s') := queryRow q args scan s in
  db_tables s' = db_tables s ∧ answers s o s' ∧ ∀ a, o = Ok a → P a.
Proof.
  intros [Hd HP]. unfold queryRow, mtry, mbind, M_bind. pose proof (rows_run q args s) as H.
  destruct (db_query q args s) as [o s']. destruct H as (HT & [(e & -> & He & _)|(rows & vs & -> & Hb & Hs)]); simpl.
  { apply db_failure_driver in He. rewrite wrap_driver by done.
    split_and!; [done|by right|intros _; by apply same_rows_eq|done]. }
  destruct rows as [|row rows]; simpl.
  { split_and!; [done|by left|intros _; by apply same_rows_eq|done]. }
  destruct (selected _ _ _ _ row Hs) as (r & -> & Hr); [by left|].
  unfold of_outcome. specialize (Hd (project (sel_cols q) r)).
  destruct (scan (project (sel_cols q) r)) as [a|e|w|] eqn:Hsc; try done; simpl.
  - split_and!; [done..|]. intros ? [= <-]. by eapply HP.
  - rewrite wrap_driver by done. split_and!; [done|by right|intros _; by apply same_rows_eq|done].
Qed.
End Calls.
