(* ===== verification/PgLaws.v ===== *)
(** * Every call of the PostgreSQL store

    What is read belongs to the tenant of the call, and each call of the
    interface keeps the promise of [PgFrame.call_ok] and runs at most one
    statement, at most once. *)
From S2P Require Import Prelude GoStr GoValue Json Model Store StoreSpec StoreProps Codec Traces.
From S2P Require Import Sql Pg PgJson PgTheory PgProps PgFrame.

(** ** The decoders of the json columns answer *)
Lemma dec_Skill_proper : decoder_proper dec_Skill.
Proof. apply dec_struct_proper. solve_field_proper Skill_field. Qed.
Lemma dec_Permissions_proper : decoder_proper dec_Permissions.
Proof. apply dec_struct_proper. solve_field_proper Permissions_field. Qed.
Lemma dec_raw_answers : decoder_proper dec_raw.
Proof. by intros []. Qed.
#[export] Hint Resolve dec_Skill_proper dec_Permissions_proper dec_raw_answers : decoders.
Lemma dec_Subtask_proper : decoder_proper dec_Subtask.
Proof. apply dec_struct_proper. solve_field_proper Subtask_field. Qed.
#[export] Hint Resolve dec_Subtask_proper : decoders.

Section Laws.
Context {S : Type} {pgx : Pgx} {pgx_laws : PgxLaws pgx} {db : Database S} {laws : DatabaseLaws S}.
Context (parse_time : string → outcome Time) (time_text : Time → string).
Context (parse_time_proper : ∀ t, proper_outcome (parse_time t)).
Implicit Types (s : S).

Lemma dec_LogEntry_proper : decoder_proper (dec_LogEntry parse_time).
Proof using parse_time_proper.
  apply dec_struct_proper. intros n j []. unfold LogEntry_field. repeat case_if;
    (apply proper_bind; [|intros; exact I]); try apply dec_string_proper.
  destruct j; try done. apply parse_time_proper.
Qed.

Lemma columns_error_driver {A} : driver_outcome (A := A) (Err columns_error).
Proof. split; [done|]. by repeat constructor. Qed.

(** ** What the rows of a tenant are scanned to *)
Definition pg_owned {A} (op : StoreOp A) : A → Prop :=
  match op in StoreOp A return A → Prop with
  | OpListAgents t => Forall (λ v, uuid t (Agent_TenantID v))
  | OpGetAgent t i => λ v, uuid t (Agent_TenantID v) ∧ uuid i (Agent_ID v)
  | OpListMcpServers t => Forall (λ v, uuid t (McpServer_TenantID v))
  | OpGetMcpServer t i => λ v, uuid t (McpServer_TenantID v) ∧ uuid i (McpServer_ID v)
  | OpListFlows t => Forall (λ v, uuid t (Flow_TenantID v))
  | OpGetFlow t i => λ v, uuid t (Flow_TenantID v) ∧ uuid i (Flow_ID v)
  | OpGetRun t i => λ v, uuid t (Run_TenantID v) ∧ uuid i (Run_ID v)
  | OpListRuns t f => Forall (λ v, uuid t (Run_TenantID v) ∧ (f = "" ∨ uuid f (Run_FlowID v)))
  | OpGetTask t i => λ v, uuid t (Task_TenantID v) ∧ uuid i (Task_ID v)
  | OpListTasks t => Forall (λ v, uuid t (Task_TenantID v))
  | OpListUsers t => Forall (λ v, uuid t (User_TenantID v))
  | OpGetUser t i => λ v, uuid t (User_TenantID v) ∧ uuid i (User_ID v)
  | OpGetUserByUsername t n => λ v, uuid t (User_TenantID v) ∧ Username v = n
  | OpGetTenant i => λ v, uuid i (Tenant_ID v)
  | _ => λ _, True
  end.

Ltac scan_answers :=
  intros row;
  repeat match goal with
  | |- driver_outcome (match ?l with [] => _ | _ :: _ => _ end) => destruct l
  end; try apply columns_error_driver;
  repeat (apply driver_bind; [|intros ?]);
  first [exact I | apply scan_string_answers | apply scan_bool_answers | apply scan_time_answers
        | apply scan_time_ptr_answers | apply scan_raw_answers | apply scan_json_answers].

Lemma scanAgent_answers row : driver_outcome (scanAgent row).
Proof using pgx_laws. revert row. unfold scanAgent. scan_answers. auto with decoders. Qed.
Lemma scanMcpServer_answers row : driver_outcome (scanMcpServer row).
Proof using pgx_laws. revert row. unfold scanMcpServer. scan_answers. Qed.
Lemma scanFlow_answers row : driver_outcome (scanFlow row).
Proof using pgx_laws. revert row. unfold scanFlow. scan_answers. auto with decoders. Qed.
Lemma scanRun_answers row : driver_outcome (scanRun parse_time row).
Proof using pgx_laws parse_time_proper.
  revert row. unfold scanRun. scan_answers. apply dec_slice_proper, dec_LogEntry_proper.
Qed.
Lemma scanTask_answers row : driver_outcome (scanTask row).
Proof using pgx_laws. revert row. unfold scanTask. scan_answers. auto with decoders. Qed.
Lemma scanUser_answers row : driver_outcome (scanUser row).
Proof using pgx_laws. revert row. unfold scanUser. scan_answers. Qed.
Lemma scanTenant_answers row : driver_outcome (scanTenant row).
Proof using pgx_laws. revert row. unfold scanTenant. scan_answers. Qed.

(** Rows that match identifiers, scanned. *)
Ltac scan_keys :=
  let vs := fresh "vs" in let r := fresh "r" in let a := fresh "a" in
  let Hb := fresh "Hb" in let Hm := fresh "Hm" in let Hsc := fresh "Hsc" in
  intros vs r a Hb Hm Hsc; cbn [sel_key sel_table sel_cols] in *; bind_all Hb; read_params;
  cbn [zip zip_with] in Hm;
  repeat match goal with
  | H : matches ((_, SUuid _) :: _) _ = true |- _ => apply matches_uuid in H as [? H]
  | H : matches ((_, SText _) :: _) _ = true |- _ => apply matches_text in H as [? H]
  end;
  unfold project, agent_cols, server_cols, flow_cols, run_cols, task_cols, user_cols, tenant_cols in Hsc;
  cbn [fmap list_fmap] in Hsc;
  unfold scanAgent, scanMcpServer, scanFlow, scanRun, scanTask, scanUser, scanTenant in Hsc;
  repeat match goal with H : r !! _ = Some _ |- _ => rewrite H in Hsc; clear H end;
  cbn [default from_option id] in Hsc;
  invert_binds;
  repeat match goal with
  | H : scan_string (SUuid _) = Ok _ |- _ => rewrite uuid_out in H; injection H as <-
  | H : scan_string (SText _) = Ok _ |- _ => rewrite text_out in H; injection H as <-
  end; try done.

(** ** The calls *)
Lemma query_keeps {A} q args (scan : list sqlval → outcome A) P T s :
  well_keyed (db_tables s) → read_as q args scan P →
  let '(o, s') := query q args scan s in call_ok T s o s' ∧ ∀ l, o = Ok l → Forall P l.
Proof using pgx_laws.
  intros Hw Hr. pose proof (query_reads q args scan P s Hr) as H.
  destruct (query _ _ _ s) as [o s']. destruct H as (HT & Ha & HP). split; [|done].
  constructor; [done|left; by apply same_rows_eq|by rewrite HT].
Qed.

Lemma queryRow_keeps {A} q args (scan : list sqlval → outcome A) P T s :
  well_keyed (db_tables s) → read_as q args scan P →
  let '(o, s') := queryRow q args scan s in call_ok T s o s' ∧ ∀ a, o = Ok a → P a.
Proof using pgx_laws.
  intros Hw Hr. pose proof (queryRow_reads q args scan P s Hr) as H.
  destruct (queryRow _ _ _ s) as [o s']. destruct H as (HT & Ha & HP). split; [|done].
  constructor; [done|left; by apply same_rows_eq|by rewrite HT].
Qed.

Lemma changes_ok {A} T s (r : outcome A * S) :
  (let '(o, s') := r in call_ok T s o s') → let '(o, s') := r in call_ok T s o s' ∧ ∀ a, o = Ok a → True.
Proof. by destruct r. Qed.

Lemma leaf_others t s uT p :
  referencing t = [] → (∀ r, p r = true → r !! "tenant_id" = Some (SUuid uT)) →
  ∀ t', others uT (rows_of (delete_rows (length schema) t p (db_tables s)) t') = others uT (rows_of (db_tables s) t').
Proof.
  intros Hl Hp. change (length schema) with 7. rewrite delete_leaf by done.
  apply rows_insert_others, filter_others. intros u r _. apply Hp.
Qed.

Ltac inserts :=
  intros ? H; bind_all H; read_params; eexists; (split; [eassumption|]); cbn; lookups; reflexivity.
Ltac answers_all :=
  first [apply scanAgent_answers | apply scanMcpServer_answers | apply scanFlow_answers
        | apply scanRun_answers | apply scanTask_answers | apply scanUser_answers | apply scanTenant_answers].

Lemma pg_call {A} (op : StoreOp A) T s :
  op_tenant op = Some T → well_keyed (db_tables s) →
  (deletes_flow op = true → runs_follow_flows (db_tables s)) →
  let '(o, s') := PG_Store parse_time time_text A op s in
  call_ok T s o s' ∧ ∀ a, o = Ok a → pg_owned op a.
Proof using pgx_laws parse_time_proper.
  intros HT Hw Hf. destruct op; simpl in HT; try done; injection HT as <-; cbn [PG_Store pg_owned].
  all: try (apply (query_keeps _ _ _ _ _ _ Hw); split; [answers_all|scan_keys]).
  all: try (apply (queryRow_keeps _ _ _ _ _ _ Hw); split; [answers_all|scan_keys]).
  all: try (apply changes_ok, insert_ok; [exact Hw|inserts]).
  all: try (apply changes_ok; eapply update_ok; [done|exact Hw|not_listed|not_listed|reflexivity]).
  all: try (apply changes_ok, remove_ok; [done|exact Hw|intros uT p Hp; by apply leaf_others]).
  1: { apply changes_ok, remove_ok; [done|exact Hw|]. intros uT p Hp. apply delete_flows_others; [by apply Hf|done]. }
  unfold PG_ListRuns. destruct (decide (flowID = "")) as [->|Hne].
  - apply (query_keeps _ _ _ _ _ _ Hw). split; [answers_all|scan_keys]. split; [done|by left].
  - rewrite bool_decide_eq_true_2 by done. apply (query_keeps _ _ _ _ _ _ Hw).
    split; [answers_all|scan_keys]. split; [done|by right].
Qed.

(** ** One statement *)

(** The statements that an operation may run: none for one that reads. *)
Definition own_statement {A} (op : StoreOp A) (st : sql_stmt) : Prop :=
  match op with
  | OpCreateAgent _ => ∃ cols, st = Insert "agents" cols
  | OpUpdateAgent _ => ∃ set key, st = Update "agents" set key
  | OpDeleteAgent _ _ => ∃ key, st = Delete "agents" key
  | OpCreateMcpServer _ => ∃ cols, st = Insert "mcp_servers" cols
  | OpUpdateMcpServer _ => ∃ set key, st = Update "mcp_servers" set key
  | OpDeleteMcpServer _ _ => ∃ key, st = Delete "mcp_servers" key
  | OpCreateFlow _ => ∃ cols, st = Insert "flows" cols
  | OpUpdateFlow _ => ∃ set key, st = Update "flows" set key
  | OpDeleteFlow _ _ => ∃ key, st = Delete "flows" key
  | OpCreateRun _ => ∃ cols, st = Insert "runs" cols
  | OpUpdateRun _ => ∃ set key, st = Update "runs" set key
  | OpCreateTask _ => ∃ cols, st = Insert "tasks" cols
  | OpUpdateTask _ => ∃ set key, st = Update "tasks" set key
  | OpCreateUser _ => ∃ cols, st = Insert "users" cols
  | OpUpdateUser _ => ∃ set key, st = Update "users" set key
  | OpDeleteUser _ _ => ∃ key, st = Delete "users" key
  | OpCreateTenant _ => ∃ cols, st = Insert "tenants" cols
  | _ => False
  end.

(** The tables are as they were, or one statement of [op] was done, once. *)
Definition at_most_once {A} (op : StoreOp A) (T0 T1 : sql_tables) : Prop :=
  T1 = T0 ∨ ∃ st vs n, own_statement op st ∧ sql_exec st vs T0 = Some (n, T1).

Lemma query_once {A B} (op : StoreOp B) q args (scan : list sqlval → outcome A) s :
  let '(_, s') := query q args scan s in at_most_once op (db_tables s) (db_tables s').
Proof.
  unfold query, mbind, M_bind. pose proof (rows_run q args s) as H. destruct (db_query _ _ s) as [[] s'];
    left; by destruct H.
Qed.

Lemma queryRow_once {A B} (op : StoreOp B) q args (scan : list sqlval → outcome A) s :
  let '(_, s') := queryRow q args scan s in at_most_once op (db_tables s) (db_tables s').
Proof.
  unfold queryRow, mtry, mbind, M_bind. pose proof (rows_run q args s) as H.
  destruct (db_query _ _ s) as [[rows| | |] s']; try (left; by destruct H).
  destruct rows as [|row rows]; [left; by destruct H|]. unfold of_outcome.
  destruct (scan row); left; by destruct H.
Qed.

Lemma insert_once {A B} (op : StoreOp B) t cols args (v : A) s :
  own_statement op (Insert t cols) →
  let '(_, s') := insert t cols args v s in at_most_once op (db_tables s) (db_tables s').
Proof.
  intros Ho. pose proof (insert_run t cols args v s) as H. destruct (insert _ _ _ _ s) as [o s'].
  destruct H as [(e & _ & _ & HT & _)|(_ & vs & n & _ & He)]; [by left|]. right. by exists (Insert t cols), vs, n.
Qed.

Lemma update_once {A B} (op : StoreOp B) t set key args (v : A) s :
  own_statement op (Update t set key) →
  let '(_, s') := update t set key args v s in at_most_once op (db_tables s) (db_tables s').
Proof.
  intros Ho. pose proof (update_run t set key args v s) as H. destruct (update _ _ _ _ _ s) as [o s'].
  destruct H as [(e & _ & _ & HT & _)|(vs & n & _ & He & _)]; [by left|]. right. by exists (Update t set key), vs, n.
Qed.

Lemma remove_once {B} (op : StoreOp B) t key args s :
  own_statement op (Delete t key) →
  let '(_, s') := remove t key args s in at_most_once op (db_tables s) (db_tables s').
Proof.
  intros Ho. pose proof (remove_run t key args s) as H. destruct (remove _ _ _ s) as [o s'].
  destruct H as [(e & _ & _ & HT & _)|(vs & n & _ & He & _)]; [by left|]. right.
  exists (Delete t key), vs, n. split; [done|]. simpl. by rewrite He.
Qed.

Lemma pg_once {A} (op : StoreOp A) s :
  let '(_, s') := PG_Store parse_time time_text A op s in at_most_once op (db_tables s) (db_tables s').
Proof.
  destruct op; cbn [PG_Store];
    try apply query_once; try apply queryRow_once;
    try (apply insert_once; by eexists); try (apply update_once; by do 2 eexists); try (apply remove_once; by eexists).
  unfold PG_ListRuns. case_bool_decide; apply query_once.
Qed.

(** ** Failures *)
Lemma query_answers {A} q args (scan : list sqlval → outcome A) s :
  (∀ row, driver_outcome (scan row)) → let '(o, s') := query q args scan s in answers s o s'.
Proof.
  intros Hd. pose proof (query_reads q args scan (λ _, True) s) as H.
  destruct (query _ _ _ s) as [o s']. by apply H.
Qed.

Lemma queryRow_answers {A} q args (scan : list sqlval → outcome A) s :
  (∀ row, driver_outcome (scan row)) → let '(o, s') := queryRow q args scan s in answers s o s'.
Proof.
  intros Hd. pose proof (queryRow_reads q args scan (λ _, True) s) as H.
  destruct (queryRow _ _ _ s) as [o s']. by apply H.
Qed.

Lemma pg_answers {A} (op : StoreOp A) s :
  let '(o, s') := PG_Store parse_time time_text A op s in answers s o s'.
Proof using pgx_laws parse_time_proper.
  destruct op; cbn [PG_Store];
    try (apply query_answers; answers_all); try (apply queryRow_answers; answers_all);
    try apply insert_answers; try apply update_answers; try apply remove_answers.
  unfold PG_ListRuns. case_bool_decide; apply query_answers; answers_all.
Qed.
End Laws.
