(* ===== verification/PgSim.v ===== *)
(** * A database of the model

    The smallest [Pgx] and [Database] with the laws of [Sql]: the tables
    themselves, identifiers taken as they are, documents with the last of
    members with one name.  It shows that the laws can hold, and runs the
    store on examples. *)
From stdpp Require Import sorting.
From S2P Require Import Prelude GoStr GoValue Json Model Store StoreSpec Codec Traces Sql Pg PgTheory.

(** ** Documents *)
Fixpoint normal (j : json) : json :=
  match j with
  | JArr l => JArr (normal <$> l)
  | JObj fs => JObj (last_wins ((λ kv, (kv.1, normal kv.2)) <$> fs))
  | _ => j
  end.

Lemma last_wins_fmap (f : json → json) fs :
  last_wins ((λ kv, (kv.1, f kv.2)) <$> fs) = (λ kv, (kv.1, f kv.2)) <$> last_wins fs.
Proof.
  induction fs as [|[k x] fs IH]; [done|]. cbn [fmap list_fmap last_wins foldr fst snd].
  fold (last_wins fs) (last_wins ((λ kv, (kv.1, f kv.2)) <$> fs)). rewrite IH.
  rewrite <- list_fmap_compose. change (_ ∘ _) with (@fst string json). by case_bool_decide.
Qed.

Lemma last_wins_sublist fs : sublist (last_wins fs) fs.
Proof.
  induction fs as [|kv fs IH]; [constructor|]. simpl. fold (last_wins fs).
  case_bool_decide; by constructor.
Qed.

Lemma same_normal j : same_json j (normal j).
Proof.
  revert j. fix IH 1. intros [|b|n|s|l|fs]; simpl; try constructor.
  - induction l as [|x l IHl]; constructor; [apply IH|apply IHl].
  - assert (H : Forall (λ kv : string * json, same_json kv.2 (normal kv.2)) fs).
    { induction fs as [|[k x] fs IHl]; constructor; [apply IH|apply IHl]. }
    rewrite last_wins_fmap. econstructor; [|reflexivity].
    assert (Hl : Forall (λ kv : string * json, same_json kv.2 (normal kv.2)) (last_wins fs)).
    { rewrite list.Forall_forall in H |- *. intros kv Hkv.
      apply H. eapply elem_of_sublist; [exact Hkv|apply last_wins_sublist]. }
    clear H. induction Hl as [|[k x] l Hx _ IHl]; constructor; [done|apply IHl].
Qed.

(** ** pgx *)
Definition sim_error : error := ErrorsNew "database".

Definition sim_raw (r : RawMessage) : outcome sqlval :=
  match r with
  | RawEmpty => Ok SNull
  | RawMalformed => Err sim_error
  | RawDoc j => Ok (SJson (normal j))
  end.

Definition sim_to_sql (ct : coltype) (g : goval) : outcome sqlval :=
  match ct, g with
  | UUID, GString s => if bool_decide (s = "") then Err sim_error else Ok (SUuid s)
  | TEXT, GString s => Ok (SText s)
  | BOOLEAN, GBool b => Ok (SBool b)
  | TIMESTAMPTZ, GTime t => Ok (STime (micros t))
  | TIMESTAMPTZ, GTimePtr (Some t) => Ok (STime (micros t))
  | TIMESTAMPTZ, GTimePtr None => Ok SNull
  | JSONB, (GRaw r | GBytes r) => sim_raw r
  | _, _ => Err sim_error
  end.

#[export] Instance sim_Pgx : Pgx := {|
  to_sql := sim_to_sql;
  scan_string v := match v with SUuid s | SText s => Ok s | _ => Err sim_error end;
  scan_bool v := match v with SBool b => Ok b | _ => Err sim_error end;
  scan_time v := match v with STime t => Ok t | _ => Err sim_error end;
  scan_time_ptr v := match v with STime t => Ok (Some t) | SNull => Ok None | _ => Err sim_error end;
  scan_raw v := match v with SJson j => Ok (RawDoc j) | SNull => Ok RawEmpty | _ => Err sim_error end;
  scan_json A dec zero v :=
    match v with
    | SJson j => match dec j zero with Err _ => Err sim_error | o => o end
    | _ => Err sim_error
    end
|}.

Lemma sim_error_driver : driver_error sim_error.
Proof. split; [done|]. by repeat constructor. Qed.

#[export] Instance sim_PgxLaws : PgxLaws sim_Pgx.
Proof.
  constructor; simpl; try done.
  - intros s v. case_bool_decide; intros [= <-]. exists s. by rewrite bool_decide_eq_false_2.
  - by intros ? ? [= <-].
  - by intros ? ? [= <-].
  - by intros ? ? [= <-].
  - by intros [] ? [= <-].
  - intros g r v [-> | ->]; destruct r as [| |j]; simpl; intros [= <-]; try done;
      (eexists; split; [done|apply same_normal]).
  - intros A dec zero j a H. by rewrite H.
  - by intros []; apply sim_error_driver || exact I.
  - by intros []; apply sim_error_driver || exact I.
  - by intros []; apply sim_error_driver || exact I.
  - by intros []; apply sim_error_driver || exact I.
  - by intros []; apply sim_error_driver || exact I.
  - intros A dec zero v Hd. destruct v; try apply sim_error_driver.
    specialize (Hd j zero). destruct (dec j zero); try done. apply sim_error_driver.
Qed.

(** ** The server *)
Definition bind_list (cols : list (string * string)) (args : list goval) : outcome (list sqlval) :=
  if decide (length cols = length args) then
    mapM (λ ct : (string * string) * goval, match column_of ct.1.1 ct.1.2 with
                | Some c => to_sql (col_type c) ct.2
                | None => Err sim_error
                end) (zip cols args)
  else Err sim_error.

Lemma bind_list_Ok cols args vs : bind_list cols args = Ok vs → bind_args cols args vs.
Proof.
  unfold bind_list, bind_args. case_decide as Hl; [|done]. intros H. split; [|done].
  revert vs H. generalize (zip cols args). intros l. clear Hl. induction l as [|ct l IH]; intros vs; cbn [mapM].
  { by intros [= <-]. }
  intros (v & Hv & (vs' & Hvs & [= <-])%outcome_bind_Ok)%outcome_bind_Ok.
  constructor; [|by apply IH]. by destruct (column_of _ _).
Qed.

Lemma bind_list_args cols args vs : bind_args cols args vs → bind_list cols args = Ok vs.
Proof.
  intros [H Hl]. unfold bind_list. rewrite decide_True by done. revert H. generalize (zip cols args).
  clear Hl. intros l H. induction H as [|ct v l vs Hv _ IH]; [done|]. cbn [mapM].
  destruct (column_of _ _); [|done]. rewrite Hv. cbn [mbind outcome_bind]. by rewrite IH.
Qed.

Lemma bind_args_fun cols args vs vs' : bind_args cols args vs → bind_args cols args vs' → vs = vs'.
Proof. intros H1%bind_list_args H2%bind_list_args. congruence. Qed.

#[export] Instance sim_Database : Database sql_tables := {|
  db_exec st args T :=
    match bind_list (stmt_columns st) args with
    | Ok vs => match sql_exec st vs T with Some (n, T') => (Ok n, T') | None => (Err sim_error, T) end
    | _ => (Err sim_error, T)
    end;
  db_query q args T :=
    match bind_list ((sel_table q,.) <$> sel_key q) args with
    | Ok vs => (Ok ((λ kv : string * sql_row, project (sel_cols q) kv.2)
                    <$> matching (zip (sel_key q) vs) (rows_of T (sel_table q))), T)
    | _ => (Err sim_error, T)
    end;
  sql_le _ _ := true
|}.

#[export] Instance sim_DatabaseLaws : DatabaseLaws sql_tables.
Proof.
  refine {| db_tables := λ T, T; reachable := λ _, True; db_failure := λ e, e = sim_error |}.
  - intros e ->. apply sim_error_driver.
  - intros st args T. simpl. destruct (bind_list _ _) as [vs|e|w|] eqn:Hb.
    { apply bind_list_Ok in Hb. destruct (sql_exec st vs T) as [[n T']|] eqn:He; [by exists vs|].
      split_and!; [done| |by left]. intros _ vs' Hb'. by rewrite (bind_args_fun _ _ _ _ Hb' Hb). }
    all: split_and!; [done| |by left]; intros _ vs Hvs; apply bind_list_args in Hvs; congruence.
  - intros q args T. simpl.
    destruct (bind_list _ _) as [vs|e|w|] eqn:Hb.
    2-4: split_and!; [done..|]; intros _ vs Hvs; apply bind_list_args in Hvs; congruence.
    split; [done|]. exists vs. split; [by apply bind_list_Ok|].
    eexists. split_and!; [reflexivity|by rewrite <- list_fmap_compose|].
    destruct (sel_order q); [|done]. generalize (matching (zip (sel_key q) vs) (rows_of T (sel_table q))).*2.
    intros l. induction l; constructor; [done|]. apply Forall_forall. by intros.
Defined.
