(* ===== verification/PgStore.v ===== *)
(** * What the PostgreSQL store guarantees

    What is written is read back, up to what the columns keep; a call
    concerns the rows of its tenant; and what a failing call says. *)
From S2P Require Import Prelude GoStr GoValue Json Model Store StoreSpec StoreProps Codec Traces.
From S2P Require Import Sql Pg PgJson PgTheory PgProps PgFrame PgLaws PgSim.

Section Store.
Context {S : Type} {pgx : Pgx} {pgx_laws : PgxLaws pgx} {db : Database S} {laws : DatabaseLaws S}.
Context (parse_time : string → outcome Time) (time_text : Time → string).
Implicit Types (s : S).

Abbreviation exec op s := (PG_Store parse_time time_text _ op s).

(** The times that a value keeps as text inside a document. *)
Definition text_times {V} (k : resource V) : V → list Time :=
  match k with RRun => λ r, Timestamp <$> Run_Logs r | _ => λ _, [] end.

(** [op], which writes [v], then a read of it: see [read_after]. *)
Definition read_back {V} (k : resource V) (op : StoreOp V) (v : V) s (R : V → Prop) : Prop :=
  let '(o, s1) := exec op s in
  read_after s s1 o v (PG_Store parse_time time_text _ (get_of k (tenant_of_value k v) (id_of_value k v))) R.

(** C9: What is written to the PostgreSQL store is read back. For each of the
    six kinds of resource, in a database whose rows are kept under their
    identifier: creating a value either fails with an error by which the
    database refuses the statement or cannot be reached, and changes nothing,
    or the value is written; then the answer is the value that was given,
    or the answer is lost because the server could not be reached. Once it
    is written, reading it by its tenant and identifier succeeds whenever the
    server can be reached (no error of a scan or of decoding is possible),
    and gives its fields as the columns keep them (identifiers in canonical
    form, times in microseconds, documents up to the order of members and
    repeated ones). Updating a value that could be read answers in the same
    way, and what is read then has the new fields but the identifier, tenant,
    flow and time of creation it had. *)
Theorem pg_write_then_read {V} (k : resource V) (v : V) s :
  well_keyed (db_tables s) → Forall (text_back parse_time time_text) (text_times k v) →
  read_back k (create_of k v) v s (written k v) ∧
  ∀ old s0, exec (get_of k (tenant_of_value k v) (id_of_value k v)) s = (Ok old, s0) →
    read_back k (update_of k v) v s (rewritten k v old).
Proof using pgx_laws.
  intros Hw Ht. unfold read_back. destruct k; cbn [text_times] in Ht;
    cbn [create_of update_of get_of tenant_of_value id_of_value PG_Store]; (split; [|intros old s0 H]).
  - by apply agent_created.
  - apply agent_updated; [done|by exists s0].
  - by apply server_created.
  - apply server_updated; [done|by exists s0].
  - by apply flow_created.
  - apply flow_updated; [done|by exists s0].
  - apply run_created; [exact (proj1 (Forall_fmap _ _ _) Ht)|done].
  - apply run_updated; [exact (proj1 (Forall_fmap _ _ _) Ht)|done|by exists s0].
  - by apply task_created.
  - apply task_updated; [done|by exists s0].
  - by apply user_created.
  - apply user_updated; [done|by exists s0].
Qed.

Context (parse_time_proper : ∀ t, proper_outcome (parse_time t)).

(** C10: Tenants are isolated in the PostgreSQL store. A call made for a tenant
    leaves every table as it was, or changes only rows of that tenant, whose
    identifier in canonical form is the one it was given, and keeps every row
    under its identifier; deleting a flow takes its runs with it, which are
    of the same tenant when every run is of the tenant of its flow. Whatever
    is read belongs to the tenant, and has the identifier, flow or name that
    was asked for. *)
Theorem pg_tenant_isolation {A} (op : StoreOp A) T s :
  op_tenant op = Some T → well_keyed (db_tables s) →
  (deletes_flow op = true → runs_follow_flows (db_tables s)) →
  let '(o, s') := exec op s in
  touches T (db_tables s) (db_tables s') ∧ well_keyed (db_tables s') ∧
  (∀ a, o = Ok a → pg_owned op a).
Proof using pgx_laws parse_time_proper.
  intros HT Hw Hf. pose proof (pg_call parse_time time_text parse_time_proper op T s HT Hw Hf) as H.
  destruct (exec op s) as [o s']. by destruct H as [[] ?].
Qed.

(** C40: How the PostgreSQL store fails. Every call answers, whatever it
    answers it has run at most one statement of its own kind and table, once
    and as a whole, and a read has changed nothing. A call that fails says
    "store: not found", and then it has changed nothing, or with an error of
    the driver, and then it has changed nothing if the server could be
    reached (if not, the statement may have been done); the error is never a
    conflict or an invalid input: a second row with an identifier or user
    name that is taken is not reported as ErrConflict. *)
Theorem pg_failures {A} (op : StoreOp A) s :
  let '(o, s') := exec op s in
  proper_outcome o ∧
  at_most_once op (db_tables s) (db_tables s') ∧
  ∀ e, o = Err e →
    (e = ErrNotFound ∨ driver_error e) ∧
    (e = ErrNotFound ∨ reachable s → same_rows (db_tables s) (db_tables s')) ∧
    errors_is e "store: conflict" = false ∧ errors_is e "store: invalid input" = false.
Proof using pgx_laws parse_time_proper.
  pose proof (pg_answers parse_time time_text parse_time_proper op s) as H.
  pose proof (pg_once parse_time time_text op s) as H1.
  destruct (exec op s) as [o s']. split; [by destruct o|]. split; [done|]. intros e ->. destruct H as [He HT].
  split; [done|]. split; [done|]. destruct He as [->|[_ He]]; [done|].
  rewrite !Forall_cons in He. tauto.
Qed.
End Store.

(** ** On the database of the model *)
Definition demo_parse_time (t : string) : outcome Time := if decide (t = "T5") then Ok 5%Z else Err sim_error.
Definition demo_time_text (_ : Time) : string := "T5".

Lemma demo_parse_proper t : proper_outcome (demo_parse_time t).
Proof. unfold demo_parse_time. by case_decide. Qed.

Abbreviation demo op s := (PG_Store demo_parse_time demo_time_text _ op s).

Definition demo_flow : Flow :=
  mkFlow "f1" "t1" "flow" (RawDoc (JObj [("nodes", JNull); ("nodes", JArr [])])) zero_Permissions true 1999%Z 1999%Z.
Definition demo_run : Run :=
  mkRun "r1" "f1" "t1" RunStatusRunning 1999%Z None [mkLogEntry 5%Z "info" "started" "engine"] RawEmpty.
Definition demo_run' : Run :=
  mkRun "r1" "f2" "t1" RunStatusSuccess 2999%Z (Some 7001%Z) [] (RawDoc (JBool true)).

(** A tenant with a flow, then with a run of it. *)
Definition demo_tenant : sql_row :=
  {["id" := SUuid "t1"; "name" := SText "one"; "created_at" := STime 0%Z]}.
Definition demo_empty : sql_tables := {["tenants" := {["t1" := demo_tenant]}]}.
Definition demo_tables : sql_tables := (demo (OpCreateFlow demo_flow) demo_empty).2.
Definition demo_tables' : sql_tables := (demo (OpCreateRun demo_run) demo_tables).2.

Lemma demo_empty_keyed : well_keyed demo_empty.
Proof.
  intros t u r. unfold demo_empty, rows_of. destruct (decide (t = "tenants")) as [->|Hne].
  - rewrite lookup_singleton_eq. simpl. by intros [<- <-]%lookup_singleton_Some.
  - by rewrite lookup_singleton_ne.
Qed.

Lemma demo_keyed {A} (op : StoreOp A) T s :
  op_tenant op = Some T → deletes_flow op = false → well_keyed s → well_keyed (demo op s).2.
Proof.
  intros HT Hd Hw.
  pose proof (pg_call demo_parse_time demo_time_text demo_parse_proper op T s HT Hw ltac:(by rewrite Hd)) as H.
  destruct (demo op s) as [o s']. by destruct H as [[] _].
Qed.

Lemma demo_tables_keyed : well_keyed demo_tables.
Proof. apply (demo_keyed _ "t1"); [done|done|apply demo_empty_keyed]. Qed.
Lemma demo_tables'_keyed : well_keyed demo_tables'.
Proof. apply (demo_keyed _ "t1"); [done|done|apply demo_tables_keyed]. Qed.

(** Creating [v], reading it, and updating it answer. *)
Definition demo_answers {V} (k : resource V) (v : V) (s : sql_tables) : Prop :=
  (demo (create_of k v) s).1 = Ok v ∧
  (∃ v', (demo (get_of k (tenant_of_value k v) (id_of_value k v)) (demo (create_of k v) s).2).1 = Ok v') ∧
  (demo (update_of k v) (demo (create_of k v) s).2).1 = Ok v.

(** A value of each kind is written; a run is created, read and updated: its
    flow stays the one it had. *)
Lemma pg_write_then_read_witness :
  demo_answers RAgent (mkAgent "a1" "t1" "A" "p" "s" [mkSkill "k" "s1" "run"] true 1999%Z 1999%Z) demo_tables ∧
  demo_answers RServer (mkMcpServer "s1" "t1" "S" (RawDoc (JObj [])) true "connected" 1999%Z 1999%Z) demo_tables ∧
  demo_answers RFlow (mkFlow "f2" "t1" "F" (RawDoc (JObj [])) zero_Permissions true 1999%Z 1999%Z) demo_tables ∧
  demo_answers RRun demo_run demo_tables ∧
  demo_answers RTask (mkTask "k1" "t1" "do" "pending" [zero_Subtask] RawEmpty 1999%Z 1999%Z) demo_tables ∧
  demo_answers RUser (mkUser "u1" "t1" "root" "h" "owner" 1999%Z 1999%Z) demo_tables ∧
  (demo (OpCreateRun demo_run) demo_tables).1 = Ok demo_run ∧
  (demo (OpUpdateRun demo_run') demo_tables').1 = Ok demo_run' ∧
  (demo (OpGetRun "t1" "r1") (demo (OpUpdateRun demo_run') demo_tables').2).1
    = Ok (mkRun "r1" "f1" "t1" RunStatusSuccess 2000%Z (Some 7000%Z) [] (RawDoc (JBool true))) ∧
  read_back demo_parse_time demo_time_text RRun (OpCreateRun demo_run) demo_run demo_tables (written RRun demo_run) ∧
  ∃ old, read_back demo_parse_time demo_time_text RRun (OpUpdateRun demo_run') demo_run' demo_tables'
    (rewritten RRun demo_run' old).
Proof.
  do 6 (split; [split_and!; [vm_compute; reflexivity|eexists; vm_compute; reflexivity|vm_compute; reflexivity]|]).
  split_and!; [vm_compute; reflexivity|vm_compute; reflexivity|vm_compute; reflexivity| |].
  - pose proof (pg_write_then_read (laws := sim_DatabaseLaws) demo_parse_time demo_time_text RRun demo_run
      demo_tables demo_tables_keyed ltac:(by repeat constructor)) as [H _]. exact H.
  - pose proof (pg_write_then_read (laws := sim_DatabaseLaws) demo_parse_time demo_time_text RRun demo_run'
      demo_tables' demo_tables'_keyed ltac:(constructor)) as [_ H].
    destruct (demo (OpGetRun "t1" "r1") demo_tables') as [o s0] eqn:E.
    assert (Ho : o = (demo (OpGetRun "t1" "r1") demo_tables').1) by by rewrite E.
    vm_compute in Ho. subst o. eexists. exact (H _ _ E).
Defined.

Definition demo_row (t u : string) : sql_row := default ∅ (rows_of demo_tables' t !! u).

Lemma only_key (tb : sql_table) k u r : (map_to_list tb).*1 = [k] → tb !! u = Some r → u = k.
Proof.
  intros Hk Hu%elem_of_map_to_list. apply (list_elem_of_fmap_2 fst) in Hu. rewrite Hk in Hu.
  by apply list_elem_of_singleton in Hu.
Qed.

Lemma demo_runs_follow : runs_follow_flows demo_tables'.
Proof.
  assert (Ht : demo_row "runs" "r1" !! "tenant_id" = demo_row "flows" "f1" !! "tenant_id") by (vm_compute; reflexivity).
  intros u r f fr Hr _ Hf.
  assert (u = "r1") as -> by (eapply only_key; [|exact Hr]; vm_compute; reflexivity).
  assert (f = "f1") as -> by (eapply only_key; [|exact Hf]; vm_compute; reflexivity).
  unfold demo_row in Ht. rewrite Hr, Hf in Ht. exact Ht.
Qed.

(** A flow is deleted with its run; the flow of another tenant is not found. *)
Lemma pg_tenant_isolation_witness :
  (demo (OpDeleteFlow "t2" "f1") demo_tables').1 = Err ErrNotFound ∧
  (demo (OpDeleteFlow "t1" "f1") demo_tables').1 = Ok tt ∧
  rows_of (demo (OpDeleteFlow "t1" "f1") demo_tables').2 "runs" = ∅ ∧
  touches "t1" demo_tables' (demo (OpDeleteFlow "t1" "f1") demo_tables').2.
Proof.
  split_and!; [vm_compute; reflexivity|vm_compute; reflexivity|vm_compute; reflexivity|].
  pose proof (pg_tenant_isolation (laws := sim_DatabaseLaws) demo_parse_time demo_time_text demo_parse_proper
    (OpDeleteFlow "t1" "f1") "t1" demo_tables' eq_refl demo_tables'_keyed (λ _, demo_runs_follow)) as H.
  destruct (demo (OpDeleteFlow "t1" "f1") demo_tables') as [o s]. exact (proj1 H).
Defined.

(** A run whose identifier is taken is not created, and not as a conflict. *)
Lemma pg_failures_witness :
  (demo (OpCreateRun demo_run) demo_tables').1 = Err sim_error ∧
  same_rows demo_tables' (demo (OpCreateRun demo_run) demo_tables').2.
Proof.
  assert (E : (demo (OpCreateRun demo_run) demo_tables').1 = Err sim_error) by (vm_compute; reflexivity).
  split; [exact E|].
  pose proof (pg_failures (laws := sim_DatabaseLaws) demo_parse_time demo_time_text demo_parse_proper
    (OpCreateRun demo_run) demo_tables') as H.
  destruct (demo (OpCreateRun demo_run) demo_tables') as [o s]. simpl in E. subst o.
  exact (proj1 (proj2 (proj2 (proj2 H) _ eq_refl)) (or_intror I)).
Defined.
