(* ===== verification/PgRuns.v ===== *)
(** * Runs and their flows in the PostgreSQL store

    The schema says that the flow of a run exists, not that it is of the
    tenant of the run; the store keeps it so, as long as runs are created
    for flows of their tenant.  And the table of the tenants, which only the
    login writes. *)
From S2P Require Import Prelude GoStr GoValue Json Model Store StoreSpec StoreProps Codec Traces.
From S2P Require Import Sql Pg PgJson PgTheory PgProps PgFrame PgLaws.

(** The flow of every run is there, and is of the tenant of the run. *)
Definition runs_have_flows (T : sql_tables) : Prop :=
  ∀ u r, rows_of T "runs" !! u = Some r →
    ∃ f fr, r !! "flow_id" = Some (SUuid f) ∧ rows_of T "flows" !! f = Some fr ∧
      r !! "tenant_id" = fr !! "tenant_id".

Lemma runs_have_follow T : runs_have_flows T → runs_follow_flows T.
Proof. intros H u r f fr Hr Hf Hfr. destruct (H u r Hr) as (f' & fr' & ? & ? & ?). by simplify_eq. Qed.

(** A table that a statement does not name. *)
Definition stmt_table (st : sql_stmt) : string := match st with Insert t _ | Update t _ _ | Delete t _ => t end.

Lemma exec_other_rows st vs T n T' t' :
  sql_exec st vs T = Some (n, T') → match st with Delete t _ => referencing t = [] | _ => True end →
  stmt_table st ≠ t' → rows_of T' t' = rows_of T t'.
Proof.
  destruct st as [t cols|t set key|t key]; cbn [sql_exec stmt_table]; intros H Hr Hne.
  - apply sql_insert_inv in H as (d & u & _ & _ & _ & _ & _ & _ & ->). by rewrite rows_of_insert, decide_False.
  - apply sql_update_inv in H as (_ & -> & _). by rewrite rows_of_insert, decide_False.
  - apply (inj Some) in H. unfold sql_delete in H. apply pair_equal_spec in H as [_ <-].
    change (length schema) with 7. rewrite delete_leaf by done. by rewrite rows_of_insert, decide_False.
Qed.

Lemma links_ext T T' :
  rows_of T' "runs" = rows_of T "runs" → rows_of T' "flows" = rows_of T "flows" →
  runs_have_flows T → runs_have_flows T'.
Proof. intros Hr Hf H u r. rewrite Hr, Hf. apply H. Qed.

(** A new flow has a new identifier; a deleted one takes its runs. *)
Lemma links_insert_flow cols vs T n T' :
  sql_exec (Insert "flows" cols) vs T = Some (n, T') → runs_have_flows T → runs_have_flows T'.
Proof.
  intros (d & u & _ & _ & Hno & _ & _ & _ & ->)%sql_insert_inv H u' r. rewrite !rows_of_insert. simpl.
  intros Hr. destruct (H u' r Hr) as (f & fr & Hf & Hfr & Ht). exists f, fr. split_and!; [done| |done].
  rewrite lookup_insert_ne; [done|]. intros ->. congruence.
Qed.

Lemma links_delete_flow key vs T n T' :
  sql_exec (Delete "flows" key) vs T = Some (n, T') → runs_have_flows T → runs_have_flows T'.
Proof.
  cbn [sql_exec]. intros H%(inj Some) Hl. unfold sql_delete in H. apply pair_equal_spec in H as [_ <-].
  change (length schema) with 7. rewrite delete_flows. cbv zeta.
  set (gone := (filter _ _).*1). intros u r. rewrite !rows_of_insert. simpl. intros [Hr Hno]%map_lookup_filter_Some. simpl in Hno.
  destruct (Hl u r Hr) as (f & fr & Hf & Hfr & Ht). exists f, fr. split_and!; [done| |done].
  apply map_lookup_filter_Some. split; [done|]. cbn [snd]. apply not_true_iff_false. intros Hm.
  unfold refers in Hno. rewrite Hf in Hno. apply bool_decide_eq_false in Hno. apply Hno.
  apply list_elem_of_fmap. exists (f, fr). split; [done|]. apply list_elem_of_filter.
  by rewrite elem_of_map_to_list.
Qed.

(** An UPDATE that sets neither the tenant nor the flow. *)
Lemma links_update_flow set key T n T' :
  "tenant_id" ∉ set.*1 → sql_update "flows" set key T = Some (n, T') → runs_have_flows T → runs_have_flows T'.
Proof.
  intros Hs (_ & -> & _)%sql_update_inv H u r. rewrite !rows_of_insert. simpl. intros Hr.
  destruct (H u r Hr) as (f & fr & Hf & Hfr & Ht).
  exists f, (if matches key fr then set_columns set fr else fr). rewrite updated_lookup, Hfr.
  split_and!; [done|done|]. rewrite Ht. case_match; [by rewrite set_columns_other|done].
Qed.

Lemma links_update_run set key T n T' :
  "tenant_id" ∉ set.*1 → "flow_id" ∉ set.*1 → sql_update "runs" set key T = Some (n, T') →
  runs_have_flows T → runs_have_flows T'.
Proof.
  intros Hs Hsf (_ & -> & _)%sql_update_inv H u r. rewrite !rows_of_insert. simpl.
  rewrite updated_lookup. intros (r0 & Hr & ->)%fmap_Some.
  destruct (H u r0 Hr) as (f & fr & Hf & Hfr & Ht). exists f, fr.
  case_match; rewrite ?set_columns_other by done; done.
Qed.

Section Runs.
Context {S : Type} {pgx : Pgx} {pgx_laws : PgxLaws pgx} {db : Database S} {laws : DatabaseLaws S}.
Context (parse_time : string → outcome Time) (time_text : Time → string).
Context (parse_time_proper : ∀ t, proper_outcome (parse_time t)).
Implicit Types (s : S).

(** The flow of [v], if it is there, is of the tenant of [v]. *)
Definition run_allowed (v : Run) (T : sql_tables) : Prop :=
  ∀ f fr, uuid (Run_FlowID v) f → rows_of T "flows" !! f = Some fr →
    ∃ uT, uuid (Run_TenantID v) uT ∧ fr !! "tenant_id" = Some (SUuid uT).

Lemma create_run_links v s :
  runs_have_flows (db_tables s) → run_allowed v (db_tables s) →
  runs_have_flows (db_tables (PG_CreateRun time_text v s).2).
Proof using pgx_laws.
  intros Hl Hv. unfold PG_CreateRun.
  match goal with |- context [insert ?t ?cols ?args ?x s] => pose proof (insert_run t cols args x s) as H end.
  destruct (insert _ _ _ _ s) as [o s']. simpl.
  destruct H as [(e & _ & _ & -> & _)|(_ & vs & n & Hb & He)]; [done|].
  bind_all Hb. read_params. apply sql_insert_inv in He as (d & k & Hd & _ & _ & _ & _ & Hrefs & ->).
  injection Hd as <-. intros u' r. rewrite !rows_of_insert. simpl.
  intros [[_ <-]|[_ Hr]]%lookup_insert_Some; [|by apply (Hl u')].
  unfold refs_ok in Hrefs. cbn in Hrefs. revert Hrefs. lookups. intros Hrefs.
  apply andb_prop in Hrefs as [Hf _]. apply bool_decide_eq_true in Hf as [fr Hfr].
  match goal with H : uuid (Run_FlowID v) ?f |- _ => exists f, fr; destruct (Hv f fr H Hfr) as (uT & HuT & Ht) end.
  cbn. lookups. split_and!; [done|done|].
  match goal with H : uuid (Run_TenantID v) ?x |- _ => by rewrite Ht, (uuid_fun _ _ _ H HuT) end.
Qed.

Ltac updates_links lem :=
  match goal with |- context [update ?t ?set ?key ?args ?x ?s] =>
    let H := fresh "H" in pose proof (update_run t set key args x s) as H;
    let o := fresh "o" in let s' := fresh "s'" in let vs := fresh "vs" in let n := fresh "n" in
    let Hb := fresh "Hb" in let He := fresh "He" in let Hb1 := fresh "Hb" in let Hl1 := fresh "Hl" in
    let e := fresh "e" in
    destruct (update t set key args x s) as [o s']; simpl;
    destruct H as [(e & _ & _ & -> & _)|(vs & n & Hb & He & _)]; [done|];
    rewrite fmap_app in Hb; apply bind_app in Hb as [Hb _]; rewrite length_fmap in *;
    let Hfst := fresh "Hfst" in
    assert (Hfst : (zip set (take (length set) vs)).*1 = set)
      by (apply fst_zip; destruct Hb as [Hb1 Hl1]; apply Forall2_length in Hb1;
          rewrite length_zip, <- Hl1, length_fmap in Hb1; lia);
    eapply lem; [..|exact He|done]; rewrite Hfst; not_listed
  end.

(** The state after a call, as the call gives it. *)
Ltac as_call E :=
  match type of E with PG_Store _ _ _ ?op ?s = (_, ?s') =>
    replace s' with (PG_Store parse_time time_text _ op s).2 by by rewrite E end.

Lemma pg_links {A} (op : StoreOp A) s :
  runs_have_flows (db_tables s) →
  match op with OpCreateRun v => run_allowed v (db_tables s) | _ => True end →
  runs_have_flows (db_tables (PG_Store parse_time time_text A op s).2).
Proof using pgx_laws.
  intros Hl Hop. pose proof (pg_once parse_time time_text op s) as H.
  destruct (PG_Store parse_time time_text A op s) as [o s'] eqn:E. simpl.
  destruct H as [->|(st & vs & n & Ho & Hx)]; [done|].
  destruct op; simpl in Ho; try done; repeat match type of Ho with ex _ => destruct Ho as [? Ho] end; subst st;
    try (eapply links_ext; [..|exact Hl]; eapply exec_other_rows; [exact Hx|done..]).
  - by eapply links_insert_flow.
  - as_call E.
    cbn [PG_Store]. unfold PG_UpdateFlow. updates_links links_update_flow.
  - by eapply links_delete_flow.
  - as_call E.
    by apply create_run_links.
  - as_call E.
    cbn [PG_Store]. unfold PG_UpdateRun. updates_links links_update_run.
Qed.

(** A call made with the name of a tenant leaves the records of the tenants;
    creating one adds a record under its own identifier. *)
Lemma pg_tenant_rows {A} (op : StoreOp A) T s :
  op_tenant op = Some T →
  rows_of (db_tables (PG_Store parse_time time_text A op s).2) "tenants" = rows_of (db_tables s) "tenants".
Proof using Type.
  intros HT. pose proof (pg_once parse_time time_text op s) as H.
  destruct (PG_Store parse_time time_text A op s) as [o s']. simpl.
  destruct H as [->|(st & vs & n & Ho & Hx)]; [done|].
  destruct op; simpl in Ho; try done; repeat match type of Ho with ex _ => destruct Ho as [? Ho] end; subst st;
    try (by eapply exec_other_rows; [exact Hx|done..]).
  cbn [sql_exec] in Hx. apply (inj Some) in Hx. unfold sql_delete in Hx. apply pair_equal_spec in Hx as [_ <-].
  change (length schema) with 7. rewrite delete_flows. cbv zeta. by rewrite !rows_of_insert.
Qed.

(** A flow that was read may be run. *)
Lemma flow_read T i fl s :
  well_keyed (db_tables s) → (PG_GetFlow T i s).1 = Ok fl →
  ∀ v, Run_FlowID v = Flow_ID fl → Run_TenantID v = Flow_TenantID fl →
    run_allowed v (db_tables (PG_GetFlow T i s).2).
Proof using pgx_laws laws time_text parse_time_proper.
  intros Hw. unfold PG_GetFlow.
  pose proof (get_run "flows" flow_cols scanFlow T i s eq_refl eq_refl Hw) as H.
  pose proof (pg_call parse_time time_text parse_time_proper (OpGetFlow T i) T s eq_refl Hw ltac:(done)) as Ho.
  cbn [PG_Store] in Ho. unfold PG_GetFlow in Ho.
  destruct (queryRow _ _ _ s) as [o s']. destruct H as (HT & H). destruct Ho as [_ Ho]. simpl. intros ->.
  destruct (Ho fl eq_refl) as [HuT Hu]. intros v Hf Ht f fr Hvf Hfr.
  destruct H as [(e & [=] & _)|(uT & u & HT' & Hu' & H)].
  destruct (owner_row (db_tables s) "flows" uT u) as [r|] eqn:Hr; [|done].
  apply owner_row_Some in Hr as [Hr Hrt].
  rewrite Hf in Hvf. rewrite HT in Hfr.
  rewrite (uuid_fun _ _ _ Hvf (uuid_canonical _ _ Hu)), (uuid_fun _ _ _ Hu Hu'), Hr in Hfr. injection Hfr as <-.
  exists uT. split; [|done]. rewrite Ht, (uuid_fun _ _ _ HuT HT'). by eapply uuid_canonical.
Qed.
End Runs.
