(* ===== verification/Api.v ===== *)
(** * The HTTP handlers (internal/api)

    One computation per handler over the state of the server: the store, the
    MCP client and the side effects with the clock ([Engine.World]), the hub,
    and the supply of identifiers.  A request is what the middlewares pass on
    ([Auth.Request]) with the URL parameter and the body; a response is its
    status and the Go value that is encoded into it.  bcrypt is a parameter;
    metrics, logging and what is written to the client are in Middleware and
    Routes, around these handlers.
    [createTask] runs the worker pool and is a relation. *)
From S2P Require Import Prelude GoStr GoValue GoSort GoFmt Json Model Store StoreSpec.
From S2P Require Import Expr Graph SideEffects Mcp Engine Auth Hub Decomposer Threads Orchestrator Codec.

(** bcrypt: a hash of a password, and the comparison (true for a nil error). *)
Class Bcrypt := {
  GenerateFromPassword : string → outcome string;
  CompareHashAndPassword : string → string → bool
}.

Definition defaultTenantID : string := "00000000-0000-0000-0000-000000000001".

(** The part of the configuration that the handlers read. *)
Record SeedConfig := mkSeedConfig {
  SeedOwnerUsername : string;
  SeedOwnerPassword : string
}.

Record Api (St Mc Se : Type) := mkApi {
  api_world : World St Mc Se;
  api_hub : Hub;
  api_uuids : nat
}.
Arguments mkApi {St Mc Se} _ _ _.
Arguments api_world {St Mc Se} _.
Arguments api_hub {St Mc Se} _.
Arguments api_uuids {St Mc Se} _.

Record HttpRequest := mkHttpRequest {
  rq : Request;
  URLParam : string;
  rq_body : RawMessage
}.

Definition tenantFrom (r : HttpRequest) : string := TenantIDFrom (rq r).
Definition roleFrom (r : HttpRequest) : string := RoleFrom (rq r).

(** The value a handler encodes into its response. *)
Inductive Body :=
  | BNone
  | BText (text : string)   (** plain text, of http.Error *)
  | BError (msg : string)
  | BAgent (a : Agent)
  | BAgents (l : list Agent)
  | BServer (s : McpServer)
  | BServers (l : list McpServer)
  | BFlow (f : Flow)
  | BFlows (l : list Flow)
  | BRun (r : Run)
  | BRuns (l : list Run)
  | BTask (t : Task)
  | BUser (u : User)
  | BUsers (l : list User)
  | BToken (token : string)
  | BRunID (id : string)
  | BTaskID (id : string)
  | BTestFailed (err : string)
  | BTestOk (tools : list Tool).

Record HttpResponse := mkResponse {
  Status : Z;
  Payload : Body
}.

Definition StatusOK : Z := 200.
Definition StatusCreated : Z := 201.
Definition StatusNoContent : Z := 204.
Definition StatusBadRequest : Z := 400.
Definition StatusNotFound : Z := 404.
Definition StatusConflict : Z := 409.
Definition StatusInternalServerError : Z := 500.
Definition StatusServiceUnavailable : Z := 503.

Definition writeJSON (status : Z) (b : Body) : HttpResponse := mkResponse status b.
Definition writeError (status : Z) (msg : string) : HttpResponse := writeJSON status (BError msg).

(** [http.Error], with which the auth middlewares refuse. *)
Definition http_error (status : Z) (msg : string) : HttpResponse := mkResponse status (BText msg).

Definition mapStoreError (err : error) : Z * string :=
  if errors_is err "store: not found" then (StatusNotFound, "not found")
  else if errors_is err "store: conflict" then (StatusConflict, "conflict")
  else if errors_is err "store: invalid input" then (StatusBadRequest, "invalid input")
  else (StatusInternalServerError, "internal error").

Definition storeError (err : error) : HttpResponse :=
  let '(status, msg) := mapStoreError err in writeError status msg.

Definition httpStatusLabel (code : Z) : string :=
  if (500 <=? code)%Z then "5xx"
  else if (400 <=? code)%Z then "4xx"
  else if (300 <=? code)%Z then "3xx"
  else "2xx".

Section Handlers.
Context {St Mc Se : Type}.
Context {st_ops : Store St} {mc_ops : Client Mc} {se_ops : SideEffectStore Se} {quoting : FmtQuote}.
Context {jwt : JWT} {bcrypt : Bcrypt}.
Context (now_at : nat → Time) (uuid_at : nat → string) (map_order : MapOrder).
Context (parse_time : string → outcome Time) (time_text : Time → string).
Context (visit : gset nat → list nat).
Context (auth : Manager) (cfg : SeedConfig).
Abbreviation A := (Api St Mc Se).

(** ** Access to the parts of the state *)
Definition on_world {B} (m : M (World St Mc Se) B) : M A B := λ a,
  let '(o, w) := m (api_world a) in (o, mkApi w (api_hub a) (api_uuids a)).

(** A call of the store, whose error the handler looks at. *)
Definition call {B} (op : StoreOp B) : M A (B + error) :=
  mtry (on_world (λ w, let '(o, s) := store_exec op (w_store w) in
                       (o, mkWorld s (w_mcp w) (w_effects w) (w_clock w)))).

Definition call_mcp {B} (m : M Mc B) : M A (B + error) :=
  mtry (on_world (λ w, let '(o, s) := m (w_mcp w) in
                       (o, mkWorld (w_store w) s (w_effects w) (w_clock w)))).

Definition api_now : M A Time := on_world (λ w,
  (Ok (now_at (w_clock w)), mkWorld (w_store w) (w_mcp w) (w_effects w) (S (w_clock w)))).

Definition new_uuid : M A string := λ a,
  (Ok (uuid_at (api_uuids a)), mkApi (api_world a) (api_hub a) (S (api_uuids a))).

Definition broadcast (t msgType : string) (payload : value) : M A unit :=
  n ← api_now;
  (λ a, let '(o, h) := Broadcast time_text visit n t msgType payload (api_hub a) in
        (o, mkApi (api_world a) h (api_uuids a))) : M A unit.

Definition body {B} (dec : decoder B) (zero : B) (r : HttpRequest) : M A (B + error) :=
  mtry (λ a, (decodeJSON dec zero (rq_body r), a)).

Definition bad_body : M A HttpResponse := mret (writeError StatusBadRequest "invalid JSON body").

(** [if err != nil { status, msg := mapStoreError(err); ... }; writeJSON(...)] *)
Definition reply {B} (status : Z) (f : B → Body) (r : B + error) : M A HttpResponse :=
  match r with
  | inr err => mret (storeError err)
  | inl b => mret (writeJSON status (f b))
  end.

(** The lists answer any error with its text. *)
Definition reply_list {B} (f : B → Body) (r : B + error) : M A HttpResponse :=
  match r with
  | inr err => mret (writeError StatusInternalServerError (error_text err))
  | inl b => mret (writeJSON StatusOK (f b))
  end.

(** ** agents.go *)
Definition listAgents (r : HttpRequest) : M A HttpResponse :=
  x ← call (OpListAgents (tenantFrom r)); reply_list BAgents x.

Definition getAgent (r : HttpRequest) : M A HttpResponse :=
  x ← call (OpGetAgent (tenantFrom r) (URLParam r)); reply StatusOK BAgent x.

Definition createAgent (r : HttpRequest) : M A HttpResponse :=
  b ← body (dec_Agent parse_time) zero_Agent r;
  match b with
  | inr _ => bad_body
  | inl agent =>
      if bool_decide (Agent_Name agent = "") then mret (writeError StatusBadRequest "name is required")
      else
        id ← new_uuid;
        created ← api_now;
        updated ← api_now;
        x ← call (OpCreateAgent (mkAgent id (tenantFrom r) (Agent_Name agent) (Agent_Profile agent)
                    (Agent_SystemPrompt agent) (Agent_Skills agent) (Agent_Enabled agent)
                    created updated));
        reply StatusCreated BAgent x
  end.

Definition updateAgent (r : HttpRequest) : M A HttpResponse :=
  e ← call (OpGetAgent (tenantFrom r) (URLParam r));
  match e with
  | inr err => mret (storeError err)
  | inl existing =>
      b ← body (dec_Agent parse_time) zero_Agent r;
      match b with
      | inr _ => bad_body
      | inl agent =>
          updated ← api_now;
          x ← call (OpUpdateAgent (mkAgent (Agent_ID existing) (Agent_TenantID existing)
                      (Agent_Name agent) (Agent_Profile agent) (Agent_SystemPrompt agent)
                      (Agent_Skills agent) (Agent_Enabled agent) (Agent_CreatedAt existing) updated));
          reply StatusOK BAgent x
      end
  end.

Definition no_content (r : unit + error) : M A HttpResponse :=
  reply StatusNoContent (λ _, BNone) r.

Definition deleteAgent (r : HttpRequest) : M A HttpResponse :=
  x ← call (OpDeleteAgent (tenantFrom r) (URLParam r)); no_content x.

(** ** mcp_servers.go *)
Definition listMcpServers (r : HttpRequest) : M A HttpResponse :=
  x ← call (OpListMcpServers (tenantFrom r)); reply_list BServers x.

Definition getMcpServer (r : HttpRequest) : M A HttpResponse :=
  x ← call (OpGetMcpServer (tenantFrom r) (URLParam r)); reply StatusOK BServer x.

Definition createMcpServer (r : HttpRequest) : M A HttpResponse :=
  b ← body (dec_McpServer parse_time) zero_McpServer r;
  match b with
  | inr _ => bad_body
  | inl server =>
      if bool_decide (McpServer_Name server = "") then mret (writeError StatusBadRequest "name is required")
      else if raw_is_empty (McpServer_Transport server)
      then mret (writeError StatusBadRequest "transport is required")
      else
        id ← new_uuid;
        created ← api_now;
        updated ← api_now;
        x ← call (OpCreateMcpServer (mkMcpServer id (tenantFrom r) (McpServer_Name server)
                    (McpServer_Transport server) (McpServer_Enabled server) "unknown" created updated));
        reply StatusCreated BServer x
  end.

Definition updateMcpServer (r : HttpRequest) : M A HttpResponse :=
  e ← call (OpGetMcpServer (tenantFrom r) (URLParam r));
  match e with
  | inr err => mret (storeError err)
  | inl existing =>
      b ← body (dec_McpServer parse_time) zero_McpServer r;
      match b with
      | inr _ => bad_body
      | inl server =>
          let transport := if raw_is_empty (McpServer_Transport server)
                           then McpServer_Transport existing else McpServer_Transport server in
          updated ← api_now;
          x ← call (OpUpdateMcpServer (mkMcpServer (McpServer_ID existing) (McpServer_TenantID existing)
                      (McpServer_Name server) transport (McpServer_Enabled server)
                      (McpServer_Status server) (McpServer_CreatedAt existing) updated));
          reply StatusOK BServer x
      end
  end.

Definition deleteMcpServer (r : HttpRequest) : M A HttpResponse :=
  x ← call (OpDeleteMcpServer (tenantFrom r) (URLParam r)); no_content x.

Definition set_ServerStatus (st : string) (s : McpServer) : McpServer :=
  mkMcpServer (McpServer_ID s) (McpServer_TenantID s) (McpServer_Name s) (McpServer_Transport s)
    (McpServer_Enabled s) st (McpServer_CreatedAt s) (McpServer_UpdatedAt s).

Definition testMcpServer (r : HttpRequest) : M A HttpResponse :=
  e ← call (OpGetMcpServer (tenantFrom r) (URLParam r));
  match e with
  | inr err => mret (storeError err)
  | inl server =>
      match TransportFromServer (McpServer_Transport server) with
      | Ok transport =>
          tools ← call_mcp (ListTools transport);
          match tools with
          | inr err =>
              _ ← call (OpUpdateMcpServer (set_ServerStatus "error" server));
              mret (writeJSON StatusOK (BTestFailed (error_text err)))
          | inl l =>
              _ ← call (OpUpdateMcpServer (set_ServerStatus "connected" server));
              mret (writeJSON StatusOK (BTestOk l))
          end
      | _ => mret (writeError StatusBadRequest "invalid transport config")
      end
  end.

(** ** flows.go *)
Definition listFlows (r : HttpRequest) : M A HttpResponse :=
  x ← call (OpListFlows (tenantFrom r)); reply_list BFlows x.

Definition getFlow (r : HttpRequest) : M A HttpResponse :=
  x ← call (OpGetFlow (tenantFrom r) (URLParam r)); reply StatusOK BFlow x.

Definition createFlow (r : HttpRequest) : M A HttpResponse :=
  b ← body (dec_Flow parse_time) zero_Flow r;
  match b with
  | inr _ => bad_body
  | inl fl =>
      if bool_decide (Flow_Name fl = "") then mret (writeError StatusBadRequest "name is required")
      else match Validate (Flow_FlowJSON fl) with
      | Some err => mret (writeError StatusBadRequest (error_text err))
      | None =>
          id ← new_uuid;
          created ← api_now;
          updated ← api_now;
          x ← call (OpCreateFlow (mkFlow id (tenantFrom r) (Flow_Name fl) (Flow_FlowJSON fl)
                      (Flow_Permissions fl) (Flow_Enabled fl) created updated));
          reply StatusCreated BFlow x
      end
  end.

Definition updateFlow (r : HttpRequest) : M A HttpResponse :=
  e ← call (OpGetFlow (tenantFrom r) (URLParam r));
  match e with
  | inr err => mret (storeError err)
  | inl existing =>
      b ← body (dec_Flow parse_time) zero_Flow r;
      match b with
      | inr _ => bad_body
      | inl fl =>
          let bad := if raw_is_empty (Flow_FlowJSON fl) then None else Validate (Flow_FlowJSON fl) in
          match bad with
          | Some err => mret (writeError StatusBadRequest (error_text err))
          | None =>
              let flow_json := if raw_is_empty (Flow_FlowJSON fl)
                               then Flow_FlowJSON existing else Flow_FlowJSON fl in
              updated ← api_now;
              x ← call (OpUpdateFlow (mkFlow (Flow_ID existing) (Flow_TenantID existing) (Flow_Name fl)
                          flow_json (Flow_Permissions fl) (Flow_Enabled fl)
                          (Flow_CreatedAt existing) updated));
              reply StatusOK BFlow x
          end
      end
  end.

Definition deleteFlow (r : HttpRequest) : M A HttpResponse :=
  x ← call (OpDeleteFlow (tenantFrom r) (URLParam r)); no_content x.

Definition runFlow (r : HttpRequest) : M A HttpResponse :=
  e ← call (OpGetFlow (tenantFrom r) (URLParam r));
  match e with
  | inr err => mret (storeError err)
  | inl fl =>
      if negb (Flow_Enabled fl) then mret (writeError StatusBadRequest "flow is disabled")
      else
        started ← api_now;
        id ← new_uuid;
        c ← call (OpCreateRun (mkRun id (Flow_ID fl) (Flow_TenantID fl) RunStatusRunning started
                    None [] RawEmpty));
        match c with
        | inr err => mret (writeError StatusInternalServerError (error_text err))
        | inl run =>
            res ← on_world (Execute now_at map_order fl);
            finished ← api_now;
            u ← call (OpUpdateRun (mkRun (Run_ID run) (Run_FlowID run) (Run_TenantID run)
                        (Exec_Status res) (Run_StartedAt run) (Some finished) (Exec_Logs res)
                        (Exec_Result res)));
            match u with
            | inr err => mret (writeError StatusInternalServerError (error_text err))
            | inl run =>
                _ ← broadcast (Flow_TenantID fl) "run_update"
                      (VMap {[ "run_id" := VString (Run_ID run); "flow_id" := VString (Flow_ID fl);
                               "status" := VString (Exec_Status res) ]});
                mret (writeJSON StatusOK (BRunID (Run_ID run)))
            end
        end
  end.

Definition listFlowRuns (r : HttpRequest) : M A HttpResponse :=
  x ← call (OpListRuns (tenantFrom r) (URLParam r)); reply StatusOK BRuns x.

Definition getRun (r : HttpRequest) : M A HttpResponse :=
  x ← call (OpGetRun (tenantFrom r) (URLParam r)); reply StatusOK BRun x.

(** ** tasks.go *)
Definition getTask (r : HttpRequest) : M A HttpResponse :=
  x ← call (OpGetTask (tenantFrom r) (URLParam r)); reply StatusOK BTask x.

(** ** auth.go *)
Definition hash_password (password : string) : M A (string + error) :=
  mtry (λ a, (GenerateFromPassword password, a)).

(** Seeding: errors of the store are dropped. *)
Definition ensureSeed : M A unit :=
  us ← call (OpListUsers defaultTenantID);
  match us with
  | inr _ => mret tt
  | inl (_ :: _) => mret tt
  | inl [] =>
      t ← call (OpGetTenant defaultTenantID);
      _ ← (match t with
           | inr _ =>
               n ← api_now;
               _ ← call (OpCreateTenant (mkTenant defaultTenantID "default" n));
               mret tt
           | inl _ => mret tt
           end : M A unit);
      hash ← hash_password (SeedOwnerPassword cfg);
      match hash with
      | inr _ => mret tt
      | inl hash =>
          id ← new_uuid;
          created ← api_now;
          updated ← api_now;
          _ ← call (OpCreateUser (mkUser id defaultTenantID (SeedOwnerUsername cfg) hash RoleOwner
                      created updated));
          mret tt
      end
  end.

Definition unauthorized (msg : string) : M A HttpResponse := mret (writeError StatusUnauthorized msg).

Definition handleLogin (r : HttpRequest) : M A HttpResponse :=
  b ← body dec_LoginRequest (mkLoginRequest "" "") r;
  match b with
  | inr _ => bad_body
  | inl req =>
      if bool_decide (Login_Username req = "") || bool_decide (Login_Password req = "")
      then mret (writeError StatusBadRequest "username and password are required")
      else
        _ ← ensureSeed;
        u ← call (OpGetUserByUsername defaultTenantID (Login_Username req));
        match u with
        | inr _ => unauthorized "invalid credentials"
        | inl user =>
            if negb (CompareHashAndPassword (PasswordHash user) (Login_Password req))
            then unauthorized "invalid credentials"
            else
              n ← api_now;
              token ← mtry (λ a, (Issue auth n (Username user) (User_ID user) (User_TenantID user)
                                    (User_Role user), a));
              match token with
              | inr err => mret (writeError StatusInternalServerError (error_text err))
              | inl token => mret (writeJSON StatusOK (BToken token))
              end
        end
  end.

Definition handleMe (r : HttpRequest) : M A HttpResponse :=
  match ClaimsFrom (rq r) with
  | None => unauthorized "unauthorized"
  | Some claims =>
      u ← call (OpGetUser (Claims_TenantID claims) (Claims_UserID claims));
      match u with
      | inr _ => unauthorized "unauthorized"
      | inl user => mret (writeJSON StatusOK (BUser user))
      end
  end.

Definition listUsers (r : HttpRequest) : M A HttpResponse :=
  x ← call (OpListUsers (tenantFrom r)); reply_list BUsers x.

Definition getUser (r : HttpRequest) : M A HttpResponse :=
  x ← call (OpGetUser (tenantFrom r) (URLParam r)); reply StatusOK BUser x.

Definition known_role (role : string) : bool :=
  bool_decide (role = RoleViewer) || bool_decide (role = RoleOperator) || bool_decide (role = RoleOwner).

Definition createUser (r : HttpRequest) : M A HttpResponse :=
  b ← body dec_UserRequest (mkUserRequest "" "" "") r;
  match b with
  | inr _ => bad_body
  | inl req =>
      if bool_decide (UserReq_Username req = "") || bool_decide (UserReq_Password req = "")
      then mret (writeError StatusBadRequest "username and password are required")
      else
        let role := if known_role (UserReq_Role req) then UserReq_Role req else RoleViewer in
        h ← hash_password (UserReq_Password req);
        match h with
        | inr err => mret (writeError StatusInternalServerError (error_text err))
        | inl hash =>
            id ← new_uuid;
            created ← api_now;
            updated ← api_now;
            x ← call (OpCreateUser (mkUser id (tenantFrom r) (UserReq_Username req) hash role
                        created updated));
            reply StatusCreated BUser x
        end
  end.

Definition updateUser (r : HttpRequest) : M A HttpResponse :=
  e ← call (OpGetUser (tenantFrom r) (URLParam r));
  match e with
  | inr err => mret (storeError err)
  | inl existing =>
      b ← body dec_UserRequest (mkUserRequest "" "" "") r;
      match b with
      | inr _ => bad_body
      | inl req =>
          let name := if bool_decide (UserReq_Username req = "") then Username existing
                      else UserReq_Username req in
          let role := if known_role (UserReq_Role req) then UserReq_Role req else User_Role existing in
          h ← (if bool_decide (UserReq_Password req = "") then mret (inl (PasswordHash existing))
               else hash_password (UserReq_Password req));
          match h with
          | inr err => mret (writeError StatusInternalServerError (error_text err))
          | inl hash =>
              updated ← api_now;
              x ← call (OpUpdateUser (mkUser (User_ID existing) (User_TenantID existing) name hash role
                          (User_CreatedAt existing) updated));
              reply StatusOK BUser x
          end
      end
  end.

Definition deleteUser (r : HttpRequest) : M A HttpResponse :=
  x ← call (OpDeleteUser (tenantFrom r) (URLParam r)); no_content x.
End Handlers.

(** ** The protected routes (router.go) *)
Inductive endpoint :=
  | EpMe
  | EpListAgents | EpCreateAgent | EpGetAgent | EpUpdateAgent | EpDeleteAgent
  | EpListMcpServers | EpCreateMcpServer | EpGetMcpServer | EpUpdateMcpServer | EpDeleteMcpServer
  | EpTestMcpServer
  | EpListFlows | EpCreateFlow | EpGetFlow | EpUpdateFlow | EpDeleteFlow | EpRunFlow | EpListFlowRuns
  | EpGetRun | EpGetTask
  | EpListUsers | EpCreateUser | EpGetUser | EpUpdateUser | EpDeleteUser.

#[export] Instance endpoint_eq_dec : EqDecision endpoint.
Proof. solve_decision. Defined.

(** Method and path pattern; [{id}] is the URL parameter. [POST /tasks] and
    the dashboard are not handlers of the kind above. *)
Definition route (e : endpoint) (id : string) : string * string :=
  let api := "/api/v1" in
  match e with
  | EpMe => ("GET", api +:+ "/me")
  | EpListAgents => ("GET", api +:+ "/agents")
  | EpCreateAgent => ("POST", api +:+ "/agents")
  | EpGetAgent => ("GET", api +:+ "/agents/" +:+ id)
  | EpUpdateAgent => ("PUT", api +:+ "/agents/" +:+ id)
  | EpDeleteAgent => ("DELETE", api +:+ "/agents/" +:+ id)
  | EpListMcpServers => ("GET", api +:+ "/mcp-servers")
  | EpCreateMcpServer => ("POST", api +:+ "/mcp-servers")
  | EpGetMcpServer => ("GET", api +:+ "/mcp-servers/" +:+ id)
  | EpUpdateMcpServer => ("PUT", api +:+ "/mcp-servers/" +:+ id)
  | EpDeleteMcpServer => ("DELETE", api +:+ "/mcp-servers/" +:+ id)
  | EpTestMcpServer => ("POST", api +:+ "/mcp-servers/" +:+ id +:+ "/test")
  | EpListFlows => ("GET", api +:+ "/flows")
  | EpCreateFlow => ("POST", api +:+ "/flows")
  | EpGetFlow => ("GET", api +:+ "/flows/" +:+ id)
  | EpUpdateFlow => ("PUT", api +:+ "/flows/" +:+ id)
  | EpDeleteFlow => ("DELETE", api +:+ "/flows/" +:+ id)
  | EpRunFlow => ("POST", api +:+ "/flows/" +:+ id +:+ "/run")
  | EpListFlowRuns => ("GET", api +:+ "/flows/" +:+ id +:+ "/runs")
  | EpGetRun => ("GET", api +:+ "/runs/" +:+ id)
  | EpGetTask => ("GET", api +:+ "/tasks/" +:+ id)
  | EpListUsers => ("GET", api +:+ "/users")
  | EpCreateUser => ("POST", api +:+ "/users")
  | EpGetUser => ("GET", api +:+ "/users/" +:+ id)
  | EpUpdateUser => ("PUT", api +:+ "/users/" +:+ id)
  | EpDeleteUser => ("DELETE", api +:+ "/users/" +:+ id)
  end.

Section Router.
Context {St Mc Se : Type}.
Context {st_ops : Store St} {mc_ops : Client Mc} {se_ops : SideEffectStore Se} {quoting : FmtQuote}.
Context {jwt : JWT} {bcrypt : Bcrypt}.
Context (now_at : nat → Time) (uuid_at : nat → string) (map_order : MapOrder).
Context (parse_time : string → outcome Time) (time_text : Time → string).
Context (visit : gset nat → list nat).

(** The handler of each route. *)
Definition serve (e : endpoint) (r : HttpRequest) : M (Api St Mc Se) HttpResponse :=
  match e with
  | EpMe => handleMe r
  | EpListAgents => listAgents r
  | EpCreateAgent => createAgent now_at uuid_at parse_time r
  | EpGetAgent => getAgent r
  | EpUpdateAgent => updateAgent now_at parse_time r
  | EpDeleteAgent => deleteAgent r
  | EpListMcpServers => listMcpServers r
  | EpCreateMcpServer => createMcpServer now_at uuid_at parse_time r
  | EpGetMcpServer => getMcpServer r
  | EpUpdateMcpServer => updateMcpServer now_at parse_time r
  | EpDeleteMcpServer => deleteMcpServer r
  | EpTestMcpServer => testMcpServer r
  | EpListFlows => listFlows r
  | EpCreateFlow => createFlow now_at uuid_at parse_time r
  | EpGetFlow => getFlow r
  | EpUpdateFlow => updateFlow now_at parse_time r
  | EpDeleteFlow => deleteFlow r
  | EpRunFlow => runFlow now_at uuid_at map_order time_text visit r
  | EpListFlowRuns => listFlowRuns r
  | EpGetRun => getRun r
  | EpGetTask => getTask r
  | EpListUsers => listUsers r
  | EpCreateUser => createUser now_at uuid_at r
  | EpGetUser => getUser r
  | EpUpdateUser => updateUser now_at r
  | EpDeleteUser => deleteUser r
  end.

(** A request through the middlewares to its handler. *)
Definition handle (auth : Manager) (e : endpoint) (r : HttpRequest)
    : M (Api St Mc Se) HttpResponse :=
  match protected auth Served (rq r) with
  | HttpError msg status => mret (http_error status msg)
  | Served q => serve e (mkHttpRequest q (URLParam r) (rq_body r))
  end.

(** A broadcast of a chat turn (ws.go). *)
Definition broadcastChat (tenantID role content agentID : string) : M (Api St Mc Se) unit :=
  let payload := {[ "role" := VString role; "content" := VString content ]} in
  broadcast now_at time_text visit tenantID "agent_message"
    (VMap (if bool_decide (agentID = "") then payload
           else <["agent_id" := VString agentID]> payload)).

(** The loop of [chatAgent] (chat.go). *)
Fixpoint chat_skills (tenantID : string) (agent : Agent) (content : string) (skills : list Skill)
    : M (Api St Mc Se) (list string) :=
  match skills with
  | [] => mret []
  | skill :: rest =>
      s ← call (OpGetMcpServer tenantID (Skill_ServerID skill));
      match s with
      | inr err => mthrow (Wrapf "get mcp server %q for skill %q: %w"
                             [FStr (Skill_ServerID skill); FStr (Skill_Name skill)] err)
      | inl server =>
          t ← mtry (λ a, (TransportFromServer (McpServer_Transport server), a));
          match t with
          | inr err => mthrow (Wrapf "parse transport for mcp server %q: %w"
                                 [FStr (McpServer_ID server)] err)
          | inl transport =>
              res ← call_mcp (CallTool transport (Skill_Tool skill)
                {[ "input" := VString content; "prompt" := VString (Agent_SystemPrompt agent) ]});
              match res with
              | inr err => mthrow (Wrapf "call tool %q on mcp server %q: %w"
                                     [FStr (Skill_Tool skill); FStr (McpServer_ID server)] err)
              | inl res =>
                  outputs ← chat_skills tenantID agent content rest;
                  mret (CallToolResult res :: outputs)
              end
          end
      end
  end.

Definition chatAgent (tenantID agentID content : string) : M (Api St Mc Se) string :=
  a ← call (OpGetAgent tenantID agentID);
  match a with
  | inr err => mthrow (Wrapf "get agent %q: %w" [FStr agentID] err)
  | inl agent =>
      if bool_decide (length (Agent_Skills agent) = 0)
      then mthrow (Errorf "agent has no skills" [])
      else outputs ← chat_skills tenantID agent content (Agent_Skills agent); mret (join outputs newline)
  end.

(** The agent a message without one goes to: the first enabled. *)
Definition default_agent (agents : list Agent) : string :=
  match filter (λ a, Agent_Enabled a = true) agents with
  | a :: _ => Agent_ID a
  | [] => ""
  end.

(** One turn of the read pump of [handleWS], for the claims' tenant. *)
Definition chat_turn (tenantID : string) (data : RawMessage) : M (Api St Mc Se) unit :=
  m ← mtry (λ a, (decodeJSON dec_chatMessage (mkChatMessage "" "" "") data, a));
  match m with
  | inr _ => mret tt
  | inl msg =>
      if negb (bool_decide (Chat_Type msg = "chat")) || bool_decide (Chat_Content msg = "")
      then mret tt
      else
        let go agentID :=
          _ ← broadcastChat tenantID "user" (Chat_Content msg) agentID;
          reply ← mtry (chatAgent tenantID agentID (Chat_Content msg));
          match reply with
          | inr err => broadcastChat tenantID "system" ("error: " +:+ error_text err) agentID
          | inl reply => broadcastChat tenantID "assistant" reply agentID
          end in
        if negb (bool_decide (Chat_AgentID msg = "")) then go (Chat_AgentID msg)
        else
          l ← call (OpListAgents tenantID);
          match l with
          | inr err => broadcastChat tenantID "system" ("error listing agents: " +:+ error_text err) ""
          | inl agents =>
              let agentID := default_agent agents in
              if bool_decide (agentID = "")
              then broadcastChat tenantID "system" "no enabled agent available" ""
              else go agentID
          end
  end.

(** The checks of [handleWS] before the upgrade: the tenant to serve, or the
    refusal. *)
Definition ws_admit (auth : Manager) (token : string) : HttpResponse + string :=
  if bool_decide (token = "") then inl (writeError StatusUnauthorized "missing token")
  else match Verify auth token with
       | Ok claims => inr (Claims_TenantID claims)
       | _ => inl (writeError StatusUnauthorized "invalid or expired token")
       end.
End Router.

(** ** tasks.go: [createTask]

    The request runs [Distribute] while the rest of the program goes on: the
    pool and its environment are those of Orchestrator.v, the hub moves by
    its own steps, and other requests take identifiers. *)
Section Tasks.
Context {St Mc Se : Type}.
Context {st_ops : Store St} {slices : TaskSlices St} {mc_ops : Client Mc} {quoting : FmtQuote}.
Context (now_at : nat → Time) (uuid_at : nat → string) (unicode_lower : string → string).
Context (time_text : Time → string) (visit : gset nat → list nat).
Context (o : Orchestrator).
Abbreviation A := (Api St Mc Se).

(** What [Distribute] is called on; [ctx] is the state of the request's context. *)
Definition task_data (ctx : option error) (a : A) : Data St Mc :=
  mkData (w_store (api_world a)) (w_mcp (api_world a)) ctx ∅ [] [] 0 0 (w_clock (api_world a)).

(** The server with what [Distribute] left, at [se], [h] and [n] of the rest. *)
Definition task_api (d : Data St Mc) (se : Se) (h : Hub) (n : nat) : A :=
  mkApi (mkWorld (d_store d) (d_mcp d) se (d_clock d)) h n.

Definition task_update (task : Task) : value :=
  VMap {[ "task_id" := VString (Task_ID task); "status" := VString (Task_Status task) ]}.

Inductive createTask (r : HttpRequest) (a : A) : HttpResponse → A → Prop :=
  | task_bad_body e :
      decodeJSON dec_TaskRequest "" (rq_body r) = Err e →
      createTask r a (writeError StatusBadRequest "invalid JSON body") a
  | task_no_text :
      decodeJSON dec_TaskRequest "" (rq_body r) = Ok "" →
      createTask r a (writeError StatusBadRequest "task text is required") a
  | task_refused ctx text err d1 se h n :
      decodeJSON dec_TaskRequest "" (rq_body r) = Ok text → text ≠ "" →
      prepare now_at unicode_lower (tenantFrom r) (uuid_at (api_uuids a)) text (task_data ctx a)
        = (Err err, d1) →
      rtc (hub_step time_text) (api_hub a) h →
      createTask r a (writeError StatusInternalServerError (error_text err)) (task_api d1 se h n)
  | task_done ctx text task d2 se h n :
      decodeJSON dec_TaskRequest "" (rq_body r) = Ok text → text ≠ "" →
      distributes now_at unicode_lower o (tenantFrom r) (uuid_at (api_uuids a)) text
        (task_data ctx a) task d2 →
      rtc (hub_step time_text) (api_hub a) h →
      createTask r a (writeJSON StatusOK (BTaskID (Task_ID task)))
        (broadcast now_at time_text visit (Task_TenantID task) "task_update" (task_update task)
           (task_api d2 se h n)).2.
End Tasks.
