(* ===== verification/Socket.v ===== *)
(** * One WebSocket connection (api/ws.go, [handleWS] after the upgrade)

    The handler is the read pump; it starts a goroutine, the write pump, that
    forwards what the hub puts into the client's channel.  A step is one of
    either, or of the rest of the program at the hub.  A turn of the read
    pump calls the agent and broadcasts: its broadcasts are steps at the hub
    like everybody else's ([chat_turn_at_hub]).  The client is registered
    before the first step.  The peer is the other end: it sends frames, and it
    can go at any time, with which every read fails once the frames that had
    arrived are read. *)
From S2P Require Import Prelude GoStr GoValue GoSort GoFmt Json Model Store StoreSpec Hub.
From S2P Require Import Engine SideEffects Mcp Codec Api.

(** The handler; after the loop, the deferred calls in their order. *)
Inductive read_pump :=
  | Greeting | Spawning | Reading | Turn (data : RawMessage) | Deregistering | Closing | Returned.

Inductive write_pump := Unborn | Ranging | Writing (d : json) | Ended.

(** [so_peer]: the peer is there. [so_inbox]: the frames that have arrived and
    are not read. [so_out]: the text frames written without an error. [so_log],
    which the program does not have: what was ever put into the channel. *)
Record socket := mkSocket {
  so_hub : Hub;
  so_reader : read_pump;
  so_writer : write_pump;
  so_open : bool;
  so_peer : bool;
  so_inbox : list RawMessage;
  so_out : list json;
  so_log : list json
}.

Definition greeting : json :=
  JObj [("type", JStr "agent_message");
        ("payload", JObj [("role", JStr "system"); ("content", JStr "connected")])].

Definition set_reader p s :=
  mkSocket (so_hub s) p (so_writer s) (so_open s) (so_peer s) (so_inbox s) (so_out s) (so_log s).
Definition set_writer p s :=
  mkSocket (so_hub s) (so_reader s) p (so_open s) (so_peer s) (so_inbox s) (so_out s) (so_log s).
Definition set_so_hub h s :=
  mkSocket h (so_reader s) (so_writer s) (so_open s) (so_peer s) (so_inbox s) (so_out s) (so_log s).
Definition set_open b s :=
  mkSocket (so_hub s) (so_reader s) (so_writer s) b (so_peer s) (so_inbox s) (so_out s) (so_log s).
Definition set_peer b l s :=
  mkSocket (so_hub s) (so_reader s) (so_writer s) (so_open s) b l (so_out s) (so_log s).
Definition put_frame d s :=
  mkSocket (so_hub s) (so_reader s) (so_writer s) (so_open s) (so_peer s) (so_inbox s) (so_out s ++ [d]) (so_log s).

(** The contents of a client's channel. *)
Definition buffer (c : nat) (h : Hub) : list json := default [] (send <$> objects h !! c).

Section Connection.
Context (time_text : Time → string) (c : nat) (t : string).

(** What the rest of the program does at the hub: it has no other way to the
    client's channel than a broadcast. *)
Inductive elsewhere : Hub → Hub → Prop :=
  | else_register t' h : elsewhere h (Register t' h).2
  | else_deregister c' o h :
      c' ≠ c → objects h !! c' = Some o → elsewhere h (deregister c' (tenant o) h).2
  | else_broadcast visit now t' ty payload h :
      (∀ s, visit s ≡ₚ elements s) → elsewhere h (Broadcast time_text visit now t' ty payload h).2
  | else_receive c' d h h' :
      c' ≠ c → receive c' h = Some (d, h') → elsewhere h h'.

(** The handler.  The error of the greeting is ignored; a read takes the next
    frame, waits for one, or fails when there is none and the peer is gone,
    and then the loop is left; a turn can panic, and the deferred calls run. *)
Inductive read_step : socket → socket → Prop :=
  | read_greet s : so_reader s = Greeting → read_step s (set_reader Spawning (put_frame greeting s))
  | read_greet_failed s : so_reader s = Greeting → read_step s (set_reader Spawning s)
  | read_spawn s : so_reader s = Spawning → read_step s (set_reader Reading (set_writer Ranging s))
  | read_message data rest s :
      so_reader s = Reading → so_inbox s = data :: rest →
      read_step s (set_reader (Turn data) (set_peer (so_peer s) rest s))
  | read_failed s :
      so_reader s = Reading → so_inbox s = [] → so_peer s = false → read_step s (set_reader Deregistering s)
  | read_turn_over data s : so_reader s = Turn data → read_step s (set_reader Reading s)
  | read_turn_panics data s : so_reader s = Turn data → read_step s (set_reader Deregistering s)
  | read_deregister s :
      so_reader s = Deregistering → read_step s (set_reader Closing (set_so_hub (deregister c t (so_hub s)).2 s))
  | read_close s : so_reader s = Closing → read_step s (set_reader Returned (set_open false s)).

(** The goroutine: a write to a connection that is closed fails. *)
Inductive write_step : socket → socket → Prop :=
  | write_take s d h :
      so_writer s = Ranging → receive c (so_hub s) = Some (Some d, h) →
      write_step s (set_writer (Writing d) (set_so_hub h s))
  | write_over s h :
      so_writer s = Ranging → receive c (so_hub s) = Some (None, h) →
      write_step s (set_writer Ended (set_so_hub h s))
  | write_frame s d :
      so_writer s = Writing d → so_open s = true → write_step s (set_writer Ranging (put_frame d s))
  | write_failed s d : so_writer s = Writing d → write_step s (set_writer Ended s).

Definition conn_step s s' : Prop := read_step s s' ∨ write_step s s'.

(** The rest of the program, and the peer: a frame of it arrives, or it is
    gone (it closed the connection, the network did, or what it sent is no
    frame), with some of what had arrived. *)
Inductive else_step : socket → socket → Prop :=
  | else_hub s h :
      elsewhere (so_hub s) h →
      else_step s (mkSocket h (so_reader s) (so_writer s) (so_open s) (so_peer s) (so_inbox s) (so_out s)
                     (so_log s ++ drop (length (buffer c (so_hub s))) (buffer c h)))
  | else_arrives data s : so_peer s = true → else_step s (set_peer true (so_inbox s ++ [data]) s)
  | else_goes k s : so_peer s = true → else_step s (set_peer false (take k (so_inbox s)) s).

Definition socket_step s s' : Prop := conn_step s s' ∨ else_step s s'.

(** A run with [n] steps of the connection's own. *)
Inductive socket_runs : nat → socket → socket → Prop :=
  | runs_none s : socket_runs 0 s s
  | runs_one n s s1 s2 : conn_step s s1 → socket_runs n s1 s2 → socket_runs (S n) s s2
  | runs_else n s s1 s2 : else_step s s1 → socket_runs n s1 s2 → socket_runs n s s2.
End Connection.

(** The connection of a client of [t] at hub [h]. *)
Definition connected (t : string) (h : Hub) : socket :=
  mkSocket (Register t h).2 Greeting Unborn true true [] [] [].

(** ** The client's channel at the hub *)
Lemma deregister_other c c' t h :
  c' ≠ c → objects (deregister c' t h).2 !! c = objects h !! c.
Proof.
  intros Hne. unfold deregister, close_send. case_bool_decide; [|done]. simpl.
  destruct (objects h !! c') as [o|]; [|done]. destruct (closed o); [done|]. simpl. by rewrite lookup_insert_ne.
Qed.

Lemma receive_other c c' d h h' : c' ≠ c → receive c' h = Some (d, h') → objects h' !! c = objects h !! c.
Proof.
  intros Hne. unfold receive. destruct (objects h !! c') as [o|]; [|done]. cbn [mbind option_bind].
  destruct (send o); [by case_match; intros [= <- <-]|]. intros [= <- <-]. simpl. by rewrite lookup_insert_ne.
Qed.

(** Taking from an own channel. *)
Lemma receive_own c d h h' :
  receive c h = Some (d, h') → ∃ o, objects h !! c = Some o ∧
    match d with
    | Some x => ∃ rest, send o = x :: rest ∧ objects h' !! c = Some (mkClient (tenant o) rest (closed o))
    | None => send o = [] ∧ closed o = true ∧ h' = h
    end.
Proof.
  unfold receive. destruct (objects h !! c) as [o|]; [|done]. cbn [mbind option_bind]. intros H. exists o. split; [done|].
  destruct (send o) as [|x rest] eqn:Hs.
  - destruct (closed o) eqn:Hc; [|done]. by injection H as <- <-.
  - injection H as <- <-. exists rest. split; [done|]. simpl. by rewrite lookup_insert_eq.
Qed.

(** A channel can be taken from unless it is open and empty. *)
Lemma receive_enabled c o h :
  objects h !! c = Some o → send o ≠ [] ∨ closed o = true → ∃ d h', receive c h = Some (d, h').
Proof.
  intros Ho H. unfold receive. rewrite Ho. cbn [mbind option_bind].
  destruct (send o) as [|x rest]; [|by eauto]. destruct H as [H|H]; [done|]. rewrite H. by eauto.
Qed.

Section Facts.
Context (time_text : Time → string) (c : nat) (t : string).
Implicit Types (s : socket) (h : Hub).
Abbreviation else_h := (elsewhere time_text c).

(** The rest of the program only appends to it, while it is open. *)
Lemma elsewhere_client h h' o :
  else_h h h' → hub_ok h → objects h !! c = Some o →
  hub_ok h' ∧ ∃ new, objects h' !! c = Some (mkClient (tenant o) (send o ++ new) (closed o)) ∧
    (closed o = true → new = []).
Proof.
  assert (Hsame : ∀ h' : Hub, objects h' !! c = Some o →
    ∃ new, objects h' !! c = Some (mkClient (tenant o) (send o ++ new) (closed o)) ∧ (closed o = true → new = [])).
  { intros h1 H1. exists []. rewrite app_nil_r. split; [|done]. rewrite H1. by destruct o. }
  intros He Hok Ho. destruct He as [t' h|c' o' h Hne Hc'|visit now t' ty p h Hv|c' d h h' Hne Hr].
  - split; [by apply Register_ok|]. apply Hsame. simpl. rewrite lookup_insert_ne; [done|].
    intros E. assert (Hf : objects h !! fresh (dom (objects h)) = None) by apply not_elem_of_dom, is_fresh.
    rewrite E in Hf. congruence.
  - split; [by destruct (deregister_run c' o' h Hok Hc') as (? & -> & ? & _)|].
    apply Hsame. by rewrite deregister_other.
  - destruct (Broadcast_run time_text visit now t' ty p h Hv Hok) as (h' & -> & Hok' & _ & _ & Hobj).
    split; [done|]. simpl. rewrite (Hobj c o Ho).
    destruct (encode_message _ _) as [data|e|w|];
      try (exists []; rewrite app_nil_r; split; [by destruct o|done]).
    destruct (decide _) as [[Hin _]|_]; [|exists []; rewrite app_nil_r; split; [by destruct o|done]].
    assert (Hopen : closed o = false) by (apply (hb_open _ Hok) in Hin as (o1 & ? & ?); congruence).
    unfold offer. case_if; [exists [data]|exists []]; rewrite ?app_nil_r; (split; [by destruct o|]); congruence.
  - split; [by eapply receive_ok|]. apply Hsame. by rewrite (receive_other c c' d h h').
Qed.

(** ** The invariant of a connection *)
Definition starting (p : read_pump) : bool := match p with Greeting | Spawning => true | _ => false end.
Definition deregistered (p : read_pump) : bool := match p with Closing | Returned => true | _ => false end.
Definition returned (p : read_pump) : bool := match p with Returned => true | _ => false end.
Definition unborn (p : write_pump) : bool := match p with Unborn => true | _ => false end.

(** [w] was written of [log] when [buf] waits in the channel. *)
Definition forwarded (w log buf : list json) (wr : write_pump) (rd : read_pump) : Prop :=
  match wr with
  | Unborn => w = [] ∧ log = buf
  | Ranging => log = w ++ buf
  | Writing d => log = w ++ d :: buf
  | Ended => (log = w ∧ buf = [] ∧ deregistered rd = true) ∨ ∃ d, log = w ++ d :: buf
  end.

Record socket_ok s : Prop := {
  sk_hub : hub_ok (so_hub s);
  sk_client : ∃ o, objects (so_hub s) !! c = Some o ∧ tenant o = t ∧ closed o = deregistered (so_reader s);
  sk_born : unborn (so_writer s) = starting (so_reader s);
  sk_open : so_open s = negb (returned (so_reader s));
  sk_frames : ∃ g w, so_out s = g ++ w ∧ (g = [] ∨ g = [greeting] ∧ so_reader s ≠ Greeting) ∧
    forwarded w (so_log s) (buffer c (so_hub s)) (so_writer s) (so_reader s)
}.

Lemma buffer_eq h o : objects h !! c = Some o → buffer c h = send o.
Proof. intros H. unfold buffer. by rewrite H. Qed.

Lemma else_ok s s' : else_step time_text c s s' → socket_ok s → socket_ok s'.
Proof.
  intros [s0 h He|data s0 _|k s0 _]; [|by intros []..].
  intros [Hh (o & Ho & Ht & Hc) Hb Hop (g & w & Hout & Hg & Hw)].
  destruct (elsewhere_client _ _ _ He Hh Ho) as (Hh' & new & Ho' & Hnew).
  constructor; simpl; [done|by eexists|done|done|].
  exists g, w. split_and!; [done..|]. rewrite (buffer_eq _ _ Ho) in Hw |- *. rewrite (buffer_eq _ _ Ho').
  simpl. rewrite drop_app_length. unfold forwarded in *. destruct (so_writer s0) as [| |d|].
  - by destruct Hw as [-> ->].
  - by rewrite Hw, app_assoc.
  - by rewrite Hw, <- app_assoc.
  - destruct Hw as [(Hl & Hs & Hd)|[d Hl]].
    + left. rewrite Hnew, Hs, app_nil_r by congruence. by split_and!.
    + right. exists d. by rewrite Hl, <- app_assoc.
Qed.

Lemma forwarded_move w log buf wr rd rd' :
  deregistered rd' = true ∨ deregistered rd = deregistered rd' →
  forwarded w log buf wr rd → forwarded w log buf wr rd'.
Proof.
  intros H. unfold forwarded. destruct wr; try done. intros [(? & ? & Hd)|?]; [left|by right].
  destruct H; [done|by split_and!; [..|congruence]].
Qed.

(** Frames that arrive or are read are nothing to the rest. *)
Lemma peer_moves b l s : socket_ok s → socket_ok (set_peer b l s).
Proof. by intros []. Qed.

(** The reader moves, and nothing else. *)
Lemma reader_moves rd s :
  socket_ok s → starting rd = starting (so_reader s) → deregistered rd = deregistered (so_reader s) →
  returned rd = returned (so_reader s) → rd ≠ Greeting → socket_ok (set_reader rd s).
Proof.
  intros [Hh (o & Ho & Ht & Hc) Hb Hop (g & w & Hout & Hg & Hw)] H1 H2 H3 H4.
  constructor; simpl; [done|exists o; by rewrite H2|congruence|congruence|].
  exists g, w. split_and!; [done| |].
  - destruct Hg as [?|[? _]]; [by left|by right].
  - eapply forwarded_move; [|exact Hw]. by right.
Qed.

Lemma deregister_own o h :
  hub_ok h → objects h !! c = Some o → tenant o = t → closed o = false →
  ∃ h', deregister c t h = (Ok tt, h') ∧ hub_ok h' ∧ objects h' !! c = Some (mkClient t (send o) true).
Proof.
  intros Hh Ho Ht Hcl. destruct (deregister_run c o h Hh Ho) as (h' & Hrun & Hok & _ & _).
  rewrite Ht in Hrun. exists h'. split_and!; [done|done|].
  assert (Hin : c ∈ clients h) by (apply (hb_open _ Hh); by exists o).
  unfold deregister in Hrun. rewrite bool_decide_eq_true_2 in Hrun by done.
  unfold close_send in Hrun. simpl in Hrun. rewrite Ho, Hcl in Hrun. injection Hrun as <-. simpl.
  by rewrite lookup_insert_eq, Ht.
Qed.

Lemma read_ok s s' : read_step c t s s' → socket_ok s → socket_ok s'.
Proof.
  intros Hr Hs. pose proof Hs as [Hh (o & Ho & Ht & Hc) Hb Hop (g & w & Hout & Hg & Hw)].
  destruct Hr as [s0 E|s0 E|s0 E|data rest s0 E Ei|s0 E Ei Ep|data s0 E|data s0 E|s0 E|s0 E];
    try (by apply reader_moves; [try apply peer_moves|simpl; rewrite ?E..]); rewrite E in *; simpl in *.
  - destruct (so_writer s0) eqn:Ew; try done. destruct Hw as [-> Hl]. destruct Hg as [->|[_ []]]; [|done].
    constructor; simpl; [done|by exists o|by rewrite Ew|done|].
    exists [greeting], []. rewrite Hout, Ew. split_and!; [done|by right|by split].
  - destruct (so_writer s0) eqn:Ew; try done. destruct Hw as [-> Hl].
    constructor; simpl; [done|by exists o|done|done|]. exists g, []. split_and!; [done| |done].
    destruct Hg as [?|[? _]]; [by left|by right].
  - destruct (deregister_own o _ Hh Ho Ht Hc) as (h' & Hrun & Hok & Ho'). rewrite Hrun.
    constructor; simpl; [done|by eexists|done|done|]. exists g, w. split_and!; [done| |].
    + destruct Hg as [?|[? _]]; [by left|by right].
    + rewrite (buffer_eq _ _ Ho'). rewrite (buffer_eq _ _ Ho) in Hw.
      eapply forwarded_move; [|exact Hw]. by left.
  - constructor; simpl; [done|by exists o|done|done|]. exists g, w. split_and!; [done| |].
    + destruct Hg as [?|[? _]]; [by left|by right].
    + eapply forwarded_move; [|exact Hw]. by left.
Qed.

Lemma write_ok s s' : write_step c s s' → socket_ok s → socket_ok s'.
Proof.
  intros Hs [Hh (o & Ho & Ht & Hc) Hb Hop (g & w & Hout & Hg & Hw)].
  destruct Hs as [s0 d h E Hr|s0 h E Hr|s0 d E Eop|s0 d E]; rewrite E in *; simpl in *.
  - pose proof (receive_ok _ _ _ _ Hr Hh) as Hh'.
    destruct (receive_own _ _ _ _ Hr) as (o' & Ho' & rest & Hs & Hn). rewrite Ho in Ho'. injection Ho' as <-.
    constructor; simpl; [done|by eexists|done|done|]. exists g, w. split_and!; [done|done|].
    rewrite (buffer_eq _ _ Hn). simpl. by rewrite Hw, (buffer_eq _ _ Ho), Hs.
  - destruct (receive_own _ _ _ _ Hr) as (o' & Ho' & Hs & Hcl & ->). rewrite Ho in Ho'. injection Ho' as <-.
    constructor; simpl; [done|by exists o|done|done|]. exists g, w. split_and!; [done|done|].
    left. rewrite (buffer_eq _ _ Ho), Hs in Hw |- *. rewrite app_nil_r in Hw. split_and!; congruence.
  - constructor; simpl; [done|by exists o|done|done|]. exists g, (w ++ [d]). split_and!; [|done|].
    + by rewrite Hout, app_assoc.
    + by rewrite Hw, <- app_assoc.
  - constructor; simpl; [done|by exists o|done|done|]. exists g, w. split_and!; [done|done|].
    right. by exists d.
Qed.

Lemma socket_step_ok s s' : socket_step time_text c t s s' → socket_ok s → socket_ok s'.
Proof. intros [[H|H]|H]; [by apply read_ok|by apply write_ok|by apply else_ok]. Qed.

(** ** When the peer is gone *)

(** The steps that the reader has left, for frames that are not read yet; and
    those of the writer, for messages that wait. *)
Definition reader_cost s : nat :=
  match so_reader s with
  | Greeting => 2 * length (so_inbox s) + 5
  | Spawning | Turn _ => 2 * length (so_inbox s) + 4
  | Reading => 2 * length (so_inbox s) + 3
  | Deregistering => 2
  | Closing => 1
  | Returned => 0
  end.

Definition writer_cost s : nat :=
  match so_writer s with
  | Unborn | Ranging => 2 * length (buffer c (so_hub s)) + 1
  | Writing _ => 2 * length (buffer c (so_hub s)) + 2
  | Ended => 0
  end.

Definition own_cost s : nat := reader_cost s + writer_cost s.

Lemma own_cost_bound s : socket_ok s →
  own_cost s ≤ 2 * length (so_inbox s) + 2 * send_capacity + 7 ∧
  (deregistered (so_reader s) = true → own_cost s ≤ 2 * send_capacity + 3).
Proof.
  intros [Hh (o & Ho & _) _ _ _]. pose proof (hb_bound _ Hh _ _ Ho) as Hb.
  unfold own_cost, reader_cost, writer_cost. rewrite (buffer_eq _ _ Ho).
  split; [|intros Hd]; destruct (so_reader s), (so_writer s); try discriminate Hd; lia.
Qed.

(** The peer is gone, or does not matter any more. *)
Definition alone s : Prop := so_peer s = false ∨ deregistered (so_reader s) = true.

Lemma own_cost_decreases s s' :
  socket_ok s → alone s → conn_step c t s s' →
  alone s' ∧ so_log s' = so_log s ∧ own_cost s' < own_cost s.
Proof.
  intros [Hh (o & Ho & Ht & Hc) Hb _ _] Hd [Hr|Hw]; unfold alone, own_cost, reader_cost, writer_cost in *.
  - destruct Hr as [s0 E|s0 E|s0 E|data rest s0 E Ei|s0 E Ei Ep|data s0 E|data s0 E|s0 E|s0 E];
      rewrite E in *; simpl in *;
      (split; [destruct Hd; auto|split; [done|]]); try rewrite Ei; simpl; try lia.
    + destruct (so_writer s0); simpl in *; try done; lia.
    + destruct (deregister_own o _ Hh Ho Ht Hc) as (h' & -> & _ & Ho').
      simpl. rewrite (buffer_eq _ _ Ho), (buffer_eq _ _ Ho'). simpl. destruct (so_writer s0); lia.
  - destruct Hw as [s0 d h E Hr|s0 h E Hr|s0 d E Eop|s0 d E]; simpl; (split; [done|split; [done|]]); rewrite E.
    + destruct (receive_own _ _ _ _ Hr) as (o' & Ho' & rest & Hs & Hn).
      rewrite (buffer_eq _ _ Ho'), (buffer_eq _ _ Hn), Hs. simpl. destruct (so_reader s0); simpl; lia.
    + destruct (so_reader s0); lia.
    + destruct (so_reader s0); lia.
    + destruct (so_reader s0); lia.
Qed.

(** A message that the hub puts in costs two steps; after the deregistration
    there is none. *)
Lemma else_cost s s' :
  socket_ok s → alone s → else_step time_text c s s' →
  alone s' ∧ own_cost s' + 2 * length (so_log s) ≤ own_cost s + 2 * length (so_log s') ∧
  (deregistered (so_reader s) = true → deregistered (so_reader s') = true ∧ so_log s' = so_log s).
Proof.
  intros Hok Hd Hs. revert Hok Hd. destruct Hs as [s0 h He|data s0 Hp|k s0 Hp]; intros [Hh (o & Ho & _ & Hc) _ _ _] Hd.
  - destruct (elsewhere_client _ _ _ He Hh Ho) as (_ & new & Hn & Hnew).
    unfold alone, own_cost, reader_cost, writer_cost. simpl.
    rewrite (buffer_eq _ _ Ho), (buffer_eq _ _ Hn). simpl. rewrite drop_app_length, !length_app.
    split; [exact Hd|]. split; [destruct (so_reader s0), (so_writer s0); simpl; lia|].
    intros Hdr. by rewrite Hnew, app_nil_r by congruence.
  - destruct Hd as [Hd|Hd]; [congruence|]. unfold alone, own_cost, reader_cost, writer_cost. simpl.
    split; [by right|]. split; [|done]. destruct (so_reader s0); try done; lia.
  - destruct Hd as [Hd|Hd]; [congruence|]. unfold alone, own_cost, reader_cost, writer_cost. simpl.
    split; [by right|]. split; [|done]. destruct (so_reader s0); try done; lia.
Qed.

Lemma runs_bounded n s s' :
  socket_runs time_text c t n s s' → socket_ok s → alone s →
  n + 2 * length (so_log s) ≤ own_cost s + 2 * length (so_log s').
Proof.
  induction 1 as [s|n s s1 s2 Hs _ IH|n s s1 s2 Hs _ IH]; intros Hok Hd; [lia| |].
  - destruct (own_cost_decreases _ _ Hok Hd Hs) as (Hd1 & El & Hlt). rewrite El in IH.
    assert (Hok1 : socket_ok s1) by (eapply socket_step_ok; [by left|done]).
    specialize (IH Hok1 Hd1). lia.
  - destruct (else_cost _ _ Hok Hd Hs) as (Hd1 & Hle & _).
    assert (Hok1 : socket_ok s1) by (eapply socket_step_ok; [by right|done]).
    specialize (IH Hok1 Hd1). lia.
Qed.

Lemma dereg_step s s' :
  socket_ok s → deregistered (so_reader s) = true → socket_step time_text c t s s' →
  deregistered (so_reader s') = true ∧ so_log s' = so_log s.
Proof.
  intros Hok Hd [[Hr|Hw]|He].
  - destruct Hr as [s0 E|s0 E|s0 E|data rest s0 E Ei|s0 E Ei Ep|data s0 E|data s0 E|s0 E|s0 E];
      rewrite E in Hd; done.
  - by destruct Hw.
  - destruct (else_cost _ _ Hok (or_intror Hd) He) as (_ & _ & H). by apply H.
Qed.

(** After the deregistration nothing more is put in. *)
Lemma dereg_log n s s' :
  socket_runs time_text c t n s s' → socket_ok s → deregistered (so_reader s) = true → so_log s' = so_log s.
Proof.
  induction 1 as [s|n s s1 s2 Hs _ IH|n s s1 s2 Hs _ IH]; intros Hok Hd; [done| |].
  - assert (Hst : socket_step time_text c t s s1) by (by left).
    destruct (dereg_step _ _ Hok Hd Hst) as [Hd1 <-]. apply IH; [by eapply socket_step_ok|done].
  - assert (Hst : socket_step time_text c t s s1) by (by right).
    destruct (dereg_step _ _ Hok Hd Hst) as [Hd1 <-]. apply IH; [by eapply socket_step_ok|done].
Qed.

(** Once the peer is gone or the loop left, the connection can go on until
    both pumps have ended. *)
Lemma own_enabled s :
  socket_ok s → so_peer s = false ∨ so_reader s = Deregistering ∨ deregistered (so_reader s) = true →
  (so_reader s = Returned ∧ so_writer s = Ended) ∨ ∃ s', conn_step c t s s'.
Proof.
  intros [Hh (o & Ho & _ & Hc) Hb _ _] Hd.
  destruct (so_reader s) as [| | |data| | |] eqn:E.
  - right. eexists. left. by apply read_greet.
  - right. eexists. left. by apply read_spawn.
  - right. destruct Hd as [Hp|[?|?]]; [|done..]. destruct (so_inbox s) as [|data rest] eqn:Ei.
    + eexists. left. by apply read_failed.
    + eexists. left. by eapply read_message.
  - right. eexists. left. by eapply read_turn_over.
  - right. eexists. left. by apply read_deregister.
  - right. eexists. left. by apply read_close.
  - simpl in *. destruct (so_writer s) as [| |d|] eqn:Ew; try done; [right|right|by left].
    + destruct (receive_enabled c o _ Ho) as ([d|] & h' & Hr); [by right|..]; eexists; right;
        [by eapply write_take|by eapply write_over].
    + eexists. right. by eapply write_failed.
Qed.

Lemma connected_ok h : c = fresh (dom (objects h)) → hub_ok h → socket_ok (connected t h).
Proof.
  intros Hc Hok. assert (Ho : objects (Register t h).2 !! c = Some (mkClient t [] false))
    by (simpl; rewrite Hc; apply lookup_insert_eq).
  constructor; simpl; [by apply (Register_ok t)|by eexists|done|done|].
  exists [], []. split_and!; [done|by left|done|].
  change ([] = buffer c (Register t h).2). by rewrite (buffer_eq _ _ Ho).
Qed.

Lemma reached_ok h s : c = fresh (dom (objects h)) → hub_ok h →
  rtc (socket_step time_text c t) (connected t h) s → socket_ok s.
Proof.
  intros Hc Hh Hr. assert (H : socket_ok (connected t h)) by by apply connected_ok.
  induction Hr as [|s1 s2 s3 Hs _ IH]; [done|]. apply IH. by eapply socket_step_ok.
Qed.
End Facts.

(** C25: The life of a WebSocket connection, in every interleaving of its two
    pumps and the rest of the program. The frames that were written are the
    greeting, unless it failed, and then the messages that the hub put into
    the client's channel, in their order, each once, from the first on; while
    the write pump has not failed, what is not written yet is what waits. The
    channel is closed exactly when the handler has deregistered, which it does
    without a panic. Once the peer is gone, at whatever point, the connection
    can always take another step of its own until the handler has returned and
    the write pump has ended, and it takes at most [2 * send_capacity + 7] of
    them and two for each frame that had arrived and for each message that the
    hub still puts in: the end is reached. So it is after the read pump has
    left its loop by a panic, and after the deregistration nothing is put in
    and at most [2 * send_capacity + 3] steps are left. *)
Theorem connection_life time_text t h s :
  rtc (hub_step time_text) NewHub h →
  let c := fresh (dom (objects h)) in
  rtc (socket_step time_text c t) (connected t h) s →
  hub_ok (so_hub s) ∧
  (∃ g w rest, so_out s = g ++ w ∧ (g = [] ∨ g = [greeting]) ∧ so_log s = w ++ rest ∧
     (so_writer s = Ranging → rest = buffer c (so_hub s))) ∧
  (∃ o, objects (so_hub s) !! c = Some o ∧ tenant o = t ∧ closed o = deregistered (so_reader s)) ∧
  (so_reader s = Deregistering → (deregister c t (so_hub s)).1 = Ok tt) ∧
  (so_peer s = false ∨ so_reader s = Deregistering ∨ deregistered (so_reader s) = true →
     (so_reader s = Returned ∧ so_writer s = Ended) ∨ ∃ s', conn_step c t s s') ∧
  (so_peer s = false →
     ∀ n s', socket_runs time_text c t n s s' →
       n + 2 * length (so_log s) ≤ 2 * length (so_inbox s) + 2 * send_capacity + 7 + 2 * length (so_log s')) ∧
  (deregistered (so_reader s) = true →
     ∀ n s', socket_runs time_text c t n s s' → so_log s' = so_log s ∧ n ≤ 2 * send_capacity + 3).
Proof.
  intros Hh c Hr. pose proof (reached_ok _ c t h s eq_refl (reachable_ok _ _ Hh) Hr) as Hok.
  destruct (own_cost_bound c t s Hok) as [Hb1 Hb2].
  pose proof Hok as [Hhub (o & Ho & Ht & Hc) _ _ (g & w & Hout & Hg & Hw)].
  split_and!; [done| |by exists o| |by apply own_enabled| |].
  - assert (Hg' : g = [] ∨ g = [greeting]) by (destruct Hg as [?|[? _]]; auto).
    unfold forwarded in Hw. destruct (so_writer s) as [| |d|].
    + destruct Hw as [-> Hl]. exists g, [], (so_log s). by split_and!.
    + exists g, w, (buffer c (so_hub s)). by split_and!.
    + exists g, w, (d :: buffer c (so_hub s)). by split_and!.
    + destruct Hw as [(Hl & _ & _)|[d Hl]].
      * exists g, w, []. rewrite app_nil_r. by split_and!.
      * exists g, w, (d :: buffer c (so_hub s)). by split_and!.
  - intros E. rewrite E in Hc. by destruct (deregister_own c t o _ Hhub Ho Ht Hc) as (h' & -> & _).
  - intros Hp n s' Hrun. pose proof (runs_bounded _ c t n s s' Hrun Hok (or_introl Hp)). lia.
  - intros Hd n s' Hrun. pose proof (dereg_log _ c t n s s' Hrun Hok Hd) as El. split; [done|].
    pose proof (runs_bounded _ c t n s s' Hrun Hok (or_intror Hd)) as Hn. rewrite El in Hn.
    specialize (Hb2 Hd). lia.
Qed.

(** ** A connection that is told something and goes *)
Definition demo_told : Hub → Hub := λ h, (Broadcast pretty elements 7%Z "a" "agent_message" (VBool true) h).2.
Definition demo_message : json :=
  JObj [("type", JStr "agent_message"); ("tenant", JStr "a"); ("payload", JBool true); ("time", JStr "7")].

Definition demo_listening : socket :=
  set_reader Reading (set_writer Ranging (set_reader Spawning (put_frame greeting (connected "a" NewHub)))).
Definition demo_waiting : socket :=
  let h := demo_told (so_hub demo_listening) in
  mkSocket h Reading Ranging true true [] [greeting] (drop 0 (buffer 0 h)).
Definition demo_taken : Hub := default NewHub (snd <$> receive 0 (so_hub demo_waiting)).
Definition demo_alone : socket :=
  set_peer false [] (set_writer Ranging (put_frame demo_message
    (set_writer (Writing demo_message) (set_so_hub demo_taken demo_waiting)))).
Definition demo_gone : socket := set_reader Deregistering demo_alone.
Definition demo_over : socket := set_reader Closing (set_so_hub (deregister 0 "a" (so_hub demo_gone)).2 demo_gone).

Lemma demo_alone_reached : rtc (socket_step pretty 0 "a") (connected "a" NewHub) demo_alone.
Proof.
  eapply rtc_l; [left; left; by apply read_greet|].
  eapply rtc_l; [left; left; by apply read_spawn|]. fold demo_listening.
  eapply rtc_l; [right; apply (else_hub _ _ _ (demo_told (so_hub demo_listening))); by apply else_broadcast|].
  change (rtc (socket_step pretty 0 "a") demo_waiting demo_alone).
  eapply rtc_l; [left; right; apply (write_take 0 _ demo_message demo_taken); [done|vm_compute; reflexivity]|].
  eapply rtc_l; [left; right; by apply (write_frame 0 _ demo_message)|].
  eapply rtc_l; [right; by apply (else_goes _ _ 0)|]. apply rtc_refl.
Qed.

Lemma demo_over_reached : rtc (socket_step pretty 0 "a") (connected "a" NewHub) demo_over.
Proof.
  etrans; [exact demo_alone_reached|].
  eapply rtc_l; [left; left; by apply read_failed|]. fold demo_gone.
  eapply rtc_l; [left; left; by apply read_deregister|]. apply rtc_refl.
Qed.

Lemma connection_life_witness :
  so_out demo_over = [greeting; demo_message] ∧ so_reader demo_over = Closing ∧
  (∃ s', conn_step 0 "a" demo_alone s') ∧
  (∀ n s', socket_runs pretty 0 "a" n demo_alone s' → n + 2 ≤ 2 * send_capacity + 7 + 2 * length (so_log s')) ∧
  ∀ n s', socket_runs pretty 0 "a" n demo_over s' → n ≤ 2 * send_capacity + 3.
Proof.
  split; [reflexivity|]. split; [reflexivity|].
  destruct (connection_life pretty "a" NewHub demo_alone (rtc_refl _ _) demo_alone_reached)
    as (_ & _ & _ & _ & Hgo & Hgone & _).
  destruct (connection_life pretty "a" NewHub demo_over (rtc_refl _ _) demo_over_reached)
    as (_ & _ & _ & _ & _ & _ & Hend).
  split; [|split].
  - destruct Hgo as [[E _]|H]; [left; reflexivity|discriminate E|exact H].
  - intros n s' Hr. exact (Hgone eq_refl n s' Hr).
  - intros n s' Hr. exact (proj2 (Hend eq_refl n s' Hr)).
Defined.

(** ** A turn of the read pump at the hub *)
Section Turns.
Context {St Mc Se : Type} {st_ops : Store St} {mc_ops : Client Mc} {quoting : FmtQuote}.
Context (now_at : nat → Time) (time_text : Time → string).
Context (visit : gset nat → list nat) (Hvisit : ∀ s, visit s ≡ₚ elements s) (c : nat).
Abbreviation A := (Api St Mc Se).

(** All that [m] does at the hub are broadcasts. *)
Definition broadcasting {B} (m : M A B) : Prop := ∀ a,
  rtc (elsewhere time_text c) (api_hub a) (api_hub (m a).2).

Lemma broadcasting_bind {B C} (m : M A B) (k : B → M A C) :
  broadcasting m → (∀ b, broadcasting (k b)) → broadcasting (m ≫= k).
Proof.
  intros Hm Hk a. specialize (Hm a). unfold mbind, M_bind.
  destruct (m a) as [[b|e|w|] a1]; simpl in *; [|done..]. etrans; [exact Hm|apply Hk].
Qed.

Lemma broadcasting_quiet {B} (m : M A B) : (∀ a, api_hub (m a).2 = api_hub a) → broadcasting m.
Proof. intros H a. by rewrite H. Qed.

Lemma broadcasting_try {B} (m : M A B) : broadcasting m → broadcasting (mtry m).
Proof. intros H a. specialize (H a). unfold mtry. by destruct (m a) as [[] a1]. Qed.

Lemma broadcasting_call {B} (op : StoreOp B) : broadcasting (call op).
Proof. apply broadcasting_quiet. intros a. unfold call, mtry, on_world. by destruct (store_exec op _) as [[] s]. Qed.

Lemma broadcasting_mcp {B} (m : M Mc B) : broadcasting (call_mcp m).
Proof. apply broadcasting_quiet. intros a. unfold call_mcp, mtry, on_world. by destruct (m _) as [[] s]. Qed.

Lemma broadcasting_chat t role content agentID :
  broadcasting (broadcastChat now_at time_text visit t role content agentID).
Proof using Hvisit.
  intros a. unfold broadcastChat, broadcast, mbind, M_bind, api_now, on_world. simpl.
  match goal with |- context [Broadcast ?x ?v ?n ?t ?ty ?p ?h] =>
    pose proof (else_broadcast x c v n t ty p h Hvisit) as H; destruct (Broadcast x v n t ty p h) as [o h'] end.
  by apply rtc_once.
Qed.

Ltac turns := repeat first [apply broadcasting_chat | apply broadcasting_bind; [|intros] | apply broadcasting_call
  | apply broadcasting_mcp | apply broadcasting_try | by apply broadcasting_quiet].

Lemma broadcasting_skills t agent content skills : broadcasting (chat_skills t agent content skills).
Proof.
  induction skills as [|s rest IH]; cbn [chat_skills]; [turns|].
  apply broadcasting_bind; [turns|intros [server|e]; [|turns]].
  apply broadcasting_bind; [apply broadcasting_quiet; intros a; unfold mtry; by destruct (TransportFromServer _)|].
  intros [tr|e]; [|turns]. apply broadcasting_bind; [turns|intros [res|e]; [|turns]].
  apply broadcasting_bind; [exact IH|]. intros. turns.
Qed.

(** A turn is a sequence of steps of the rest of the program. *)
Lemma chat_turn_at_hub t data : broadcasting (chat_turn now_at time_text visit t data).
Proof using Hvisit.
  assert (Hagent : ∀ i content, broadcasting (chatAgent t i content)).
  { intros i content. unfold chatAgent. apply broadcasting_bind; [turns|intros [agent|e]; [|turns]].
    case_if; [turns|]. apply broadcasting_bind; [apply broadcasting_skills|]. intros. turns. }
  unfold chat_turn. apply broadcasting_bind; [apply broadcasting_quiet; intros a; unfold mtry; by destruct (decodeJSON _ _ _)|].
  intros [msg|e]; [|turns]. case_if; [turns|]. cbv zeta.
  assert (Hgo : ∀ i, broadcasting (_ ← broadcastChat now_at time_text visit t "user" (Chat_Content msg) i;
    reply ← mtry (chatAgent t i (Chat_Content msg));
    match reply with
    | inr err => broadcastChat now_at time_text visit t "system" ("error: " +:+ error_text err) i
    | inl reply => broadcastChat now_at time_text visit t "assistant" reply i
    end)).
  { intros i. apply broadcasting_bind; [turns|intros _]. apply broadcasting_bind; [by apply broadcasting_try|].
    intros []; turns. }
  case_if; [apply Hgo|]. apply broadcasting_bind; [turns|intros [agents|e]; [|turns]].
  case_if; [turns|apply Hgo].
Qed.
End Turns.
