(* ===== verification/Tenants.v ===== *)
(** * A store as the handlers see it: tenants

    What the handlers need of an implementation of the Store interface, as a
    class: an invariant that every call keeps, which tenants' data a call for
    one tenant may change, and what its results satisfy.  Every store with
    [StoreLaws] provides it; the PostgreSQL store does in [PgTenants]. *)
From S2P Require Import Prelude GoStr GoValue Json Model Store StoreSpec StoreProps.
From S2P Require Import Graph SideEffects Mcp Engine Auth Hub Codec Api.

(** ** The interface *)
Section Ops.
Context (flow_good : Flow → Prop) (user_good : User → Prop).

(** What a call may write. *)
Definition op_sound {A} (op : StoreOp A) : Prop :=
  match op with
  | OpCreateFlow f | OpUpdateFlow f => flow_good f
  | OpCreateUser u | OpUpdateUser u => user_good u
  | _ => True
  end.

(** What a call returns, besides belonging to its tenant. *)
Definition op_result {A} (op : StoreOp A) : A → Prop :=
  match op in StoreOp A return A → Prop with
  | OpGetFlow _ _ => flow_good
  | OpGetUser _ _ | OpGetUserByUsername _ _ => user_good
  | OpCreateAgent v | OpUpdateAgent v => eq v
  | OpCreateMcpServer v | OpUpdateMcpServer v => eq v
  | OpCreateFlow v | OpUpdateFlow v => eq v
  | OpCreateRun v | OpUpdateRun v => eq v
  | OpCreateTask v | OpUpdateTask v => eq v
  | OpCreateUser v | OpUpdateUser v => eq v
  | _ => λ _, True
  end.
End Ops.

(** A result is of the tenant of the call. *)
Definition of_tenant {A} (op : StoreOp A) : A → Prop :=
  match op in StoreOp A return A → Prop with
  | OpListAgents t => Forall (λ v, Agent_TenantID v = t)
  | OpGetAgent t i => λ v, Agent_TenantID v = t
  | OpListMcpServers t => Forall (λ v, McpServer_TenantID v = t)
  | OpGetMcpServer t i => λ v, McpServer_TenantID v = t
  | OpListFlows t => Forall (λ v, Flow_TenantID v = t)
  | OpGetFlow t i => λ v, Flow_TenantID v = t
  | OpGetRun t i => λ v, Run_TenantID v = t
  | OpListRuns t f => Forall (λ v, Run_TenantID v = t)
  | OpGetTask t i => λ v, Task_TenantID v = t
  | OpListTasks t => Forall (λ v, Task_TenantID v = t)
  | OpListUsers t => Forall (λ v, User_TenantID v = t)
  | OpGetUser t i => λ v, User_TenantID v = t
  | OpGetUserByUsername t n => λ v, User_TenantID v = t
  | _ => λ _, True
  end.

(** The calls that may be made for tenant [T]: those with its name, and those
    on its own record. *)
Definition concerns {A} (op : StoreOp A) (T : string) : Prop :=
  op_tenant op = Some T ∨
  match op with OpGetTenant _ => True | OpCreateTenant v => Tenant_ID v = T | _ => False end.

Definition creates_run {A} (op : StoreOp A) : bool := match op with OpCreateRun _ => true | _ => false end.

(** [st_tenant T]: [T] is written as the store writes it; [st_same]: the
    contents are the same; [st_touched T]: they are but for what is [T]'s;
    [st_run_ok v]: the flow of [v] is of the tenant of [v]. *)
Class TenantStore (S : Type) `{Store S} := {
  st_inv : S → Prop;
  st_tenant : string → Prop;
  st_same : S → S → Prop;
  st_touched : string → S → S → Prop;
  st_run_ok : Run → S → Prop;
  st_flow_ok : Flow → Prop;
  st_user_ok : User → Prop
}.

Class TenantLaws (S : Type) `{TenantStore S} := {
  same_trans (s1 s2 s3 : S) : st_same s1 s2 → st_same s2 s3 → st_same s1 s3;
  same_refl (s : S) : st_same s s;
  same_inv (s s' : S) : st_same s s' → st_inv s → st_inv s';
  same_touched T (s s' : S) : st_same s s' → st_touched T s s';
  touched_trans T (s1 s2 s3 : S) : st_touched T s1 s2 → st_touched T s2 s3 → st_touched T s1 s3;
  flow_valid f : Validate (Flow_FlowJSON f) = None → st_flow_ok f;
  flow_kept f f' : Flow_FlowJSON f' = Flow_FlowJSON f → st_flow_ok f → st_flow_ok f';
  user_known u : known_role (User_Role u) = true → st_user_ok u;
  user_kept u u' : User_Role u' = User_Role u → st_user_ok u → st_user_ok u';
  exec_tenant {A} (op : StoreOp A) T (s : S) :
    concerns op T → st_tenant T → st_inv s →
    op_sound st_flow_ok st_user_ok op →
    match op with OpCreateRun v => st_run_ok v s | _ => True end →
    let '(o, s') := store_exec op s in
    st_inv s' ∧ st_touched T s s' ∧
    (∀ a, o = Ok a → of_tenant op a ∧ op_result st_flow_ok st_user_ok op a);
  flow_runs T i fl v (s : S) :
    st_tenant T → st_inv s → (store_exec (OpGetFlow T i) s).1 = Ok fl →
    Run_FlowID v = Flow_ID fl → Run_TenantID v = Flow_TenantID fl →
    st_run_ok v (store_exec (OpGetFlow T i) s).2;
  agent_same t i (s : S) : st_same s (store_exec (OpGetAgent t i) s).2;
  server_same t i (s : S) : st_same s (store_exec (OpGetMcpServer t i) s).2
}.

(** ** Stores with [StoreLaws] *)
Definition flow_ok (f : Flow) : Prop := Validate (Flow_FlowJSON f) = None.
Definition role_ok (u : User) : Prop := known_role (User_Role u) = true.

Definition all_values {V} (P : V → Prop) (f : flat_map V) : Prop := ∀ k v, f !! k = Some v → P v.

(** Values sit under their keys, flows are valid, roles are known. *)
Record sane (w : View) : Prop := {
  sane_coherent : coherent w;
  sane_flows : all_values flow_ok (vw_flows w);
  sane_users : all_values role_ok (vw_users w)
}.

Lemma all_insert {V} (P : V → Prop) (f : flat_map V) k v :
  all_values P f → P v → all_values P (<[k := v]> f).
Proof. intros H Hv k' x [[_ <-]|[_ Hx]]%lookup_insert_Some; [done|by eapply H]. Qed.

Lemma all_delete {V} (P : V → Prop) (f : flat_map V) k : all_values P f → all_values P (delete k f).
Proof. intros H k' x [_ Hx]%lookup_delete_Some. by eapply H. Qed.

#[local] Hint Resolve all_insert all_delete : core.

Lemma spec_sane {A} (op : StoreOp A) w o w' :
  sane w → spec op w o w' → op_sound flow_ok role_ok op → sane w'.
Proof.
  intros [Hc Hf Hu] H Hs.
  assert (Hc' : coherent w') by (by apply (spec_keeps op w o w' H)).
  constructor; [done| |]; clear Hc Hc';
    destruct op; cbn [spec op_sound] in *;
    unfold reads, does, zoom, sp_get, sp_create, sp_update, sp_delete in H;
    first [by rewrite (proj1 H) | repeat (case_match || case_decide); simplify_eq/=; by auto].
Qed.

Lemma spec_result {A} (op : StoreOp A) w a w' :
  sane w → spec op w (Ok a) w' → op_result flow_ok role_ok op a.
Proof.
  intros [Hc Hf Hu] H. destruct op; cbn [spec op_result] in *; try done;
    unfold reads, does, zoom, sp_get, sp_create, sp_update, sp_delete in H;
    try (repeat (case_match || case_decide); simplify_eq/=; by eauto).
  destruct H as (_ & _ & i & H). by eapply Hu.
Qed.

Lemma owned_of_tenant {A} (op : StoreOp A) a : owned op a → of_tenant op a.
Proof.
  destruct op; simpl; try tauto. intros H. eapply Forall_impl; [exact H|]. by intros r [? _].
Qed.

(** Only tenant [T] is touched. *)
Definition only T (w w' : View) : Prop := ∀ T', T' ≠ T → same_tenant T' w w'.

Lemma only_refl T w : only T w w.
Proof. intros T' _. apply same_tenant_refl. Qed.

Lemma only_trans T w1 w2 w3 : only T w1 w2 → only T w2 w3 → only T w1 w3.
Proof.
  intros H1 H2 T' HT. destruct (H1 T' HT), (H2 T' HT). constructor; intros i; etrans; eauto.
Qed.

Section Lawful.
Context {S : Type} {st_ops : Store S} {st_laws : StoreLaws S}.

#[export] Instance lawful_TenantStore : TenantStore S := {|
  st_inv s := sane (view s);
  st_tenant _ := True;
  st_same s s' := view s' = view s;
  st_touched T s s' := only T (view s) (view s');
  st_run_ok _ _ := True;
  st_flow_ok := flow_ok;
  st_user_ok := role_ok
|}.

#[export] Instance lawful_TenantLaws : TenantLaws S.
Proof.
  constructor; simpl.
  - by intros s1 s2 s3 -> ->.
  - done.
  - by intros s s' ->.
  - intros T s s' ->. apply only_refl.
  - intros T s1 s2 s3. apply only_trans.
  - done.
  - unfold flow_ok. by intros f f' ->.
  - done.
  - unfold role_ok. by intros u u' ->.
  - intros A op T s Ht _ Hs Hop _. pose proof (exec_spec op s) as H.
    destruct (store_exec op s) as [o s']. simpl in H. split_and!.
    + by eapply spec_sane.
    + intros T' HT. apply (spec_keeps op _ _ _ H). destruct Ht as [-> |Ht]; [congruence|by destruct op].
    + intros a ->. split; [|by eapply spec_result].
      by eapply owned_of_tenant, spec_owned; [apply sane_coherent|].
  - done.
  - intros t i s. pose proof (exec_spec (OpGetAgent t i) s) as H.
    destruct (store_exec _ _) as [o s']. unfold spec, does, zoom, sp_get in H. simpl in *.
    destruct (view s). repeat case_match; by simplify_eq/=.
  - intros t i s. pose proof (exec_spec (OpGetMcpServer t i) s) as H.
    destruct (store_exec _ _) as [o s']. unfold spec, does, zoom, sp_get in H. simpl in *.
    destruct (view s). repeat case_match; by simplify_eq/=.
Qed.
End Lawful.
