(* ===== verification/ApiTheory.v ===== *)
(** * Reasoning about the handlers

    Triples that say that a computation serves one tenant only, over any
    store with [TenantLaws]; and, for a store with [StoreLaws], what a call
    does exactly. *)
From S2P Require Import Prelude GoStr GoValue GoSort GoFmt Json Model Store StoreSpec StoreProps.
From S2P Require Import Expr Graph SideEffects Mcp Engine Auth Hub Codec Api Tenants.

Section Serving.
Context {St Mc Se : Type}.
Context {st_ops : Store St} {st_tenants : TenantStore St} {st_laws : TenantLaws St}.
Context {mc_ops : Client Mc} {se_ops : SideEffectStore Se} {quoting : FmtQuote}.
Abbreviation A := (Api St Mc Se).
Implicit Types (a : A) (T : string).

Definition store_of a : St := w_store (api_world a).

(** The channels of other tenants' clients are as they were. *)
Definition private T (h h' : Hub) : Prop :=
  ∀ c o, objects h !! c = Some o → tenant o ≠ T → objects h' !! c = Some o.

Lemma private_trans T h1 h2 h3 : private T h1 h2 → private T h2 h3 → private T h1 h3.
Proof. intros H1 H2 c o Hc Ho. auto. Qed.

Record good a : Prop := {
  good_store : st_inv (store_of a);
  good_hub : hub_ok (api_hub a)
}.

Definition confined T a a' : Prop :=
  st_touched T (store_of a) (store_of a') ∧ private T (api_hub a) (api_hub a').

Lemma confined_same T a a' :
  st_same (store_of a) (store_of a') → api_hub a' = api_hub a → confined T a a'.
Proof. intros Hs Hh. split; [by apply same_touched|]. rewrite Hh. by intros c o. Qed.

Lemma confined_refl T a : confined T a a.
Proof. apply confined_same; [apply same_refl|done]. Qed.

Lemma confined_trans T a1 a2 a3 : confined T a1 a2 → confined T a2 a3 → confined T a1 a3.
Proof. intros [? ?] [? ?]. split; [by eapply touched_trans|by eapply private_trans]. Qed.

(** ** Triples: [m] keeps the state good, touches tenant [T] only, and its
    results satisfy [Q]. *)
Definition serves {B} T (m : M A B) (Q : B → Prop) : Prop := ∀ a,
  good a → good (m a).2 ∧ confined T a (m a).2 ∧ ∀ b, (m a).1 = Ok b → Q b.

Section Rules.
Context {B C : Type} (T : string).

Lemma serves_bind (m : M A B) (k : B → M A C) Q R :
  serves T m Q → (∀ b, Q b → serves T (k b) R) → serves T (m ≫= k) R.
Proof.
  intros Hm Hk a Ha. destruct (Hm a Ha) as (Hs & Ho & HQ). unfold mbind, M_bind.
  destruct (m a) as [[b|e|w|] a1]; simpl in *; [|done..].
  destruct (Hk b (HQ b eq_refl) a1 Hs) as (? & ? & ?).
  split_and!; [done|by eapply confined_trans|done].
Qed.

Lemma serves_ret (b : B) (Q : B → Prop) : Q b → serves T (mret b) Q.
Proof. intros H a Ha. split_and!; [done|apply confined_refl|]. by intros ? [= <-]. Qed.

Lemma serves_throw e (Q : B → Prop) : serves T (mthrow e) Q.
Proof. intros a Ha. split_and!; [done|apply confined_refl|done]. Qed.

(** A computation that leaves the store and the hub as they are. *)
Lemma serves_same (m : M A B) :
  (∀ a, st_same (store_of a) (store_of (m a).2) ∧ api_hub (m a).2 = api_hub a) → serves T m (λ _, True).
Proof.
  intros H a [Hs Hh]. destruct (H a) as [E1 E2]. split_and!; [|by apply confined_same|done].
  split; [by eapply same_inv|by rewrite E2].
Qed.

Lemma serves_quiet (m : M A B) :
  (∀ a, store_of (m a).2 = store_of a ∧ api_hub (m a).2 = api_hub a) → serves T m (λ _, True).
Proof. intros H. apply serves_same. intros a. destruct (H a) as [-> E]. split; [apply same_refl|done]. Qed.

Lemma serves_mono (m : M A B) (Q R : B → Prop) :
  serves T m Q → (∀ b, Q b → R b) → serves T m R.
Proof. intros H HQ a Ha. destruct (H a Ha) as (? & ? & ?). split_and!; [done|done|]. auto. Qed.

Lemma serves_try (m : M A B) Q :
  serves T m Q → serves T (mtry m) (λ r, match r with inl b => Q b | inr _ => True end).
Proof.
  intros H a Ha. destruct (H a Ha) as (Hs & Ho & HQ). unfold mtry.
  destruct (m a) as [[b|e|w|] a1]; simpl in *; (split_and!; [done|done|]); intros ? [= <-]; auto.
Qed.
End Rules.

(** What a call of the store does to the state. *)
Lemma call_cases {B} (op : StoreOp B) T a :
  concerns op T → st_tenant T → op_sound st_flow_ok st_user_ok op →
  match op with OpCreateRun v => st_run_ok v (store_of a) | _ => True end → good a →
  good (call op a).2 ∧ confined T a (call op a).2 ∧
  ∀ b, (call op a).1 = Ok (inl b) → of_tenant op b ∧ op_result st_flow_ok st_user_ok op b.
Proof.
  intros Ht HT Hs Hd [Ha Hh]. unfold call, mtry, on_world, confined, store_of in *.
  pose proof (exec_tenant op T (w_store (api_world a)) Ht HT Ha Hs Hd) as H.
  destruct (store_exec op (w_store (api_world a))) as [o s]. destruct H as (Hi & Htch & Hr).
  destruct o as [b|e|w|]; simpl; (split_and!; [by split|done|by intros c x|]); intros ? [= <-].
  by apply Hr.
Qed.

(** A call for the tenant. *)
Lemma serves_call {B} (op : StoreOp B) T :
  op_tenant op = Some T → st_tenant T → op_sound st_flow_ok st_user_ok op → creates_run op = false →
  serves T (call op) (λ r, match r with
    inl b => of_tenant op b ∧ op_result st_flow_ok st_user_ok op b | inr _ => True end).
Proof.
  intros Ht HT Hs Hd a Ha.
  destruct (call_cases op T a (or_introl Ht) HT Hs ltac:(by destruct op) Ha) as (? & ? & Hr).
  split_and!; [done|done|]. intros [b|e] E; [by apply Hr|done].
Qed.

(** The record of the tenant itself. *)
Lemma serves_tenant {B} (op : StoreOp B) T :
  op_tenant op = None → concerns op T → st_tenant T → serves T (call op) (λ _, True).
Proof.
  intros Hn Ht HT a Ha.
  destruct (call_cases op T a Ht HT ltac:(by destruct op) ltac:(by destruct op) Ha) as (? & ? & _).
  by split_and!.
Qed.

Lemma quiet_now now_at T : serves T (api_now now_at) (λ _, True).
Proof. by apply serves_quiet. Qed.

Lemma quiet_uuid uuid_at T : serves T (new_uuid uuid_at) (λ _, True).
Proof. by apply serves_quiet. Qed.

Lemma quiet_body {B} (dec : decoder B) zero r T : serves T (body dec zero r) (λ _, True).
Proof. apply serves_quiet. intros a. unfold body, mtry. by destruct (decodeJSON _ _ _). Qed.

Lemma quiet_mcp {B} (m : M Mc B) T : serves T (call_mcp m) (λ _, True).
Proof.
  apply serves_quiet. intros a. unfold call_mcp, mtry, on_world, store_of.
  destruct (m _) as [[] s]; done.
Qed.

Lemma quiet_hash `{Bcrypt} pw T : serves T (hash_password pw) (λ _, True).
Proof. apply serves_quiet. intros a. unfold hash_password, mtry. by destruct (GenerateFromPassword _). Qed.

(** After a step whose result does not matter. *)
Lemma serves_quietly {B C} T (m : M A B) (k : B → M A C) R :
  serves T m (λ _, True) → (∀ b, serves T (k b) R) → serves T (m ≫= k) R.
Proof. intros Hm Hk. eapply serves_bind; [exact Hm|]. auto. Qed.

(** A call for the tenant, then the rest. *)
Lemma serves_then {B C} T (op : StoreOp B) (k : B + error → M A C) R :
  op_tenant op = Some T → st_tenant T → op_sound st_flow_ok st_user_ok op → creates_run op = false →
  (∀ b, of_tenant op b → op_result st_flow_ok st_user_ok op b → serves T (k (inl b)) R) →
  (∀ e, serves T (k (inr e)) R) → serves T (call op ≫= k) R.
Proof.
  intros Ht HT Hs Hd Hk He. eapply serves_bind; [by apply serves_call|]. intros [b|e] H; [by apply Hk; apply H|apply He].
Qed.

(** A flow is read and, after steps that leave the store, a run of it is
    created. *)
Definition may_run (fl : Flow) a : Prop := ∀ v,
  Run_FlowID v = Flow_ID fl → Run_TenantID v = Flow_TenantID fl → st_run_ok v (store_of a).

Definition serves_run {B} T fl (m : M A B) (Q : B → Prop) : Prop := ∀ a,
  good a → may_run fl a → good (m a).2 ∧ confined T a (m a).2 ∧ ∀ b, (m a).1 = Ok b → Q b.

Lemma serves_flow {B} T i (k : Flow + error → M A B) R :
  st_tenant T →
  (∀ fl, Flow_TenantID fl = T → serves_run T fl (k (inl fl)) R) →
  (∀ e, serves T (k (inr e)) R) → serves T (call (OpGetFlow T i) ≫= k) R.
Proof.
  intros HT Hk He a Ha. destruct (call_cases (OpGetFlow T i) T a (or_introl eq_refl) HT I I Ha) as (Hg & Hc & Hr).
  assert (Hrun : ∀ fl, (call (OpGetFlow T i) a).1 = Ok (inl fl) → may_run fl (call (OpGetFlow T i) a).2).
  { intros fl E v Hf Ht. revert E. unfold call, mtry, on_world, store_of.
    pose proof (flow_runs T i fl v (w_store (api_world a)) HT (good_store _ Ha)) as H.
    destruct (store_exec (OpGetFlow T i) (w_store (api_world a))) as [o s]. destruct o; simpl; intros [= ->].
    by apply H. }
  unfold mbind, M_bind. destruct (call (OpGetFlow T i) a) as [[[fl|e]|e|w|] a1]; simpl in *; try done.
  - destruct (Hk fl (proj1 (Hr _ eq_refl)) a1 Hg (Hrun _ eq_refl)) as (? & ? & ?).
    split_and!; [done|by eapply confined_trans|done].
  - destruct (He e a1 Hg) as (? & ? & ?). split_and!; [done|by eapply confined_trans|done].
Qed.

Lemma serves_run_any {B} T fl (m : M A B) Q : serves T m Q → serves_run T fl m Q.
Proof. intros H a Ha _. by apply H. Qed.

Lemma serves_run_quietly {B C} T fl (m : M A B) (k : B → M A C) R :
  (∀ a, store_of (m a).2 = store_of a ∧ api_hub (m a).2 = api_hub a) →
  (∀ b, serves_run T fl (k b) R) → serves_run T fl (m ≫= k) R.
Proof.
  intros Hq Hk a Ha Hm. destruct (serves_quiet T m Hq a Ha) as (Hg & Hc & _). destruct (Hq a) as [Es _].
  unfold mbind, M_bind. destruct (m a) as [[b|e|w|] a1]; simpl in *; [|done..].
  assert (Hm1 : may_run fl a1) by (unfold may_run; by rewrite Es).
  destruct (Hk b a1 Hg Hm1) as (? & ? & ?). split_and!; [done|by eapply confined_trans|done].
Qed.

Lemma serves_run_created {B} T fl v (k : Run + error → M A B) R :
  st_tenant T → Run_TenantID v = T → Run_FlowID v = Flow_ID fl → Flow_TenantID fl = T →
  serves T (k (inl v)) R → (∀ e, serves T (k (inr e)) R) → serves_run T fl (call (OpCreateRun v) ≫= k) R.
Proof.
  intros HT Hv Hf Hfl Hk He a Ha Hm.
  destruct (call_cases (OpCreateRun v) T a ltac:(left; simpl; congruence) HT I ltac:(apply Hm; congruence) Ha)
    as (Hg & Hc & Hr).
  unfold mbind, M_bind. destruct (call (OpCreateRun v) a) as [[[run|e]|e|w|] a1]; simpl in *; try done.
  - destruct (Hr _ eq_refl) as [_ <-]. destruct (Hk a1 Hg) as (? & ? & ?).
    split_and!; [done|by eapply confined_trans|done].
  - destruct (He e a1 Hg) as (? & ? & ?). split_and!; [done|by eapply confined_trans|done].
Qed.

(** A broadcast to the tenant's own room. *)
Lemma serves_broadcast now_at time_text visit ty p T :
  (∀ s, visit s ≡ₚ elements s) → T ≠ "" →
  serves T (broadcast now_at time_text visit T ty p) (λ _, True).
Proof.
  intros Hv HT a [Ha Hh]. unfold broadcast, mbind, M_bind, api_now, on_world. simpl.
  destruct (Broadcast_run time_text visit (now_at (w_clock (api_world a))) T ty p (api_hub a) Hv Hh)
    as (h' & -> & Hok & _ & _ & Hobj).
  split_and!; [by split|split; [apply same_touched, same_refl|]|done].
  intros c o Hc Ho. simpl. rewrite (Hobj c o Hc). case_match; try done.
  rewrite decide_False; [done|]. by intros [_ [?|?]].
Qed.

(** ** A flow reads the store only *)
Section Execution.
Context (now_at : nat → Time) (map_order : MapOrder).
Abbreviation EC := (execContext St Mc Se).

Definition reading {B} (m : M EC B) : Prop := ∀ ec,
  st_same (w_store (ec_world ec)) (w_store (ec_world (m ec).2)).

Lemma reading_bind {B C} (m : M EC B) (k : B → M EC C) :
  reading m → (∀ b, reading (k b)) → reading (m ≫= k).
Proof.
  intros Hm Hk ec. specialize (Hm ec). unfold mbind, M_bind.
  destruct (m ec) as [[b|e|w|] ec1]; simpl in *; try done. by eapply same_trans, Hk.
Qed.

Lemma reading_wrapping {B} f args (m : M EC B) : reading m → reading (wrapping f args m).
Proof. intros Hm ec. specialize (Hm ec). unfold wrapping. by destruct (m ec) as [[] ec1]. Qed.

Lemma reading_try {B} (m : M EC B) : reading m → reading (mtry m).
Proof. intros Hm ec. specialize (Hm ec). unfold mtry. by destruct (m ec) as [[] ec1]. Qed.

Lemma reading_same {B} (m : M EC B) :
  (∀ ec, w_store (ec_world (m ec).2) = w_store (ec_world ec)) → reading m.
Proof. intros H ec. rewrite H. apply same_refl. Qed.

(** The reads of the store that a flow does. *)
Lemma reading_agent t i : reading (on_store (store_exec (OpGetAgent t i))).
Proof.
  intros ec. unfold on_store. pose proof (agent_same t i (w_store (ec_world ec))) as H.
  by destruct (store_exec _ _).
Qed.

Lemma reading_server t i : reading (on_store (store_exec (OpGetMcpServer t i))).
Proof.
  intros ec. unfold on_store. pose proof (server_same t i (w_store (ec_world ec))) as H.
  by destruct (store_exec _ _).
Qed.

Lemma reading_mcp {B} (m : M Mc B) : reading (on_mcp m).
Proof. apply reading_same. intros ec. unfold on_mcp. by destruct (m _). Qed.

Lemma reading_rb {B} (m : M (rollbackLog Se) B) : reading (on_rb m).
Proof. apply reading_same. intros ec. unfold on_rb. by destruct (m _) as [o [s r]]. Qed.

Lemma reading_const {B} (m : M EC B) : (∀ ec, (m ec).2 = ec) → reading m.
Proof. intros H ec. rewrite H. apply same_refl. Qed.

#[local] Hint Resolve reading_agent reading_server reading_mcp reading_rb reading_wrapping reading_try : reading.
#[local] Hint Extern 1 (reading (mret _)) => by apply reading_const : reading.
#[local] Hint Extern 1 (reading (mthrow _)) => by apply reading_const : reading.
#[local] Hint Extern 1 (reading (lift _)) => by apply reading_const : reading.
#[local] Hint Extern 1 (reading mnofuel) => by apply reading_const : reading.
#[local] Hint Extern 1 (reading (mgets _)) => by apply reading_const : reading.
#[local] Hint Extern 1 (reading (output_of _)) => by apply reading_const : reading.
#[local] Hint Extern 1 (reading (throw_if ?e)) => destruct e; by apply reading_const : reading.
#[local] Hint Extern 1 (reading (log _ _ _)) => by apply reading_same : reading.
#[local] Hint Extern 1 (reading (set_output _ _)) => by apply reading_same : reading.

Ltac reads := repeat (intros; apply reading_bind); intros; auto with reading.

Lemma reading_skills flow node agent input skills : reading (run_skills flow node agent input skills).
Proof. induction skills as [|s rest IH]; cbn [run_skills]; reads. Qed.
#[local] Hint Resolve reading_skills : reading.

Lemma reading_node flow node input : reading (executeNode now_at flow node input).
Proof.
  unfold executeNode, runAgent, runMcpTool, runOutput. repeat case_if; reads.
Qed.
#[local] Hint Resolve reading_node : reading.

Lemma reading_edges flow g cur edges w : reading (follow_edges now_at flow g cur edges w).
Proof.
  revert w. induction edges as [|e rest IH]; intros w; cbn [follow_edges]; [reads|].
  case_if; [apply IH|]. reads.
Qed.
#[local] Hint Resolve reading_edges : reading.

Lemma reading_handles flow g cur hs w : reading (follow_handles now_at flow g cur hs w).
Proof. revert w. induction hs as [|h rest IH]; intros w; cbn [follow_handles]; reads. Qed.
#[local] Hint Resolve reading_handles : reading.

Lemma reading_queue fuel flow g w : reading (run_queue now_at fuel flow g w).
Proof.
  revert w. induction fuel as [|f IH]; intros w; cbn [run_queue]; [reads|].
  destruct (pending_ids w); reads.
Qed.
#[local] Hint Resolve reading_queue : reading.

Lemma Execute_same flow (w : World St Mc Se) :
  st_same (w_store w) (w_store (Execute now_at map_order flow w).2).
Proof.
  assert (H : ∀ g trigger, reading (execute_graph now_at flow g trigger)).
  { intros g trigger. unfold execute_graph, run_graph, rollbackAndFail. apply reading_bind.
    - apply reading_try. reads.
    - intros [order|err]; reads. }
  unfold Execute. destruct (ParseAndValidate _) as [g|e|x|]; try apply same_refl.
  destruct (Trigger map_order g) as [t|e|x|]; try apply same_refl.
  specialize (H g t (mkExec w [] ∅ [] 0)).
  by destruct (execute_graph now_at flow g t _) as [o ec].
Qed.

Lemma quiet_execute flow T :
  serves T (on_world (Execute now_at map_order flow)) (λ _, True).
Proof.
  apply serves_same. intros a. unfold on_world, store_of.
  pose proof (Execute_same flow (api_world a)) as H.
  by destruct (Execute now_at map_order flow (api_world a)) as [o w].
Qed.
End Execution.
End Serving.

Create HintDb serving.
#[export] Hint Extern 1 (serves _ _ _) =>
  first [apply quiet_now | apply quiet_uuid | apply quiet_body | apply quiet_mcp | apply quiet_hash
        | apply quiet_execute] : serving.
#[export] Hint Extern 1 (serves _ (broadcast _ _ _ _ _ _) _) => apply serves_broadcast : serving.

(** One step whose result does not matter. *)
Ltac quiet := apply serves_quietly; [by auto with serving|]; intros.

(** * Stores with [StoreLaws]: runs of a handler, call by call *)
Section Runs.
Context {St Mc Se : Type}.
Context {st_ops : Store St} {st_laws : StoreLaws St}.
Context {mc_ops : Client Mc} {se_ops : SideEffectStore Se} {quoting : FmtQuote}.
Abbreviation A := (Api St Mc Se).
Implicit Types (a : A) (T : string).

(** What the store holds. *)
Definition seen a : View := view (w_store (api_world a)).

Definition tried {B} (o : outcome B) : outcome (B + error) :=
  match o with
  | Ok b => Ok (inl b)
  | Err e => Ok (inr e)
  | Panic w => Panic w
  | NoFuel => NoFuel
  end.

(** All but the store is as it was. *)
Record same_rest a a' : Prop := {
  rest_hub : api_hub a' = api_hub a;
  rest_uuids : api_uuids a' = api_uuids a;
  rest_clock : w_clock (api_world a') = w_clock (api_world a)
}.

Lemma call_run {B} (op : StoreOp B) a :
  ∃ o a', call op a = (tried o, a') ∧ spec op (seen a) o (seen a') ∧ same_rest a a'.
Proof.
  unfold call, mtry, on_world, seen. pose proof (exec_spec op (w_store (api_world a))) as H.
  destruct (store_exec op (w_store (api_world a))) as [o s]. simpl in H.
  exists o, (mkApi (mkWorld s (w_mcp (api_world a)) (w_effects (api_world a)) (w_clock (api_world a)))
               (api_hub a) (api_uuids a)).
  by destruct o; split_and!.
Qed.

(** A call whose effect the specification determines. *)
Lemma call_does {B} (op : StoreOp B) o w a :
  (∀ o' w', spec op (seen a) o' w' → o' = o ∧ w' = w) →
  ∃ a', call op a = (tried o, a') ∧ seen a' = w ∧ same_rest a a'.
Proof.
  intros H. destruct (call_run op a) as (o' & a' & E & [-> Hw]%H & Hr). by exists a'.
Qed.

Lemma tried_Ok {B} (o : outcome B) r :
  tried o = Ok r → match r with inl b => o = Ok b | inr e => o = Err e end.
Proof. destruct o; naive_solver. Qed.

Lemma Execute_reads now_at map_order flow (w : World St Mc Se) :
  view (w_store (Execute now_at map_order flow w).2) = view (w_store w).
Proof. exact (Execute_same now_at map_order flow w). Qed.
End Runs.
