(* ===== verification/ApiSamples.v ===== *)
(** * A sample server

    The in-memory store, the mock client and the in-memory side effects with
    a hub, all empty; a toy bcrypt; and two token libraries: one that signs
    everything, and one that signs the seeded owner's claims and obeys the
    laws.  The witnesses of the handlers' theorems run on it. *)
From S2P Require Import Prelude GoStr GoValue GoSort GoFmt Json Model Store StoreSpec StoreProps.
From S2P Require Import Expr Graph SideEffects Mcp Engine EngineProps Auth Hub Codec Api Tenants ApiTheory.

Definition sample_visit (s : gset nat) : list nat := elements s.

Lemma sample_visit_ok s : sample_visit s ≡ₚ elements s.
Proof. done. Qed.

Definition sample_api : Api Memory MockClient MemorySideEffectStore :=
  mkApi (mkWorld NewMemoryStore NewMockClient (NewMemorySideEffectStore 0) 0) NewHub 0.

Lemma sample_good : good sample_api.
Proof.
  split; [split|apply NewHub_ok]; [apply empty_coherent| |].
  all: intros [T i] v; unfold seen; simpl; by rewrite flat_empty.
Qed.

Definition sample_bcrypt : Bcrypt := {|
  GenerateFromPassword := λ p, Ok ("hash of " +:+ p);
  CompareHashAndPassword := λ h p, bool_decide (h = "hash of " +:+ p)
|}.

Definition sample_seed : SeedConfig := mkSeedConfig "admin" "secret".
Definition sample_uuid (n : nat) : string := "id-" +:+ pretty n.
Definition sample_parse_time (_ : string) : outcome Time := Ok 0%Z.
Definition sample_time_text (_ : Time) : string := "".

(** Claims of the owner that the first login creates. *)
Definition owner_claims : Claims :=
  mkClaims defaultTenantID RoleOwner "id-0" (mkRegisteredClaims "admin" 0%Z 0%Z "agent-hub-core").

#[export] Instance RegisteredClaims_eq_dec : EqDecision RegisteredClaims.
Proof. solve_decision. Defined.
#[export] Instance Claims_eq_dec : EqDecision Claims.
Proof. solve_decision. Defined.

Definition owner_jwt : JWT := {|
  SignedString := λ key c,
    if bool_decide (key = "k") && bool_decide (c = owner_claims) then Ok "owner-token"
    else Err (ErrorsNew "not signed");
  ParseWithClaims := λ kf tok,
    key ← kf true "HS256";
    if bool_decide (key = "k") && bool_decide (tok = "owner-token") then Ok (owner_claims, true)
    else Err (ErrorsNew "token signature is invalid");
  is_expired := λ _, false;
  NumericDate := λ _, 0%Z
|}.

Definition signing_jwt : JWT := {|
  SignedString := λ key c, Ok "token";
  ParseWithClaims := λ kf tok, Err (ErrorsNew "token is malformed");
  is_expired := λ _, false;
  NumericDate := λ t, t
|}.

Definition login_body : RawMessage :=
  RawDoc (JObj [("username", JStr "admin"); ("password", JStr "secret")]).

Definition login_request : HttpRequest :=
  mkHttpRequest (mkRequest "POST" "/api/v1/auth/login" "" None None) "" login_body.

(** A server with the flow of the engine's samples. *)
Lemma sane_exec {A} (op : StoreOp A) (s : Memory) :
  sane (view s) → op_sound flow_ok role_ok op → sane (view (store_exec op s).2).
Proof. intros Hs. exact (spec_sane op _ _ _ Hs (exec_spec op s)). Qed.

Definition flow_api : Api Memory MockClient MemorySideEffectStore :=
  mkApi (mkWorld (store_exec (OpCreateFlow (sample_flow "report" "result.kind == 'db'"))
                    (store_exec (OpCreateMcpServer (mkMcpServer "s1" "t1" "server"
                       (RawDoc (JObj [("type", JStr "stdio")])) true "" 0%Z 0%Z)) NewMemoryStore).2).2
           NewMockClient (NewMemorySideEffectStore 0) 0) NewHub 0.

Definition run_request : HttpRequest :=
  mkHttpRequest (WithClaims (sample_request "POST" "/api/v1/flows/f1/run") (sample_claims RoleOwner))
    "f1" RawEmpty.

Lemma flow_api_good : good flow_api.
Proof.
  split; [|apply NewHub_ok].
  apply sane_exec; [apply sane_exec; [apply (good_store _ sample_good)|done]|by vm_compute].
Qed.
