(* ===== verification/ApiProps.v ===== *)
(** * What the handlers guarantee

    Every protected handler serves the tenant in the claims and no other and
    keeps what is stored sane; a chat turn reaches its own tenant only. *)
From S2P Require Import Prelude GoStr GoValue GoSort GoFmt Json Model Store StoreSpec StoreProps.
From S2P Require Import Expr Graph SideEffects Mcp Engine EngineProps Auth Hub Codec Api Tenants ApiTheory ApiSamples.

(** The resources in a response belong to the tenant. *)
Definition body_of (T : string) (b : Body) : Prop :=
  match b with
  | BAgent a => Agent_TenantID a = T
  | BAgents l => Forall (λ a, Agent_TenantID a = T) l
  | BServer s => McpServer_TenantID s = T
  | BServers l => Forall (λ s, McpServer_TenantID s = T) l
  | BFlow f => Flow_TenantID f = T
  | BFlows l => Forall (λ f, Flow_TenantID f = T) l
  | BRun r => Run_TenantID r = T
  | BRuns l => Forall (λ r, Run_TenantID r = T) l
  | BTask t => Task_TenantID t = T
  | BUser u => User_TenantID u = T
  | BUsers l => Forall (λ u, User_TenantID u = T) l
  | _ => True
  end.

Definition owned_response (T : string) (r : HttpResponse) : Prop := body_of T (Payload r).

Lemma storeError_owned T e : owned_response T (storeError e).
Proof. unfold storeError, mapStoreError. repeat case_if; exact I. Qed.

Section Props.
Context {St Mc Se : Type}.
Context {st_ops : Store St} {st_tenants : TenantStore St} {st_laws : TenantLaws St}.
Context {mc_ops : Client Mc} {se_ops : SideEffectStore Se} {quoting : FmtQuote}.
Context {jwt : JWT} {bcrypt : Bcrypt}.
Context (now_at : nat → Time) (uuid_at : nat → string) (map_order : MapOrder).
Context (parse_time : string → outcome Time) (time_text : Time → string).
Context (visit : gset nat → list nat) (Hvisit : ∀ s, visit s ≡ₚ elements s).
Abbreviation A := (Api St Mc Se).
Implicit Types (r : HttpRequest) (a : A).

(** ** Steps of a handler *)
Lemma serves_reply {B} T status (f : B → Body) (x : B + error) :
  (∀ b, x = inl b → body_of T (f b)) → serves (Mc := Mc) (Se := Se) T (reply status f x) (owned_response T).
Proof.
  intros H. destruct x as [b|e]; apply serves_ret; [by apply H|apply storeError_owned].
Qed.

Lemma serves_reply_list {B} T (f : B → Body) (x : B + error) :
  (∀ b, x = inl b → body_of T (f b)) → serves (Mc := Mc) (Se := Se) T (reply_list f x) (owned_response T).
Proof. intros H. destruct x as [b|e]; apply serves_ret; [by apply H|exact I]. Qed.

Lemma serves_error T status msg : serves (Mc := Mc) (Se := Se) T (mret (writeError status msg)) (owned_response T).
Proof. by apply serves_ret. Qed.

Lemma serves_store_error T e : serves (Mc := Mc) (Se := Se) T (mret (storeError e)) (owned_response T).
Proof. apply serves_ret, storeError_owned. Qed.

Ltac fails := intros; first [apply serves_error | apply serves_store_error].
Ltac replies := first [apply serves_reply_list | apply serves_reply];
  intros ? Hreply; first [discriminate Hreply | injection Hreply as <-].

(** ** The handlers, one by one *)
Definition good_handler (h : HttpRequest → M A HttpResponse) : Prop :=
  ∀ r, tenantFrom r ≠ "" → st_tenant (tenantFrom r) →
    serves (tenantFrom r) (h r) (owned_response (tenantFrom r)).

(** Listing, reading and deleting. *)
Lemma list_good {B} (op : string → StoreOp B) f :
  (∀ T, op_tenant (op T) = Some T) → (∀ T, op_sound st_flow_ok st_user_ok (op T)) →
  (∀ T, creates_run (op T) = false) → (∀ T b, of_tenant (op T) b → body_of T (f b)) →
  good_handler (λ r, x ← call (op (tenantFrom r)); reply_list f x).
Proof.
  intros Ht Hs Hd Hb r _ HT. apply serves_then; [done|done|done|done| |].
  - intros b Ho _. replies. auto.
  - intros e. replies.
Qed.

Lemma reply_good {B} (op : string → string → StoreOp B) status f :
  (∀ T i, op_tenant (op T i) = Some T) → (∀ T i, op_sound st_flow_ok st_user_ok (op T i)) →
  (∀ T i, creates_run (op T i) = false) → (∀ T i b, of_tenant (op T i) b → body_of T (f b)) →
  good_handler (λ r, x ← call (op (tenantFrom r) (URLParam r)); reply status f x).
Proof.
  intros Ht Hs Hd Hb r _ HT. apply serves_then; [done|done|done|done| |].
  - intros b Ho _. replies. by eapply Hb.
  - intros e. replies.
Qed.

(** A created or updated value is the one that was passed. *)
Lemma written_good {B} (op : StoreOp B) v status f T :
  op_tenant op = Some T → st_tenant T → op_sound st_flow_ok st_user_ok op → creates_run op = false →
  (∀ b, op_result st_flow_ok st_user_ok op b → v = b) → body_of T (f v) →
  serves T (x ← call op; reply status f x : M A HttpResponse) (owned_response T).
Proof.
  intros Ht HT Hs Hd Hv Hb. apply serves_then; [done|done|done|done| |].
  - intros b _ <-%Hv. by replies.
  - intros e. replies.
Qed.

Lemma createAgent_good : good_handler (createAgent now_at uuid_at parse_time).
Proof.
  intros r _ HT. unfold createAgent. quiet. case_match; [|fails]. case_if; [fails|].
  do 3 quiet. by eapply written_good.
Qed.

Lemma updateAgent_good : good_handler (updateAgent now_at parse_time).
Proof.
  intros r _ HT. unfold updateAgent. apply serves_then; [done|done|done|done| |fails].
  intros existing Ht _. quiet. case_match; [|fails]. quiet.
  eapply written_good; [simpl; by rewrite Ht|done|done|done|done|done].
Qed.

Lemma createMcpServer_good : good_handler (createMcpServer now_at uuid_at parse_time).
Proof.
  intros r _ HT. unfold createMcpServer. quiet. case_match; [|fails]. do 2 (case_if; [fails|]).
  do 3 quiet. by eapply written_good.
Qed.

Lemma updateMcpServer_good : good_handler (updateMcpServer now_at parse_time).
Proof.
  intros r _ HT. unfold updateMcpServer. apply serves_then; [done|done|done|done| |fails].
  intros existing Ht _. quiet. case_match; [|fails]. quiet.
  eapply written_good; [simpl; by rewrite Ht|done|done|done|done|done].
Qed.

Lemma testMcpServer_good : good_handler testMcpServer.
Proof.
  intros r _ HT. unfold testMcpServer. apply serves_then; [done|done|done|done| |fails].
  intros server Ht _. destruct (TransportFromServer _) as [tr|e|w|]; try fails.
  quiet. case_match; (apply serves_then; [simpl; by rewrite Ht|done|done|done|intros; by apply serves_ret..]).
Qed.

Lemma createFlow_good : good_handler (createFlow now_at uuid_at parse_time).
Proof.
  intros r _ HT. unfold createFlow. quiet. case_match; [|fails]. case_if; [fails|].
  destruct (Validate _) eqn:Hv; [fails|]. do 3 quiet.
  eapply written_good; [done|done|by apply flow_valid|done|done|done].
Qed.

Lemma updateFlow_good : good_handler (updateFlow now_at parse_time).
Proof.
  intros r _ HT. unfold updateFlow. apply serves_then; [done|done|done|done| |fails].
  intros existing Ht Hok. quiet. case_match; [|fails].
  destruct (if raw_is_empty _ then _ else _) eqn:Hv; [fails|]. quiet.
  eapply written_good; [simpl; by rewrite Ht|done| |done|done|done].
  simpl. destruct (raw_is_empty _) eqn:Hraw; [eapply flow_kept; [|exact Hok]|apply flow_valid];
    simpl; by rewrite ?Hraw.
Qed.

Lemma runFlow_good : good_handler (runFlow now_at uuid_at map_order time_text visit).
Proof.
  intros r Hne HT. unfold runFlow. apply serves_flow; [done| |fails].
  intros fl Ht. case_if; [apply serves_run_any; fails|].
  do 2 (apply serves_run_quietly; [done|intros]).
  apply serves_run_created; [done|done|done|done| |fails]. do 2 quiet.
  apply serves_then; [simpl; by rewrite Ht|done|done|done| |fails]. intros run' _ _. rewrite Ht. quiet.
  by apply serves_ret.
Qed.

Lemma createUser_good : good_handler (createUser now_at uuid_at).
Proof.
  intros r _ HT. unfold createUser. quiet. case_match; [|fails]. case_if; [fails|]. quiet.
  case_match; [|fails]. do 3 quiet. eapply written_good; [done|done| |done|done|done].
  apply user_known. simpl. by case_if.
Qed.

Lemma updateUser_good : good_handler (updateUser now_at).
Proof.
  intros r _ HT. unfold updateUser. apply serves_then; [done|done|done|done| |fails].
  intros existing Ht Hok. quiet. case_match; [|fails].
  apply serves_quietly; [case_if; [by apply serves_ret|by auto with serving]|intros].
  case_match; [|fails]. quiet. eapply written_good; [simpl; by rewrite Ht|done| |done|done|done].
  simpl. destruct (known_role _) eqn:Hk; [by apply user_known|by eapply user_kept; [|exact Hok]].
Qed.

Lemma handleMe_good : good_handler handleMe.
Proof.
  intros r _ HT. unfold handleMe. destruct (ClaimsFrom (rq r)) as [c|] eqn:E; [|fails].
  assert (Hc : tenantFrom r = Claims_TenantID c) by (unfold tenantFrom, TenantIDFrom; by rewrite E).
  rewrite Hc in HT |- *. apply serves_then; [done|done|done|done| |fails]. intros u Hu _. by apply serves_ret.
Qed.

Lemma serve_good e : good_handler (serve now_at uuid_at map_order parse_time time_text visit e).
Proof.
  destruct e; try done.
  - apply handleMe_good.
  - by apply (list_good OpListAgents BAgents).
  - apply createAgent_good.
  - by apply (reply_good OpGetAgent StatusOK BAgent).
  - apply updateAgent_good.
  - by apply (reply_good OpDeleteAgent StatusNoContent (λ _, BNone)).
  - by apply (list_good OpListMcpServers BServers).
  - apply createMcpServer_good.
  - by apply (reply_good OpGetMcpServer StatusOK BServer).
  - apply updateMcpServer_good.
  - by apply (reply_good OpDeleteMcpServer StatusNoContent (λ _, BNone)).
  - apply testMcpServer_good.
  - by apply (list_good OpListFlows BFlows).
  - apply createFlow_good.
  - by apply (reply_good OpGetFlow StatusOK BFlow).
  - apply updateFlow_good.
  - by apply (reply_good OpDeleteFlow StatusNoContent (λ _, BNone)).
  - apply runFlow_good.
  - by apply (reply_good OpListRuns StatusOK BRuns).
  - by apply (reply_good OpGetRun StatusOK BRun).
  - by apply (reply_good OpGetTask StatusOK BTask).
  - by apply (list_good OpListUsers BUsers).
  - apply createUser_good.
  - by apply (reply_good OpGetUser StatusOK BUser).
  - apply updateUser_good.
  - by apply (reply_good OpDeleteUser StatusNoContent (λ _, BNone)).
Qed.

(** ** A request through the middlewares *)
(** Over any store that keeps tenants apart. *)
Lemma handle_confined auth e r a
    (Hreq : requiresAuth (URL_Path (rq r)) = true) (Ha : good a)
    (Htenant : ∀ c, Verify auth (bearerToken (rq r)) = Ok c → st_tenant (Claims_TenantID c)) :
  let '(o, a') := handle now_at uuid_at map_order parse_time time_text visit auth e r a in
  good a' ∧
  ((∃ msg status, o = Ok (http_error status msg) ∧ a' = a ∧
      (status = StatusUnauthorized ∨ status = StatusForbidden)) ∨
   ∃ c, Verify auth (bearerToken (rq r)) = Ok c ∧
     Allowed (Method (rq r)) (URL_Path (rq r)) (Claims_Role c) = true ∧
     confined (Claims_TenantID c) a a' ∧
     ∀ resp, o = Ok resp → owned_response (Claims_TenantID c) resp).
Proof.
  unfold handle. destruct (protected auth Served (rq r)) as [msg status|q] eqn:Hp.
  { split; [done|]. left. exists msg, status. split_and!; [done..|by eapply protected_refuses]. }
  apply protected_Served in Hp as (_ & c & Hv & Hal & ->); [|done].
  destruct (Verify_Ok _ _ _ Hv) as (Hne & _ & _). specialize (Htenant c Hv).
  set (r' := mkHttpRequest (WithClaims (rq r) c) (URLParam r) (rq_body r)).
  assert (H : let '(o, a') := serve now_at uuid_at map_order parse_time time_text visit e r' a in
    good a' ∧ confined (Claims_TenantID c) a a' ∧ ∀ b, o = Ok b → owned_response (Claims_TenantID c) b).
  { pose proof (serve_good e r' Hne Htenant a Ha) as H. by destruct (serve _ _ _ _ _ _ e r' a). }
  destruct (serve _ _ _ _ _ _ e r' a) as [o a']. destruct H as (Hg & Hc & Ho).
  split; [done|]. right. exists c. by split_and!.
Qed.

(** ** Chat *)
Lemma broadcastChat_good T role content agentID :
  T ≠ "" → serves T (broadcastChat now_at time_text visit T role content agentID : M A unit) (λ _, True).
Proof using Hvisit st_laws. intros HT. by apply serves_broadcast. Qed.

Lemma chat_skills_good T agent content skills : st_tenant T →
  serves T (chat_skills T agent content skills : M A (list string)) (λ _, True).
Proof.
  intros HT. induction skills as [|s rest IH]; cbn [chat_skills]; [by apply serves_ret|].
  apply serves_then; [done|done|done|done| |intros; apply serves_throw]. intros server _ _.
  apply serves_quietly.
  { apply serves_quiet. intros a. unfold mtry. by destruct (TransportFromServer _). }
  intros [tr|e]; [|apply serves_throw]. quiet. case_match; [|apply serves_throw].
  apply serves_quietly; [exact IH|]. intros. by apply serves_ret.
Qed.

Lemma chatAgent_good T agentID content : st_tenant T →
  serves T (chatAgent T agentID content : M A string) (λ _, True).
Proof.
  intros HT. unfold chatAgent. apply serves_then; [done|done|done|done| |intros; apply serves_throw]. intros agent _ _.
  case_if; [apply serves_throw|]. apply serves_quietly; [by apply chat_skills_good|].
  intros. by apply serves_ret.
Qed.

Lemma chat_turn_confined T data a (HT : T ≠ "") (HT' : st_tenant T) (Ha : good a) :
  let a' := (chat_turn now_at time_text visit T data a).2 in good a' ∧ confined T a a'.
Proof.
  assert (H : serves T (chat_turn now_at time_text visit T data : M A unit) (λ _, True)).
  { unfold chat_turn. apply serves_quietly.
    { apply serves_quiet. intros b. unfold mtry. by destruct (decodeJSON _ _ _). }
    intros [msg|e]; [|by apply serves_ret]. case_if; [by apply serves_ret|].
    assert (Hgo : ∀ agentID, serves T
      (_ ← broadcastChat now_at time_text visit T "user" (Chat_Content msg) agentID;
       reply ← mtry (chatAgent T agentID (Chat_Content msg));
       match reply with
       | inr err => broadcastChat now_at time_text visit T "system" ("error: " +:+ error_text err) agentID
       | inl reply => broadcastChat now_at time_text visit T "assistant" reply agentID
       end : M A unit) (λ _, True)).
    { intros agentID. apply serves_quietly; [by apply broadcastChat_good|]. intros _.
      apply serves_quietly.
      - eapply serves_mono; [by apply serves_try, chatAgent_good|done].
      - intros []; by apply broadcastChat_good. }
    cbv zeta. case_if; [apply Hgo|]. apply serves_then; [done|done|done|done| |].
    - intros l _ _. case_if; [by apply broadcastChat_good|apply Hgo].
    - intros e. by apply broadcastChat_good. }
  by destruct (H a Ha) as (? & ? & _).
Qed.

(** ** The login *)
Lemma seed_serves cfg :
  st_tenant defaultTenantID → serves defaultTenantID (ensureSeed now_at uuid_at cfg : M A unit) (λ _, True).
Proof using st_laws.
  intros HT. unfold ensureSeed. apply serves_then; [done|done|done|done| |intros; by apply serves_ret].
  intros [|u us] _ _; [|by apply serves_ret].
  apply serves_quietly; [by apply serves_tenant; [|right|]|]. intros t.
  apply serves_quietly.
  { destruct t; [by apply serves_ret|]. quiet. apply serves_quietly; [by apply serves_tenant; [|right|]|].
    intros. by apply serves_ret. }
  intros _. quiet. case_match; [|by apply serves_ret]. do 3 quiet.
  apply serves_then; [done|done|by apply user_known|done|intros; by apply serves_ret..].
Qed.

(** A token is issued to a user of the default tenant whose hash accepts the
    password that was sent. *)
Definition login_answer auth r (resp : HttpResponse) : Prop := ∀ tok, Payload resp = BToken tok →
  ∃ req user at_,
    decodeJSON dec_LoginRequest (mkLoginRequest "" "") (rq_body r) = Ok req ∧
    User_TenantID user = defaultTenantID ∧ st_user_ok user ∧
    CompareHashAndPassword (PasswordHash user) (Login_Password req) = true ∧
    Issue auth at_ (Username user) (User_ID user) (User_TenantID user) (User_Role user) = Ok tok.

(** Seeding and logging in concern the default tenant only. *)
Lemma login_serves auth cfg r :
  st_tenant defaultTenantID →
  serves defaultTenantID (handleLogin now_at uuid_at auth cfg r : M A HttpResponse) (login_answer auth r).
Proof using st_laws.
  intros HT. unfold handleLogin.
  eapply (serves_bind _ _ _ (λ b, ∀ req, b = inl req →
    decodeJSON dec_LoginRequest (mkLoginRequest "" "") (rq_body r) = Ok req)).
  { intros a Ha. destruct (quiet_body dec_LoginRequest (mkLoginRequest "" "") r defaultTenantID a Ha)
      as (? & ? & _). split_and!; [done|done|]. unfold body, mtry.
    destruct (decodeJSON _ _ _); intros b; simpl; try done; intros [= <-] req [= <-]. done. }
  intros [req|e] Hreq; [|by apply serves_ret]. specialize (Hreq req eq_refl).
  case_if; [by apply serves_ret|]. apply serves_quietly; [by apply seed_serves|]. intros _.
  apply serves_then; [done|done|done|done| |intros; by apply serves_ret]. intros user Hu Hok.
  destruct (CompareHashAndPassword _ _) eqn:Hc; [|by apply serves_ret]. simpl. quiet.
  eapply (serves_bind _ _ _ (λ t, ∀ tok, t = inl tok →
    Issue auth b (Username user) (User_ID user) (User_TenantID user) (User_Role user) = Ok tok)).
  { intros a Ha. unfold mtry. destruct (Issue _ _ _ _ _ _);
      (split_and!; [done|apply confined_refl|]); intros t; simpl; try done; intros [= <-] ? [= <-]. done. }
  intros [tok|e] Htok; [|by apply serves_ret]. apply serves_ret. intros tok' [= <-].
  exists req, user, b. split_and!; try done. by apply Htok.
Qed.
End Props.

(** ** Stores with [StoreLaws] *)
Section Lawful.
Context {St Mc Se : Type}.
Context {st_ops : Store St} {st_laws : StoreLaws St}.
Context {mc_ops : Client Mc} {se_ops : SideEffectStore Se} {quoting : FmtQuote}.
Context {jwt : JWT} {bcrypt : Bcrypt}.
Context (now_at : nat → Time) (uuid_at : nat → string) (map_order : MapOrder).
Context (parse_time : string → outcome Time) (time_text : Time → string).
Context (visit : gset nat → list nat) (Hvisit : ∀ s, visit s ≡ₚ elements s).

(** C6: A request to a protected route is refused, with 401 or 403 and
    nothing changed, or it carries a verified token whose role is allowed the
    request; then, whatever the handler and the request, it keeps the stored
    values sane (every value under its own tenant and identifier, every flow
    valid, every role known) and the hub in order, it touches neither the
    stored resources nor the WebSocket channels of any tenant but the one in
    the token, and every resource in the response is of that tenant. *)
Theorem handlers_confined auth e r (a : Api St Mc Se)
    (Hreq : requiresAuth (URL_Path (rq r)) = true) (Ha : good a) :
  let '(o, a') := handle now_at uuid_at map_order parse_time time_text visit auth e r a in
  good a' ∧ sane (seen a') ∧
  ((∃ msg status, o = Ok (http_error status msg) ∧ a' = a ∧
      (status = StatusUnauthorized ∨ status = StatusForbidden)) ∨
   ∃ c, Verify auth (bearerToken (rq r)) = Ok c ∧
     Allowed (Method (rq r)) (URL_Path (rq r)) (Claims_Role c) = true ∧
     only (Claims_TenantID c) (seen a) (seen a') ∧ private (Claims_TenantID c) (api_hub a) (api_hub a') ∧
     ∀ resp, o = Ok resp → owned_response (Claims_TenantID c) resp).
Proof using Hvisit.
  pose proof (handle_confined now_at uuid_at map_order parse_time time_text visit Hvisit auth e r a
    Hreq Ha (λ _ _, I)) as H.
  destruct (handle _ _ _ _ _ _ auth e r a) as [o a']. destruct H as [Hg H].
  split; [done|]. split; [apply (good_store _ Hg)|].
  destruct H as [H|(c & Hv & Hal & [Ht Hp] & Ho)]; [by left|right]. by exists c.
Qed.

(** C37: A chat message on the connection of a tenant's client, whatever its
    contents, keeps the state good and reaches nobody outside the tenant: no
    stored resource and no channel of another tenant changes. *)
Theorem chat_confined T data (a : Api St Mc Se) (HT : T ≠ "") (Ha : good a) :
  let a' := (chat_turn now_at time_text visit T data a).2 in
  good a' ∧ only T (seen a) (seen a') ∧ private T (api_hub a) (api_hub a').
Proof using Hvisit.
  exact (chat_turn_confined now_at time_text visit Hvisit T data a HT I Ha).
Qed.
End Lawful.

(** ** Witnesses: the sample server *)
Lemma handlers_confined_witness :
  let r := mkHttpRequest (sample_request "GET" "/api/v1/agents") "" RawEmpty in
  let '(o, a') := handle (jwt := sample_jwt RoleViewer) (bcrypt := sample_bcrypt) Z.of_nat sample_uuid
    sorted_order sample_parse_time sample_time_text sample_visit (NewManager "k" 1%Z) EpListAgents r sample_api in
  o = Ok (writeJSON StatusOK (BAgents [])) ∧ good a'.
Proof.
  assert (E : (handle (jwt := sample_jwt RoleViewer) (bcrypt := sample_bcrypt) Z.of_nat sample_uuid
    sorted_order sample_parse_time sample_time_text sample_visit (NewManager "k" 1%Z) EpListAgents
    (mkHttpRequest (sample_request "GET" "/api/v1/agents") "" RawEmpty) sample_api).1
    = Ok (writeJSON StatusOK (BAgents []))) by (vm_compute; reflexivity).
  pose proof (handlers_confined (jwt := sample_jwt RoleViewer) (bcrypt := sample_bcrypt) Z.of_nat sample_uuid
    sorted_order sample_parse_time sample_time_text sample_visit sample_visit_ok (NewManager "k" 1%Z)
    EpListAgents (mkHttpRequest (sample_request "GET" "/api/v1/agents") "" RawEmpty) sample_api
    eq_refl sample_good) as H.
  cbv zeta. destruct (handle _ _ _ _ _ _ _ _ _ _) as [o a']. split; [exact E|exact (proj1 H)].
Defined.

Lemma chat_confined_witness :
  let data := RawDoc (JObj [("type", JStr "chat"); ("content", JStr "hello")]) in
  let a' := (chat_turn Z.of_nat sample_time_text sample_visit "t1" data sample_api).2 in
  good a' ∧ only "t1" (seen sample_api) (seen a').
Proof.
  pose proof (chat_confined Z.of_nat sample_time_text sample_visit sample_visit_ok "t1"
    (RawDoc (JObj [("type", JStr "chat"); ("content", JStr "hello")])) sample_api
    ltac:(discriminate) sample_good) as (Hg & Ho & _).
  exact (conj Hg Ho).
Defined.
