(* ===== verification/ApiRoundtrips.v ===== *)
(** * What the handlers do, in full

    The role every route needs; creating and reading back; the login with its
    seeded owner; and the record that running a flow leaves. *)
From Stdlib Require Import Ascii.
From stdpp Require Import sorting.
From S2P Require Import Prelude GoStr GoValue GoSort GoFmt Json Model Store StoreSpec StoreProps.
From S2P Require Import Expr Graph SideEffects Mcp Engine EngineProps Auth Hub Codec Api Tenants ApiTheory ApiSamples ApiProps.

(** ** Roles of the routes *)
Definition endpoint_role (e : endpoint) : Role :=
  match e with
  | EpRunFlow => RoleOperator
  | _ => if bool_decide ((route e "").1 = "GET") then RoleViewer else RoleOwner
  end.

Lemma before_byte_app c p s : before_byte c p = p → before_byte c (p +:+ s) = p +:+ before_byte c s.
Proof.
  induction p as [|d p IH]; simpl; [done|]. case_bool_decide; [done|]. intros [= E].
  by rewrite IH.
Qed.

Lemma route_no_query e id : before_byte "?"%char id = id → before_byte "?"%char (route e id).2 = (route e id).2.
Proof.
  intros Hid. destruct e; cbn [route snd]; try reflexivity;
    repeat (rewrite before_byte_app; [|done]); by rewrite ?Hid.
Qed.

(** The role that the permission matrix asks for a request to any of the
    protected routes, whatever identifier is in its path: a viewer may make
    every GET request, an operator may also run flows, and everything else
    (creating, changing, deleting and testing) is for owners. *)
Theorem routes_roles e id (Hid : before_byte "?"%char id = id) :
  RequiredRole (route e id).1 (route e id).2 = endpoint_role e.
Proof.
  unfold RequiredRole. rewrite (route_no_query e id Hid).
  destruct e; cbn [route fst snd].
  all: rewrite ?(bool_decide_eq_false_2 ("GET" = httpMethodPost)),
    ?(bool_decide_eq_false_2 ("PUT" = httpMethodPost)),
    ?(bool_decide_eq_false_2 ("DELETE" = httpMethodPost)) by done; try reflexivity.
  - rewrite (bool_decide_eq_false_2 (_ = "/api/v1/auth/login")) by (intros [=]).
    rewrite (bool_decide_eq_false_2 (_ = "/api/v1/tasks")) by (intros [=]).
    change (has_prefix ("/api/v1" +:+ "/mcp-servers/" +:+ id +:+ "/test") "/api/v1/flows/") with false.
    by rewrite !andb_false_r.
  - rewrite (bool_decide_eq_false_2 (_ = "/api/v1/auth/login")) by (intros [=]).
    rewrite (bool_decide_eq_false_2 (_ = "/api/v1/tasks")) by (intros [=]).
    change (has_prefix ("/api/v1" +:+ "/flows/" +:+ id +:+ "/run") "/api/v1/flows/")
      with (has_prefix ("/api/v1/flows/" +:+ (id +:+ "/run")) "/api/v1/flows/").
    unfold has_prefix. rewrite prefix_app. fold has_prefix.
    rewrite (proj2 (has_suffix_spec _ "/run")), !andb_false_r; [reflexivity|].
    exists ("/api/v1" +:+ "/flows/" +:+ id). by rewrite <- !str_app_assoc.
Qed.

(** ** Tokens *)

(** What the code relies on in the JWT library, for claims whose dates are
    [NumericDate]s and whose strings it can carry ([text_ok], valid UTF-8):
    parsing a token with the key and method it was signed with gives the
    claims back, or the error for an expired token; and a token is a word. *)
Class JWTLaws `(jwt : JWT) := {
  text_ok : string → Prop;
  parse_signed kf key c tok :
    SignedString key c = Ok tok → kf true "HS256" = Ok key →
    (∃ t, IssuedAt (Registered c) = NumericDate t) →
    (∃ t, ExpiresAt (Registered c) = NumericDate t) →
    Forall text_ok [Claims_TenantID c; Claims_Role c; Claims_UserID c;
                    Subject (Registered c); Issuer (Registered c)] →
    ParseWithClaims kf tok = Ok (c, true) ∨
    ∃ e, ParseWithClaims kf tok = Err e ∧ is_expired e = true;
  signed_word key c tok : SignedString key c = Ok tok → tok ≠ "" ∧ trim_space tok = tok;
  ascii_ok : Forall text_ok ["agent-hub-core"; RoleViewer; RoleOperator; RoleOwner; defaultTenantID]
}.

Section Tokens.
Context `{JWTLaws}.

(** Verifying what was issued. *)
Lemma Verify_Issue m now subject uid T role tok :
  Issue m now subject uid T role = Ok tok →
  Forall text_ok [T; role; uid; subject; "agent-hub-core"] → T ≠ "" → role ≠ "" →
  (∃ c, Verify m tok = Ok c ∧ Claims_TenantID c = T ∧ Claims_Role c = role ∧ Claims_UserID c = uid) ∨
  Verify m tok = Err ErrExpiredToken.
Proof.
  intros Hi Ht HT Hr. unfold Issue in Hi. unfold Verify.
  destruct (parse_signed (keyfunc m) _ _ _ Hi eq_refl) as [-> | (e & -> & ->)]; [eauto..| | by right].
  left. eexists. simpl. by rewrite !bool_decide_eq_false_2.
Qed.

Lemma bearer_token method path tok id :
  tok ≠ "" → trim_space tok = tok → bearerToken (mkRequest method path ("Bearer " +:+ tok) None id) = tok.
Proof. intros Hne Ht. by transitivity (trim_space tok). Qed.
(** Strings of a user that a token can carry. *)
Definition user_text (u : User) : Prop := Forall text_ok [User_ID u; Username u].

Lemma known_role_cases role : known_role role = true → role ∈ [RoleViewer; RoleOperator; RoleOwner].
Proof.
  unfold known_role. rewrite !orb_true_iff, !bool_decide_eq_true.
  intros [[-> | ->] | ->]; set_solver.
Qed.

Lemma role_text role : role ∈ [RoleViewer; RoleOperator; RoleOwner] → text_ok role.
Proof.
  intros Hr. pose proof ascii_ok as Ht. rewrite Forall_forall in Ht. apply Ht.
  set_unfold. destruct Hr as [-> | [-> | [-> | []]]]; tauto.
Qed.

End Tokens.

(** ** Login *)
Section Login.
Context {St Mc Se : Type}.
Context {st_ops : Store St} {st_laws : StoreLaws St}.
Context {mc_ops : Client Mc} {se_ops : SideEffectStore Se} {quoting : FmtQuote}.
Context {jwt : JWT} {jwt_laws : JWTLaws jwt} {bcrypt : Bcrypt}.
Context (now_at : nat → Time) (uuid_at : nat → string) (map_order : MapOrder).
Context (parse_time : string → outcome Time) (time_text : Time → string).
Context (visit : gset nat → list nat).
Context (auth : Manager) (cfg : SeedConfig).
Abbreviation A := (Api St Mc Se).

(** Steps that succeed. *)
Lemma now_run (a : A) : ∃ a', api_now now_at a = (Ok (now_at (w_clock (api_world a))), a') ∧
  seen a' = seen a ∧ api_hub a' = api_hub a ∧ api_uuids a' = api_uuids a.
Proof. unfold api_now, on_world. eexists. by split_and!. Qed.

(** What reading a user by name finds. *)
Lemma find_user_run T n (a : A) : ∃ r a', call (OpGetUserByUsername T n) a = (Ok r, a') ∧
  seen a' = seen a ∧
  match r with
  | inl u => Username u = n ∧ ∃ i, vw_users (seen a) !! (T, i) = Some u
  | inr _ => ∀ i u, vw_users (seen a) !! (T, i) = Some u → Username u ≠ n
  end.
Proof.
  destruct (call_run (OpGetUserByUsername T n) a) as (o & a' & E & [Hs Ho] & _).
  destruct o as [u|e|w|]; [| |done..]; rewrite E.
  - by exists (inl u), a'.
  - exists (inr e), a'. by destruct Ho.
Qed.

Lemma get_user_run T i (a : A) : ∃ a', call (OpGetUser T i) a =
    (Ok (match vw_users (seen a) !! (T, i) with Some u => inl u | None => inr ErrNotFound end), a') ∧
    seen a' = seen a.
Proof.
  destruct (call_run (OpGetUser T i) a) as (o & a' & E & Hs & _).
  rewrite E. exists a'. unfold spec, does, zoom, sp_get in Hs.
  destruct (seen a) as [ags svs fls rns tks uss tns]. simpl in *. destruct (uss !! (T, i)); by simplify_eq/=.
Qed.

(** A login that answers a token found its user by name and password. *)
Lemma login_run r (a a' : A) tok :
  handleLogin now_at uuid_at auth cfg r a = (Ok (writeJSON StatusOK (BToken tok)), a') →
  ∃ req user i now,
    decodeJSON dec_LoginRequest (mkLoginRequest "" "") (rq_body r) = Ok req ∧
    Username user = Login_Username req ∧
    CompareHashAndPassword (PasswordHash user) (Login_Password req) = true ∧
    vw_users (seen a') !! (defaultTenantID, i) = Some user ∧
    Issue auth now (Username user) (User_ID user) (User_TenantID user) (User_Role user) = Ok tok.
Proof.
  unfold handleLogin. intros H. apply bind_Ok_inv in H as (b & a1 & Hb & H).
  unfold body, mtry in Hb. destruct b as [req|e]; [|done].
  destruct (decodeJSON _ _ _) as [req'|e|w|] eqn:Hdec; simplify_eq.
  destruct (_ || _); [done|]. apply bind_Ok_inv in H as (u & a2 & _ & H).
  apply bind_Ok_inv in H as (x & a3 & Hx & H).
  destruct (find_user_run defaultTenantID (Login_Username req) a2) as (x' & a3' & Hx' & Hs & Hu).
  rewrite Hx' in Hx. simplify_eq. destruct x as [user|e]; [|done].
  destruct (CompareHashAndPassword _ _) eqn:Hc; [|done]. simpl in H.
  destruct Hu as (Hn & i & Hi).
  apply bind_Ok_inv in H as (now & a4 & Hnow & H).
  destruct (now_run a3) as (a4' & Hnow' & Hs4 & _). rewrite Hnow' in Hnow. simplify_eq.
  apply bind_Ok_inv in H as (t & a5 & Ht & H). unfold mtry in Ht.
  destruct (Issue _ _ _ _ _ _) as [tok'|e|w|] eqn:Hi'; simplify_eq.
  injection H as <- <-. exists req, user, i. eexists. split_and!; try done. by rewrite Hs4, Hs.
Qed.

(** Logging in concerns the default tenant only. *)
Lemma handleLogin_serves r :
  serves defaultTenantID (handleLogin now_at uuid_at auth cfg r : M A HttpResponse) (λ _, True).
Proof. eapply serves_mono; [by apply login_serves|done]. Qed.

(** C29: The token of a login opens the API for the user who logged in. When
    a login answers a token, its user is stored in the default tenant under
    the requested name, with a hash that accepts the password; and a request
    for /api/v1/me with that token, on the state the login left, answers
    that user, or 401 if the library says the token has expired. Nothing
    stored changes by it. *)
Theorem login_token_serves r (a a' : A) tok
    (Ha : good a) (Htext : all_values user_text (vw_users (seen a')))
    (Hlogin : handleLogin now_at uuid_at auth cfg r a = (Ok (writeJSON StatusOK (BToken tok)), a')) :
  ∃ req user,
    decodeJSON dec_LoginRequest (mkLoginRequest "" "") (rq_body r) = Ok req ∧
    Username user = Login_Username req ∧
    CompareHashAndPassword (PasswordHash user) (Login_Password req) = true ∧
    vw_users (seen a') !! (defaultTenantID, User_ID user) = Some user ∧
    ∀ id,
      let me := mkRequest "GET" "/api/v1/me" ("Bearer " +:+ tok) None id in
      let '(o, a2) := handle now_at uuid_at map_order parse_time time_text visit auth EpMe
                        (mkHttpRequest me "" RawEmpty) a' in
      seen a2 = seen a' ∧
      (o = Ok (writeJSON StatusOK (BUser user)) ∨
       Verify auth tok = Err ErrExpiredToken ∧
       o = Ok (http_error StatusUnauthorized (json_error_body "invalid or expired token"))).
Proof.
  destruct (handleLogin_serves r a Ha) as (Hg & _ & _). rewrite Hlogin in Hg. simpl in Hg.
  destruct (login_run _ _ _ _ Hlogin) as (req & user & i & now & Hdec & Hn & Hc & Hi & Hiss).
  destruct (coh_users _ (sane_coherent _ (good_store _ Hg)) _ _ _ Hi) as (HT & <- & _).
  pose proof (known_role_cases _ (sane_users _ (good_store _ Hg) _ _ Hi)) as Hrole.
  exists req, user. split_and!; try done. intros id me.
  destruct (signed_word _ _ _ Hiss) as [Hne Htrim].
  assert (Hb : bearerToken me = tok) by (by apply bearer_token).
  unfold handle, protected, Authenticator.
  change (rq (mkHttpRequest me "" RawEmpty)) with me. rewrite Hb.
  change (requiresAuth (URL_Path me)) with true. cbn [negb]. rewrite bool_decide_eq_false_2 by done.
  destruct (Verify_Issue _ _ _ _ _ _ _ Hiss) as [(c & Hv & HcT & Hcr & Hcu)|Hexp].
  - pose proof (Htext _ _ Hi) as [? [? _]%Forall_cons]%Forall_cons.
    pose proof ascii_ok as [? [_ [_ [_ [? _]%Forall_cons]%Forall_cons]%Forall_cons]%Forall_cons]%Forall_cons.
    rewrite HT. repeat constructor; auto using role_text.
  - by rewrite HT.
  - intros E. rewrite E in Hrole. set_unfold. by destruct Hrole as [?|[?|[?|[]]]].
  - rewrite Hv. simpl. unfold Authorizer. simpl.
    assert (Hal : Allowed "GET" "/api/v1/me" (Claims_Role c) = true).
    { rewrite Hcr. set_unfold. destruct Hrole as [->|[->|[->|[]]]]; reflexivity. }
    rewrite Hal. simpl. unfold handleMe. simpl.
    destruct (get_user_run (Claims_TenantID c) (Claims_UserID c) a') as (a2 & Hrun & Hs).
    erewrite bind_ok by exact Hrun. rewrite HcT, Hcu, HT, Hi. simpl. by split; [|left].
  - rewrite Hexp. simpl. split; [done|]. by right.
Qed.
(** ** Seeding *)

(** No user of the default tenant, or just one. *)
Definition no_users (w : View) : Prop := ∀ i, vw_users w !! (defaultTenantID, i) = None.
Definition only_user (u : User) (w : View) : Prop :=
  ∀ i, vw_users w !! (defaultTenantID, i) = if decide (i = User_ID u) then Some u else None.

Lemma list_users_run (a : A) : ∃ l a', call (OpListUsers defaultTenantID) a = (Ok (inl l), a') ∧
  seen a' = seen a ∧ same_rest a a' ∧
  (l = [] ↔ no_users (seen a)).
Proof.
  destruct (call_run (OpListUsers defaultTenantID) a) as (o & a' & E & [Hs (l & -> & Hl)] & Hr).
  exists l, a'. split_and!; try done. destruct Hl as (kvs & _ & Hin & Hp & _). split.
  - intros -> i. destruct (vw_users _ !! _) as [u|] eqn:Hu; [|done].
    apply Permutation_nil_l in Hp. symmetry in Hp. apply fmap_nil_inv in Hp as ->.
    destruct (not_elem_of_nil (i, u)). by apply Hin.
  - intros Hno. destruct kvs as [|[i u] kvs]; [by apply Permutation_nil_r in Hp|].
    destruct (proj1 (Hin i u)) as [Hu _]; [by left|]. by rewrite Hno in Hu.
Qed.

(** Looking a tenant up, and creating one. *)
Lemma get_tenant_run T (a : A) : ∃ a', call (OpGetTenant T) a =
    (Ok (match vw_tenants (seen a) !! T with Some t => inl t | None => inr ErrNotFound end), a') ∧
    seen a' = seen a ∧ same_rest a a'.
Proof.
  destruct (call_run (OpGetTenant T) a) as (o & a' & E & Hs & Hr).
  rewrite E. exists a'. unfold spec, does in Hs. by case_match; simplify_eq/=.
Qed.

Lemma create_tenant_run t (a : A) : Tenant_ID t ≠ "" → vw_tenants (seen a) !! Tenant_ID t = None →
  ∃ a', call (OpCreateTenant t) a = (Ok (inl t), a') ∧
    seen a' = up_tenants (<[Tenant_ID t := t]> (vw_tenants (seen a))) (seen a) ∧ same_rest a a'.
Proof.
  intros Hne Hno. apply (call_does _ (Ok t)). intros o' w'. unfold spec, does.
  rewrite decide_False, Hno by done. by intros [= <- <-].
Qed.

Lemma create_user_run u (a : A) : User_ID u ≠ "" → vw_users (seen a) !! (User_TenantID u, User_ID u) = None →
  ∃ a', call (OpCreateUser u) a = (Ok (inl u), a') ∧
    seen a' = up_users (<[(User_TenantID u, User_ID u) := u]> (vw_users (seen a))) (seen a) ∧ same_rest a a'.
Proof.
  intros Hne Hno. apply (call_does _ (Ok u)). intros o' w'. unfold spec, does, zoom, sp_create.
  rewrite decide_False, Hno by done. by intros [= <- <-].
Qed.

Lemma uuid_run (a : A) : ∃ a', new_uuid uuid_at a = (Ok (uuid_at (api_uuids a)), a') ∧ seen a' = seen a.
Proof. by eexists. Qed.

Definition seed_user id hash created updated : User :=
  mkUser id defaultTenantID (SeedOwnerUsername cfg) hash RoleOwner created updated.

(** Seeding where there is no user. *)
Lemma ensureSeed_first (a : A) hash :
  no_users (seen a) → uuid_at (api_uuids a) ≠ "" → GenerateFromPassword (SeedOwnerPassword cfg) = Ok hash →
  ∃ a' created updated, ensureSeed now_at uuid_at cfg a = (Ok tt, a') ∧
    only_user (seed_user (uuid_at (api_uuids a)) hash created updated) (seen a') ∧
    is_Some (vw_tenants (seen a') !! defaultTenantID).
Proof.
  intros Hno Hid Hhash. unfold ensureSeed.
  destruct (list_users_run a) as (l & a1 & E1 & Hs1 & [_ Hu1 _] & Hl).
  erewrite bind_ok by exact E1. rewrite (proj2 Hl Hno). clear l E1 Hl.
  destruct (get_tenant_run defaultTenantID a1) as (a2 & E2 & Hs2 & [_ Hu2 _]).
  erewrite bind_ok by exact E2. rewrite Hs1 in *.
  assert (H3 : ∃ a3, (match (match vw_tenants (seen a) !! defaultTenantID with
                             | Some t => inl t | None => inr ErrNotFound end : Tenant + error) with
           | inr _ => n ← api_now now_at;
                      _ ← call (OpCreateTenant (mkTenant defaultTenantID "default" n)); mret tt
           | inl _ => mret tt
           end : M A unit) a2 = (Ok tt, a3) ∧ api_uuids a3 = api_uuids a ∧
           vw_users (seen a3) = vw_users (seen a) ∧ is_Some (vw_tenants (seen a3) !! defaultTenantID)).
  { destruct (vw_tenants (seen a) !! defaultTenantID) as [t|] eqn:Ht.
    - exists a2. split_and!; [done|by rewrite Hu2|by rewrite Hs2|]. by rewrite Hs2, Ht.
    - destruct (now_run a2) as (b & Eb & Hsb & _ & Hub). erewrite bind_ok by exact Eb.
      destruct (create_tenant_run (mkTenant defaultTenantID "default" (now_at (w_clock (api_world a2)))) b)
        as (b' & Eb' & Hsb' & [_ Hub' _]); [done|by rewrite Hsb, Hs2|].
      erewrite bind_ok by exact Eb'. exists b'. rewrite Hsb'. simpl. rewrite Hsb, Hs2.
      split_and!; [done|congruence|done|]. by rewrite lookup_insert_eq. }
  destruct H3 as (a3 & E3 & Hu3 & Hs3 & Ht3). erewrite bind_ok by exact E3.
  unfold hash_password, mtry. rewrite Hhash.
  erewrite bind_ok by reflexivity.
  destruct (uuid_run a3) as (a4 & E4 & Hs4). erewrite bind_ok by exact E4.
  destruct (now_run a4) as (a5 & E5 & Hs5 & _). erewrite bind_ok by exact E5.
  destruct (now_run a5) as (a6 & E6 & Hs6 & _). erewrite bind_ok by exact E6.
  rewrite Hu3.
  set (created := now_at (w_clock (api_world a4))). set (updated := now_at (w_clock (api_world a5))).
  destruct (create_user_run (seed_user (uuid_at (api_uuids a)) hash created updated) a6)
    as (a7 & E7 & Hs7 & _); [done|by rewrite Hs6, Hs5, Hs4, Hs3; apply Hno|].
  unfold seed_user in E7. erewrite bind_ok by exact E7.
  exists a7, created, updated. split; [done|]. rewrite Hs7. split; [|simpl; by rewrite Hs6, Hs5, Hs4].
  intros i. simpl. rewrite Hs6, Hs5, Hs4, Hs3. case_decide as Hi.
  - rewrite Hi. by rewrite lookup_insert_eq.
  - rewrite lookup_insert_ne; [apply Hno|]. congruence.
Qed.

(** Seeding where there is one. *)
Lemma ensureSeed_again u (a : A) : only_user u (seen a) →
  ∃ a', ensureSeed now_at uuid_at cfg a = (Ok tt, a') ∧ seen a' = seen a.
Proof.
  intros Hu. unfold ensureSeed. destruct (list_users_run a) as (l & a1 & E1 & Hs1 & _ & Hl).
  erewrite bind_ok by exact E1. exists a1. destruct l as [|x l]; [|done].
  pose proof (proj1 Hl eq_refl (User_ID u)) as H. rewrite (Hu (User_ID u)), decide_True in H; done.
Qed.

(** A login after the body is read and the seeding done. *)
Definition login_rest (req : LoginRequest) : M A HttpResponse :=
  u ← call (OpGetUserByUsername defaultTenantID (Login_Username req));
  match u with
  | inr _ => unauthorized "invalid credentials"
  | inl user =>
      if negb (CompareHashAndPassword (PasswordHash user) (Login_Password req))
      then unauthorized "invalid credentials"
      else
        n ← api_now now_at;
        token ← mtry (λ a, (Issue auth n (Username user) (User_ID user) (User_TenantID user)
                              (User_Role user), a));
        match token with
        | inr err => mret (writeError StatusInternalServerError (error_text err))
        | inl token => mret (writeJSON StatusOK (BToken token))
        end
  end.

Lemma handleLogin_eq r req (a : A) :
  decodeJSON dec_LoginRequest (mkLoginRequest "" "") (rq_body r) = Ok req →
  Login_Username req ≠ "" → Login_Password req ≠ "" →
  handleLogin now_at uuid_at auth cfg r a = (_ ← ensureSeed now_at uuid_at cfg; login_rest req) a.
Proof.
  intros Hbody Hn Hp. unfold handleLogin. erewrite bind_ok; [|unfold body, mtry; by rewrite Hbody].
  cbn beta iota. by rewrite (bool_decide_eq_false_2 (Login_Username req = "")), (bool_decide_eq_false_2 (Login_Password req = "")).
Qed.

Lemma login_rest_finds user pw (a : A) :
  only_user user (seen a) → CompareHashAndPassword (PasswordHash user) pw = true →
  (∀ key c, ∃ tok, SignedString key c = Ok tok) →
  ∃ tok a' now, login_rest (mkLoginRequest (Username user) pw) a = (Ok (writeJSON StatusOK (BToken tok)), a') ∧
    seen a' = seen a ∧
    Issue auth now (Username user) (User_ID user) (User_TenantID user) (User_Role user) = Ok tok.
Proof.
  intros Hu Hc Hsign. unfold login_rest. cbn [Login_Username Login_Password].
  destruct (find_user_run defaultTenantID (Username user) a) as (x & a1 & E1 & Hs1 & Hx).
  erewrite bind_ok by exact E1. destruct x as [u|e].
  - destruct Hx as (_ & i & Hi). rewrite (Hu i) in Hi. case_decide; [|done]. injection Hi as <-.
    rewrite Hc. cbn [negb]. destruct (now_run a1) as (a2 & E2 & Hs2 & _).
    erewrite bind_ok by exact E2. set (now := now_at (w_clock (api_world a1))).
    destruct (Issue auth now (Username user) (User_ID user) (User_TenantID user) (User_Role user))
      as [tok|e|w|] eqn:Hi; pose proof Hi as Hi'; unfold Issue in Hi';
      edestruct Hsign as [tok' Htok]; rewrite Htok in Hi'; try done.
    exists tok, a2, now. split_and!; [|by rewrite Hs2|done].
    erewrite bind_ok; [|by unfold mtry]. done.
  - destruct (Hx (User_ID user) user); [|done]. by rewrite (Hu (User_ID user)), decide_True.
Qed.

(** The first login. On a server without a user in the default tenant,
    a login with the configured owner's name and password creates the
    default tenant, unless it is there, and exactly one user, an owner with
    the configured name, and answers a token for that user; a later login
    finds that user and creates nothing. *)
Theorem first_login_seeds_owner r (a : A) hash
    (Hcompare : ∀ p h, GenerateFromPassword p = Ok h → CompareHashAndPassword h p = true)
    (Hsign : ∀ key c, ∃ tok, SignedString key c = Ok tok)
    (Hhash : GenerateFromPassword (SeedOwnerPassword cfg) = Ok hash)
    (Hno : no_users (seen a)) (Hid : uuid_at (api_uuids a) ≠ "")
    (Hname : SeedOwnerUsername cfg ≠ "") (Hpass : SeedOwnerPassword cfg ≠ "")
    (Hbody : decodeJSON dec_LoginRequest (mkLoginRequest "" "") (rq_body r)
             = Ok (mkLoginRequest (SeedOwnerUsername cfg) (SeedOwnerPassword cfg))) :
  ∃ tok a' created updated now,
    let user := seed_user (uuid_at (api_uuids a)) hash created updated in
    handleLogin now_at uuid_at auth cfg r a = (Ok (writeJSON StatusOK (BToken tok)), a') ∧
    only_user user (seen a') ∧ is_Some (vw_tenants (seen a') !! defaultTenantID) ∧
    Issue auth now (SeedOwnerUsername cfg) (uuid_at (api_uuids a)) defaultTenantID RoleOwner = Ok tok ∧
    ∃ tok' a2, handleLogin now_at uuid_at auth cfg r a' = (Ok (writeJSON StatusOK (BToken tok')), a2) ∧
      seen a2 = seen a'.
Proof.
  destruct (ensureSeed_first a hash Hno Hid Hhash) as (a1 & created & updated & E1 & Hu1 & Ht1).
  set (user := seed_user (uuid_at (api_uuids a)) hash created updated) in *.
  assert (Hlogin : ∀ b : A, only_user user (seen b) → ∃ tok b' now,
    login_rest (mkLoginRequest (SeedOwnerUsername cfg) (SeedOwnerPassword cfg)) b
      = (Ok (writeJSON StatusOK (BToken tok)), b') ∧ seen b' = seen b ∧
    Issue auth now (SeedOwnerUsername cfg) (uuid_at (api_uuids a)) defaultTenantID RoleOwner = Ok tok).
  { intros b Hb. apply (login_rest_finds user); [done|by apply Hcompare|done]. }
  destruct (Hlogin a1 Hu1) as (tok & a2 & now & E2 & Hs2 & Hiss).
  exists tok, a2, created, updated, now. cbv zeta. fold user.
  rewrite (handleLogin_eq r _ a Hbody) by done. erewrite bind_ok by exact E1. rewrite Hs2.
  split_and!; [exact E2|done..|].
  rewrite <- Hs2 in Hu1. destruct (ensureSeed_again _ a2 Hu1) as (a3 & E3 & Hs3).
  destruct (Hlogin a3) as (tok' & a4 & now' & E4 & Hs4 & _); [by rewrite Hs3|].
  exists tok', a4. rewrite (handleLogin_eq r _ a2 Hbody) by done. erewrite bind_ok by exact E3.
  split; [exact E4|congruence].
Qed.
End Login.

(** ** Running a flow *)
Section Running.
Context {St Mc Se : Type}.
Context {st_ops : Store St} {st_laws : StoreLaws St}.
Context {mc_ops : Client Mc} {mc_laws : ClientLaws Mc}.
Context {se_ops : SideEffectStore Se} {se_laws : SideEffectLaws Se} {quoting : FmtQuote}.
Context (now_at : nat → Time) (uuid_at : nat → string) (map_order : MapOrder).
Context (time_text : Time → string).
Context (visit : gset nat → list nat) (Hvisit : ∀ s, visit s ≡ₚ elements s).
Abbreviation A := (Api St Mc Se).

Lemma get_flow_run T i fl (a : A) : vw_flows (seen a) !! (T, i) = Some fl →
  ∃ a', call (OpGetFlow T i) a = (Ok (inl fl), a') ∧ seen a' = seen a ∧ same_rest a a'.
Proof.
  intros Hfl. apply (call_does _ (Ok fl)). intros o' w'. unfold spec, does, zoom, sp_get.
  rewrite Hfl. destruct (seen a). by intros [= <- <-].
Qed.

Lemma create_run_run v (a : A) : Run_ID v ≠ "" → vw_runs (seen a) !! (Run_TenantID v, Run_ID v) = None →
  ∃ a', call (OpCreateRun v) a = (Ok (inl v), a') ∧
    seen a' = up_runs (<[(Run_TenantID v, Run_ID v) := v]> (vw_runs (seen a))) (seen a) ∧ same_rest a a'.
Proof.
  intros Hne Hno. apply (call_does _ (Ok v)). intros o' w'. unfold spec, does, zoom, sp_create.
  rewrite decide_False, Hno by done. by intros [= <- <-].
Qed.

Lemma update_run_run v v0 (a : A) : vw_runs (seen a) !! (Run_TenantID v, Run_ID v) = Some v0 →
  ∃ a', call (OpUpdateRun v) a = (Ok (inl v), a') ∧
    seen a' = up_runs (<[(Run_TenantID v, Run_ID v) := v]> (vw_runs (seen a))) (seen a) ∧ same_rest a a'.
Proof.
  intros Hv. apply (call_does _ (Ok v)). intros o' w'. unfold spec, does, zoom, sp_update.
  rewrite Hv. by intros [= <- <-].
Qed.

Lemma broadcast_run T ty p (a : A) : hub_ok (api_hub a) →
  ∃ a', broadcast now_at time_text visit T ty p a = (Ok tt, a') ∧ seen a' = seen a.
Proof.
  intros Hh. unfold broadcast, mbind, M_bind, api_now, on_world. simpl.
  destruct (Broadcast_run time_text visit (now_at (w_clock (api_world a))) T ty p (api_hub a) Hvisit Hh)
    as (h' & -> & _). by eexists.
Qed.

(** From the execution on. *)
Definition finish_run (fl : Flow) (run : Run) : M A HttpResponse :=
  res ← on_world (Execute now_at map_order fl);
  finished ← api_now now_at;
  u ← call (OpUpdateRun (mkRun (Run_ID run) (Run_FlowID run) (Run_TenantID run)
              (Exec_Status res) (Run_StartedAt run) (Some finished) (Exec_Logs res)
              (Exec_Result res)));
  match u with
  | inr err => mret (writeError StatusInternalServerError (error_text err))
  | inl run =>
      _ ← broadcast now_at time_text visit (Flow_TenantID fl) "run_update"
            (VMap {[ "run_id" := VString (Run_ID run); "flow_id" := VString (Flow_ID fl);
                     "status" := VString (Exec_Status res) ]});
      mret (writeJSON StatusOK (BRunID (Run_ID run)))
  end.

Lemma finish_run_cases fl v (a : A) :
  hub_ok (api_hub a) → vw_runs (seen a) !! (Run_TenantID v, Run_ID v) = Some v →
  let '(o, a') := finish_run fl v a in
  match (Execute now_at map_order fl (api_world a)).1 with
  | Ok res => o = Ok (writeJSON StatusOK (BRunID (Run_ID v))) ∧ ∃ finished,
      vw_runs (seen a') !! (Run_TenantID v, Run_ID v)
        = Some (mkRun (Run_ID v) (Run_FlowID v) (Run_TenantID v) (Exec_Status res) (Run_StartedAt v)
                  (Some finished) (Exec_Logs res) (Exec_Result res))
  | Panic why => o = Panic why ∧ vw_runs (seen a') !! (Run_TenantID v, Run_ID v) = Some v
  | _ => False
  end.
Proof using Hvisit mc_laws se_laws.
  intros Hh Hv. pose proof (Execute_cases now_at map_order fl (api_world a)) as Hc.
  pose proof (Execute_reads now_at map_order fl (api_world a)) as Hr.
  unfold finish_run. set (rest := λ res, _ : M A HttpResponse).
  destruct (Execute now_at map_order fl (api_world a)) as [[res|e|why|] w] eqn:E; try done; simpl in Hr.
  - erewrite bind_ok; [|unfold on_world; by rewrite E]. unfold rest.
    set (a1 := mkApi w (api_hub a) (api_uuids a)).
    assert (Hs1 : seen a1 = seen a) by done.
    erewrite bind_ok by reflexivity. cbn [api_world w_clock a1].
    set (a2 := mkApi _ _ _). set (fin := now_at (w_clock w)). assert (Hs2 : seen a2 = seen a) by done.
    edestruct (update_run_run (mkRun (Run_ID v) (Run_FlowID v) (Run_TenantID v) (Exec_Status res)
      (Run_StartedAt v) (Some fin) (Exec_Logs res) (Exec_Result res)) v a2) as (a3 & E3 & Hs3 & [Hh3 _ _]);
      [by rewrite Hs2|].
    erewrite bind_ok by exact E3.
    edestruct (broadcast_run (Flow_TenantID fl) "run_update") as (a4 & E4 & Hs4);
      [by rewrite Hh3|].
    erewrite bind_ok by exact E4. simpl. split; [done|]. exists fin. rewrite Hs4, Hs3. simpl.
    by rewrite lookup_insert_eq.
  - erewrite bind_panic; [|unfold on_world; by rewrite E]. simpl. split; [done|].
    unfold seen in *. simpl. by rewrite Hr.
Qed.

(** C38: Running a flow leaves a record of the run. For an enabled flow of
    the tenant, on a fresh identifier, the handler stores a record with the
    status "running" and executes the flow; when the execution ends, the
    record carries its status, logs and result and a time of finishing, and
    the answer is its identifier, whether the flow succeeded or not; when the
    execution panics, the panic goes on (the router's Recoverer answers) and
    the record says "running" for good. *)
Theorem runFlow_records r (a : A) fl
    (Ha : good a) (Hfl : vw_flows (seen a) !! (tenantFrom r, URLParam r) = Some fl)
    (Hen : Flow_Enabled fl = true)
    (Hid : uuid_at (api_uuids a) ≠ "")
    (Hfree : vw_runs (seen a) !! (tenantFrom r, uuid_at (api_uuids a)) = None) :
  let T := tenantFrom r in
  let id := uuid_at (api_uuids a) in
  let '(o, a') := runFlow now_at uuid_at map_order time_text visit r a in
  ∃ started a1,
    let running := mkRun id (URLParam r) T RunStatusRunning started None [] RawEmpty in
    seen a1 = up_runs (<[(T, id) := running]> (vw_runs (seen a))) (seen a) ∧
    match (Execute now_at map_order fl (api_world a1)).1 with
    | Ok res => o = Ok (writeJSON StatusOK (BRunID id)) ∧ ∃ finished,
        vw_runs (seen a') !! (T, id)
          = Some (mkRun id (URLParam r) T (Exec_Status res) started (Some finished)
                    (Exec_Logs res) (Exec_Result res))
    | Panic why => o = Panic why ∧ vw_runs (seen a') !! (T, id) = Some running
    | _ => False
    end.
Proof.
  intros T id. destruct (coh_flows _ (sane_coherent _ (good_store _ Ha)) _ _ _ Hfl) as (HT & Hi & _).
  destruct (get_flow_run T (URLParam r) fl a Hfl) as (a0 & E0 & Hs0 & [Hh0 Hu0 _]).
  set (started := now_at (w_clock (api_world a0))).
  set (running := mkRun id (URLParam r) T RunStatusRunning started None [] RawEmpty).
  set (a0' := mkApi (mkWorld (w_store (api_world a0)) (w_mcp (api_world a0)) (w_effects (api_world a0))
                       (S (w_clock (api_world a0)))) (api_hub a0) (S (api_uuids a0))).
  assert (Hs0' : seen a0' = seen a) by done.
  destruct (create_run_run running a0') as (a1 & E1 & Hs1 & [Hh1 _ _]); [done|by rewrite Hs0'|].
  assert (Erun : runFlow now_at uuid_at map_order time_text visit r a = finish_run fl running a1).
  { unfold runFlow. erewrite bind_ok by exact E0. cbn beta iota. rewrite Hen. cbn [negb].
    erewrite bind_ok by reflexivity. erewrite bind_ok by reflexivity.
    cbn [api_uuids api_world].
    assert (Hid0 : uuid_at (api_uuids a0) = id) by (by rewrite Hu0). rewrite Hid0.
    change (tenantFrom r) with T in HT. unfold finish_run. rewrite Hi, HT. fold started. fold running.
    by erewrite bind_ok by exact E1. }
  rewrite Erun. pose proof (finish_run_cases fl running a1) as H.
  destruct (finish_run fl running a1) as [o a']. exists started, a1. cbv zeta. fold running.
  split; [by rewrite Hs1, Hs0'|]. apply H.
  - rewrite Hh1. simpl. rewrite Hh0. apply Ha.
  - rewrite Hs1. simpl. by rewrite lookup_insert_eq.
Qed.
End Running.

(** ** Witnesses *)
Lemma routes_roles_witness :
  before_byte "?"%char "f1" = "f1" ∧
  RequiredRole "POST" "/api/v1/flows/f1/run" = RoleOperator.
Proof. split; [reflexivity|]. exact (routes_roles EpRunFlow "f1" eq_refl). Defined.

#[local] Instance owner_jwt_laws : JWTLaws owner_jwt.
Proof.
  refine (Build_JWTLaws owner_jwt (λ _, True) _ _ _).
  - intros kf key c tok Hs Hk _ _ _. left. simpl in *. rewrite Hk. simpl.
    destruct (bool_decide (key = "k")); [|done]. simpl in *.
    case_bool_decide as Hc; [|done]. injection Hs as <-. by rewrite Hc.
  - intros key c tok Hs. simpl in Hs. case_if; [|done]. injection Hs as <-. by vm_compute.
  - repeat constructor.
Defined.

Definition sample_login (jwt : JWT) :=
  handleLogin (bcrypt := sample_bcrypt) Z.of_nat sample_uuid (NewManager "k" 1%Z) sample_seed login_request
    sample_api.

Lemma login_token_serves_witness :
  ∃ user, sample_login owner_jwt = (Ok (writeJSON StatusOK (BToken "owner-token")), (sample_login owner_jwt).2) ∧
    Username user = "admin" ∧
    vw_users (seen (sample_login owner_jwt).2) !! (defaultTenantID, User_ID user) = Some user.
Proof.
  assert (E : sample_login owner_jwt
    = (Ok (writeJSON StatusOK (BToken "owner-token")), (sample_login owner_jwt).2))
    by (vm_compute; reflexivity).
  destruct (login_token_serves (jwt := owner_jwt) (bcrypt := sample_bcrypt) Z.of_nat sample_uuid sorted_order sample_parse_time
    sample_time_text sample_visit (NewManager "k" 1%Z) sample_seed login_request sample_api
    (sample_login owner_jwt).2 "owner-token" sample_good ltac:(intros ? ? ?; repeat constructor) E)
    as (req & user & Hreq & Hn & _ & Hu & _).
  exists user. split; [exact E|]. split; [|exact Hu].
  rewrite Hn. vm_compute in Hreq. injection Hreq as <-. reflexivity.
Defined.

Lemma first_login_seeds_owner_witness :
  ∃ tok a', sample_login signing_jwt = (Ok (writeJSON StatusOK (BToken tok)), a') ∧
    is_Some (vw_tenants (seen a') !! defaultTenantID).
Proof.
  destruct (first_login_seeds_owner (jwt := signing_jwt) (bcrypt := sample_bcrypt) Z.of_nat sample_uuid
    (NewManager "k" 1%Z) sample_seed login_request sample_api "hash of secret")
    as (tok & a' & _ & _ & _ & E & _ & Ht & _).
  - intros p h [= <-]. by apply bool_decide_eq_true_2.
  - intros. by exists "token".
  - reflexivity.
  - intros i. apply flat_empty.
  - vm_compute. discriminate.
  - discriminate.
  - discriminate.
  - vm_compute. reflexivity.
  - exists tok, a'. split; [exact E|exact Ht].
Defined.

Definition sample_run :=
  runFlow (st_ops := sample_store) Z.of_nat sample_uuid sorted_order sample_time_text sample_visit
    run_request flow_api.

Lemma runFlow_records_witness :
  ∃ run, sample_run.1 = Ok (writeJSON StatusOK (BRunID "id-0")) ∧
    vw_runs (seen sample_run.2) !! ("t1", "id-0") = Some run ∧ Run_Status run = RunStatusSuccess.
Proof.
  assert (Ho : sample_run.1 = Ok (writeJSON StatusOK (BRunID "id-0"))) by (vm_compute; reflexivity).
  assert (Hs : Run_Status <$> (vw_runs (seen sample_run.2) !! ("t1", "id-0")) = Some RunStatusSuccess)
    by (vm_compute; reflexivity).
  pose proof (runFlow_records Z.of_nat sample_uuid sorted_order sample_time_text sample_visit sample_visit_ok
    run_request flow_api (sample_flow "report" "result.kind == 'db'") flow_api_good
    ltac:(vm_compute; reflexivity) eq_refl ltac:(vm_compute; discriminate) ltac:(vm_compute; reflexivity)) as H.
  cbv zeta in H. fold sample_run in H. destruct sample_run as [o a']. cbn [fst snd] in *. subst o.
  destruct H as (started & a1 & _ & H).
  destruct (Execute _ _ _ _).1 as [res|e|w|]; [|contradiction|by destruct H|contradiction].
  destruct H as (_ & fin & Hrun). eexists. split; [reflexivity|]. split; [exact Hrun|].
  change (tenantFrom run_request) with "t1" in Hrun. change (sample_uuid (api_uuids flow_api)) with "id-0" in Hrun.
  rewrite Hrun in Hs. by injection Hs.
Defined.
