(* ===== verification/ApiTasks.v ===== *)
(** * Creating a task (internal/api/tasks.go)

    What a client that posts a task gets, on top of the theorems about
    [Distribute]: the task can be read back under the identifier in the
    response, and its update is broadcast to its tenant.  And what happens
    when the store refuses the updates. *)
From S2P Require Import Prelude GoStr GoValue GoSort GoFmt Json Model Store StoreSpec StoreProps.
From S2P Require Import Mcp SideEffects Engine EngineProps Auth Hub Decomposer Threads Orchestrator.
From S2P Require Import OrchestratorTheory OrchestratorProps DistributeProps Codec Api Tenants ApiTheory ApiSamples.

Lemma addressed_tenant h t c x : t ≠ "" → addressed h t c x ↔ c ∈ clients h ∧ tenant x = t.
Proof. unfold addressed. tauto. Qed.

Lemma addressed_all h c x : addressed h "" c x ↔ c ∈ clients h.
Proof. unfold addressed. tauto. Qed.

Section Tasks.
Context {St Mc Se : Type}.
Context {st_ops : Store St} {slices : TaskSlices St} {mc_ops : Client Mc} {quoting : FmtQuote}.
Context (now_at : nat → Time) (uuid_at : nat → string) (unicode_lower : string → string).
Context (time_text : Time → string).
Context (visit : gset nat → list nat) (Hvisit : ∀ s, visit s ≡ₚ elements s).
Context (o : Orchestrator).
Abbreviation A := (Api St Mc Se).
Abbreviation create := (createTask now_at uuid_at unicode_lower time_text visit o).

Lemma task_update_encodes task t now :
  ∃ data, encode_message time_text (mkMsg "task_update" t (task_update task) now) = Ok data.
Proof. eexists. reflexivity. Qed.

(** The broadcast at the end, on a hub in order. *)
Lemma task_broadcast task (a : A) :
  hub_ok (api_hub a) →
  ∃ now data a', broadcast now_at time_text visit (Task_TenantID task) "task_update" (task_update task) a
      = (Ok tt, a') ∧
    encode_message time_text (mkMsg "task_update" (Task_TenantID task) (task_update task) now) = Ok data ∧
    w_store (api_world a') = w_store (api_world a) ∧
    ∀ c x, objects (api_hub a) !! c = Some x →
      objects (api_hub a') !! c =
        Some (if decide (addressed (api_hub a) (Task_TenantID task) c x) then offer data x else x).
Proof.
  intros Hh. set (now := now_at (w_clock (api_world a))).
  destruct (task_update_encodes task (Task_TenantID task) now) as [data Hd].
  unfold broadcast, mbind, M_bind, api_now, on_world. simpl. fold now.
  destruct (Broadcast_run time_text visit now (Task_TenantID task) "task_update" (task_update task)
    (api_hub a) Hvisit Hh) as (h' & -> & _ & _ & _ & Hobj).
  eexists now, data, _. split_and!; [done|done|done|]. intros c x Hx. simpl. by rewrite (Hobj c x Hx), Hd.
Qed.
End Tasks.

(** ** Creating a task and reading it back *)
Section Created.
Context {St Mc Se : Type}.
Context {st_ops : Store St} {st_laws : StoreLaws St} {slices : TaskSlices St} {slice_laws : TaskSliceLaws St}.
Context {mc_ops : Client Mc} {mc_laws : ClientLaws Mc} {quoting : FmtQuote}.
Context (now_at : nat → Time) (uuid_at : nat → string) (unicode_lower : string → string).
Context (time_text : Time → string).
Context (visit : gset nat → list nat) (Hvisit : ∀ s, visit s ≡ₚ elements s).
Context (o : Orchestrator).
Abbreviation A := (Api St Mc Se).
Abbreviation create := (createTask now_at uuid_at unicode_lower time_text visit o).

Lemma get_task_run T i t (a : A) : vw_tasks (view (w_store (api_world a))) !! (T, i) = Some t →
  ∃ a', call (OpGetTask T i) a = (Ok (inl t), a').
Proof.
  intros Ht. destruct (call_does (OpGetTask T i) (Ok t) (seen a) a) as (a' & E & _); [|by exists a'].
  intros o' w'. unfold spec, does, zoom, sp_get, seen. rewrite Ht.
  destruct (view (w_store (api_world a))). by intros [= <- <-].
Qed.

(** C28: What a client gets that posts a task. If the answer to a request to
    create a task is 200, whatever the goroutines of [Distribute] and the
    other requests did meanwhile, then: its body is the identifier of a task
    with the text that was posted, which is over (a success or failed); the
    same client, asking for that identifier, is answered that task; and the
    registered clients of the tenant, and no others, were sent its update. *)
Theorem createTask_then_getTask r (a : A) resp (a' : A)
    (Hw : (1 ≤ o_workers o)%Z) (HT : tenantFrom r ≠ "") (Hhub : hub_ok (api_hub a))
    (Hrun : create r a resp a') (Hok : Status resp = StatusOK) :
  let T := tenantFrom r in
  let id := uuid_at (api_uuids a) in
  ∃ text task h now data,
    decodeJSON dec_TaskRequest "" (rq_body r) = Ok text ∧ text ≠ "" ∧
    Payload resp = BTaskID id ∧
    Task_ID task = id ∧ Task_TenantID task = T ∧ Task_Input task = text ∧
    (Task_Status task = TaskStatusSuccess ∨ Task_Status task = TaskStatusFailed) ∧
    (∀ q, tenantFrom q = T → URLParam q = id → (getTask q a').1 = Ok (writeJSON StatusOK (BTask task))) ∧
    rtc (hub_step time_text) (api_hub a) h ∧
    encode_message time_text (mkMsg "task_update" T (task_update task) now) = Ok data ∧
    ∀ c x, objects h !! c = Some x →
      objects (api_hub a') !! c =
        Some (if decide (c ∈ clients h ∧ tenant x = T) then offer data x else x).
Proof.
  intros T id.
  destruct Hrun as [e _|_|ctx text err d1 se h n _ _ _ _|ctx text task d2 se h n Hdec Hne Hd Hh];
    [done|done|done|].
  destruct (distributes_outcome now_at unicode_lower o _ _ _ _ _ _ Hw Hd)
    as (Hid & Ht & Hin & Hst & _ & outs & _ & _ & _ & _ & Hstatus & _).
  assert (HTT : tenantFromCtx (tenantFrom r) = T) by (unfold tenantFromCtx; by rewrite bool_decide_eq_false_2).
  rewrite HTT in *.
  destruct (task_broadcast now_at time_text visit Hvisit task (task_api d2 se h n))
    as (now & data & a2 & E & Hdata & Hs & Hobj); [by eapply hub_steps_ok|].
  rewrite E. simpl. exists text, task, h, now, data. rewrite Ht in *.
  split; [exact Hdec|]. split; [exact Hne|]. split; [by rewrite Hid|]. split; [exact Hid|].
  split; [done|]. split; [exact Hin|]. split_and!; [| |exact Hh|exact Hdata|].
  - rewrite Hstatus. unfold final_status. case_bool_decide; auto.
  - intros q Hq Hi. destruct (get_task_run T id task a2) as (a3 & E3); [by rewrite Hs|].
    unfold getTask. rewrite Hq, Hi. by erewrite bind_ok by exact E3.
  - intros c x Hx. rewrite (Hobj c x Hx). simpl. f_equal.
    exact (decide_ext _ _ _ _ (addressed_tenant _ _ _ _ HT)).
Qed.
End Created.

(** ** A store that refuses updates

    [lost] says that [UpdateTask] fails, as it does when the database is
    away; the error is dropped by [Distribute]. *)
Section Lost.
Context {St Mc Se : Type}.
Context {st_ops : Store St} {slices : TaskSlices St} {mc_ops : Client Mc} {quoting : FmtQuote}.
Context (now_at : nat → Time) (uuid_at : nat → string) (unicode_lower : string → string).
Context (time_text : Time → string).
Context (visit : gset nat → list nat) (Hvisit : ∀ s, visit s ≡ₚ elements s).
Context (o : Orchestrator).
Abbreviation A := (Api St Mc Se).
Abbreviation create := (createTask now_at uuid_at unicode_lower time_text visit o).

Definition lost : Prop := ∀ t (s : St), ∃ e, (store_exec (OpUpdateTask t) s).1 = Err e.

Lemma lost_update (d : Data St Mc) v : lost → ∃ e d', mtry (store_task OpUpdateTask v) d = (Ok (inr e), d').
Proof.
  intros Hl. unfold mtry, store_task, mbind, M_bind, mget, in_store.
  destruct (Hl (deref d v) (d_store d)) as [e He].
  destruct (store_exec (OpUpdateTask (deref d v)) (d_store d)) as [r s]. simpl in He. subst r. by do 2 eexists.
Qed.

Lemma prepare_lost ct newID text (d : Data St Mc) v specs d1 :
  lost → prepare now_at unicode_lower ct newID text d = (Ok (v, specs), d1) → v = mkTaskVar zero_Task false.
Proof.
  intros Hl H. unfold prepare in H. inv_ok.
  match goal with
  | E : mtry (store_task OpUpdateTask ?w) ?x = (Ok ?r, _) |- _ =>
      destruct (lost_update x w Hl) as (e & x' & E'); rewrite E' in E; injection E as <- _
  end. done.
Qed.

Lemma finalize_lost (d : Data St Mc) task d2 :
  lost → finalize now_at (mkTaskVar zero_Task false) d = (Ok task, d2) →
  Task_ID task = "" ∧ Task_TenantID task = "".
Proof.
  intros Hl H. unfold finalize in H. apply bind_Ok_inv in H as (x & d1 & E1 & H).
  injection E1 as <- <-. cbn beta in H. destruct (tally 0 _) as [failed lines].
  apply bind_Ok_inv in H as (u & d3 & _ & H). apply bind_Ok_inv in H as (r & d4 & E & H).
  match type of E with mtry (store_task OpUpdateTask ?w) ?x = _ =>
    destruct (lost_update x w Hl) as (e & x' & E'); rewrite E' in E; injection E as <- <- end.
  apply bind_Ok_inv in H as (y & d5 & Ey & H). injection Ey as <- <-. injection H as <- _.
  by split.
Qed.

(** When the store refuses the updates of a task, [Distribute] works
    with an empty task and reports no error: the client that posted the task
    is answered 200 with an empty identifier, and the update, whose tenant
    is empty, is sent to the registered clients of every tenant. *)
Theorem lost_updates_reach_everyone r (a : A) resp (a' : A)
    (Hlost : lost) (Hhub : hub_ok (api_hub a))
    (Hrun : create r a resp a') (Hok : Status resp = StatusOK) :
  Payload resp = BTaskID "" ∧
  ∃ h status now data,
    rtc (hub_step time_text) (api_hub a) h ∧
    encode_message time_text (mkMsg "task_update" ""
      (VMap {[ "task_id" := VString ""; "status" := VString status ]}) now) = Ok data ∧
    ∀ c x, objects h !! c = Some x →
      objects (api_hub a') !! c = Some (if decide (c ∈ clients h) then offer data x else x).
Proof.
  destruct Hrun as [e _|_|ctx text err d1 se h n _ _ _ _|ctx text task d2 se h n Hdec Hne Hd Hh];
    [done|done|done|].
  destruct Hd as [v specs d1 ps d' task d2 ->%prepare_lost _ Hf]; [|done].
  apply finalize_lost in Hf as [Hid Ht]; [|done].
  destruct (task_broadcast now_at time_text visit Hvisit task (task_api d2 se h n))
    as (now & data & a2 & E & Hdata & _ & Hobj); [by eapply hub_steps_ok|].
  rewrite E. simpl. rewrite Hid. split; [done|].
  unfold task_update in Hdata. rewrite Ht, Hid in *.
  exists h, (Task_Status task), now, data. split; [exact Hh|]. split; [exact Hdata|].
  intros c x Hx. rewrite (Hobj c x Hx). simpl. f_equal.
  exact (decide_ext _ _ _ _ (addressed_all _ _ _)).
Qed.
End Lost.

(** ** Witnesses *)
Definition demo_api : Api Memory MockClient MemorySideEffectStore :=
  mkApi (mkWorld demo_store NewMockClient (NewMemorySideEffectStore 0) 0) NewHub 0.

Definition demo_claims : Claims :=
  mkClaims "default" RoleOwner "u1" (mkRegisteredClaims "ada" 0%Z 0%Z "agent-hub-core").

Definition task_request : HttpRequest :=
  mkHttpRequest (WithClaims (sample_request "POST" "/api/v1/tasks") demo_claims) "n1"
    (RawDoc (JObj [("task", JStr "the report")])).

Definition demo_createTask := createTask (st_ops := Memory_Store demo_order) (mc_ops := demo_client)
  (quoting := plain_quote) (Se := MemorySideEffectStore) Z.of_nat (λ _, "n1") id sample_time_text sample_visit
  (New []).

Lemma createTask_then_getTask_witness :
  ∃ resp a' task, demo_createTask task_request demo_api resp a' ∧
    (getTask (st_ops := Memory_Store demo_order) task_request a').1 = Ok (writeJSON StatusOK (BTask task)) ∧
    Task_Input task = "the report".
Proof.
  pose proof demo_laws as Hl.
  destruct (distributes_exists (st_ops := Memory_Store demo_order) (mc_ops := demo_client)
    (quoting := plain_quote) Z.of_nat id (New []) "default" "n1" "the report" demo_data)
    as (task & d2 & Hr); [by vm_compute|done|exact demo_free|].
  pose proof (task_done (Se := MemorySideEffectStore) (st_ops := Memory_Store demo_order) (mc_ops := demo_client)
    (quoting := plain_quote) Z.of_nat (λ _, "n1") id sample_time_text sample_visit (New [])
    task_request demo_api None "the report" task d2 (NewMemorySideEffectStore 0) NewHub 1
    ltac:(vm_compute; reflexivity) ltac:(discriminate) Hr (rtc_refl _ _)) as Hc.
  destruct (createTask_then_getTask (Se := MemorySideEffectStore) (st_ops := Memory_Store demo_order)
    (mc_ops := demo_client) (quoting := plain_quote) Z.of_nat (λ _, "n1") id sample_time_text sample_visit
    sample_visit_ok (New []) task_request demo_api _ _ ltac:(by vm_compute) ltac:(discriminate) NewHub_ok Hc eq_refl)
    as (text & t & h & now & data & Htext & _ & _ & _ & _ & Hin & _ & Hget & _).
  do 3 eexists. split; [exact Hc|]. split; [exact (Hget task_request eq_refl eq_refl)|].
  rewrite Hin. vm_compute in Htext. by injection Htext.
Defined.

(** The in-memory store, but for the updates of tasks. *)
Definition lossy_exec : Store Memory := λ A op,
  match op in StoreOp A return M Memory A with
  | OpUpdateTask _ => λ s, (Err (ErrorsNew "connection refused"), s)
  | op' => Memory_Store sorted_order _ op'
  end.

Lemma lossy_lost : lost (st_ops := lossy_exec).
Proof. intros t s. by eexists. Qed.

(** A run of the pool for one subtask without an agent. *)
Lemma lone_run `{Store St} `{TaskSlices St} `{Client Mc} `{FmtQuote} spec (d : Data St Mc) :
  Spec_AgentID spec = "" → d_ctx d = None → d_sem d = 0%Z → d_wg d = 0%Z → length (d_results d) = 1 →
  ∃ ps d', rtc (machine_step Z.of_nat (New []) (mkTaskVar zero_Task false) [spec]) (start d)
    (mkMachine Finished ps d').
Proof.
  intros Hspec Hctx Hsem Hwg Hlen.
  assert (Hrun : runSubtask Z.of_nat (New []) (mkTaskVar zero_Task false) 0 spec
    = Ret (mkOutcome 0 "" (Some (ErrorsNew "no matching agent for subtask")))).
  { unfold runSubtask. by rewrite Hspec. }
  do 2 eexists. unfold start.
  eapply rtc_l; [apply step_own, own_main, main_live; [simpl; lia|done]|].
  eapply rtc_l; [apply step_own, own_main, main_spawn; [done|simpl; rewrite Hsem; by vm_compute]|].
  rewrite Hrun. simpl app.
  eapply rtc_l; [apply step_own; eapply (own_go _ _ _ _ _ _ 0); [done|apply go_result; simpl; lia]|].
  eapply rtc_l; [apply step_own; eapply (own_go _ _ _ _ _ _ 0); [done|apply go_release]|].
  eapply rtc_l; [apply step_own; eapply (own_go _ _ _ _ _ _ 0); [done|apply go_done]|].
  eapply rtc_l; [apply step_own, own_main, main_loop_end; simpl; lia|].
  eapply rtc_l; [apply step_own, own_main, main_waited; simpl; lia|].
  apply rtc_refl.
Qed.

Lemma lost_finalize_runs `{Store St} `{Client Mc} (d : Data St Mc) v :
  lost (st_ops := _ : Store St) → ∃ task d2, finalize Z.of_nat v d = (Ok task, d2).
Proof.
  intros Hl. unfold finalize. erewrite bind_ok by reflexivity. cbn beta.
  destruct (tally 0 _) as [failed lines]. erewrite bind_ok by reflexivity. cbn beta.
  match goal with |- context [(mtry (store_task OpUpdateTask ?w) ≫= _) ?x] =>
    destruct (lost_update x w Hl) as (e & d' & E) end.
  erewrite bind_ok by exact E. cbn beta. erewrite bind_ok by reflexivity. by do 2 eexists.
Qed.

(** What [Distribute] makes of a text when there is no agent. *)
Lemma lossy_prepared :
  ∃ spec d1, prepare (st_ops := lossy_exec) (Mc := MockClient) Z.of_nat id "default" "n1" "the report"
      (task_data None sample_api) = (Ok (mkTaskVar zero_Task false, [spec]), d1) ∧
    Spec_AgentID spec = "" ∧ d_ctx d1 = None ∧ d_sem d1 = 0%Z ∧ d_wg d1 = 0%Z ∧ length (d_results d1) = 1.
Proof. do 2 eexists. split_and!; vm_compute; reflexivity. Qed.

Lemma lost_updates_reach_everyone_witness :
  ∃ resp a', createTask (st_ops := lossy_exec) (mc_ops := demo_client) (quoting := plain_quote)
      (Se := MemorySideEffectStore) Z.of_nat (λ _, "n1") id sample_time_text sample_visit (New [])
      task_request sample_api resp a' ∧
    Payload resp = BTaskID "".
Proof.
  destruct lossy_prepared as (spec & d1 & Hp & Hspec & Hctx & Hsem & Hwg & Hlen).
  destruct (lone_run (H := lossy_exec) (H1 := demo_client) (H2 := plain_quote) spec d1 Hspec Hctx Hsem Hwg Hlen)
    as (ps & d' & Hrun).
  destruct (lost_finalize_runs (H := lossy_exec) (H0 := demo_client) d' (mkTaskVar zero_Task false) lossy_lost)
    as (task & d2 & Hf).
  pose proof (distributes_intro (st_ops := lossy_exec) (mc_ops := demo_client) (quoting := plain_quote)
    Z.of_nat id (New []) "default" "n1" "the report" _ _ _ _ _ _ _ _ Hp Hrun Hf) as Hd.
  pose proof (task_done (Se := MemorySideEffectStore) (st_ops := lossy_exec) (mc_ops := demo_client)
    (quoting := plain_quote) Z.of_nat (λ _, "n1") id sample_time_text sample_visit (New [])
    task_request sample_api None "the report" task d2 (NewMemorySideEffectStore 0) NewHub 1
    ltac:(vm_compute; reflexivity) ltac:(discriminate) Hd (rtc_refl _ _)) as Hc.
  do 2 eexists. split; [exact Hc|].
  exact (proj1 (lost_updates_reach_everyone (st_ops := lossy_exec) (mc_ops := demo_client)
    (quoting := plain_quote) Z.of_nat (λ _, "n1") id sample_time_text sample_visit sample_visit_ok (New [])
    task_request sample_api _ _ lossy_lost NewHub_ok Hc eq_refl)).
Defined.
