(* ===== verification/PoolTenants.v ===== *)
(** * The worker pool and the tenants (internal/orchestrator)

    What [Distribute] does of its own concerns the tenant of its task only,
    over every store with [TenantLaws]: before the pool, in every step of it,
    whatever the rest of the program does in between, and at the end. *)
From S2P Require Import Prelude GoStr GoValue GoSort GoFmt Json Model Store StoreSpec StoreProps.
From S2P Require Import SideEffects Mcp Decomposer Threads Orchestrator OrchestratorTheory OrchestratorProps DistributeProps Tenants.

(** A write to the array of subtasks, as far as the store shows it, is a
    write to the tenant of the task. *)
Class TouchLaws (S : Type) `{TenantStore S} `{TaskSlices S} :=
  touch_tenant t i l (s : S) : st_inv s → st_inv (touch t i l s) ∧ st_touched t s (touch t i l s).

Section Pool.
Context {St Mc : Type}.
Context {st_ops : Store St} {st_tenants : TenantStore St} {st_laws : TenantLaws St}.
Context {slices : TaskSlices St} {touch_laws : TouchLaws St}.
Context {mc_ops : Client Mc} {quoting : FmtQuote}.
Context (now_at : nat → Time) (unicode_lower : string → string) (o : Orchestrator).
Context (T : string) (HT : st_tenant T).
Abbreviation D := (Data St Mc).
Abbreviation machine := (@machine St Mc).
Implicit Types (d : D) (v : taskVar) (m : machine).

(** ** Actions and bodies *)
Definition tidy_move d d' : Prop := st_inv (d_store d') ∧ st_touched T (d_store d) (d_store d').

Definition acts {B} (m : M D B) (Q : B → Prop) : Prop := ∀ d,
  st_inv (d_store d) → tidy_move d (m d).2 ∧ ∀ b, (m d).1 = Ok b → Q b.

Fixpoint tidy {B} (Q : B → Prop) (p : proc D B) : Prop :=
  match p with
  | Ret b => Q b
  | Act m k => acts m (λ b, tidy Q (k b))
  end.

Lemma acts_mono {B} (m : M D B) (Q R : B → Prop) : acts m Q → (∀ b, Q b → R b) → acts m R.
Proof. intros H HQ d Hd. destruct (H d Hd) as [? ?]. auto. Qed.

Lemma tidy_move_trans d1 d2 d3 : tidy_move d1 d2 → tidy_move d2 d3 → tidy_move d1 d3.
Proof using st_laws. intros [_ H1] [Hi H2]. split; [done|]. by eapply touched_trans. Qed.

Lemma acts_bind {B C} (m : M D B) (k : B → M D C) Q R :
  acts m Q → (∀ b, Q b → acts (k b) R) → acts (m ≫= k) R.
Proof using st_laws.
  intros Hm Hk d Hd. destruct (Hm d Hd) as [Hmv HQ]. unfold mbind, M_bind.
  destruct (m d) as [[b|e|w|] d1]; simpl in *; try done.
  destruct (Hk b (HQ b eq_refl) d1 (proj1 Hmv)) as [? ?]. split; [by eapply tidy_move_trans|done].
Qed.

Lemma acts_try {B} (m : M D B) Q :
  acts m Q → acts (mtry m) (λ r, match r with inl b => Q b | inr _ => True end).
Proof.
  intros H d Hd. destruct (H d Hd) as [? HQ]. unfold mtry.
  destruct (m d) as [[b|e|w|] d1]; simpl in *; (split; [done|]); intros ? [= <-]; auto.
Qed.

(** An action that leaves what is stored. *)
Lemma acts_same {B} (m : M D B) : (∀ d, st_same (d_store d) (d_store (m d).2)) → acts m (λ _, True).
Proof using st_laws.
  intros H d Hd. split; [|done]. split; [by eapply same_inv|by apply same_touched].
Qed.

Lemma acts_quiet {B} (m : M D B) : (∀ d, d_store (m d).2 = d_store d) → acts m (λ _, True).
Proof using st_laws. intros H. apply acts_same. intros d. rewrite H. apply same_refl. Qed.

Lemma tidy_bind {B C} (p : proc D B) (k : B → proc D C) Q R :
  tidy Q p → (∀ b, Q b → tidy R (k b)) → tidy R (p ≫= k).
Proof.
  intros Hp Hk. induction p as [b|X m f IH]; simpl in *; [by apply Hk|].
  eapply acts_mono; [exact Hp|]. intros x. apply IH.
Qed.

Lemma tidy_mono {B} (p : proc D B) Q R : tidy Q p → (∀ b, Q b → R b) → tidy R p.
Proof.
  intros Hp HQ. induction p as [b|X m f IH]; simpl in *; [by apply HQ|].
  eapply acts_mono; [exact Hp|]. intros x. apply IH.
Qed.

(** ** The actions of the pool *)
Lemma store_acts {B} (op : StoreOp B) :
  op_tenant op = Some T → op_sound st_flow_ok st_user_ok op → creates_run op = false →
  acts (in_store op) (λ b, of_tenant op b ∧ op_result st_flow_ok st_user_ok op b).
Proof using st_laws HT.
  intros Ht Hs Hdel d Hd. unfold in_store, tidy_move.
  pose proof (exec_tenant op T (d_store d) (or_introl Ht) HT Hd Hs ltac:(by destruct op)) as H.
  destruct (store_exec op (d_store d)) as [r s]. destruct H as (? & ? & Hr). simpl. by split_and!.
Qed.

Lemma agent_acts t i : acts (in_store (OpGetAgent t i)) (λ _, True).
Proof using st_laws.
  apply acts_same. intros d. unfold in_store. pose proof (agent_same t i (d_store d)) as H.
  by destruct (store_exec _ _).
Qed.

Lemma server_acts t i : acts (in_store (OpGetMcpServer t i)) (λ _, True).
Proof using st_laws.
  apply acts_same. intros d. unfold in_store. pose proof (server_same t i (d_store d)) as H.
  by destruct (store_exec _ _).
Qed.

Lemma mcp_acts {B} (op : M Mc B) : acts (in_mcp op) (λ _, True).
Proof using st_laws. apply acts_quiet. intros d. unfold in_mcp. by destruct (op (d_mcp d)). Qed.

Definition tenant_of v : string := Task_TenantID (tv_task v).

(** [UpdateTask] and [CreateTask] answer the task they were given. *)
Lemma task_acts (op : Task → StoreOp Task) v :
  op = OpUpdateTask ∨ op = OpCreateTask → tenant_of v = T → acts (store_task op v) (λ v', tenant_of v' = T).
Proof using st_laws HT.
  intros Hop Hv d Hd. unfold store_task, mbind, M_bind, mget.
  assert (Hd' : Task_TenantID (deref d v) = T) by (unfold deref; by case_match).
  assert (H : acts (in_store (op (deref d v))) (λ x, x = deref d v)).
  { destruct Hop as [-> | ->]; (eapply acts_mono; [apply store_acts; simpl; by rewrite ?Hd'|]); by intros b [_ ->]. }
  destruct (H d Hd) as [Hmv HQ]. destruct (in_store _ d) as [[x|e|w|] d1]; simpl in *; (split; [done|]);
    intros v' E; simplify_eq. rewrite (HQ x eq_refl). done.
Qed.

Lemma write_acts v idx status result : tenant_of v = T → acts (write_subtask v idx status result) (λ _, True).
Proof using touch_laws st_laws.
  intros Hv d Hd. unfold write_subtask. destruct (_ !! idx); simpl.
  - unfold tenant_of in Hv. rewrite Hv. split; [|done]. by apply touch_tenant.
  - split; [|done]. split; [done|]. apply same_touched, same_refl.
Qed.

(** The variable holds a task of the tenant, or the empty task after an
    update that was lost. *)
Definition own_var v : Prop := tenant_of v = T ∨ tenant_of v = "".

Lemma mark_tidy v idx status result :
  own_var v → tidy own_var (markStatus now_at v idx status result).
Proof using touch_laws st_laws HT.
  intros Hv. unfold markStatus. case_bool_decide as Hne; [done|].
  destruct Hv as [Hv|Hv]; [|done].
  simpl. eapply acts_mono; [by apply write_acts|]. intros [] _.
  eapply acts_mono; [by apply acts_quiet|]. intros u _.
  eapply acts_mono; [apply acts_try, task_acts; auto|].
  intros [v'|e] H; left; [exact H|exact Hv].
Qed.

Lemma skills_tidy idx t spec agent skills outs :
  tidy (λ _, True) (call_skills (st_ops := st_ops) o idx t spec agent skills outs).
Proof using st_laws.
  revert outs. induction skills as [|skill rest IH]; intros outs; [done|]. cbn [call_skills].
  eapply tidy_bind; [apply acts_quiet; done|]. intros [e|] _; [done|].
  eapply tidy_bind; [apply acts_try, server_acts|]. intros [server|e] _; [|done].
  eapply tidy_bind; [apply acts_try, acts_quiet; done|]. intros [tr|e] _; [|done].
  eapply tidy_bind; [apply acts_try, mcp_acts|]. intros [res|e] _; [|done]. apply IH.
Qed.

Lemma run_tidy v idx spec :
  own_var v → tidy (λ _, True) (runSubtask now_at o v idx spec).
Proof using touch_laws st_laws HT.
  intros Hv.
  assert (Hfail : ∀ v' r e, own_var v' → tidy (λ _, True) (fail_subtask now_at v' idx r e)).
  { intros v' r e Hv'. eapply tidy_bind; [by apply mark_tidy|]. done. }
  unfold runSubtask. case_bool_decide; [by apply Hfail|].
  eapply tidy_bind; [apply acts_try, agent_acts|]. intros [agent|e] _; [|by apply Hfail].
  eapply tidy_bind; [by apply mark_tidy|]. intros v1 Hv1.
  eapply tidy_bind; [apply acts_quiet; intros d; unfold with_timeout; simpl; by case_match|]. intros [] _.
  eapply tidy_bind; [apply skills_tidy|]. intros [outs err] _.
  eapply (tidy_bind _ _ (λ _, True)); [destruct err; [done|by apply acts_quiet]|]. intros [e|] _; [by apply Hfail|].
  eapply tidy_bind; [by apply mark_tidy|]. done.
Qed.

(** ** The machine *)

(** A step of the pool, or one of the rest of the program that keeps the
    store in order. *)
Inductive shared_step v specs : machine → machine → Prop :=
  | shared_own m m' : own_step now_at o v specs m m' → shared_step v specs m m'
  | shared_env c ps d d' :
      env_step (tenant_of v) (Task_ID (tv_task v)) d d' →
      (st_inv (d_store d) → st_inv (d_store d')) →
      shared_step v specs (mkMachine c ps d) (mkMachine c ps d').

Record tidy_machine m : Prop := {
  tm_store : st_inv (d_store (data m));
  tm_pool n i p : pool m !! n = Some (i, Running p) → tidy (λ _, True) p
}.

Lemma go_tidy ps n i g g' d d' c :
  ps !! n = Some (i, g) → go_step i g d g' d' → tidy_machine (mkMachine c ps d) →
  tidy_move d d' ∧ tidy_machine (mkMachine c (<[n := (i, g')]> ps) d').
Proof using st_laws.
  intros Hn Hs [Hd Hp]. simpl in *.
  assert (Hrest : ∀ d2, st_inv (d_store d2) → (∀ p, g' = Running p → tidy (λ _, True) p) →
    tidy_machine (mkMachine c (<[n := (i, g')]> ps) d2)).
  { intros d2 H2 Hg. split; [done|]. simpl. intros n' i' p [(-> & E & _)|[_ Hk]]%list_lookup_insert_Some.
    - injection E as _ ->. by apply Hg.
    - by eapply Hp. }
  assert (Hsame : tidy_move d d) by (split; [done|apply same_touched, same_refl]).
  destruct Hs as [p d p' d' Hp'|out d Hi|d|d]; [|by split; [|apply Hrest]..].
  specialize (Hp n i p Hn). destruct p as [a|B m k]; simpl in Hp'; [done|].
  destruct (Hp d Hd) as [Hmv Hk]. destruct (m d) as [[b|e|w|] d2]; try done. injection Hp' as <- <-. simpl in *.
  split; [done|]. apply Hrest; [apply Hmv|]. intros p [= <-]. by apply Hk.
Qed.

Lemma own_tidy v specs m m' :
  own_var v → own_step now_at o v specs m m' → tidy_machine m → tidy_move (data m) (data m') ∧ tidy_machine m'.
Proof using touch_laws st_laws HT.
  intros Hv Hs Hm.
  assert (Hsame : ∀ d d', d_store d' = d_store d → st_inv (d_store d) → tidy_move d d').
  { intros d d' E Hd. unfold tidy_move. rewrite E. split; [done|apply same_touched, same_refl]. }
  destruct Hs as [m m' Hs|c ps n i g g' d d' Hn Hs]; [|by eapply go_tidy].
  destruct Hm as [Hd Hp]. destruct Hs; simpl in *; try (split; [by apply Hsame|by split]).
  split; [by apply Hsame|]. split; [done|]. simpl.
  intros n j p [Hn|[_ Hn]]%lookup_app_Some; [by eapply Hp|].
  apply list_lookup_singleton_Some in Hn as [_ [= <- <-]]. by apply run_tidy.
Qed.

Lemma shared_tidy v specs m m' : own_var v → shared_step v specs m m' → tidy_machine m → tidy_machine m'.
Proof using touch_laws st_laws HT.
  intros Hv [? ? Hs|c ps d d' _ Hi] Hm; [by eapply own_tidy|]. destruct Hm as [Hd Hp]. split; [by apply Hi|exact Hp].
Qed.

(** ** Before and after the pool *)
Lemma prepare_acts ct newID text :
  tenantFromCtx ct = T → acts (prepare now_at unicode_lower ct newID text) (λ r, own_var r.1).
Proof using st_laws HT.
  intros Hct. unfold prepare. rewrite Hct.
  eapply acts_bind; [by apply store_acts|]. intros agents _.
  eapply acts_bind; [by apply acts_quiet|]. intros created _.
  eapply acts_bind; [by apply acts_quiet|]. intros updated _.
  eapply acts_bind; [by apply acts_quiet|]. intros _ _.
  eapply acts_bind; [apply task_acts; auto|]. intros v Hv.
  eapply acts_bind; [apply acts_try, (task_acts OpUpdateTask); auto|]. intros r Hr.
  eapply acts_bind; [by apply acts_quiet|]. intros _ _ d Hd. simpl.
  split; [split; [done|apply same_touched, same_refl]|]. intros b [= <-].
  destruct r; [by left|by right].
Qed.

Lemma acts_ret {B} (b : B) (Q : B → Prop) : Q b → acts (mret b) Q.
Proof using st_laws.
  intros HQ d Hd. split; [split; [done|apply same_touched, same_refl]|]. by intros ? [= <-].
Qed.

Lemma acts_mget {B} (k : D → M D B) Q : (∀ d, acts (k d) Q) → acts (mget ≫= k) Q.
Proof. intros H d Hd. by apply H. Qed.

Lemma finalize_acts v : tenant_of v = T → acts (finalize now_at v) (λ task, Task_TenantID task = T).
Proof using st_laws HT.
  intros Hv. unfold finalize. apply acts_mget. intros d0. destruct (tally _ _) as [failed lines].
  eapply acts_bind; [by apply acts_quiet|]. intros u _.
  eapply acts_bind; [apply acts_try, (task_acts OpUpdateTask); auto|]. intros r Hr.
  apply acts_mget. intros d. apply acts_ret. unfold deref. destruct r as [v'|e]; case_match; simpl; done.
Qed.

(** C26: The worker pool serves one tenant. Before the goroutines start,
    [Distribute] changes only what is stored of the tenant in the context
    ("default" without one). Then, however the goroutines and the rest of the
    program interleave, every step of the pool (its loop or any goroutine,
    with their reads and writes of the store and of the shared array) changes
    only what is of that tenant; and so does the last update, after which the
    task that is returned is the tenant's. The task may be the empty one, of
    no tenant, only if its first update was lost; the pool then still touches
    no other tenant. *)
Theorem pool_confined ct newID text d
    (Hct : tenantFromCtx ct = T) (Hd : st_inv (d_store d)) :
  let '(r, d1) := prepare now_at unicode_lower ct newID text d in
  st_inv (d_store d1) ∧ st_touched T (d_store d) (d_store d1) ∧
  ∀ v specs m, r = Ok (v, specs) → rtc (shared_step v specs) (start d1) m →
    (tenant_of v = T ∨ tenant_of v = "") ∧
    st_inv (d_store (data m)) ∧
    (∀ m', own_step now_at o v specs m m' →
       st_inv (d_store (data m')) ∧ st_touched T (d_store (data m)) (d_store (data m'))) ∧
    (tenant_of v = T →
       let '(res, d2) := finalize now_at v (data m) in
       st_inv (d_store d2) ∧ st_touched T (d_store (data m)) (d_store d2) ∧
       ∀ task, res = Ok task → Task_TenantID task = T).
Proof using touch_laws st_laws HT.
  destruct (prepare_acts ct newID text Hct d Hd) as [[Hi Ht] Hr].
  destruct (prepare _ _ _ _ _ d) as [r d1]. simpl in *. split; [done|]. split; [done|].
  intros v specs m -> Hm. specialize (Hr _ eq_refl). simpl in Hr.
  assert (Htidy : tidy_machine m).
  { revert Hm. apply (rtc_ind_r tidy_machine); [by split|]. intros x y _ Hxy. by eapply shared_tidy. }
  split; [done|]. split; [apply Htidy|]. split.
  - intros m' Hs. by eapply own_tidy.
  - intros Hv. destruct (finalize_acts v Hv (data m)) as [[? ?] HQ]; [apply Htidy|].
    by destruct (finalize now_at v (data m)).
Qed.
End Pool.

(** ** Stores with [StoreLaws] *)
Lemma touch_sane t i l w : sane w →
  let w' := up_tasks (alter (set_Subtasks l) (t, i) (vw_tasks w)) w in sane w' ∧ only t w w'.
Proof.
  intros [[Ha Hs Hf Hr Ht Hu Hn] Hfl Hus]. split; [split; [split; try done|done|done]|].
  - intros t' i' v. simpl. intros [([= <- <-] & x & Hx & ->)|[_ Hv]]%lookup_alter_Some; [|by apply Ht].
    by apply (Ht t i x).
  - intros t' Hne. split; try done. intros i'. simpl. rewrite lookup_alter_ne; [done|congruence].
Qed.

#[export] Instance lawful_TouchLaws {S} `{laws : StoreLaws S} {slices : TaskSlices S} {sl : TaskSliceLaws S} :
  TouchLaws S.
Proof.
  intros t i l s Hs. simpl in *. destruct (touch_view t i l s) as [-> | ->]; [split; [done|apply only_refl]|].
  by apply touch_sane.
Qed.

(** A store with one agent and one server, and a pool that has begun. *)
Lemma demo_sane : sane (view (H := Memory_Store demo_order) demo_store).
Proof.
  assert (E : view (H := Memory_Store demo_order) demo_store =
    mkView {[ ("default", "a") := mkAgent "a" "default" "A" "" "" [mkSkill "report" "s1" "run"] true 0%Z 0%Z ]}
      {[ ("default", "s1") := mkMcpServer "s1" "default" "echo" (RawDoc (JObj [("type", JStr "stdio")])) true
           "connected" 0%Z 0%Z ]} ∅ ∅ ∅ ∅ ∅).
  { vm_compute. reflexivity. }
  rewrite E. clear E. split; [split; [intros t i v H..|intros i v H]|intros k v H|intros k v H]; simpl in H;
    first [by rewrite lookup_empty in H | by apply lookup_singleton_Some in H as [[= <- <-] <-]].
Qed.

Lemma pool_confined_witness :
  ∃ v specs m m', own_step (st_ops := Memory_Store demo_order) (mc_ops := demo_client) Z.of_nat (New []) v specs m m' ∧
    pool m' ≠ [] ∧ sane (view (H := Memory_Store demo_order) (d_store (data m'))).
Proof.
  assert (H : ∃ v spec d1, demo_prepare = (Ok (v, [spec]), d1) ∧ d_ctx d1 = None ∧ d_sem d1 = 0%Z).
  { do 3 eexists. split_and!; vm_compute; reflexivity. }
  destruct H as (v & spec & d1 & Hp & Hc & Hs).
  pose proof (pool_confined (st_ops := Memory_Store demo_order) (mc_ops := demo_client) (quoting := plain_quote)
    Z.of_nat id (New []) "default" I "" "n1" "the report" demo_data eq_refl demo_sane) as H.
  fold demo_prepare in H. rewrite Hp in H. destruct H as (_ & _ & H).
  set (m := mkMachine (Acquire 0) [] (set_sync (d_sem d1) (d_wg d1 + 1) d1)).
  assert (Hstep : ∃ m', own_step (st_ops := Memory_Store demo_order) (mc_ops := demo_client) Z.of_nat (New [])
    v [spec] m m' ∧ pool m' ≠ []).
  { eexists. split; [apply own_main, main_spawn; [done|simpl; rewrite Hs; by vm_compute]|discriminate]. }
  destruct Hstep as (m' & Hstep & Hpool). exists v, [spec], m, m'.
  split; [exact Hstep|]. split; [exact Hpool|].
  destruct (H v [spec] m eq_refl) as (_ & _ & Hown & _).
  - eapply rtc_once, shared_own, own_main, main_live; [simpl; lia|exact Hc].
  - exact (proj1 (Hown _ Hstep)).
Defined.
