(* ===== verification/Dashboard.v ===== *)
(** * The dashboard (internal/api/dashboard.go) and the health checks

    The counts the dashboard shows, over the calls of the store whose errors
    the handler drops, the collector of samples and the hub; proved to be the
    numbers of the tenant's own resources.  The response is the Go value that
    is encoded into it. *)
From S2P Require Import Prelude GoStr GoValue GoSort GoFmt Json Model Store StoreSpec StoreProps.
From S2P Require Import Expr Graph SideEffects Mcp Engine EngineProps Auth Hub History Codec Api Tenants ApiTheory ApiSamples ApiProps.

(** The zero-filled maps and the loop that counts the known keys. *)
Definition zero_counts (known : list string) : gmap string Z :=
  list_to_map ((λ k, (k, 0%Z)) <$> known).

Definition count_one (counts : gmap string Z) (key : string) : gmap string Z :=
  match counts !! key with
  | Some n => <[key := (n + 1)%Z]> counts
  | None => counts
  end.

Definition run_statuses : list string :=
  [RunStatusSuccess; RunStatusFailed; RunStatusRolledBack; RunStatusPending; RunStatusRunning].
Definition task_statuses : list string :=
  [TaskStatusSuccess; TaskStatusFailed; TaskStatusPending; TaskStatusRunning].

Definition runStatusCounts (runs : list Run) : gmap string Z :=
  fold_left (λ c r, count_one c (Run_Status r)) runs (zero_counts run_statuses).
Definition taskStatusCounts (tasks : list Task) : gmap string Z :=
  fold_left (λ c t, count_one c (Task_Status t)) tasks (zero_counts task_statuses).

Record DashboardBody := mkDashboard {
  agents_online : nat;
  agents_total : nat;
  servers_connected : nat;
  servers_total : nat;
  active_flows : nat;
  system_cpu : float64;
  system_memory : Z;
  system_goroutines : Z;
  runs_by_status : gmap string Z;
  tasks_by_status : gmap string Z;
  websocket_clients : nat
}.

(** The maps that the handlers encode. *)
Definition counts_value (m : gmap string Z) : value := VMap (VInt <$> m).

Definition dashboard_value (b : DashboardBody) : value := VMap {[
  "agents" := VMap {[ "online" := VInt (Z.of_nat (agents_online b)); "total" := VInt (Z.of_nat (agents_total b)) ]};
  "mcp_servers" := VMap {[ "connected" := VInt (Z.of_nat (servers_connected b));
                           "total" := VInt (Z.of_nat (servers_total b)) ]};
  "active_flows" := VInt (Z.of_nat (active_flows b));
  "system" := VMap {[ "cpu" := VFloat (system_cpu b); "memory" := VInt (system_memory b);
                      "goroutines" := VInt (system_goroutines b) ]};
  "runs_by_status" := counts_value (runs_by_status b);
  "tasks_by_status" := counts_value (tasks_by_status b);
  "websocket_clients" := VInt (Z.of_nat (websocket_clients b))
]}.

Definition is_finite (f : float64) : bool :=
  match f with S754_infinity _ | S754_nan => false | _ => true end.

Lemma counts_encoded m : ∃ fs, encode_value (counts_value m) = Some (JObj fs).
Proof. apply encode_map_total. intros k v. rewrite lookup_fmap. intros (n & _ & ->)%fmap_Some. by eexists. Qed.

(** A dashboard is an object, if the share of the processor is a number. *)
Lemma dashboard_encoded b : is_finite (system_cpu b) = true → ∃ fs, encode_value (dashboard_value b) = Some (JObj fs).
Proof.
  intros Hf. apply encode_map_total. intros k v Hv.
  assert (Hcpu : is_Some (encode_value (VFloat (system_cpu b)))).
  { cbn [encode_value]. by destruct (system_cpu b); try done; eexists. }
  repeat first
    [ apply lookup_insert_Some in Hv as [[<- <-]|[_ Hv]]
    | apply lookup_singleton_Some in Hv as [<- <-] ]; cbn [fst snd];
  first
    [ by eexists
    | edestruct counts_encoded as [fs E]; rewrite E; by eexists
    | edestruct encode_map_total as [fs E]; [|rewrite E; by eexists]; intros k v Hv;
      repeat first
        [ apply lookup_insert_Some in Hv as [[<- <-]|[_ Hv]]
        | apply lookup_singleton_Some in Hv as [<- <-] ]; first [exact Hcpu|by eexists] ].
Qed.

(** [for _, x := range l { if p(x) { n++ } }]. *)
Definition count_if {A} (p : A → bool) (l : list A) : nat :=
  fold_left (λ n x, if p x then S n else n) l 0.

(** A slice whose error is dropped; it is nil when there is one. *)
Definition or_nil {A} (r : list A + error) : list A :=
  match r with inl l => l | inr _ => [] end.

Inductive dash_endpoint := EpDashboard | EpDashboardHistory | EpHealthz | EpReadyz.

Inductive DashResponse :=
  | DashError (status : Z) (msg : string) (** plain text, of http.Error *)
  | DashCounts (status : Z) (b : DashboardBody)
  | DashSamples (status : Z) (l : list Sample)
  | DashStatus (status : Z) (st : string).

Section Dashboard.
Context {St Mc Se : Type}.
Context {st_ops : Store St} {jwt : JWT}.
Abbreviation A := (Api St Mc Se).
Abbreviation D := (A * HistoryCollector)%type.

Definition on_api {B} (m : M A B) : M D B := λ d, let '(o, a) := m d.1 in (o, (a, d.2)).
Definition on_history {B} (m : M HistoryCollector B) : M D B := λ d,
  let '(o, h) := m d.2 in (o, (d.1, h)).

(** The latest sample, or one taken now: [reading] is what a capture would
    measure. *)
Definition dashboard_sample (reading : Sample) : M D Sample :=
  latest ← on_history (λ h, (Latest h, h));
  if (Sample_Time latest =? 0)%Z then on_history (Capture reading) else mret latest.

Definition handleDashboard (reading : Sample) (r : HttpRequest) : M D DashResponse :=
  let T := tenantFrom r in
  agents ← on_api (call (OpListAgents T));
  servers ← on_api (call (OpListMcpServers T));
  flows ← on_api (call (OpListFlows T));
  runs ← on_api (call (OpListRuns T ""));
  tasks ← on_api (call (OpListTasks T));
  sample ← dashboard_sample reading;
  mgets (λ d : D, DashCounts StatusOK (mkDashboard
      (count_if Agent_Enabled (or_nil agents)) (length (or_nil agents))
      (count_if (λ s, bool_decide (McpServer_Status s = "connected")) (or_nil servers))
      (length (or_nil servers))
      (count_if Flow_Enabled (or_nil flows))
      (CPU sample) (SysMemory sample) (Goroutines sample)
      (runStatusCounts (or_nil runs)) (taskStatusCounts (or_nil tasks))
      (ClientCount (api_hub d.1)))).

Definition handleDashboardHistory : M D DashResponse :=
  l ← on_history (λ h, (Snapshot h, h)); mret (DashSamples StatusOK l).

Definition handleHealthz : M D DashResponse := mret (DashStatus StatusOK "ok").

(** Whether [s.Store] is nil; NewServer sets it. *)
Definition handleReadyz (store_nil : bool) : M D DashResponse :=
  if store_nil then mret (DashStatus StatusServiceUnavailable "not ready")
  else mret (DashStatus StatusOK "ready").

(** The health checks are outside the group of protected routes. *)
Definition serve_dashboard (store_nil : bool) (reading : Sample) (auth : Manager) (e : dash_endpoint) (r : HttpRequest)
    : M D DashResponse :=
  let guarded (h : HttpRequest → M D DashResponse) : M D DashResponse :=
    match protected auth Served (rq r) with
    | HttpError msg status => mret (DashError status msg)
    | Served q => h (mkHttpRequest q (URLParam r) (rq_body r))
    end in
  match e with
  | EpDashboard => guarded (handleDashboard reading)
  | EpDashboardHistory => guarded (λ _, handleDashboardHistory)
  | EpHealthz => handleHealthz
  | EpReadyz => handleReadyz store_nil
  end.
End Dashboard.

(** ** Counting *)
Definition status_count (known l : list string) (k : string) : option Z :=
  if decide (k ∈ known) then Some (Z.of_nat (length (filter (.= k) l))) else None.

Lemma zero_counts_lookup known k :
  zero_counts known !! k = if decide (k ∈ known) then Some 0%Z else None.
Proof.
  induction known as [|x known IH]; [done|].
  change (zero_counts (x :: known)) with (<[x := 0%Z]> (zero_counts known)).
  destruct (decide (k = x)) as [->|Hne].
  - by rewrite lookup_insert_eq, decide_True by set_solver.
  - rewrite lookup_insert_ne, IH by done. repeat case_decide; set_solver.
Qed.

Lemma count_one_lookup m x k :
  count_one m x !! k = (λ n, if decide (x = k) then (n + 1)%Z else n) <$> m !! k.
Proof.
  unfold count_one. case_decide as E.
  - subst. destruct (m !! k) eqn:Hk; simpl; [by rewrite lookup_insert_eq|done].
  - destruct (m !! x); [rewrite lookup_insert_ne by done|]; by destruct (m !! k).
Qed.

Lemma counts_lookup {V} (f : V → string) known l k :
  fold_left (λ c v, count_one c (f v)) l (zero_counts known) !! k = status_count known (f <$> l) k.
Proof.
  assert (H : ∀ m, fold_left (λ c v, count_one c (f v)) l m !! k
    = (λ n, (n + Z.of_nat (length (filter (.= k) (f <$> l))))%Z) <$> m !! k).
  { induction l as [|v l IH]; intros m; cbn [fold_left].
    { destruct (m !! k); simpl; [by rewrite Z.add_0_r|done]. }
    rewrite IH, count_one_lookup, fmap_cons, filter_cons. destruct (m !! k); cbn; [|done].
    f_equal. case_decide; cbn [length]; lia. }
  rewrite H, zero_counts_lookup. unfold status_count. by case_decide.
Qed.

Lemma count_if_length {V} (p : V → bool) l : count_if p l = length (filter (λ v, p v = true) l).
Proof.
  unfold count_if. assert (H : ∀ n, fold_left (λ n x, if p x then S n else n) l n
    = n + length (filter (λ v, p v = true) l)).
  { induction l as [|x l IH]; intros n; simpl; [lia|]. rewrite IH, filter_cons.
    case_decide as E; [rewrite E; simpl; lia|]. apply not_true_is_false in E. by rewrite E. }
  by rewrite H.
Qed.

(** The tenant's values of a table, in some order. *)
Definition of_tenant {V} (T : string) (f : flat_map V) : list V :=
  snd <$> filter (λ kv, kv.1.1 = T) (map_to_list f).

Lemma listing_of_tenant {V} (keep : V → bool) less T (f : flat_map V) l :
  (∀ v, keep v = true) → listing keep less T f l → l ≡ₚ of_tenant T f.
Proof.
  intros Hk (kvs & Hnd & Hin & Hl & _). rewrite Hl. unfold of_tenant.
  transitivity (snd <$> ((λ kv : string * V, ((T, kv.1), kv.2)) <$> kvs)).
  { rewrite <- list_fmap_compose. by apply reflexive_eq, list_fmap_ext. }
  apply fmap_Permutation, NoDup_Permutation.
  - apply NoDup_fmap_2; [|by eapply NoDup_fmap_1]. by intros [] [] [= -> ->].
  - apply NoDup_filter, NoDup_map_to_list.
  - intros [[T' i] v]. rewrite list_elem_of_fmap, list_elem_of_filter, elem_of_map_to_list. simpl. split.
    + intros ([j x] & [= -> -> ->] & [Hf _]%Hin). done.
    + intros [-> Hf]. exists (i, v). split; [done|]. by apply Hin.
Qed.

Lemma filter_length_perm {V} (P : V → Prop) `{∀ v, Decision (P v)} (l l' : list V) :
  l ≡ₚ l' → length (filter P l) = length (filter P l').
Proof. intros E. by rewrite E. Qed.

(** ** What the handlers answer *)
Section Exact.
Context {St Mc Se : Type}.
Context {st_ops : Store St} {st_laws : StoreLaws St} {jwt : JWT}.
Abbreviation A := (Api St Mc Se).
Abbreviation D := (A * HistoryCollector)%type.
Implicit Types (r : HttpRequest) (d : D).

(** A list of the tenant's values comes back, and the state is as it was. *)
Lemma list_run {V} (op : StoreOp (list V)) (P : list V → Prop) (d : D) :
  (∀ o w, spec op (seen d.1) o w → reads P (seen d.1) o w) →
  ∃ l d', on_api (call op) d = (Ok (inl l), d') ∧ P l ∧ seen d'.1 = seen d.1 ∧
    api_hub d'.1 = api_hub d.1 ∧ d'.2 = d.2.
Proof.
  intros H. destruct (call_run op d.1) as (o & a' & E & (Hs & l & -> & Hl)%H & [Hh _ _]).
  exists l, (a', d.2). unfold on_api. by rewrite E.
Qed.

(** What the counts of a dashboard say of the tenant [T] in the view [w]. *)
Record counts_of (T : string) (w : View) (b : DashboardBody) : Prop := {
  co_online : agents_online b = length (filter (λ x, Agent_Enabled x = true) (of_tenant T (vw_agents w)));
  co_agents : agents_total b = length (of_tenant T (vw_agents w));
  co_connected :
    servers_connected b = length (filter (λ x, McpServer_Status x = "connected") (of_tenant T (vw_servers w)));
  co_servers : servers_total b = length (of_tenant T (vw_servers w));
  co_flows : active_flows b = length (filter (λ x, Flow_Enabled x = true) (of_tenant T (vw_flows w)));
  co_runs : ∀ k, runs_by_status b !! k
    = status_count run_statuses (Run_Status <$> of_tenant T (vw_runs w)) k;
  co_tasks : ∀ k, tasks_by_status b !! k
    = status_count task_statuses (Task_Status <$> of_tenant T (vw_tasks w)) k
}.

Lemma status_count_perm known l l' k : l ≡ₚ l' → status_count known l k = status_count known l' k.
Proof. intros E. unfold status_count. by rewrite (filter_length_perm _ _ _ E). Qed.

Lemma lists_counted T w la ls lf lr lt cpu mem go ws :
  la ≡ₚ of_tenant T (vw_agents w) → ls ≡ₚ of_tenant T (vw_servers w) →
  lf ≡ₚ of_tenant T (vw_flows w) → lr ≡ₚ of_tenant T (vw_runs w) → lt ≡ₚ of_tenant T (vw_tasks w) →
  counts_of T w (mkDashboard (count_if Agent_Enabled la) (length la)
    (count_if (λ s, bool_decide (McpServer_Status s = "connected")) ls) (length ls)
    (count_if Flow_Enabled lf) cpu mem go (runStatusCounts lr) (taskStatusCounts lt) ws).
Proof.
  intros Ha Hs Hf Hr Ht. constructor; simpl; rewrite ?count_if_length.
  - by apply filter_length_perm.
  - by rewrite Ha.
  - rewrite <- (filter_length_perm _ _ _ Hs). f_equal. apply list_filter_iff. intros x. apply bool_decide_eq_true.
  - by rewrite Hs.
  - by apply filter_length_perm.
  - intros k. unfold runStatusCounts. rewrite counts_lookup. by apply status_count_perm, fmap_Permutation.
  - intros k. unfold taskStatusCounts. rewrite counts_lookup. by apply status_count_perm, fmap_Permutation.
Qed.

(** The sample that is shown, and the samples held afterwards: the last one
    taken, or the reading when there is none or its time is 0. *)
Definition shown (reading : Sample) (ss : list Sample) : Sample * list Sample :=
  let latest := default zero_Sample (last ss) in
  if (Sample_Time latest =? 0)%Z then (reading, ss ++ [reading]) else (latest, ss).

Lemma dashboard_sample_run reading (d : D) ss :
  holds d.2 ss →
  ∃ d', dashboard_sample reading d = (Ok (shown reading ss).1, d') ∧
    d'.1 = d.1 ∧ holds d'.2 (shown reading ss).2.
Proof.
  intros Hh. unfold dashboard_sample.
  assert (Hl : on_history (λ h, (Latest h, h)) d = (Ok (default zero_Sample (last ss)), d)).
  { unfold on_history. cbn beta. rewrite (latest_holds _ _ Hh). by destruct d. }
  erewrite bind_ok by exact Hl. unfold shown. case_match; [|by exists d].
  destruct (write_holds _ _ reading Hh) as (c & Hw & Hc).
  exists (d.1, c). unfold on_history, Capture. by rewrite Hw.
Qed.

Lemma handleDashboard_exact reading r d ss :
  holds d.2 ss →
  ∃ b d', handleDashboard reading r d = (Ok (DashCounts StatusOK b), d') ∧
    counts_of (tenantFrom r) (seen d.1) b ∧ websocket_clients b = ClientCount (api_hub d.1) ∧
    (system_cpu b, system_memory b, system_goroutines b)
      = (CPU (shown reading ss).1, SysMemory (shown reading ss).1, Goroutines (shown reading ss).1) ∧
    seen d'.1 = seen d.1 ∧ api_hub d'.1 = api_hub d.1 ∧ holds d'.2 (shown reading ss).2.
Proof.
  intros Hh. unfold handleDashboard.
  destruct (list_run (OpListAgents (tenantFrom r)) _ d (λ o w H, H)) as (la & d1 & E1 & Ha & Hs1 & Hu1 & Hd1).
  erewrite bind_ok by exact E1. cbn beta.
  destruct (list_run (OpListMcpServers (tenantFrom r)) _ d1 (λ o w H, H)) as (ls & d2 & E2 & Hs & Hs2 & Hu2 & Hd2).
  erewrite bind_ok by exact E2. cbn beta.
  destruct (list_run (OpListFlows (tenantFrom r)) _ d2 (λ o w H, H)) as (lf & d3 & E3 & Hf & Hs3 & Hu3 & Hd3).
  erewrite bind_ok by exact E3. cbn beta.
  destruct (list_run (OpListRuns (tenantFrom r) "") _ d3 (λ o w H, H)) as (lr & d4 & E4 & Hr & Hs4 & Hu4 & Hd4).
  erewrite bind_ok by exact E4. cbn beta.
  destruct (list_run (OpListTasks (tenantFrom r)) _ d4 (λ o w H, H)) as (lt & d5 & E5 & Ht & Hs5 & Hu5 & Hd5).
  erewrite bind_ok by exact E5. cbn beta.
  destruct (dashboard_sample_run reading d5 ss) as (d6 & E6 & Hd6 & Hh6); [congruence|].
  rewrite Hs4, Hs3, Hs2, Hs1 in Ht. rewrite Hs3, Hs2, Hs1 in Hr. rewrite Hs2, Hs1 in Hf. rewrite Hs1 in Hs.
  eexists _, d6. split.
  { erewrite bind_ok by exact E6. reflexivity. }
  assert (seen d6.1 = seen d.1) by congruence. assert (api_hub d6.1 = api_hub d.1) by congruence.
  split_and!; try done; [|simpl; congruence].
  by apply lists_counted; eapply listing_of_tenant.
Qed.

(** C30: The dashboard shows a tenant its own numbers.  A request for it is
    refused with 401 or 403, or carries a verified token; then it is answered
    200 with exactly the numbers of the agents (all, and enabled ones), MCP
    servers (all, and connected ones) and enabled flows of the tenant in the
    token, the number of its runs and of its tasks in each status, with an
    entry for every known status and for no other, and the number of
    connected clients; the system values are those of the last sample taken,
    or of one taken now.  Nothing that is stored changes. *)
Theorem dashboard_exact store_nil reading auth r d ss
    (Hreq : requiresAuth (URL_Path (rq r)) = true) (Hh : holds d.2 ss) :
  let '(o, d') := serve_dashboard store_nil reading auth EpDashboard r d in
  seen d'.1 = seen d.1 ∧ api_hub d'.1 = api_hub d.1 ∧
  ((∃ msg status, o = Ok (DashError status msg) ∧ d' = d ∧
      (status = StatusUnauthorized ∨ status = StatusForbidden)) ∨
   ∃ c b, Verify auth (bearerToken (rq r)) = Ok c ∧ o = Ok (DashCounts StatusOK b) ∧
     counts_of (Claims_TenantID c) (seen d.1) b ∧ websocket_clients b = ClientCount (api_hub d.1) ∧
     (system_cpu b, system_memory b, system_goroutines b)
       = (CPU (shown reading ss).1, SysMemory (shown reading ss).1, Goroutines (shown reading ss).1) ∧
     holds d'.2 (shown reading ss).2).
Proof.
  unfold serve_dashboard. destruct (protected auth Served (rq r)) as [msg status|q] eqn:Hp.
  { split_and!; [done|done|]. left. exists msg, status. split_and!; [done..|by eapply protected_refuses]. }
  apply protected_Served in Hp as (_ & c & Hv & _ & ->); [|done].
  destruct (handleDashboard_exact reading (mkHttpRequest (WithClaims (rq r) c) (URLParam r) (rq_body r)) d ss Hh)
    as (b & d' & -> & Hb & Hw & Hsys & Hs & Hu & Hh').
  split_and!; [done|done|]. right. exists c, b. by split_and!.
Qed.

(** The history answers the samples held, and changes nothing. *)
Lemma handleDashboardHistory_exact d ss :
  holds d.2 ss →
  handleDashboardHistory d = (Ok (DashSamples StatusOK (last_n (Z.to_nat (capacity d.2)) ss)), d).
Proof.
  intros Hh. unfold handleDashboardHistory.
  erewrite bind_ok; [reflexivity|]. unfold on_history. cbn beta. rewrite (snapshot_holds _ _ Hh). by destruct d.
Qed.

End Exact.

(** A tenant with one enabled flow and one server, before the first tick. *)
Lemma dashboard_exact_witness :
  let r := mkHttpRequest (sample_request "GET" "/api/v1/dashboard") "" RawEmpty in
  let d := (flow_api, new_ring 3 0) in
  let '(o, d') := serve_dashboard (jwt := sample_jwt RoleViewer) false (mkSample 7 (S754_zero false) 4096 12 0)
                    (NewManager "k" 1%Z) EpDashboard r d in
  o = Ok (DashCounts StatusOK (mkDashboard 0 0 0 1 1 (S754_zero false) 4096 12
            (runStatusCounts []) (taskStatusCounts []) 0)) ∧
  seen d'.1 = seen d.1.
Proof.
  assert (E : (serve_dashboard (jwt := sample_jwt RoleViewer) false (mkSample 7 (S754_zero false) 4096 12 0)
      (NewManager "k" 1%Z) EpDashboard
      (mkHttpRequest (sample_request "GET" "/api/v1/dashboard") "" RawEmpty)
      (flow_api, new_ring 3 0)).1
    = Ok (DashCounts StatusOK (mkDashboard 0 0 0 1 1 (S754_zero false) 4096 12
            (runStatusCounts []) (taskStatusCounts []) 0))) by (vm_compute; reflexivity).
  pose proof (dashboard_exact (jwt := sample_jwt RoleViewer) false (mkSample 7 (S754_zero false) 4096 12 0)
    (NewManager "k" 1%Z) (mkHttpRequest (sample_request "GET" "/api/v1/dashboard") "" RawEmpty)
    (flow_api, new_ring 3 0) [] eq_refl (New_holds 3 0)) as H.
  cbv zeta. destruct (serve_dashboard _ _ _ _ _ _) as [o d']. split; [exact E|exact (proj1 H)].
Defined.
