(* ===== verification/PgTenants.v ===== *)
(** * The server over PostgreSQL

    The PostgreSQL store keeps tenants apart in the sense of [Tenants] and
    always answers, so what is proved of the handlers and of the engine over
    those interfaces holds over it. *)
From S2P Require Import Prelude GoStr GoValue GoSort GoFmt Json Model Store StoreSpec StoreProps.
From S2P Require Import Expr Graph SideEffects Mcp Engine EngineProps Auth Hub Codec Api Tenants ApiTheory ApiSamples ApiProps.
From S2P Require Import Decomposer Threads Orchestrator PoolTenants.
From S2P Require Import Traces Sql Pg PgJson PgTheory PgProps PgFrame PgLaws PgSim PgStore PgRuns.

Section Over.
Context {S : Type} {pgx : Pgx} {pgx_laws : PgxLaws pgx} {db : Database S} {laws : DatabaseLaws S}.
Context (parse_time : string → outcome Time) (time_text : Time → string).
Context (parse_time_proper : ∀ t, proper_outcome (parse_time t)).
Implicit Types (s : S).

Definition pg_store : Store S := PG_Store parse_time time_text.
#[local] Existing Instance pg_store.

Definition pg_answering : StoreAnswers S.
Proof using pgx_laws laws parse_time_proper.
  intros A op s. pose proof (pg_answers parse_time time_text parse_time_proper op s) as H.
  unfold store_exec, pg_store. destruct (PG_Store _ _ _ op s) as [o s']. by destruct o.
Qed.

(** What is [T]'s aside, the tables hold the same: the rows with its
    tenant_id, and its own record among the tenants. *)
Definition pg_touched T s s' : Prop :=
  (∀ t, t ≠ "tenants" → others T (rows_of (db_tables s') t) = others T (rows_of (db_tables s) t)) ∧
  (∀ u, u ≠ T → rows_of (db_tables s') "tenants" !! u = rows_of (db_tables s) "tenants" !! u).

(** Rows are kept under their identifiers, runs with the flow and the tenant
    of their flow. *)
Definition pg_ordered (T : sql_tables) : Prop := well_keyed T ∧ runs_have_flows T.

Definition pg_tenants : TenantStore S := {|
  st_inv s := pg_ordered (db_tables s);
  st_tenant T := uuid T T;
  st_same s s' := db_tables s' = db_tables s;
  st_touched := pg_touched;
  st_run_ok v s := run_allowed v (db_tables s);
  st_flow_ok _ := True;
  st_user_ok _ := True
|}.
#[local] Existing Instance pg_tenants.

(** A create and an update answer the value they were given. *)
Lemma insert_value {A} t cols args (v a : A) s : (insert t cols args v s).1 = Ok a → v = a.
Proof.
  pose proof (insert_run t cols args v s) as H. destruct (insert t cols args v s) as [o s'].
  destruct H as [(e & -> & _)|([->|(e & -> & _)] & _)]; simpl; congruence.
Qed.

Lemma update_value {A} t set key args (v a : A) s : (update t set key args v s).1 = Ok a → v = a.
Proof.
  pose proof (update_run t set key args v s) as H. destruct (update _ _ _ _ v s) as [o s'].
  destruct H as [(e & -> & _)|(vs & n & _ & _ & [->|(e & -> & _)])]; simpl; [done| |done].
  case_match; simpl; congruence.
Qed.

Lemma pg_result {A} (op : StoreOp A) a s :
  (store_exec op s).1 = Ok a → op_result st_flow_ok st_user_ok op a.
Proof. destruct op; try done; first [apply insert_value | apply update_value]. Qed.

Lemma pg_owned_of_tenant {A} (op : StoreOp A) T a :
  op_tenant op = Some T → uuid T T → pg_owned op a → of_tenant op a.
Proof.
  intros HT HC. assert (Hu : ∀ t, uuid T t → t = T) by (intros t Ht; exact (uuid_fun _ _ _ Ht HC)).
  destruct op; simpl in *; try done; injection HT as ->; try (intros [H _]; by apply Hu);
    intros H; (eapply Forall_impl; [exact H|]); simpl; intros v Hv; apply Hu; first [exact Hv | exact (proj1 Hv)].
Qed.

Lemma touches_pg T s s' :
  uuid T T → touches T (db_tables s) (db_tables s') →
  rows_of (db_tables s') "tenants" = rows_of (db_tables s) "tenants" → pg_touched T s s'.
Proof.
  intros HC H Ht. split; [|intros u _; by rewrite Ht]. intros t _. destruct H as [H|(uT & HuT & H)]; [by rewrite H|].
  rewrite (uuid_fun _ _ _ HuT HC) in H. apply H.
Qed.

Lemma same_touched_pg T s s' : db_tables s' = db_tables s → pg_touched T s s'.
Proof. intros H. unfold pg_touched. by rewrite H. Qed.

(** The record of a tenant. *)
Lemma tenant_call {A} (op : StoreOp A) T s :
  op_tenant op = None → concerns op T → uuid T T → well_keyed (db_tables s) →
  let '(o, s') := store_exec op s in well_keyed (db_tables s') ∧ pg_touched T s s'.
Proof using pgx_laws.
  intros HT Hc HC Hw. destruct op; try done; destruct Hc as [Hc|Hc]; try done;
    unfold store_exec, pg_store; cbn [PG_Store].
  - unfold PG_GetTenant. pose proof (queryRow_reads (Select "tenants" tenant_cols ["id"] None) [GString id]
      scanTenant (λ _, True) s) as H.
    destruct (queryRow _ _ _ s) as [o s']. destruct H as (E & _); [split; [apply scanTenant_answers|done]|].
    split; [by rewrite E|by apply same_touched_pg].
  - unfold PG_CreateTenant. pose proof (insert_run "tenants" tenant_cols
      [GString (Tenant_ID tenant); GString (Tenant_Name tenant); GTime (Tenant_CreatedAt tenant)] tenant s) as H.
    destruct (insert _ _ _ _ s) as [o s'].
    destruct H as [(e & _ & _ & E & _)|(_ & vs & n & Hb & He)]; [split; [by rewrite E|by apply same_touched_pg]|].
    split; [by eapply insert_keyed|]. bind_all Hb. read_params.
    apply sql_insert_inv in He as (d & k & _ & Hid & _ & _ & _ & _ & E). cbn in Hid. revert Hid. lookups.
    intros [= <-]. match goal with H : uuid _ u |- _ => rewrite (uuid_fun _ _ _ H HC) in E end.
    split; [intros t Ht; by rewrite E, rows_of_insert, decide_False|].
    intros u1 Hu1. rewrite E, rows_of_insert. simpl. by rewrite lookup_insert_ne.
Qed.

Definition pg_tenant_laws : TenantLaws S.
Proof using pgx_laws laws parse_time_proper.
  constructor; simpl; try done.
  - by intros s1 s2 s3 -> ->.
  - by intros s s' ->.
  - intros T s s'. apply same_touched_pg.
  - intros T s1 s2 s3 [H1 H1'] [H2 H2']. split; [intros t Ht; by rewrite H2, H1|].
    intros u Hu. by rewrite H2', H1'.
  - intros A op T s Hcon HC [Hw Hl] _ Hrun.
    pose proof (pg_links parse_time time_text op s Hl Hrun) as Hl'. pose proof (pg_result op) as Hr.
    specialize (λ a, Hr a s). destruct (op_tenant op) as [T'|] eqn:HT.
    + assert (T' = T) as -> by (destruct Hcon as [?|?]; [congruence|by destruct op]).
      pose proof (pg_call parse_time time_text parse_time_proper op T s HT Hw (λ _, runs_have_follow _ Hl)) as H.
      pose proof (pg_tenant_rows parse_time time_text op T s HT) as Hrows. unfold store_exec, pg_store in *.
      destruct (PG_Store _ _ _ op s) as [o s']. destruct H as ([_ Ht Hk] & Ho).
      split; [by split|]. split; [by apply touches_pg|].
      intros a Ha. split; [by eapply pg_owned_of_tenant, Ho|by apply Hr].
    + pose proof (tenant_call op T s HT Hcon HC Hw) as H. unfold store_exec, pg_store in *.
      destruct (PG_Store _ _ _ op s) as [o s']. destruct H. split_and!; [by split|done|].
      intros a Ha. split; [by destruct op|by apply Hr].
  - intros T i fl v s HC [Hw _]. intros. by eapply (flow_read parse_time time_text).
  - intros t i s. unfold store_exec, pg_store. cbn [PG_Store]. unfold PG_GetAgent.
    pose proof (queryRow_reads (Select "agents" agent_cols ["tenant_id"; "id"] None) [GString t; GString i]
      scanAgent (λ _, True) s) as H.
    destruct (queryRow _ _ _ s) as [o s']. by destruct H as (E & _); [split; [apply scanAgent_answers|done]|].
  - intros t i s. unfold store_exec, pg_store. cbn [PG_Store]. unfold PG_GetMcpServer.
    pose proof (queryRow_reads (Select "mcp_servers" server_cols ["tenant_id"; "id"] None) [GString t; GString i]
      scanMcpServer (λ _, True) s) as H.
    destruct (queryRow _ _ _ s) as [o s']. by destruct H as (E & _); [split; [apply scanMcpServer_answers|done]|].
Qed.

(** Tasks are copied into their rows: writes to the array do not show. *)
Definition pg_slices : TaskSlices S := λ _ _ _ s, s.
#[local] Existing Instance pg_slices.

Definition pg_touch_laws : TouchLaws S.
Proof using Type. intros t i l s Hs. split; [done|]. by split. Qed.

(** The worker pool over PostgreSQL: what happens before the goroutines start
    concerns the rows of the tenant, and so does every step of the pool. *)
Lemma pg_pool_confined {Mc} {mc_ops : Client Mc} {quoting : FmtQuote} now_at unicode_lower o T ct newID text
    (d : Data S Mc) :
  uuid T T → tenantFromCtx ct = T → pg_ordered (db_tables (d_store d)) →
  let '(r, d1) := prepare now_at unicode_lower ct newID text d in
  pg_touched T (d_store d) (d_store d1) ∧
  ∀ v specs m m', r = Ok (v, specs) → rtc (shared_step now_at o v specs) (start d1) m →
    own_step now_at o v specs m m' → pg_touched T (d_store (data m)) (d_store (data m')).
Proof using pgx_laws laws parse_time_proper.
  intros HT Hct Hd.
  destruct (prepare_acts (st_laws := pg_tenant_laws) now_at unicode_lower T HT ct newID text Hct d Hd) as [[Hi Ht] Hr].
  destruct (prepare _ _ _ _ _ d) as [r d1]. simpl in *. split; [done|].
  intros v specs m m' -> Hm Hs. specialize (Hr _ eq_refl). simpl in Hr.
  assert (Htidy : tidy_machine T m).
  { revert Hm. apply (rtc_ind_r (tidy_machine T)); [by split|]. intros x y _ Hxy.
    by eapply (shared_tidy (st_laws := pg_tenant_laws) (touch_laws := pg_touch_laws) now_at o T HT). }
  by eapply (own_tidy (st_laws := pg_tenant_laws) (touch_laws := pg_touch_laws) now_at o T HT).
Qed.

(** A login over PostgreSQL: rows of the default tenant only, and a token for
    a user of it whose hash accepts the password. *)
Lemma pg_login_confined {Mc Se} {mc_ops : Client Mc} {se_ops : SideEffectStore Se} {quoting : FmtQuote}
    {jwt : JWT} {bcrypt : Bcrypt} now_at uuid_at auth cfg r (a : Api S Mc Se) :
  uuid defaultTenantID defaultTenantID → pg_ordered (db_tables (store_of a)) → hub_ok (api_hub a) →
  let '(o, a') := handleLogin now_at uuid_at auth cfg r a in
  pg_ordered (db_tables (store_of a')) ∧ pg_touched defaultTenantID (store_of a) (store_of a') ∧
  private defaultTenantID (api_hub a) (api_hub a') ∧ ∀ resp, o = Ok resp → login_answer auth r resp.
Proof using pgx_laws laws parse_time_proper.
  intros HT Hk Hh. pose proof (login_serves (st_laws := pg_tenant_laws) (Mc := Mc) (Se := Se)
    now_at uuid_at auth cfg r HT a ltac:(by constructor)) as ([? ?] & [? ?] & ?).
  by destruct (handleLogin _ _ auth cfg r a).
Qed.

(** C7: The server over the PostgreSQL store serves one tenant per request.
    Take a database in order: rows are kept under their identifiers, and
    every run has a flow, which is of its tenant; and a request whose token,
    if it verifies, names its tenant in the canonical form of uuids. A request
    to a protected route (but for posting a task, which is C26, and for the
    dashboard, which changes no resource) is refused, with 401 or 403 and nothing
    changed, or it carries a verified token whose role is allowed the request; then,
    whatever the handler and the request, no row of any table changes that is
    not of the tenant in the token (of the table of tenants, no record but
    its own), no channel of another tenant's client does, and every resource
    in the response is of that tenant. Either way the database is in order
    afterwards, and the hub too. *)
Theorem pg_server_confined {Mc Se} {mc_ops : Client Mc} {se_ops : SideEffectStore Se} {quoting : FmtQuote}
    {jwt : JWT} {bcrypt : Bcrypt} now_at uuid_at map_order (visit : gset nat → list nat) auth e r (a : Api S Mc Se)
    (Hvisit : ∀ cs, visit cs ≡ₚ elements cs) (Hreq : requiresAuth (URL_Path (rq r)) = true)
    (Hordered : pg_ordered (db_tables (store_of a))) (Hhub : hub_ok (api_hub a))
    (Htenant : ∀ c, Verify auth (bearerToken (rq r)) = Ok c → uuid (Claims_TenantID c) (Claims_TenantID c)) :
  let '(o, a') := handle now_at uuid_at map_order parse_time time_text visit auth e r a in
  pg_ordered (db_tables (store_of a')) ∧ hub_ok (api_hub a') ∧
  ((∃ msg status, o = Ok (http_error status msg) ∧ a' = a ∧
      (status = StatusUnauthorized ∨ status = StatusForbidden)) ∨
   ∃ c, Verify auth (bearerToken (rq r)) = Ok c ∧
     Allowed (Method (rq r)) (URL_Path (rq r)) (Claims_Role c) = true ∧
     pg_touched (Claims_TenantID c) (store_of a) (store_of a') ∧
     private (Claims_TenantID c) (api_hub a) (api_hub a') ∧
     ∀ resp, o = Ok resp → owned_response (Claims_TenantID c) resp).
Proof using pgx_laws laws parse_time_proper.
  pose proof (handle_confined (st_laws := pg_tenant_laws) now_at uuid_at map_order parse_time time_text visit Hvisit
    auth e r a Hreq ltac:(by constructor) Htenant) as H.
  destruct (handle _ _ _ _ _ _ auth e r a) as [o a']. destruct H as [[Hk Hh] H].
  split; [done|]. split; [done|].
  destruct H as [H|(c & Hv & Hal & [Ht Hp] & Ho)]; [by left|right]. by exists c.
Qed.
End Over.

(** ** On the database of the model: a flow is deleted *)
Definition demo_api : Api sql_tables MockClient MemorySideEffectStore :=
  mkApi (mkWorld demo_tables' NewMockClient (NewMemorySideEffectStore 0) 0) NewHub 0.

Definition demo_request : HttpRequest :=
  mkHttpRequest (sample_request "DELETE" "/api/v1/flows/f1") "f1" RawEmpty.

Abbreviation demo_handle :=
  (handle (st_ops := pg_store demo_parse_time demo_time_text) (jwt := sample_jwt RoleOwner) (bcrypt := sample_bcrypt)
     Z.of_nat sample_uuid sorted_order demo_parse_time demo_time_text sample_visit (NewManager "k" 1%Z) EpDeleteFlow
     demo_request demo_api).

Lemma demo_runs_linked : runs_have_flows demo_tables'.
Proof.
  assert (Hr : demo_row "runs" "r1" !! "flow_id" = Some (SUuid "f1")) by (vm_compute; reflexivity).
  assert (Ht : demo_row "runs" "r1" !! "tenant_id" = demo_row "flows" "f1" !! "tenant_id") by (vm_compute; reflexivity).
  assert (Hf : rows_of demo_tables' "flows" !! "f1" = Some (demo_row "flows" "f1")) by (vm_compute; reflexivity).
  intros u r Hu. assert (u = "r1") as -> by (eapply only_key; [|exact Hu]; vm_compute; reflexivity).
  assert (Er : demo_row "runs" "r1" = r) by (unfold demo_row; by rewrite Hu). rewrite Er in *. eauto.
Qed.

Lemma pg_server_confined_witness :
  demo_handle.1 = Ok (writeJSON StatusNoContent BNone) ∧
  pg_ordered (db_tables (store_of demo_handle.2)) ∧ hub_ok (api_hub demo_handle.2).
Proof.
  assert (E : demo_handle.1 = Ok (writeJSON StatusNoContent BNone)) by (vm_compute; reflexivity).
  pose proof (pg_server_confined (laws := sim_DatabaseLaws) (jwt := sample_jwt RoleOwner) (bcrypt := sample_bcrypt)
    demo_parse_time demo_time_text demo_parse_proper Z.of_nat sample_uuid sorted_order sample_visit
    (NewManager "k" 1%Z) EpDeleteFlow demo_request demo_api sample_visit_ok eq_refl (conj demo_tables'_keyed demo_runs_linked) NewHub_ok) as H.
  specialize (H (λ c Hc, ltac:(vm_compute in Hc; injection Hc as <-; reflexivity))).
  destruct demo_handle as [o a']. destruct H as (Hk & Hh & _).
  split; [exact E|]. split; [exact Hk|exact Hh].
Defined.
