(* ===== verification/Migrations.v ===== *)
(** * Migrations and the connection to PostgreSQL
      (internal/store/migrations.go, the head of pgx.go)

    The embedded SQL files are read in the order of their names and split at
    semicolons; [NewPGWithMigrations] opens a pool, pings it and runs the
    statements.  The embedded file system and pgxpool are parameters. *)
From Stdlib Require Import Ascii.
From stdpp Require Import sorting.
From S2P Require Import Prelude GoStr GoSort Trim Traces StoreSpec.

(** ** migrations.go *)

(** [migrations.FS], an [embed.FS]: the entries of its root with whether they
    are directories, and the content of a file. *)
Class MigrationFS := {
  ReadDir : outcome (list (string * bool));
  ReadFile : string → outcome string
}.

(** [if err != nil { return nil, fmt.Errorf(f, args..., err) }] *)
Definition wrapf {A} (f : string) (args : list fmt_arg) (o : outcome A) : outcome A :=
  match o with Err e => Err (Wrapf f args e) | _ => o end.

(** The statements of a file: its parts between semicolons, trimmed; the empty
    ones are skipped. *)
Fixpoint add_statements (parts : list string) (statements : list string) : list string :=
  match parts with
  | [] => statements
  | stmt0 :: parts' =>
      let stmt := trim_space stmt0 in
      if bool_decide (stmt = "") then add_statements parts' statements
      else add_statements parts' (statements ++ [stmt])
  end.

(** The package variables, set once by [migrationsOnce]. *)
Record Loaded := mkLoaded {
  migrationsOnce : bool;
  migrationStmts : list string;
  migrationsErr : option error
}.

Definition not_loaded : Loaded := mkLoaded false [] None.

Section Parse.
Context {fs : MigrationFS}.

Fixpoint migration_names (entries : list (string * bool)) : list string :=
  match entries with
  | [] => []
  | (name, isDir) :: es =>
      if isDir || negb (has_suffix name ".sql") then migration_names es
      else name :: migration_names es
  end.

Fixpoint read_files (names : list string) (statements : list string) : outcome (list string) :=
  match names with
  | [] => Ok statements
  | name :: names' =>
      raw ← wrapf "store: read migration %s: %w" [FStr name] (ReadFile name);
      read_files names' (add_statements (split_byte ";" raw) statements)
  end.

Definition parseMigrations : outcome (list string) :=
  entries ← wrapf "store: read migrations: %w" [] ReadDir;
  read_files (sort_slice str_ltb (migration_names entries)) [].

Definition loadMigrationStatements : M Loaded (list string) := λ ld,
  let ld' :=
    if migrationsOnce ld then ld
    else match parseMigrations with
         | Ok stmts => mkLoaded true stmts None
         | Err err => mkLoaded true [] (Some err)
         | _ => mkLoaded true [] None
         end in
  (match migrationsErr ld' with Some err => Err err | None => Ok (migrationStmts ld') end, ld').
End Parse.

(** ** pgx.go *)

(** pgxpool, over the outside world [N]; [Cfg] is its configuration, [P] a
    pool. *)
Class PgxPool (N : Type) := {
  pool_config : Type;
  pool : Type;
  ParseConfig : string → outcome pool_config;
  NewWithConfig : pool_config → M N pool;
  pool_Ping : pool → M N unit;
  pool_Exec : pool → string → M N unit;
  pool_Close : pool → N → N
}.

(** A PG is its pool. *)
Record PG {N} `{PgxPool N} := mkPG { pg_pool : pool }.
Arguments PG N {_}.

Section Connect.
Context {N : Type} {pp : PgxPool N} {fs : MigrationFS}.
Abbreviation W := (N * Loaded)%type.

(** Calls of the pool, and of the package's state. *)
Definition on_pool {A} (m : M N A) : M W A := λ '(n, ld), let '(o, n') := m n in (o, (n', ld)).
Definition on_loaded {A} (m : M Loaded A) : M W A := λ '(n, ld), let '(o, ld') := m ld in (o, (n, ld')).

Definition NewPG (databaseURL : string) : M W (PG N) :=
  cfg ← of_outcome (wrapf "store: parse database url: %w" [] (ParseConfig databaseURL));
  p ← on_pool (wrap_err "store: create pool: %w" (NewWithConfig cfg));
  r ← mtry (on_pool (pool_Ping p));
  match r with
  | inr err =>
      _ ← on_pool (mmodify (pool_Close p));
      mthrow (Wrapf "store: ping: %w" [] err)
  | inl _ => mret (mkPG N pp p)
  end.

Definition Close (p : PG N) : M W unit := on_pool (mmodify (pool_Close (pg_pool p))).

Fixpoint exec_statements (p : PG N) (statements : list string) : M N unit :=
  match statements with
  | [] => mret tt
  | stmt :: rest =>
      _ ← wrap_err "store: migrate: %w" (pool_Exec (pg_pool p) stmt);
      exec_statements p rest
  end.

Definition Migrate (p : PG N) : M W unit :=
  statements ← on_loaded loadMigrationStatements;
  on_pool (exec_statements p statements).

Definition NewPGWithMigrations (databaseURL : string) : M W (PG N) :=
  pg ← NewPG databaseURL;
  r ← mtry (Migrate pg);
  match r with
  | inr err => _ ← Close pg; mthrow err
  | inl _ => mret pg
  end.
End Connect.

(** ** The statements *)

(** What the loop keeps of one text. *)
Definition statements_of (raw : string) : list string :=
  filter (λ s, s ≠ "") (trim_space <$> split_byte ";" raw).

Lemma add_statements_eq parts acc :
  add_statements parts acc = acc ++ filter (λ s, s ≠ "") (trim_space <$> parts).
Proof.
  revert acc. induction parts as [|p ps IH]; intros acc; simpl; [by rewrite app_nil_r|].
  rewrite filter_cons. case_bool_decide as Hp; rewrite IH; case_decide; try done.
  by rewrite <- app_assoc.
Qed.

(** A statement: not empty, trimmed, and without a semicolon. *)
Definition is_statement (s : string) : Prop :=
  s ≠ "" ∧ trimmed s ∧ has_byte ";" s = false.

Lemma statements_of_ok raw : Forall is_statement (statements_of raw).
Proof.
  apply Forall_forall. intros s [Hne Hs]%list_elem_of_filter.
  apply list_elem_of_fmap in Hs as (p & -> & Hp).
  destruct (split_byte_spec ";" raw) as [Hall _]. rewrite Forall_forall in Hall.
  split_and!; [done|by apply trim_space_spec|by apply trim_space_has_byte, Hall].
Qed.

(** A file of statements, each between white space and ended by a semicolon,
    with white space at the end. *)
Fixpoint sql_text (l : list (string * string * string)) (tail : string) : string :=
  match l with
  | [] => tail
  | (before, s, after) :: l' => (before +:+ s +:+ after) +:+ String ";" (sql_text l' tail)
  end.

Lemma blank_no_byte c s : ascii_space c = false → blank s = true → has_byte c s = false.
Proof.
  intros Hc. induction s as [|d s IH]; simpl; [done|]. intros [Hd Hs]%andb_prop.
  rewrite (IH Hs), orb_false_r. apply bool_decide_eq_false. intros ->. congruence.
Qed.

Lemma statements_of_text l tail :
  Forall (λ '(before, s, after), blank before = true ∧ is_statement s ∧ blank after = true) l →
  blank tail = true → statements_of (sql_text l tail) = (λ x, x.1.2) <$> l.
Proof.
  intros Hl Ht. unfold statements_of. induction l as [|[[b s] a] l IH]; simpl.
  - rewrite split_byte_none by (by apply blank_no_byte). simpl.
    rewrite <- (str_app_nil_r tail). change (tail +:+ "") with (tail +:+ ("" +:+ "")).
    by rewrite trim_space_blank.
  - apply Forall_cons in Hl as [(Hb & (Hne & Htr & Hs) & Ha) Hl].
    rewrite split_byte_app by (by rewrite !has_byte_app, Hs, !blank_no_byte). simpl.
    rewrite trim_space_blank by done. rewrite filter_cons_True by done. f_equal. auto.
Qed.

Section Parsed.
Context {fs : MigrationFS}.

Lemma migration_names_eq entries :
  migration_names entries = (filter (λ e, e.2 = false ∧ has_suffix e.1 ".sql" = true) entries).*1.
Proof.
  induction entries as [|[n d] es IH]; simpl; [done|]. rewrite filter_cons. simpl.
  case_decide as Hd; simpl in Hd; (destruct d, (has_suffix n ".sql"); simpl; rewrite IH; [..]); intuition congruence.
Qed.

Lemma read_files_Ok names acc texts :
  mapM ReadFile names = Ok texts → read_files names acc = Ok (acc ++ (texts ≫= statements_of)).
Proof.
  revert acc texts. induction names as [|n ns IH]; intros acc texts; simpl.
  - intros [= <-]. by rewrite app_nil_r.
  - intros (raw & Hr & (ts & Hts & [= <-])%outcome_bind_Ok)%outcome_bind_Ok.
    rewrite Hr. simpl. rewrite (IH _ _ Hts), add_statements_eq, <- app_assoc. done.
Qed.

Lemma read_files_Err pre n names texts e acc :
  mapM ReadFile pre = Ok texts → ReadFile n = Err e →
  read_files (pre ++ n :: names) acc = Err (Wrapf "store: read migration %s: %w" [FStr n] e).
Proof.
  revert acc texts. induction pre as [|m pre IH]; intros acc texts; simpl.
  - intros _ ->. done.
  - intros (raw & Hr & (ts & Hts & _)%outcome_bind_Ok)%outcome_bind_Ok He.
    rewrite Hr. simpl. by eapply IH.
Qed.

(** The names in the order of the files that are read. *)
Definition migration_files (entries : list (string * bool)) : list string :=
  sort_slice str_ltb (migration_names entries).

Lemma migration_files_sorted entries :
  StronglySorted (λ a b, str_ltb b a = false) (migration_files entries).
Proof.
  apply (sort_slice_sorted str_ltb); [apply (less_by_asym id)|apply (less_by_le_trans id)].
Qed.
End Parsed.

(** C35: What is run on a database are the statements of the embedded files
    that end in .sql and are no directories, file after file in the order of
    their names: the parts between semicolons without the white space around
    them, none empty. A file written as statements, each ended by a semicolon,
    gives back exactly those. If the directory or a file cannot be read, the
    error of the first that cannot is wrapped, and nothing is returned. The
    files are read once: every later call answers as the first. *)
Theorem migrations_parsed {fs : MigrationFS} :
  (∀ err, ReadDir = Err err → parseMigrations = Err (Wrapf "store: read migrations: %w" [] err)) ∧
  (∀ entries, ReadDir = Ok entries →
     let names := migration_files entries in
     StronglySorted (λ a b, str_ltb b a = false) names ∧
     (∀ name, name ∈ names ↔ (name, false) ∈ entries ∧ has_suffix name ".sql" = true) ∧
     (∀ texts, mapM ReadFile names = Ok texts →
        parseMigrations = Ok (texts ≫= statements_of) ∧ Forall is_statement (texts ≫= statements_of)) ∧
     (∀ before name after texts err,
        names = before ++ name :: after → mapM ReadFile before = Ok texts → ReadFile name = Err err →
        parseMigrations = Err (Wrapf "store: read migration %s: %w" [FStr name] err))) ∧
  (∀ l tail,
     Forall (λ '(before, s, after), blank before = true ∧ is_statement s ∧ blank after = true) l →
     blank tail = true → statements_of (sql_text l tail) = (λ x, x.1.2) <$> l) ∧
  (∀ o ld, loadMigrationStatements not_loaded = (o, ld) → loadMigrationStatements ld = (o, ld)).
Proof.
  split; [|split; [|split]].
  - intros err E. unfold parseMigrations. by rewrite E.
  - intros entries E names. split; [apply migration_files_sorted|]. split.
    { intros name. unfold names, migration_files. rewrite sort_slice_elem, migration_names_eq.
      rewrite list_elem_of_fmap. setoid_rewrite list_elem_of_filter. split.
      - intros ([n d] & -> & [Hd Hs] & Hin). simpl in *. by subst.
      - intros [Hin Hs]. by exists (name, false). }
    unfold parseMigrations. rewrite E. cbn [wrapf mbind outcome_bind]. fold (migration_files entries).
    fold names. split.
    + intros texts Ht. split; [by rewrite (read_files_Ok _ _ _ Ht)|].
      apply Forall_forall. intros s (raw & Hs & _)%list_elem_of_bind.
      pose proof (statements_of_ok raw) as Hok. rewrite Forall_forall in Hok. by apply Hok.
    + intros before name after texts err -> Hb He. by eapply read_files_Err.
  - apply statements_of_text.
  - unfold loadMigrationStatements. simpl. intros o ld [= <- <-]. by destruct parseMigrations.
Qed.

(** Two files out of order, one of them with an empty statement; a directory
    and another file are passed over. *)
Definition sample_fs : MigrationFS := {|
  ReadDir := Ok [("0002.sql", false); ("notes.txt", false); ("0001.sql", false); ("old.sql", true)];
  ReadFile := λ n,
    if bool_decide (n = "0001.sql") then Ok (" CREATE a ;" +:+ newline +:+ " ; CREATE b;")
    else if bool_decide (n = "0002.sql") then Ok "ALTER a" else Err (ErrorsNew "file does not exist")
|}.

Lemma migrations_parsed_witness :
  migration_files [("0002.sql", false); ("notes.txt", false); ("0001.sql", false); ("old.sql", true)]
    = ["0001.sql"; "0002.sql"] ∧
  @parseMigrations sample_fs = Ok ["CREATE a"; "CREATE b"; "ALTER a"].
Proof.
  pose proof (@migrations_parsed sample_fs) as (_ & H & _).
  destruct (H _ eq_refl) as (_ & _ & Hok & _). split; [vm_compute; reflexivity|].
  destruct (Hok [" CREATE a ;" +:+ newline +:+ " ; CREATE b;"; "ALTER a"]) as [E _]; [vm_compute; reflexivity|].
  rewrite E. vm_compute. reflexivity.
Defined.

(** ** Starting, as the pool sees it *)
Inductive pool_event (P : Type) :=
  | EvOpen (p : P)
  | EvPing (p : P)
  | EvExec (p : P) (stmt : string)
  | EvClose (p : P).
Arguments EvOpen {P} p.
Arguments EvPing {P} p.
Arguments EvExec {P} p stmt.
Arguments EvClose {P} p.

(** A call of the pool answers. *)
Class PoolAnswers (N : Type) `{PgxPool N} := {
  config_answers url : proper_outcome (ParseConfig url);
  new_answers cfg n : proper_outcome (NewWithConfig cfg n).1;
  ping_answers p n : proper_outcome (pool_Ping p n).1;
  exec_answers p stmt n : proper_outcome (pool_Exec p stmt n).1
}.

(** The pool with a trace of its calls. *)
#[export] Instance traced_pool {N} {pp : PgxPool N} : PgxPool (N * list (pool_event pool)) := {|
  pool_config := pool_config;
  pool := pool;
  ParseConfig := ParseConfig;
  NewWithConfig := λ cfg, traced (λ p, [EvOpen p]) (NewWithConfig cfg);
  pool_Ping := λ p, noted [EvPing p] (pool_Ping p);
  pool_Exec := λ p stmt, noted [EvExec p stmt] (pool_Exec p stmt);
  pool_Close := λ p '(n, tr), (pool_Close p n, tr ++ [EvClose p])
|}.

#[local] Arguments loadMigrationStatements : simpl never.

Section Startup.
Context {N : Type} {pp : PgxPool N} {answers : PoolAnswers N} {fs : MigrationFS}.
Abbreviation TN := (N * list (pool_event (@pool N pp)))%type.

(** The statements run one after the other, up to the first that fails. *)
Lemma exec_statements_trace (p : PG TN) stmts n tr :
  ∃ n' ran, 
    (exec_statements p stmts (n, tr) = (Ok tt, (n', tr ++ ran)) ∧ ran = EvExec (pg_pool p) <$> stmts) ∨
    (∃ err before stmt rest, exec_statements p stmts (n, tr) = (Err (Wrapf "store: migrate: %w" [] err), (n', tr ++ ran)) ∧
      stmts = before ++ stmt :: rest ∧ ran = EvExec (pg_pool p) <$> (before ++ [stmt])).
Proof.
  revert n tr. induction stmts as [|stmt stmts IH]; intros n tr; simpl.
  - exists n, []. left. by rewrite app_nil_r.
  - pose proof (@exec_answers N pp answers (pg_pool p) stmt n) as Ha.
    set (step := wrap_err _ _). assert (Hs : step (n, tr) =
      let '(o, n1) := @pool_Exec N pp (pg_pool p) stmt n in
      (match o with Err e => Err (Wrapf "store: migrate: %w" [] e) | r => r end,
       (n1, tr ++ [EvExec (pg_pool p) stmt]))).
    { unfold step, wrap_err. simpl. unfold noted. by destruct (@pool_Exec N pp _ _ _) as [[]]. }
    destruct (@pool_Exec N pp (pg_pool p) stmt n) as [[[]|e|w|] n1]; simpl in Ha; try done.
    + destruct (IH n1 (tr ++ [EvExec (pg_pool p) stmt])) as (n' & ran & H). exists n', (EvExec (pg_pool p) stmt :: ran).
      rewrite !(bind_ok _ _ _ _ _ Hs). rewrite <- app_assoc in H.
      destruct H as [[E ->]|(err & b & s & r & E & -> & ->)]; [left|right].
      * split; [exact E|done].
      * exists err, (stmt :: b), s, r. by split.
    + exists n1, [EvExec (pg_pool p) stmt]. right. exists e, [], stmt, stmts.
      by rewrite (bind_err _ _ _ _ _ Hs).
Qed.

Lemma load_answers ld : proper_outcome (loadMigrationStatements ld).1.
Proof. unfold loadMigrationStatements. simpl. by case_match. Qed.

(** What a start leaves in the trace. *)
Definition startup_ok (ld : Loaded) (o : outcome (PG TN)) (tr : list (pool_event pool)) : Prop :=
  match o with
  | Ok pg => ∃ stmts, (loadMigrationStatements ld).1 = Ok stmts ∧
      tr = [EvOpen (pg_pool pg); EvPing (pg_pool pg)] ++ (EvExec (pg_pool pg) <$> stmts)
  | Err e =>
      (tr = [] ∧ ∃ err, e = Wrapf "store: parse database url: %w" [] err ∨
                        e = Wrapf "store: create pool: %w" [] err) ∨
      ∃ p ran, tr = [EvOpen p; EvPing p] ++ ran ++ [EvClose p] ∧
        (ran = [] ∧ (∃ err, e = Wrapf "store: ping: %w" [] err) ∨
         ran = [] ∧ (loadMigrationStatements ld).1 = Err e ∨
         ∃ before stmt rest err, (loadMigrationStatements ld).1 = Ok (before ++ stmt :: rest) ∧
           ran = EvExec p <$> (before ++ [stmt]) ∧ e = Wrapf "store: migrate: %w" [] err)
  | Panic _ | NoFuel => False
  end.

Lemma Migrate_trace (p : PG TN) n tr ld :
  ∃ o n' ran ld', Migrate p ((n, tr), ld) = (o, ((n', tr ++ ran), ld')) ∧
    ((∃ stmts, (loadMigrationStatements ld).1 = Ok stmts ∧ o = Ok tt ∧ ran = EvExec (pg_pool p) <$> stmts) ∨
     (∃ e, o = Err e ∧ ran = [] ∧ (loadMigrationStatements ld).1 = Err e) ∨
     (∃ before stmt rest err, o = Err (Wrapf "store: migrate: %w" [] err) ∧
        (loadMigrationStatements ld).1 = Ok (before ++ stmt :: rest) ∧
        ran = EvExec (pg_pool p) <$> (before ++ [stmt]))).
Proof.
  unfold Migrate, mbind, M_bind, on_loaded. pose proof (load_answers ld) as Hl.
  destruct (loadMigrationStatements ld) as [[stmts|e|w|] ld']; try done; simpl in *.
  - destruct (exec_statements_trace p stmts n tr) as (n' & ran & H). unfold on_pool.
    destruct H as [[E ->]|(err & b & s & r & E & -> & ->)]; rewrite E; do 4 eexists; (split; [reflexivity|]).
    + left. by exists stmts.
    + right. right. by exists b, s, r, err.
  - exists (Err e), n, [], ld'. rewrite app_nil_r. split; [done|]. right. left. by exists e.
Qed.

Lemma NewPG_trace (databaseURL : string) n ld :
  ∃ o n' tr, NewPG (N := TN) databaseURL ((n, []), ld) = (o, ((n', tr), ld)) ∧
    ((∃ pg : PG TN, o = Ok pg ∧ tr = [EvOpen (pg_pool pg); EvPing (pg_pool pg)]) ∨
     (∃ err, tr = [] ∧ (o = Err (Wrapf "store: parse database url: %w" [] err) ∨
                        o = Err (Wrapf "store: create pool: %w" [] err))) ∨
     (∃ p err, tr = [EvOpen p; EvPing p; EvClose p] ∧ o = Err (Wrapf "store: ping: %w" [] err))).
Proof using answers.
  pose proof (@config_answers N pp answers databaseURL) as Hc.
  unfold NewPG, mbind, M_bind, of_outcome, on_pool, mtry, wrap_err, mmodify, mthrow, mret, M_ret. simpl.
  unfold traced, noted.
  destruct (@ParseConfig N pp databaseURL) as [cfg|e|w|]; try done; simpl; [|eauto 10].
  pose proof (@new_answers N pp answers cfg n) as Hn.
  destruct (@NewWithConfig N pp cfg n) as [[p|e|w|] n1]; try done; simpl; [|eauto 10].
  pose proof (@ping_answers N pp answers p n1) as Hp.
  destruct (@pool_Ping N pp p n1) as [[[]|e|w|] n2]; try done; simpl; do 3 eexists; (split; [reflexivity|]).
  - left. by exists (mkPG TN traced_pool p).
  - right. right. by exists p, e.
Qed.

Lemma startup_trace (databaseURL : string) n ld o n' tr ld' :
  NewPGWithMigrations (N := TN) databaseURL ((n, []), ld) = (o, ((n', tr), ld')) → startup_ok ld o tr.
Proof using answers.
  unfold NewPGWithMigrations.
  destruct (NewPG_trace databaseURL n ld) as (oc & n1 & tr1 & E1 & Hc).
  destruct Hc as [(pg & -> & ->)|[(err & -> & [-> | ->])|(p & err & -> & ->)]].
  2, 3: rewrite (bind_err _ _ _ _ _ E1); intros H; simplify_eq; left; by eauto.
  2: { rewrite (bind_err _ _ _ _ _ E1). intros H. simplify_eq. right. exists p, []. split; [done|]. left. eauto. }
  rewrite (bind_ok _ _ _ _ _ E1). unfold mbind, M_bind, mtry.
  destruct (Migrate_trace pg n1 [EvOpen (pg_pool pg); EvPing (pg_pool pg)] ld)
    as (om & n3 & ran & ld3 & E & Hm). rewrite E.
  destruct Hm as [(stmts & Hl & -> & ->)|[(e & -> & -> & Hl)|(b & s & r & err & -> & Hl & ->)]];
    unfold mret, M_ret; simpl; intros H; inversion H; subst; clear H.
  - by exists stmts.
  - right. exists (pg_pool pg), []. auto.
  - right. exists (pg_pool pg), (EvExec (pg_pool pg) <$> b ++ [s]). split; [done|]. right. right.
    by exists b, s, r, err.
Qed.
(** C32: Starting on PostgreSQL always answers. On success the pool was opened
    and pinged and has run every statement of the migrations in order, and it
    is open. On failure nothing that was opened stays open: the URL was bad
    or no pool could be made, or the pool was closed at the end, once, after
    a ping that failed, after migrations that could not be read, or after the
    statements up to the first that failed, with none run after it. *)
Theorem pg_startup (databaseURL : string) n ld o n' tr ld' :
  NewPGWithMigrations (N := TN) databaseURL ((n, []), ld) = (o, ((n', tr), ld')) → startup_ok ld o tr.
Proof using answers. apply startup_trace. Qed.
End Startup.

(** A server that rejects one statement; pools are numbered. *)
Definition sample_pool : PgxPool nat := {|
  pool_config := string;
  pool := nat;
  ParseConfig := λ url, if has_prefix url "postgres://" then Ok url else Err (ErrorsNew "cannot parse");
  NewWithConfig := λ _ n, (Ok n, S n);
  pool_Ping := λ _ n, (Ok tt, n);
  pool_Exec := λ _ stmt n, if bool_decide (stmt = "CREATE b") then (Err (ErrorsNew "syntax error"), n) else (Ok tt, n);
  pool_Close := λ _ n, n
|}.

Lemma sample_pool_answers : @PoolAnswers nat sample_pool.
Proof. split; intros; simpl; try done; by case_if. Qed.

Lemma pg_startup_witness :
  startup_ok (pp := sample_pool) (fs := sample_fs) not_loaded
    (Err (Wrapf "store: migrate: %w" [] (ErrorsNew "syntax error")))
    [EvOpen 0; EvPing 0; EvExec 0 "CREATE a"; EvExec 0 "CREATE b"; EvClose 0].
Proof.
  assert (E : ∃ ld', NewPGWithMigrations (N := nat * list (pool_event (@pool nat sample_pool))) (fs := sample_fs)
      "postgres://db" ((0, []), not_loaded)
    = (Err (Wrapf "store: migrate: %w" [] (ErrorsNew "syntax error")),
       ((1, [EvOpen 0; EvPing 0; EvExec 0 "CREATE a"; EvExec 0 "CREATE b"; EvClose 0]), ld'))).
  { eexists. vm_compute. reflexivity. }
  destruct E as [ld' E].
  exact (pg_startup (pp := sample_pool) (answers := sample_pool_answers) (fs := sample_fs) _ _ _ _ _ _ _ E).
Defined.
