(* ===== verification/Encode.v ===== *)
(** * Response bodies (the tags of internal/store/models.go, writeJSON)

    The document that encoding/json writes for each Go value a handler
    answers with; the types of these documents, read off the struct tags; that
    what is written has its type; and when something is written at all.
    Strings are valid UTF-8. *)
From S2P Require Import Prelude GoStr GoValue GoSort GoFmt Json Model Store StoreSpec.
From S2P Require Import Expr Graph SideEffects Mcp Engine Auth Hub Decomposer Threads Orchestrator Codec Traces Sql Pg PgJson Api.

(** ** Encoding *)

(** Which empty slices are nil: of a value, by the name of the field. *)
Class Nils := is_nil : ∀ {A : Type}, A → string → bool.

(** A nil slice is null, an empty one is []. *)
Definition encode_slice {A} (nil : bool) (enc : A → option json) (l : list A) : option json :=
  match l with
  | [] => Some (if nil then JNull else JArr [])
  | _ => JArr <$> mapM enc l
  end.

(** A RawMessage: null when it is nil, an error when it is malformed. *)
Definition encode_raw (r : RawMessage) : option json :=
  match r with
  | RawEmpty => Some JNull
  | RawMalformed => None
  | RawDoc j => Some j
  end.

(** A field with [omitempty] that holds a RawMessage. *)
Definition omit_raw (name : string) (r : RawMessage) : option (list (string * json)) :=
  match r with
  | RawEmpty => Some []
  | RawMalformed => None
  | RawDoc j => Some [(name, j)]
  end.

Section Bodies.
Context `{Nils} (time_text : Time → string).

Definition jtime (t : Time) : json := JStr (time_text t).

Definition encode_Agent (a : Agent) : option json :=
  skills ← encode_slice (is_nil a "skills") (λ s, Some (encode_Skill s)) (Agent_Skills a);
  Some (JObj [("id", JStr (Agent_ID a)); ("tenant_id", JStr (Agent_TenantID a)); ("name", JStr (Agent_Name a));
              ("profile", JStr (Agent_Profile a)); ("system_prompt", JStr (Agent_SystemPrompt a));
              ("skills", skills); ("enabled", JBool (Agent_Enabled a));
              ("created_at", jtime (Agent_CreatedAt a)); ("updated_at", jtime (Agent_UpdatedAt a))]).

Definition encode_McpServer (s : McpServer) : option json :=
  transport ← encode_raw (McpServer_Transport s);
  Some (JObj [("id", JStr (McpServer_ID s)); ("tenant_id", JStr (McpServer_TenantID s));
              ("name", JStr (McpServer_Name s)); ("transport", transport);
              ("enabled", JBool (McpServer_Enabled s)); ("status", JStr (McpServer_Status s));
              ("created_at", jtime (McpServer_CreatedAt s)); ("updated_at", jtime (McpServer_UpdatedAt s))]).

Definition encode_FlowPermissionSet (p : FlowPermissionSet) : option json :=
  let strings name l := encode_slice (is_nil p name) (λ s, Some (JStr s)) l in
  rs ← strings "resources" (Resources p);
  fs ← strings "files" (Files p);
  ds ← strings "databases" (Databases p);
  Some (JObj [("resources", rs); ("files", fs); ("databases", ds)]).

Definition encode_Flow (f : Flow) : option json :=
  flow_json ← encode_raw (Flow_FlowJSON f);
  permissions ← encode_FlowPermissionSet (Flow_Permissions f);
  Some (JObj [("id", JStr (Flow_ID f)); ("tenant_id", JStr (Flow_TenantID f)); ("name", JStr (Flow_Name f));
              ("flow_json", flow_json); ("permissions", permissions); ("enabled", JBool (Flow_Enabled f));
              ("created_at", jtime (Flow_CreatedAt f)); ("updated_at", jtime (Flow_UpdatedAt f))]).

Definition encode_Run (r : Run) : option json :=
  logs ← encode_slice (is_nil r "logs") (λ e, Some (encode_LogEntry time_text e)) (Run_Logs r);
  result ← omit_raw "result" (Run_Result r);
  let finished := match Run_FinishedAt r with Some t => [("finished_at", jtime t)] | None => [] end in
  Some (JObj ([("id", JStr (Run_ID r)); ("flow_id", JStr (Run_FlowID r)); ("tenant_id", JStr (Run_TenantID r));
               ("status", JStr (Run_Status r)); ("started_at", jtime (Run_StartedAt r))]
              ++ finished ++ [("logs", logs)] ++ result)).

Definition encode_Task (t : Task) : option json :=
  subtasks ← encode_slice (is_nil t "subtasks") encode_Subtask (Task_Subtasks t);
  result ← omit_raw "result" (Task_Result t);
  Some (JObj ([("id", JStr (Task_ID t)); ("tenant_id", JStr (Task_TenantID t)); ("input", JStr (Task_Input t));
               ("status", JStr (Task_Status t)); ("subtasks", subtasks)]
              ++ result
              ++ [("created_at", jtime (Task_CreatedAt t)); ("updated_at", jtime (Task_UpdatedAt t))])).

(** The tag of PasswordHash is "-". *)
Definition encode_User (u : User) : option json :=
  Some (JObj [("id", JStr (User_ID u)); ("tenant_id", JStr (User_TenantID u)); ("username", JStr (Username u));
              ("role", JStr (User_Role u)); ("created_at", jtime (User_CreatedAt u));
              ("updated_at", jtime (User_UpdatedAt u))]).

Definition encode_Tool (t : Tool) : option json :=
  schema ← omit_raw "inputSchema" (InputSchema t);
  Some (JObj ([("name", JStr (Tool_Name t)); ("description", JStr (Tool_Description t))] ++ schema)).

(** The value passed to writeJSON; [None] for an error of the encoder, after
    which nothing is written.  [BNone] and [BText] stand for no call of it. *)
Definition encode_Body (b : Body) : option json :=
  let lst {A} enc (l : list A) := encode_slice (is_nil b "") enc l in
  match b with
  | BNone | BText _ => None
  | BError msg => Some (JObj [("error", JStr msg)])
  | BAgent a => encode_Agent a
  | BAgents l => lst encode_Agent l
  | BServer s => encode_McpServer s
  | BServers l => lst encode_McpServer l
  | BFlow f => encode_Flow f
  | BFlows l => lst encode_Flow l
  | BRun r => encode_Run r
  | BRuns l => lst encode_Run l
  | BTask t => encode_Task t
  | BUser u => encode_User u
  | BUsers l => lst encode_User l
  | BToken token => Some (JObj [("token", JStr token)])
  | BRunID id => Some (JObj [("run_id", JStr id)])
  | BTaskID id => Some (JObj [("task_id", JStr id)])
  | BTestFailed err => Some (JObj [("error", JStr err); ("ok", JBool false)])
  | BTestOk tools =>
      l ← lst encode_Tool tools; Some (JObj [("ok", JBool true); ("tools", l)])
  end.
End Bodies.

(** ** Types of documents *)
Inductive jtype :=
  | TAny
  | TString
  | TBool
  | TNumber
  | TSlice (t : jtype)
  | TStruct (fields : list (string * bool * jtype)).

(** The members of a struct, in order; one that is not required may be left
    out, and there are no others. *)
Fixpoint has_type (t : jtype) (j : json) {struct t} : bool :=
  match t, j with
  | TAny, _ => true
  | TString, JStr _ => true
  | TBool, JBool _ => true
  | TNumber, JNum _ => true
  | TSlice _, JNull => true
  | TSlice t, JArr l => forallb (has_type t) l
  | TStruct fields, JObj kvs =>
      (fix members (fields : list (string * bool * jtype)) (kvs : list (string * json)) : bool :=
         match fields with
         | [] => match kvs with [] => true | _ => false end
         | (k, required, t) :: fields' =>
             match kvs with
             | (k', v) :: kvs' =>
                 if bool_decide (k = k') then has_type t v && members fields' kvs'
                 else negb required && members fields' kvs
             | [] => negb required && members fields' []
             end
         end) fields kvs
  | _, _ => false
  end.

Definition required (k : string) (t : jtype) : string * bool * jtype := (k, true, t).
Definition omitempty (k : string) (t : jtype) : string * bool * jtype := (k, false, t).

Definition Skill_type : jtype :=
  TStruct [required "name" TString; required "server_id" TString; required "tool" TString].
Definition Agent_type : jtype :=
  TStruct [required "id" TString; required "tenant_id" TString; required "name" TString;
           required "profile" TString; required "system_prompt" TString;
           required "skills" (TSlice Skill_type); required "enabled" TBool;
           required "created_at" TString; required "updated_at" TString].
Definition McpServer_type : jtype :=
  TStruct [required "id" TString; required "tenant_id" TString; required "name" TString;
           required "transport" TAny; required "enabled" TBool; required "status" TString;
           required "created_at" TString; required "updated_at" TString].
Definition FlowPermissionSet_type : jtype :=
  TStruct [required "resources" (TSlice TString); required "files" (TSlice TString);
           required "databases" (TSlice TString)].
Definition Flow_type : jtype :=
  TStruct [required "id" TString; required "tenant_id" TString; required "name" TString;
           required "flow_json" TAny; required "permissions" FlowPermissionSet_type;
           required "enabled" TBool; required "created_at" TString; required "updated_at" TString].
Definition LogEntry_type : jtype :=
  TStruct [required "timestamp" TString; required "level" TString; required "message" TString;
           required "source" TString].
Definition Run_type : jtype :=
  TStruct [required "id" TString; required "flow_id" TString; required "tenant_id" TString;
           required "status" TString; required "started_at" TString; omitempty "finished_at" TString;
           required "logs" (TSlice LogEntry_type); omitempty "result" TAny].
Definition Subtask_type : jtype :=
  TStruct [required "id" TString; required "agent_id" TString; required "description" TString;
           required "status" TString; omitempty "result" TAny].
Definition Task_type : jtype :=
  TStruct [required "id" TString; required "tenant_id" TString; required "input" TString;
           required "status" TString; required "subtasks" (TSlice Subtask_type); omitempty "result" TAny;
           required "created_at" TString; required "updated_at" TString].
Definition User_type : jtype :=
  TStruct [required "id" TString; required "tenant_id" TString; required "username" TString;
           required "role" TString; required "created_at" TString; required "updated_at" TString].
Definition Tool_type : jtype :=
  TStruct [required "name" TString; required "description" TString; omitempty "inputSchema" TAny].
Definition Error_type : jtype := TStruct [required "error" TString].

(** The answers of each handler: status and type of the body. *)
Definition success (e : endpoint) : list (Z * jtype) :=
  match e with
  | EpMe | EpGetUser | EpUpdateUser => [(StatusOK, User_type)]
  | EpListAgents => [(StatusOK, TSlice Agent_type)]
  | EpGetAgent | EpUpdateAgent => [(StatusOK, Agent_type)]
  | EpCreateAgent => [(StatusCreated, Agent_type)]
  | EpListMcpServers => [(StatusOK, TSlice McpServer_type)]
  | EpGetMcpServer | EpUpdateMcpServer => [(StatusOK, McpServer_type)]
  | EpCreateMcpServer => [(StatusCreated, McpServer_type)]
  | EpTestMcpServer =>
      [(StatusOK, TStruct [required "error" TString; required "ok" TBool]);
       (StatusOK, TStruct [required "ok" TBool; required "tools" (TSlice Tool_type)])]
  | EpListFlows => [(StatusOK, TSlice Flow_type)]
  | EpGetFlow | EpUpdateFlow => [(StatusOK, Flow_type)]
  | EpCreateFlow => [(StatusCreated, Flow_type)]
  | EpRunFlow => [(StatusOK, TStruct [required "run_id" TString])]
  | EpListFlowRuns => [(StatusOK, TSlice Run_type)]
  | EpGetRun => [(StatusOK, Run_type)]
  | EpGetTask => [(StatusOK, Task_type)]
  | EpListUsers => [(StatusOK, TSlice User_type)]
  | EpCreateUser => [(StatusCreated, User_type)]
  | EpDeleteAgent | EpDeleteMcpServer | EpDeleteFlow | EpDeleteUser => []
  end.

(** The statuses of the errors of a route, beside those of the middlewares. *)
Definition store_errors : list Z :=
  [StatusNotFound; StatusConflict; StatusBadRequest; StatusInternalServerError].

Definition failures (e : endpoint) : list Z :=
  match e with
  | EpListAgents | EpListMcpServers | EpListFlows | EpListUsers => [StatusInternalServerError]
  | EpMe => [StatusUnauthorized]
  | _ => store_errors
  end.

Definition deletes (e : endpoint) : bool :=
  bool_decide (e ∈ [EpDeleteAgent; EpDeleteMcpServer; EpDeleteFlow; EpDeleteUser]).

(** The types of the answers of a route, with [errors] as the statuses of its
    errors. *)
Definition answers_of (e : endpoint) (errors : list Z) : list (Z * jtype) :=
  success e ++ ((λ st, (st, Error_type)) <$> errors).

(** ** The type of every body *)
Definition body_type (b : Body) : jtype :=
  match b with
  | BNone | BText _ => TAny
  | BError _ => Error_type
  | BAgent _ => Agent_type
  | BAgents _ => TSlice Agent_type
  | BServer _ => McpServer_type
  | BServers _ => TSlice McpServer_type
  | BFlow _ => Flow_type
  | BFlows _ => TSlice Flow_type
  | BRun _ => Run_type
  | BRuns _ => TSlice Run_type
  | BTask _ => Task_type
  | BUser _ => User_type
  | BUsers _ => TSlice User_type
  | BToken _ => TStruct [required "token" TString]
  | BRunID _ => TStruct [required "run_id" TString]
  | BTaskID _ => TStruct [required "task_id" TString]
  | BTestFailed _ => TStruct [required "error" TString; required "ok" TBool]
  | BTestOk _ => TStruct [required "ok" TBool; required "tools" (TSlice Tool_type)]
  end.

(** What is written is of a type. *)
Definition encodes_to {A} (enc : A → option json) (t : jtype) : Prop :=
  ∀ a j, enc a = Some j → has_type t j = true.

(** A struct, member by member. *)
Lemma type_end : has_type (TStruct []) (JObj []) = true.
Proof. done. Qed.

Lemma type_member k r t fs v kvs :
  has_type t v = true → has_type (TStruct fs) (JObj kvs) = true →
  has_type (TStruct ((k, r, t) :: fs)) (JObj ((k, v) :: kvs)) = true.
Proof. intros Hv Hs. simpl in *. by rewrite bool_decide_eq_true_2, Hv, Hs. Qed.

Lemma type_omitted k t fs kvs :
  head kvs.*1 ≠ Some k → has_type (TStruct fs) (JObj kvs) = true →
  has_type (TStruct ((k, false, t) :: fs)) (JObj kvs) = true.
Proof.
  intros Hk Hs. destruct kvs as [|[k' v] kvs]; simpl in *; [done|].
  rewrite bool_decide_eq_false_2 by congruence. done.
Qed.

Create HintDb jtypes.
#[export] Hint Resolve type_end : jtypes.

(** Take a successful encoding apart, and type its members. *)
Ltac solve_members :=
  repeat (apply type_member; [solve [done|eauto with jtypes]|] || (apply type_omitted; [done|]));
  exact type_end.

Ltac solve_encodes :=
  intros ? ? ?;
  repeat match goal with
  | H : (_ ≫= _) = Some _ |- _ => apply bind_Some in H as (? & ? & H)
  | H : Some _ = Some _ |- _ => injection H as <-
  end;
  solve_members.

Section Types.
Context `{Nils} (time_text : Time → string).

Lemma encode_slice_typed {A} nil (enc : A → option json) t l j :
  encodes_to enc t → encode_slice nil enc l = Some j → has_type (TSlice t) j = true.
Proof.
  intros He. destruct l as [|a l]; [by destruct nil; intros [= <-]|].
  unfold encode_slice. generalize (a :: l). intros k (js & Hjs & ->)%fmap_Some. simpl.
  apply mapM_Some in Hjs. apply forallb_forall. intros x Hx%list_elem_of_In.
  eapply Forall2_Forall_r in Hjs; [|apply Forall_forall; intros b _; exact (He b)].
  rewrite Forall_forall in Hjs. by apply Hjs.
Qed.
Hint Resolve encode_slice_typed : jtypes.

Lemma encode_Skill_typed s : has_type Skill_type (encode_Skill s) = true.
Proof. done. Qed.

Lemma const_typed {A} (f : A → json) t : (∀ a, has_type t (f a) = true) → encodes_to (λ a, Some (f a)) t.
Proof. intros Hf a j [= <-]. apply Hf. Qed.
Hint Resolve const_typed encode_Skill_typed : jtypes.

Lemma strings_typed : encodes_to (λ s, Some (JStr s)) TString.
Proof. by intros s j [= <-]. Qed.

Lemma logs_typed : encodes_to (λ e, Some (encode_LogEntry time_text e)) LogEntry_type.
Proof. by intros e j [= <-]. Qed.

Lemma encode_Subtask_typed : encodes_to encode_Subtask Subtask_type.
Proof. intros s j. unfold encode_Subtask. by destruct (Subtask_Result s); intros [= <-]. Qed.
Hint Resolve strings_typed logs_typed encode_Subtask_typed : jtypes.

Lemma omit_raw_typed name r l : omit_raw name r = Some l → l = [] ∨ ∃ v, l = [(name, v)].
Proof. destruct r; intros [= <-]; eauto. Qed.

Lemma encode_Agent_typed : encodes_to (encode_Agent time_text) Agent_type.
Proof. unfold encode_Agent. solve_encodes. Qed.

Lemma encode_McpServer_typed : encodes_to (encode_McpServer time_text) McpServer_type.
Proof. unfold encode_McpServer. solve_encodes. Qed.

Lemma encode_FlowPermissionSet_typed : encodes_to encode_FlowPermissionSet FlowPermissionSet_type.
Proof. unfold encode_FlowPermissionSet. solve_encodes. Qed.
Hint Resolve encode_FlowPermissionSet_typed : jtypes.

Lemma encode_Flow_typed : encodes_to (encode_Flow time_text) Flow_type.
Proof. unfold encode_Flow. solve_encodes. Qed.

Lemma encode_Run_typed : encodes_to (encode_Run time_text) Run_type.
Proof.
  intros r j. unfold encode_Run. intros (logs & Hl & (res & Hr & He)%bind_Some)%bind_Some.
  apply omit_raw_typed in Hr. destruct (Run_FinishedAt r), Hr as [->|[v ->]]; injection He as <-;
    cbn [app]; solve_members.
Qed.

Lemma encode_Task_typed : encodes_to (encode_Task time_text) Task_type.
Proof.
  intros t j. unfold encode_Task. intros (subs & Hs & (res & Hr & He)%bind_Some)%bind_Some.
  apply omit_raw_typed in Hr. destruct Hr as [->|[v ->]]; injection He as <-; cbn [app]; solve_members.
Qed.

Lemma encode_User_typed : encodes_to (encode_User time_text) User_type.
Proof. unfold encode_User. solve_encodes. Qed.

Lemma encode_Tool_typed : encodes_to encode_Tool Tool_type.
Proof.
  intros t j. unfold encode_Tool. intros (res & Hr & He)%bind_Some.
  apply omit_raw_typed in Hr. destruct Hr as [->|[v ->]]; injection He as <-; cbn [app]; solve_members.
Qed.
Hint Resolve encode_Agent_typed encode_McpServer_typed encode_Flow_typed encode_Run_typed
  encode_Task_typed encode_User_typed encode_Tool_typed : jtypes.

Lemma encode_Body_typed b j : encode_Body time_text b = Some j → has_type (body_type b) j = true.
Proof.
  destruct b; cbn [encode_Body body_type]; intros Hj.
  - done.
  - done.
  - injection Hj as <-. solve_members.
  - by apply encode_Agent_typed in Hj.
  - by eapply encode_slice_typed, Hj; apply encode_Agent_typed.
  - by apply encode_McpServer_typed in Hj.
  - by eapply encode_slice_typed, Hj; apply encode_McpServer_typed.
  - by apply encode_Flow_typed in Hj.
  - by eapply encode_slice_typed, Hj; apply encode_Flow_typed.
  - by apply encode_Run_typed in Hj.
  - by eapply encode_slice_typed, Hj; apply encode_Run_typed.
  - by apply encode_Task_typed in Hj.
  - by apply encode_User_typed in Hj.
  - by eapply encode_slice_typed, Hj; apply encode_User_typed.
  - injection Hj as <-. solve_members.
  - injection Hj as <-. solve_members.
  - injection Hj as <-. solve_members.
  - injection Hj as <-. solve_members.
  - apply bind_Some in Hj as (l & Hl & [= <-]). solve_members.
Qed.

(** ** What can be encoded: all but a malformed RawMessage *)
Definition raw_ok (r : RawMessage) : bool := match r with RawMalformed => false | _ => true end.

Definition Task_raws (t : Task) : list RawMessage := Task_Result t :: (Subtask_Result <$> Task_Subtasks t).

Definition raws_of (b : Body) : list RawMessage :=
  match b with
  | BServer s => [McpServer_Transport s]
  | BServers l => McpServer_Transport <$> l
  | BFlow f => [Flow_FlowJSON f]
  | BFlows l => Flow_FlowJSON <$> l
  | BRun r => [Run_Result r]
  | BRuns l => Run_Result <$> l
  | BTask t => Task_raws t
  | BTestOk tools => InputSchema <$> tools
  | _ => []
  end.

Lemma encode_slice_Some {A} nil (enc : A → option json) l :
  is_Some (encode_slice nil enc l) ↔ Forall (λ a, is_Some (enc a)) l.
Proof.
  destruct l as [|a l]; [split; [done|by eexists]|]. unfold encode_slice. generalize (a :: l). intros k.
  by rewrite fmap_is_Some, mapM_is_Some.
Qed.

Lemma encode_slice_const {A} nil (f : A → json) l : is_Some (encode_slice nil (λ a, Some (f a)) l).
Proof. apply encode_slice_Some, Forall_forall. by eexists. Qed.

(** The encoder of a struct with one RawMessage [raw]. *)
Definition encodes_when {A} (enc : A → option json) (raw : A → RawMessage) : Prop :=
  ∀ a, is_Some (enc a) ↔ raw_ok (raw a) = true.

Ltac some_slices :=
  repeat match goal with
  | |- context [encode_slice ?n (λ s, Some (?f s)) ?l] =>
      let x := fresh "x" in let E := fresh "E" in
      destruct (encode_slice_const n f l) as [x E]; rewrite E; clear E; cbn [mbind option_bind]
  end.

Ltac one_raw r := destruct r; simpl; (split; [intros [? ?]; done|intros ?; first [done|by eexists]]).

Lemma server_when : encodes_when (encode_McpServer time_text) McpServer_Transport.
Proof. intros s. unfold encode_McpServer. one_raw (McpServer_Transport s). Qed.

Lemma permissions_Some p : is_Some (encode_FlowPermissionSet p).
Proof. unfold encode_FlowPermissionSet. cbv zeta. some_slices. by eexists. Qed.

Lemma flow_when : encodes_when (encode_Flow time_text) Flow_FlowJSON.
Proof.
  intros f. unfold encode_Flow. destruct (permissions_Some (Flow_Permissions f)) as [p ->].
  one_raw (Flow_FlowJSON f).
Qed.

Lemma run_when : encodes_when (encode_Run time_text) Run_Result.
Proof. intros r. unfold encode_Run. some_slices. one_raw (Run_Result r). Qed.

Lemma subtask_when : encodes_when encode_Subtask Subtask_Result.
Proof. intros s. unfold encode_Subtask. one_raw (Subtask_Result s). Qed.

Lemma tool_when : encodes_when encode_Tool InputSchema.
Proof. intros s. unfold encode_Tool. one_raw (InputSchema s). Qed.

Lemma agent_Some a : is_Some (encode_Agent time_text a).
Proof. unfold encode_Agent. some_slices. by eexists. Qed.

Lemma slice_when {A} nil (enc : A → option json) raw l :
  encodes_when enc raw → is_Some (encode_slice nil enc l) ↔ forallb raw_ok (raw <$> l) = true.
Proof.
  intros He. rewrite encode_slice_Some, forallb_forall, Forall_forall. split.
  - intros Hl x (a & -> & Ha)%list_elem_of_In%list_elem_of_fmap. by apply He, Hl.
  - intros Hl a Ha. apply He, Hl, list_elem_of_In, list_elem_of_fmap. by exists a.
Qed.

Lemma task_when t : is_Some (encode_Task time_text t) ↔ forallb raw_ok (Task_raws t) = true.
Proof.
  unfold encode_Task, Task_raws. cbn [forallb]. rewrite andb_true_iff.
  rewrite <- (slice_when (is_nil t "subtasks") _ _ _ subtask_when).
  destruct (encode_slice _ encode_Subtask _) as [x|]; cbn [mbind option_bind].
  - split; [intros Hr; split; [|by eexists]|intros [Hr _]]; destruct (Task_Result t); simpl in *;
      first [done|by destruct Hr|by eexists].
  - split; [by intros [? ?]|by intros [_ [? ?]]].
Qed.

Lemma encode_Body_when b :
  match b with BNone | BText _ => False | _ => True end →
  is_Some (encode_Body time_text b) ↔ forallb raw_ok (raws_of b) = true.
Proof.
  intros Hb. destruct b; try done; cbn [encode_Body raws_of]; try (split; [done|by eexists]).
  - split; [done|intros _; apply agent_Some].
  - split; [done|intros _]. apply encode_slice_Some, Forall_forall. intros a _. apply agent_Some.
  - etrans; [apply server_when|]. cbn. by rewrite andb_true_r.
  - apply slice_when, server_when.
  - etrans; [apply flow_when|]. cbn. by rewrite andb_true_r.
  - apply slice_when, flow_when.
  - etrans; [apply run_when|]. cbn. by rewrite andb_true_r.
  - apply slice_when, run_when.
  - apply task_when.
  - split; [done|intros _]. apply encode_slice_Some, Forall_forall. by eexists.
  - rewrite <- (slice_when (is_nil (BTestOk tools) "") _ _ _ tool_when).
    destruct (encode_slice _ encode_Tool tools); simpl; split; intros [? ?]; first [done|by eexists].
Qed.
End Types.
