(* ===== verification/OpenApi.v ===== *)
(** * The documented API (openapi/openapi.yaml)

    The responses that the document declares for each path, with its schemas;
    when a document conforms to a schema; and a test that every document of a
    Go type does.  This is the specification that ApiTypes holds the handlers
    to. *)
From S2P Require Import Prelude GoStr GoValue GoSort GoFmt Json Model Store StoreSpec.
From S2P Require Import Expr Graph SideEffects Mcp Engine Auth Hub Codec Api Encode.

(** [type: object] without properties is [SObject [] []]. *)
Inductive schema :=
  | SString
  | SBoolean
  | SEnum (l : list string)
  | SArray (items : schema)
  | SObject (required : list string) (properties : list (string * schema)).

Definition is_free (req : list string) (props : list (string * schema)) : bool :=
  match req, props with [], [] => true | _, _ => false end.

(** Conformance. Other members than the declared ones are allowed, and those
    that are not required may be missing. With [strict] as the document says;
    without, three things are let pass: null for an array, any string for an
    enumeration, and any document for an object without properties. *)
Fixpoint conforms (strict : bool) (s : schema) (j : json) {struct s} : bool :=
  match s, j with
  | SString, JStr _ => true
  | SBoolean, JBool _ => true
  | SEnum l, JStr x => negb strict || bool_decide (x ∈ l)
  | SArray _, JNull => negb strict
  | SArray s, JArr l => forallb (conforms strict s) l
  | SObject req props, JObj kvs =>
      forallb (λ k, bool_decide (k ∈ kvs.*1)) req &&
      (fix each (props : list (string * schema)) : bool :=
         match props with
         | [] => true
         | (k, s) :: props' =>
             forallb (λ kv, negb (bool_decide (kv.1 = k)) || conforms strict s kv.2) kvs && each props'
         end) props
  | SObject req props, _ => negb strict && is_free req props
  | _, _ => false
  end.

(** ** The schemas *)
Definition Status_schema : schema := SObject [] [("status", SString)].
Definition Skill_schema : schema :=
  SObject ["name"; "server_id"; "tool"] [("name", SString); ("server_id", SString); ("tool", SString)].
Definition Agent_schema : schema :=
  SObject [] [("id", SString); ("tenant_id", SString); ("name", SString); ("profile", SString);
    ("system_prompt", SString); ("skills", SArray Skill_schema); ("enabled", SBoolean);
    ("created_at", SString); ("updated_at", SString)].
Definition McpServer_schema : schema :=
  SObject [] [("id", SString); ("tenant_id", SString); ("name", SString); ("transport", SObject [] []);
    ("enabled", SBoolean); ("status", SString)].
Definition Tool_schema : schema := SObject [] [("name", SString); ("description", SString)].
Definition Permissions_schema : schema :=
  SObject [] [("resources", SArray SString); ("files", SArray SString); ("databases", SArray SString)].
Definition Flow_schema : schema :=
  SObject [] [("id", SString); ("tenant_id", SString); ("name", SString); ("flow_json", SObject [] []);
    ("permissions", Permissions_schema); ("enabled", SBoolean)].
Definition LogEntry_schema : schema :=
  SObject [] [("timestamp", SString); ("level", SString); ("message", SString); ("source", SString)].
Definition Run_schema : schema :=
  SObject [] [("id", SString); ("flow_id", SString); ("tenant_id", SString);
    ("status", SEnum ["pending"; "running"; "success"; "failed"; "rolled_back"]); ("started_at", SString);
    ("finished_at", SString); ("logs", SArray LogEntry_schema); ("result", SObject [] [])].
Definition Subtask_schema : schema :=
  SObject [] [("id", SString); ("agent_id", SString); ("description", SString);
    ("status", SEnum ["pending"; "running"; "success"; "failed"]); ("result", SObject [] [])].
Definition Task_schema : schema :=
  SObject [] [("id", SString); ("tenant_id", SString); ("input", SString);
    ("status", SEnum ["pending"; "running"; "success"; "failed"]); ("subtasks", SArray Subtask_schema);
    ("result", SObject [] [])].
Definition User_schema : schema :=
  SObject [] [("id", SString); ("tenant_id", SString); ("username", SString);
    ("role", SEnum ["viewer"; "operator"; "owner"])].

(** ** The paths: method, path, status and schema of each response with JSON
    or without a body; the metrics and the socket have neither *)
Definition paths : list (string * string * Z * option schema) := [
  ("GET", "/healthz", 200%Z, Some Status_schema);
  ("GET", "/readyz", 200%Z, Some Status_schema);
  ("POST", "/api/v1/auth/login", 200%Z, Some (SObject [] [("token", SString)]));
  ("POST", "/api/v1/auth/login", 401%Z, None);
  ("GET", "/api/v1/me", 200%Z, Some User_schema);
  ("GET", "/api/v1/agents", 200%Z, Some (SArray Agent_schema));
  ("POST", "/api/v1/agents", 201%Z, Some Agent_schema);
  ("GET", "/api/v1/agents/{id}", 200%Z, Some Agent_schema);
  ("PUT", "/api/v1/agents/{id}", 200%Z, Some Agent_schema);
  ("DELETE", "/api/v1/agents/{id}", 204%Z, None);
  ("GET", "/api/v1/mcp-servers", 200%Z, Some (SArray McpServer_schema));
  ("POST", "/api/v1/mcp-servers", 201%Z, Some McpServer_schema);
  ("GET", "/api/v1/mcp-servers/{id}", 200%Z, Some McpServer_schema);
  ("PUT", "/api/v1/mcp-servers/{id}", 200%Z, Some McpServer_schema);
  ("DELETE", "/api/v1/mcp-servers/{id}", 204%Z, None);
  ("POST", "/api/v1/mcp-servers/{id}/test", 200%Z,
     Some (SObject [] [("ok", SBoolean); ("error", SString); ("tools", SArray Tool_schema)]));
  ("GET", "/api/v1/flows", 200%Z, Some (SArray Flow_schema));
  ("POST", "/api/v1/flows", 201%Z, Some Flow_schema);
  ("GET", "/api/v1/flows/{id}", 200%Z, Some Flow_schema);
  ("PUT", "/api/v1/flows/{id}", 200%Z, Some Flow_schema);
  ("DELETE", "/api/v1/flows/{id}", 204%Z, None);
  ("POST", "/api/v1/flows/{id}/run", 200%Z, Some (SObject [] [("run_id", SString)]));
  ("GET", "/api/v1/flows/{id}/runs", 200%Z, Some (SArray Run_schema));
  ("GET", "/api/v1/runs/{run_id}", 200%Z, Some Run_schema);
  ("POST", "/api/v1/tasks", 200%Z, Some (SObject [] [("task_id", SString)]));
  ("GET", "/api/v1/tasks/{id}", 200%Z, Some Task_schema);
  ("GET", "/api/v1/users", 200%Z, Some (SArray User_schema));
  ("POST", "/api/v1/users", 201%Z, Some User_schema);
  ("GET", "/api/v1/users/{id}", 200%Z, Some User_schema);
  ("PUT", "/api/v1/users/{id}", 200%Z, Some User_schema);
  ("DELETE", "/api/v1/users/{id}", 204%Z, None);
  ("GET", "/api/v1/dashboard", 200%Z, Some (SObject [] []))
].

Definition documented (mp : string * string) : list (Z * option schema) :=
  omap (λ '(m, p, st, s), if bool_decide ((m, p) = mp) then Some (st, s) else None) paths.

(** The path of an endpoint in the document. *)
Definition doc_path (e : endpoint) : string * string :=
  route e (if decide (e = EpGetRun) then "{run_id}" else "{id}").

(** ** Types and schemas *)

(** Every document of the type conforms to the schema. *)
Fixpoint fits (t : jtype) (s : schema) {struct t} : bool :=
  match t, s with
  | TString, (SString | SEnum _) => true
  | TBool, SBoolean => true
  | TSlice t, SArray s => fits t s
  | TStruct fields, SObject req props =>
      forallb (λ k, existsb (λ f, bool_decide (f.1 = (k, true))) fields) req &&
      (fix each (fields : list (string * bool * jtype)) : bool :=
         match fields with
         | [] => true
         | (k, _, t) :: fields' =>
             forallb (λ p, negb (bool_decide (p.1 = k)) || fits t p.2) props && each fields'
         end) fields
  | _, SObject req props => is_free req props
  | _, _ => false
  end.

Lemma jtype_fields_ind (P : jtype → Prop) :
  P TAny → P TString → P TBool → P TNumber → (∀ t, P t → P (TSlice t)) →
  (∀ fs, Forall (λ f : string * bool * jtype, P f.2) fs → P (TStruct fs)) → ∀ t, P t.
Proof.
  intros Ha Hs Hb Hn Hl Hf. fix IH 1. intros [| | | |t|fs]; [done..|apply Hl, IH|].
  apply Hf. induction fs as [|[[k r] t] fs IHfs]; constructor; [apply IH|exact IHfs].
Qed.

(** The members of a document of a struct type. *)
Lemma struct_members fields kvs :
  has_type (TStruct fields) (JObj kvs) = true →
  (∀ kv, kv ∈ kvs → ∃ r t, (kv.1, r, t) ∈ fields ∧ has_type t kv.2 = true) ∧
  (∀ k t, (k, true, t) ∈ fields → k ∈ kvs.*1).
Proof.
  revert kvs. induction fields as [|[[k r] t] fields IH]; intros kvs.
  { destruct kvs; [|done]. split; [intros kv|intros k t]; by intros ?%not_elem_of_nil. }
  destruct kvs as [|[k' v] kvs]; cbn [has_type].
  - intros [Hr H]%andb_prop. destruct (IH [] H) as [_ H2]. split; [by intros kv ?%not_elem_of_nil|].
    intros k1 t1 [[= -> <- ->]|Hin]%elem_of_cons; [done|by eapply H2].
  - case_bool_decide as Hk.
    + subst k'. intros [Hv H]%andb_prop. destruct (IH kvs H) as [H1 H2]. split.
      * intros kv [->|Hin]%elem_of_cons; [exists r, t; split; [by left|done]|].
        destruct (H1 kv Hin) as (r1 & t1 & ? & ?). exists r1, t1. split; [by right|done].
      * intros k1 t1 [[= -> <- ->]|Hin]%elem_of_cons; [by left|]. right. by eapply H2.
    + intros [Hr H]%andb_prop. destruct (IH ((k', v) :: kvs) H) as [H1 H2]. split.
      * intros kv Hin. destruct (H1 kv Hin) as (r1 & t1 & ? & ?). exists r1, t1. split; [by right|done].
      * intros k1 t1 [[= -> <- ->]|Hin]%elem_of_cons; [done|by eapply H2].
Qed.

Lemma conforms_object strict req props kvs :
  (∀ k, k ∈ req → k ∈ kvs.*1) →
  (∀ k s v, (k, s) ∈ props → (k, v) ∈ kvs → conforms strict s v = true) →
  conforms strict (SObject req props) (JObj kvs) = true.
Proof.
  intros Hreq Hp. cbn [conforms]. apply andb_true_intro. split.
  - apply forallb_forall. intros k Hk%list_elem_of_In. by apply bool_decide_eq_true, Hreq.
  - induction props as [|[k s] props IH]; [done|]. apply andb_true_intro. split.
    + apply forallb_forall. intros [k' v] Hin%list_elem_of_In. cbn [fst snd].
      case_bool_decide; [|done]. subst k'. simpl. eapply Hp; [by left|done].
    + apply IH. intros k' s' v Hs. apply Hp. by right.
Qed.

Lemma fits_fields fields req props :
  fits (TStruct fields) (SObject req props) = true →
  (∀ k, k ∈ req → ∃ t, (k, true, t) ∈ fields) ∧
  (∀ k r t s, (k, r, t) ∈ fields → (k, s) ∈ props → fits t s = true).
Proof.
  cbn [fits]. intros [Hreq Hf]%andb_prop. split.
  - intros k Hk. rewrite forallb_forall in Hreq. specialize (Hreq k). rewrite <- list_elem_of_In in Hreq.
    apply Hreq in Hk. apply existsb_exists in Hk as ([[k' r] t] & Hin & He%bool_decide_eq_true).
    simpl in He. injection He as -> ->. exists t. by apply list_elem_of_In.
  - intros k r t s Hin Hp. clear Hreq. induction fields as [|[[k' r'] t'] fields IH].
    { by apply not_elem_of_nil in Hin. }
    apply andb_prop in Hf as [Hh Hf]. apply elem_of_cons in Hin as [[= <- <- <-]|Hin]; [|by apply IH].
    rewrite forallb_forall in Hh. specialize (Hh (k, s)). rewrite <- list_elem_of_In in Hh.
    specialize (Hh Hp). simpl in Hh. by rewrite bool_decide_eq_true_2 in Hh.
Qed.

Lemma free_conforms req props j : is_free req props = true → conforms false (SObject req props) j = true.
Proof. destruct req, props; try done. by destruct j. Qed.

Lemma fits_sound t s j : fits t s = true → has_type t j = true → conforms false s j = true.
Proof.
  revert t s j. apply (jtype_fields_ind (λ t, ∀ s j, fits t s = true → has_type t j = true → conforms false s j = true)).
  - intros [| | | |req props] j; try done. intros H _. by apply free_conforms.
  - intros [| | | |req props] j H Hj; try done; by destruct j.
  - intros [| | | |req props] j H Hj; try done; by destruct j.
  - intros [| | | |req props] j; try done. intros H _. by apply free_conforms.
  - intros t IH [| | |s|req props] j; try done; [|intros H _; by apply free_conforms].
    intros Hf. destruct j as [| | | |l|]; try done. simpl. rewrite !forallb_forall. intros Hl x Hx. by apply IH, Hl.
  - intros fields IH s j Hf Ht. destruct s as [| | | |req props]; try done.
    destruct j as [| | | | |kvs]; try by destruct fields.
    destruct (fits_fields _ _ _ Hf) as [Hreq Hp]. destruct (struct_members _ _ Ht) as [Hm Hr].
    apply conforms_object.
    + intros k Hk. destruct (Hreq k Hk) as [t Hin]. by eapply Hr.
    + intros k s v Hs Hv. destruct (Hm _ Hv) as (r & t & Hin & Hty). simpl in Hin.
      rewrite Forall_forall in IH. exact (IH _ Hin s v (Hp k r t s Hin Hs) Hty).
Qed.

(** Every success in the table of an endpoint is documented. *)
Lemma success_documented e st t :
  (st, t) ∈ success e → ∃ s, (st, Some s) ∈ documented (doc_path e) ∧ fits t s = true.
Proof.
  intros Hin.
  assert (H : Forall (λ x, existsb (λ y, match y.2 with
    | Some s => bool_decide (y.1 = x.1) && fits x.2 s
    | None => false end) (documented (doc_path e)) = true) (success e)).
  { destruct e; vm_compute; repeat constructor. }
  rewrite Forall_forall in H. apply H in Hin. apply existsb_exists in Hin as ([st' [s|]] & Hd & Hs); [|done]. cbn [fst snd] in Hs.
  apply andb_prop in Hs as [->%bool_decide_eq_true Hs]. exists s. split; [by apply list_elem_of_In|done].
Qed.

Lemma deletes_documented e : deletes e = true → (StatusNoContent, None) ∈ documented (doc_path e).
Proof. destruct e; intros H; try discriminate H; vm_compute; apply list_elem_of_here. Qed.
