(* ===== verification/ApiTypes.v ===== *)
(** * The answers of the handlers are the documented ones (internal/api)

    What every handler of a protected route answers, held to OpenApi: the
    statuses and bodies of its successes are those of openapi.yaml, and its
    errors are of a known form; a password hash is in no answer; and what is
    shown of an agent, server or flow is read back as it was. *)
From S2P Require Import Prelude GoStr GoValue GoSort GoFmt Json Model Store StoreSpec StoreProps.
From S2P Require Import Expr Graph SideEffects Mcp Engine EngineProps Auth Hub History Decomposer Threads Orchestrator Codec Traces Sql Pg PgJson Config Api ApiSamples Dashboard Encode OpenApi.

(** ** Answers of a computation *)
Definition answers {S} (P : HttpResponse → Prop) (m : M S HttpResponse) : Prop :=
  ∀ a resp a', m a = (Ok resp, a') → P resp.

(** A response that is in a table of statuses and types, or the answer to a
    deletion. *)
Definition in_table (table : list (Z * jtype)) (del : bool) (resp : HttpResponse) : Prop :=
  match Payload resp with
  | BNone => del = true ∧ Status resp = StatusNoContent
  | b => (Status resp, body_type b) ∈ table
  end.

Create HintDb answers.

Section Answers.
Context {S : Type}.
Implicit Types (P : HttpResponse → Prop).

Lemma answers_bind {B} P (m : M S B) k : (∀ x, answers P (k x)) → answers P (m ≫= k).
Proof. intros Hk a resp a' (x & a1 & _ & H)%bind_Ok_inv. by eapply Hk. Qed.

Lemma answers_ret P resp : P resp → answers (S := S) P (mret resp).
Proof. by intros H a r a' [= <- _]. Qed.

Lemma answers_throw P e : answers (S := S) P (mthrow e).
Proof. by intros a r a'. Qed.

Lemma answers_mono P Q (m : M S HttpResponse) : answers P m → (∀ r, P r → Q r) → answers Q m.
Proof. intros H HPQ a r a' E. by eapply HPQ, H. Qed.
End Answers.

(** A failed call of the store: one of four statuses and a message. *)
Lemma storeError_cases err : ∃ st msg, storeError err = writeError st msg ∧ st ∈ store_errors.
Proof.
  unfold storeError, mapStoreError, store_errors. repeat case_if; do 2 eexists; (split; [done|set_solver]).
Qed.

Section Replies.
Context {St Mc Se : Type} {quoting : FmtQuote}.
Abbreviation A := (Api St Mc Se).

Lemma answers_store_error tbl del err :
  (∀ st, st ∈ store_errors → (st, Error_type) ∈ tbl) →
  answers (S := A) (in_table tbl del) (mret (storeError err)).
Proof.
  intros Ht. apply answers_ret. destruct (storeError_cases err) as (st & msg & -> & Hst). by apply Ht.
Qed.

Lemma answers_reply {B} tbl del st (f : B → Body) r :
  (∀ st, st ∈ store_errors → (st, Error_type) ∈ tbl) → (∀ b, in_table tbl del (writeJSON st (f b))) →
  answers (in_table tbl del) (reply (St := St) (Mc := Mc) (Se := Se) st f r).
Proof. intros Ht Hf. destruct r as [b|err]; [by apply answers_ret|by apply answers_store_error]. Qed.

Lemma answers_reply_list {B} tbl del (f : B → Body) r :
  (StatusInternalServerError, Error_type) ∈ tbl → (∀ b, in_table tbl del (writeJSON StatusOK (f b))) →
  answers (in_table tbl del) (reply_list (St := St) (Mc := Mc) (Se := Se) f r).
Proof. intros Ht Hf. destruct r as [b|err]; by apply answers_ret. Qed.
End Replies.
#[export] Hint Resolve answers_throw : answers.

Lemma in_errors e errors st : st ∈ errors → (st, Error_type) ∈ answers_of e errors.
Proof. intros H. apply elem_of_app. right. apply list_elem_of_fmap. by exists st. Qed.

Lemma in_store_errors e : failures e = store_errors →
  ∀ st, st ∈ store_errors → (st, Error_type) ∈ answers_of e (failures e).
Proof. intros -> st. apply in_errors. Qed.

(** Membership of a concrete table. *)
Ltac in_concrete :=
  unfold in_table; cbn;
  first [ by split
        | solve [repeat first [apply list_elem_of_here | apply list_elem_of_further]] ].

(** One step through a handler. *)
Ltac answers_step :=
  lazymatch goal with
  | |- answers _ (_ ≫= _) => apply answers_bind; intros ?
  | |- answers _ (mret (storeError _)) => apply answers_store_error; by apply in_store_errors
  | |- answers _ (reply _ _ _) =>
      apply answers_reply; [by apply in_store_errors|intros ?; in_concrete]
  | |- answers _ (no_content _) => unfold no_content
  | |- answers _ (bad_body) => unfold bad_body
  | |- answers _ (unauthorized _) => unfold unauthorized
  | |- answers _ (reply_list _ _) => apply answers_reply_list; [in_concrete|intros ?; in_concrete]
  | |- answers _ (mret _) => apply answers_ret; in_concrete
  | |- answers _ (match ?x with _ => _ end) => destruct x
  | |- answers _ (let _ := _ in _) => cbv zeta
  end.

Section Typed.
Context {St Mc Se : Type}.
Context {st_ops : Store St} {mc_ops : Client Mc} {se_ops : SideEffectStore Se} {quoting : FmtQuote}.
Context {jwt : JWT} {bcrypt : Bcrypt}.
Context (now_at : nat → Time) (uuid_at : nat → string) (map_order : MapOrder).
Context (parse_time : string → outcome Time) (time_text : Time → string).
Context (visit : gset nat → list nat).

Lemma serve_answers e r :
  answers (S := Api St Mc Se) (in_table (answers_of e (failures e)) (deletes e))
    (serve now_at uuid_at map_order parse_time time_text visit e r).
Proof.
  destruct e; cbn [serve];
    unfold handleMe, listAgents, createAgent, getAgent, updateAgent, deleteAgent,
      listMcpServers, createMcpServer, getMcpServer, updateMcpServer, deleteMcpServer, testMcpServer,
      listFlows, createFlow, getFlow, updateFlow, deleteFlow, runFlow, listFlowRuns, getRun, getTask,
      listUsers, createUser, getUser, updateUser, deleteUser;
    repeat answers_step.
Qed.

(** [b] is what a response of the schema [sch] should be: written as a
    document that conforms, with the members of the struct tags of its type
    and no others; or not written at all, if a RawMessage in it is malformed. *)
Definition presented `{Nils} (sch : option schema) (b : Body) : Prop :=
  match sch with
  | None => b = BNone
  | Some s =>
      if forallb raw_ok (raws_of b)
      then ∃ j, encode_Body time_text b = Some j ∧ has_type (body_type b) j = true ∧ conforms false s j = true
      else b ≠ BNone ∧ encode_Body time_text b = None
  end.

Lemma fits_presented `{Nils} b s :
  match b with BNone | BText _ => False | _ => True end → fits (body_type b) s = true → presented (Some s) b.
Proof.
  intros Hb Hf. pose proof (encode_Body_when time_text b Hb) as Hw. unfold presented.
  destruct (forallb raw_ok (raws_of b)).
  - destruct (proj2 Hw eq_refl) as [j Hj]. pose proof (encode_Body_typed time_text b j Hj) as Ht.
    exists j. split_and!; [done|done|by eapply fits_sound].
  - split; [by intros ->|]. destruct (encode_Body time_text b) eqn:E; [|done].
    by discriminate (proj1 Hw ltac:(by eexists)).
Qed.

(** The answer of a handler: an error, or a success that is documented. *)
Definition documented_answer `{Nils} (errors : list Z) (mp : string * string) (resp : HttpResponse) : Prop :=
  (∃ msg st, st ∈ errors ∧ resp = writeError st msg) ∨
  ∃ sch, (Status resp, sch) ∈ documented mp ∧ presented sch (Payload resp).

Lemma error_type_body b : body_type b = Error_type → ∃ msg, b = BError msg.
Proof. destruct b; try discriminate. by eexists. Qed.

Lemma in_table_documented `{Nils} e resp :
  in_table (answers_of e (failures e)) (deletes e) resp → documented_answer (failures e) (doc_path e) resp.
Proof.
  destruct resp as [st b]. unfold in_table, documented_answer. cbn [Status Payload]. intros Hin.
  assert (Hb : b = BNone ∨ b ≠ BNone) by (destruct b; auto). destruct Hb as [->|Hb].
  { destruct Hin as [Hd ->]. right. exists None. split; [by apply deletes_documented|done]. }
  assert (Hin' : (st, body_type b) ∈ answers_of e (failures e)) by by destruct b.
  clear Hin. apply elem_of_app in Hin' as [Hs|Hf].
  - right. assert (Ht : body_type b ≠ TAny).
    { intros E. rewrite E in Hs. destruct e; cbn in Hs; set_unfold; naive_solver. }
    destruct (success_documented e st _ Hs) as (s & Hd & Hfit). exists (Some s). split; [done|].
    apply fits_presented; [|done]. by destruct b.
  - left. apply list_elem_of_fmap in Hf as (st' & [= -> Hb'] & Hst).
    apply error_type_body in Hb' as [msg ->]. by exists msg, st'.
Qed.

Definition set_hash (h : string) (u : User) : User :=
  mkUser (User_ID u) (User_TenantID u) (Username u) h (User_Role u) (User_CreatedAt u) (User_UpdatedAt u).

(** The answers of [POST /tasks] and of the dashboard. *)
Context {slices : TaskSlices St} (unicode_lower : string → string) (o : Orchestrator).

Lemma tasks_documented :
  documented ("POST", "/api/v1/tasks") = [(StatusOK, Some (SObject [] [("task_id", SString)]))].
Proof. reflexivity. Qed.
Lemma dashboard_listed : documented ("GET", "/api/v1/dashboard") = [(StatusOK, Some (SObject [] []))].
Proof. reflexivity. Qed.

Lemma createTask_documented `{Nils} r (a a' : Api St Mc Se) resp :
  createTask now_at uuid_at unicode_lower time_text visit o r a resp a' →
  documented_answer [StatusBadRequest; StatusInternalServerError] ("POST", "/api/v1/tasks") resp.
Proof.
  intros Hc. destruct Hc.
  1-2: left; eexists _, StatusBadRequest; (split; [apply list_elem_of_here|reflexivity]).
  { left. eexists _, StatusInternalServerError.
    split; [apply list_elem_of_further, list_elem_of_here|reflexivity]. }
  right. exists (Some (SObject [] [("task_id", SString)])). split; [rewrite tasks_documented; apply list_elem_of_here|].
  by apply fits_presented.
Qed.

Lemma dashboard_documented store_nil reading auth r d resp (d' : Api St Mc Se * HistoryCollector) :
  serve_dashboard store_nil reading auth EpDashboard r d = (Ok resp, d') →
  (∃ msg st, st ∈ [StatusUnauthorized; StatusForbidden] ∧ resp = DashError st msg) ∨
  ∃ b sch, resp = DashCounts StatusOK b ∧ (StatusOK, Some sch) ∈ documented ("GET", "/api/v1/dashboard") ∧
    (is_finite (system_cpu b) = true →
     ∃ j, encode_value (dashboard_value b) = Some j ∧ conforms true sch j = true).
Proof.
  unfold serve_dashboard. destruct (protected auth Served (rq r)) as [msg st|q] eqn:Hp.
  { intros [= <- _]. left. exists msg, st. split; [|done]. apply protected_refuses in Hp as [-> | ->]; set_solver. }
  intros Hs. right. unfold handleDashboard in Hs.
  do 6 apply bind_Ok_inv in Hs as (? & ? & _ & Hs). unfold mgets in Hs. injection Hs as <- _.
  eexists _, (SObject [] []). split; [reflexivity|]. split; [rewrite dashboard_listed; apply list_elem_of_here|].
  intros Hf. destruct (dashboard_encoded _ Hf) as [fs E]. exists (JObj fs). split; [exact E|reflexivity].
Qed.

End Typed.

(** ** What is shown is read back *)
Section Back.
Context `{Nils} (parse_time : string → outcome Time) (time_text : Time → string).
Abbreviation back := (text_back parse_time time_text).

Lemma slice_shown_back {A} nil (zero : A) (enc : A → json) dec l j :
  (∀ a, dec (enc a) zero = Ok a) →
  encode_slice nil (λ a, Some (enc a)) l = Some j → dec_slice zero dec j [] = Ok l.
Proof.
  intros Hd. destruct l as [|a l]; [by destruct nil; intros [= <-]|]. unfold encode_slice.
  generalize (a :: l). clear a l. intros l (js & Hjs & ->)%fmap_Some. simpl.
  assert (js = enc <$> l) as ->.
  { revert js Hjs. induction l as [|a l IH]; intros js; [by intros [= <-]|]. simpl.
    intros (js' & E & [= <-])%bind_Some. by rewrite (IH _ E). }
  clear Hjs. induction l as [|a l IH]; [done|]. rewrite fmap_cons. cbn [dec_elems head tail default].
  unfold default. cbn. rewrite Hd. cbn. change (@tail A []) with (@nil A). by rewrite IH.
Qed.

Lemma Skill_shown s : dec_Skill (encode_Skill s) zero_Skill = Ok s.
Proof. by destruct s. Qed.

Lemma Permissions_shown p j : encode_FlowPermissionSet p = Some j → dec_Permissions j zero_Permissions = Ok p.
Proof.
  unfold encode_FlowPermissionSet.
  intros (rs & Hr & (fs & Hf & (ds & Hd & [= <-])%bind_Some)%bind_Some)%bind_Some.
  assert (Hs : ∀ nil l j, encode_slice nil (λ s, Some (JStr s)) l = Some j → dec_strings j [] = Ok l).
  { intros nil l j. unfold dec_strings. by apply slice_shown_back. }
  apply Hs in Hr, Hf, Hd. destruct p. simpl in *. unfold dec_Permissions, dec_struct.
  rewrite Hr. simpl. rewrite Hf. simpl. by rewrite Hd.
Qed.

Lemma Agent_shown a j :
  back (Agent_CreatedAt a) → back (Agent_UpdatedAt a) →
  encode_Agent time_text a = Some j → dec_Agent parse_time j zero_Agent = Ok a.
Proof.
  intros Hc Hu (sk & Hs & [= <-])%bind_Some. apply (slice_shown_back _ zero_Skill _ dec_Skill) in Hs; [|apply Skill_shown].
  unfold text_back in *. destruct a. unfold dec_Agent, dec_struct. simpl in *.
  by repeat first [rewrite Hs|rewrite Hc|rewrite Hu|progress simpl].
Qed.

(** A RawMessage as it is read back: nil was written as null. *)
Definition shown_raw (r : RawMessage) : RawMessage :=
  match r with RawEmpty => RawDoc JNull | _ => r end.

Lemma McpServer_shown s j :
  back (McpServer_CreatedAt s) → back (McpServer_UpdatedAt s) →
  encode_McpServer time_text s = Some j →
  dec_McpServer parse_time j zero_McpServer =
    Ok (mkMcpServer (McpServer_ID s) (McpServer_TenantID s) (McpServer_Name s)
          (shown_raw (McpServer_Transport s)) (McpServer_Enabled s) (McpServer_Status s)
          (McpServer_CreatedAt s) (McpServer_UpdatedAt s)).
Proof.
  intros Hc Hu (tr & Ht & [= <-])%bind_Some.
  assert (RawDoc tr = shown_raw (McpServer_Transport s)) as Etr by (by destruct (McpServer_Transport s); simplify_eq/=).
  unfold text_back in *. destruct s. unfold dec_McpServer, dec_struct. simpl in *. rewrite <- Etr.
  by repeat first [rewrite Hc|rewrite Hu|progress simpl].
Qed.

Lemma Flow_shown f j :
  back (Flow_CreatedAt f) → back (Flow_UpdatedAt f) →
  encode_Flow time_text f = Some j →
  dec_Flow parse_time j zero_Flow =
    Ok (mkFlow (Flow_ID f) (Flow_TenantID f) (Flow_Name f) (shown_raw (Flow_FlowJSON f))
          (Flow_Permissions f) (Flow_Enabled f) (Flow_CreatedAt f) (Flow_UpdatedAt f)).
Proof.
  intros Hc Hu (fj & Hj & (pm & Hp & [= <-])%bind_Some)%bind_Some. apply Permissions_shown in Hp.
  assert (RawDoc fj = shown_raw (Flow_FlowJSON f)) as Ef by (by destruct (Flow_FlowJSON f); simplify_eq/=).
  unfold text_back in *. destruct f. unfold dec_Flow, dec_struct. simpl in *. rewrite <- Ef.
  by repeat first [rewrite Hp|rewrite Hc|rewrite Hu|progress simpl].
Qed.

(** C34: What the API shows of an agent, of an MCP server or of a flow can be
    sent back: every agent is encoded, a server or a flow unless its
    RawMessage is malformed, and decoding the document into a fresh struct
    gives the same value, whichever of its empty slices were nil; only a
    missing transport or flow_json, shown as null, comes back as the document
    null. *)
Theorem shown_reads_back :
  (∀ a, back (Agent_CreatedAt a) → back (Agent_UpdatedAt a) →
     ∃ j, encode_Agent time_text a = Some j ∧
          decodeJSON (dec_Agent parse_time) zero_Agent (RawDoc j) = Ok a) ∧
  (∀ s, back (McpServer_CreatedAt s) → back (McpServer_UpdatedAt s) →
     McpServer_Transport s ≠ RawMalformed →
     ∃ j, encode_McpServer time_text s = Some j ∧
          decodeJSON (dec_McpServer parse_time) zero_McpServer (RawDoc j) =
            Ok (mkMcpServer (McpServer_ID s) (McpServer_TenantID s) (McpServer_Name s)
                  (shown_raw (McpServer_Transport s)) (McpServer_Enabled s) (McpServer_Status s)
                  (McpServer_CreatedAt s) (McpServer_UpdatedAt s))) ∧
  (∀ f, back (Flow_CreatedAt f) → back (Flow_UpdatedAt f) →
     Flow_FlowJSON f ≠ RawMalformed →
     ∃ j, encode_Flow time_text f = Some j ∧
          decodeJSON (dec_Flow parse_time) zero_Flow (RawDoc j) =
            Ok (mkFlow (Flow_ID f) (Flow_TenantID f) (Flow_Name f) (shown_raw (Flow_FlowJSON f))
                  (Flow_Permissions f) (Flow_Enabled f) (Flow_CreatedAt f) (Flow_UpdatedAt f))).
Proof.
  unfold decodeJSON. cbn [raw_tree mbind outcome_bind]. split_and!.
  - intros a Hc Hu. assert (is_Some (encode_Agent time_text a)) as [j Hj].
    { unfold encode_Agent. destruct (encode_slice_const (is_nil a "skills") encode_Skill (Agent_Skills a)) as [x ->].
      by eexists. }
    exists j. split; [done|by apply Agent_shown].
  - intros s Hc Hu Hr. assert (is_Some (encode_McpServer time_text s)) as [j Hj].
    { unfold encode_McpServer. destruct (McpServer_Transport s); [by eexists|done|by eexists]. }
    exists j. split; [done|by apply McpServer_shown].
  - intros f Hc Hu Hr. assert (is_Some (encode_Flow time_text f)) as [j Hj].
    { unfold encode_Flow, encode_FlowPermissionSet.
      destruct (encode_slice_const (is_nil (Flow_Permissions f) "resources") JStr (Resources (Flow_Permissions f))) as [x ->].
      destruct (encode_slice_const (is_nil (Flow_Permissions f) "files") JStr (Files (Flow_Permissions f))) as [y ->].
      destruct (encode_slice_const (is_nil (Flow_Permissions f) "databases") JStr (Databases (Flow_Permissions f))) as [z ->].
      destruct (Flow_FlowJSON f); [by eexists|done|by eexists]. }
    exists j. split; [done|by apply Flow_shown].
Qed.
End Back.

(** ** Samples *)
Definition sample_nils : Nils := λ A a name, bool_decide (name = "skills").
Definition seconds_text (t : Time) : string := pretty (Z.to_N t).
Definition seconds_parse (s : string) : outcome Time :=
  match digits_val s 0 with Some n => Ok n | None => Err (ErrorsNew "parsing time") end.

Definition shown_agent : Agent := mkAgent "a1" "t1" "coder" "" "write code" [] true 3%Z 40%Z.

Lemma shown_reads_back_witness :
  ∃ j, encode_Agent (H := sample_nils) seconds_text shown_agent = Some j ∧
       decodeJSON (dec_Agent seconds_parse) zero_Agent (RawDoc j) = Ok shown_agent.
Proof.
  pose proof (@shown_reads_back sample_nils seconds_parse seconds_text) as (H & _).
  apply (H shown_agent); vm_compute; reflexivity.
Defined.


(** Where the answers are not what the document says: a nil slice of skills
    is null; the result of a subtask is a text, not an object. *)
Lemma openapi_departures :
  (∃ j, encode_Agent (H := sample_nils) seconds_text shown_agent = Some j ∧
     conforms false Agent_schema j = true ∧ conforms true Agent_schema j = false) ∧
  (∃ j, encode_Subtask (mkSubtask "s1" "a1" "report" "success" (RawDoc (JStr "done"))) = Some j ∧
     conforms false Subtask_schema j = true ∧ conforms true Subtask_schema j = false).
Proof. split; eexists; (split; [vm_compute; reflexivity|split; vm_compute; reflexivity]). Qed.
