(* ===== verification/Metrics.v ===== *)
(** * Metrics (internal/metrics/metrics.go)

    The Prometheus registry as an interface: collectors are registered under
    a name with the names of their labels, counters are incremented and
    histograms observe under values of the labels.  [New] registers the four
    collectors of the program. *)
From S2P Require Import Prelude GoStr.

(** client_golang over a registry [P].  Registering a name twice is a panic,
    and so is a number of label values other than that of the labels. *)
Class Prometheus (P : Type) := {
  NewRegistry : P;
  NewCounterVec : string → list string → M P unit;
  NewHistogramVec : string → list string → M P unit;
  counter_Inc : string → list string → M P unit;
  histogram_Observe : string → list string → Z → M P unit;
  (** The label names of the counter or histogram of a name, and what they
      hold. *)
  counter_labels : P → string → option (list string);
  histogram_labels : P → string → option (list string);
  counter_value : P → string → list string → Z;
  observation_count : P → string → list string → nat
}.

(** What a registry shows. *)
Definition same_values {P} `{Prometheus P} (p p' : P) : Prop :=
  (∀ n lvs, counter_value p' n lvs = counter_value p n lvs) ∧
  (∀ n lvs, observation_count p' n lvs = observation_count p n lvs).

Definition same_collectors {P} `{Prometheus P} (p p' : P) : Prop :=
  (∀ n, counter_labels p' n = counter_labels p n) ∧
  (∀ n, histogram_labels p' n = histogram_labels p n).

(** The documented behaviour that is relied on. *)
Class PrometheusLaws (P : Type) `{Prometheus P} := {
  registry_empty n : counter_labels NewRegistry n = None ∧ histogram_labels NewRegistry n = None;
  registry_zero n lvs : counter_value NewRegistry n lvs = 0%Z ∧ observation_count NewRegistry n lvs = 0;
  NewCounterVec_ok n ls (p : P) :
    counter_labels p n = None → histogram_labels p n = None →
    ∃ p', NewCounterVec n ls p = (Ok tt, p') ∧ same_values p p' ∧
      counter_labels p' n = Some ls ∧ (∀ m, m ≠ n → counter_labels p' m = counter_labels p m) ∧
      (∀ m, histogram_labels p' m = histogram_labels p m);
  NewHistogramVec_ok n ls (p : P) :
    counter_labels p n = None → histogram_labels p n = None →
    ∃ p', NewHistogramVec n ls p = (Ok tt, p') ∧ same_values p p' ∧
      histogram_labels p' n = Some ls ∧ (∀ m, m ≠ n → histogram_labels p' m = histogram_labels p m) ∧
      (∀ m, counter_labels p' m = counter_labels p m);
  counter_Inc_ok n ls lvs (p : P) :
    counter_labels p n = Some ls → length lvs = length ls →
    ∃ p', counter_Inc n lvs p = (Ok tt, p') ∧ same_collectors p p' ∧
      counter_value p' n lvs = (counter_value p n lvs + 1)%Z ∧
      (∀ m ws, (m, ws) ≠ (n, lvs) → counter_value p' m ws = counter_value p m ws) ∧
      (∀ m ws, observation_count p' m ws = observation_count p m ws);
  histogram_Observe_ok n ls lvs v (p : P) :
    histogram_labels p n = Some ls → length lvs = length ls →
    ∃ p', histogram_Observe n lvs v p = (Ok tt, p') ∧ same_collectors p p' ∧
      observation_count p' n lvs = S (observation_count p n lvs) ∧
      (∀ m ws, (m, ws) ≠ (n, lvs) → observation_count p' m ws = observation_count p m ws) ∧
      (∀ m ws, counter_value p' m ws = counter_value p m ws)
}.

Definition HTTPRequestsTotal : string := "http_requests_total".
Definition HTTPDuration : string := "http_request_duration_seconds".
Definition FlowRunsTotal : string := "flow_runs_total".
Definition TaskTotal : string := "task_total".

(** [New]: the four collectors on a fresh registry. *)
Definition metrics_New {P} `{Prometheus P} : outcome unit * P :=
  (_ ← NewCounterVec HTTPRequestsTotal ["method"; "path"; "status"];
   _ ← NewHistogramVec HTTPDuration ["method"; "path"];
   _ ← NewCounterVec FlowRunsTotal ["status"];
   NewCounterVec TaskTotal ["status"]) NewRegistry.

(** A registry with the program's collectors. *)
Record has_metrics {P} `{Prometheus P} (p : P) : Prop := {
  hm_requests : counter_labels p HTTPRequestsTotal = Some ["method"; "path"; "status"];
  hm_duration : histogram_labels p HTTPDuration = Some ["method"; "path"];
  hm_runs : counter_labels p FlowRunsTotal = Some ["status"];
  hm_tasks : counter_labels p TaskTotal = Some ["status"]
}.

Section New.
Context {P : Type} {prom : Prometheus P} {laws : PrometheusLaws P}.

Lemma has_metrics_same (p p' : P) : same_collectors p p' → has_metrics p → has_metrics p'.
Proof. intros [Hc Hh] []. split; by rewrite ?Hc, ?Hh. Qed.

Lemma same_values_trans (p q r : P) : same_values p q → same_values q r → same_values p r.
Proof. intros [H1 H2] [H3 H4]. split; intros; [rewrite H3; apply H1|rewrite H4; apply H2]. Qed.

(** [New] does not panic: the names are distinct.  Everything starts at zero. *)
Lemma metrics_New_ok : ∃ p, metrics_New = (Ok tt, p) ∧ has_metrics p ∧ same_values (NewRegistry (P := P)) p.
Proof using laws.
  assert (Hc : ∀ n, counter_labels (NewRegistry (P := P)) n = None) by (intros; apply registry_empty).
  assert (Hh : ∀ n, histogram_labels (NewRegistry (P := P)) n = None) by (intros; apply registry_empty).
  destruct (NewCounterVec_ok HTTPRequestsTotal ["method"; "path"; "status"] NewRegistry (Hc _) (Hh _))
    as (p1 & E1 & S1 & L1 & C1 & H1).
  destruct (NewHistogramVec_ok HTTPDuration ["method"; "path"] p1) as (p2 & E2 & S2 & L2 & H2 & C2);
    [by rewrite C1|by rewrite H1|].
  destruct (NewCounterVec_ok FlowRunsTotal ["status"] p2) as (p3 & E3 & S3 & L3 & C3 & H3);
    [by rewrite C2, C1|by rewrite H2, H1|].
  destruct (NewCounterVec_ok TaskTotal ["status"] p3) as (p4 & E4 & S4 & L4 & C4 & H4);
    [by rewrite C3, C2, C1|by rewrite H3, H2, H1|].
  exists p4. split; [|split].
  - unfold metrics_New. by rewrite (bind_ok _ _ _ _ _ E1), (bind_ok _ _ _ _ _ E2), (bind_ok _ _ _ _ _ E3).
  - split; [by rewrite C4, C3, C2|by rewrite H4, H3|by rewrite C4|done].
  - eauto using same_values_trans.
Qed.
End New.

(** ** A registry in memory *)
Record Registry := mkRegistry {
  rg_counters : gmap string (list string);
  rg_histograms : gmap string (list string);
  rg_values : gmap (string * list string) Z;
  rg_observed : gmap (string * list string) nat
}.

Definition register (histogram : bool) (n : string) (ls : list string) : M Registry unit := λ p,
  match rg_counters p !! n, rg_histograms p !! n with
  | None, None =>
      (Ok tt, if histogram
              then mkRegistry (rg_counters p) (<[n := ls]> (rg_histograms p)) (rg_values p) (rg_observed p)
              else mkRegistry (<[n := ls]> (rg_counters p)) (rg_histograms p) (rg_values p) (rg_observed p))
  | _, _ => (Panic "duplicate metrics collector registration attempted", p)
  end.

Definition with_labels (labels : option (list string)) (lvs : list string) (p' : Registry) : M Registry unit := λ p,
  match labels with
  | Some ls => if length lvs =? length ls then (Ok tt, p') else (Panic "inconsistent label cardinality", p)
  | None => (Panic "no such collector", p)
  end.

#[export] Instance Registry_Prometheus : Prometheus Registry := {|
  NewRegistry := mkRegistry ∅ ∅ ∅ ∅;
  NewCounterVec := register false;
  NewHistogramVec := register true;
  counter_Inc := λ n lvs p, with_labels (rg_counters p !! n) lvs
    (mkRegistry (rg_counters p) (rg_histograms p)
       (<[(n, lvs) := (default 0%Z (rg_values p !! (n, lvs)) + 1)%Z]> (rg_values p)) (rg_observed p)) p;
  histogram_Observe := λ n lvs _ p, with_labels (rg_histograms p !! n) lvs
    (mkRegistry (rg_counters p) (rg_histograms p) (rg_values p)
       (<[(n, lvs) := S (default 0 (rg_observed p !! (n, lvs)))]> (rg_observed p))) p;
  counter_labels := λ p n, rg_counters p !! n;
  histogram_labels := λ p n, rg_histograms p !! n;
  counter_value := λ p n lvs, default 0%Z (rg_values p !! (n, lvs));
  observation_count := λ p n lvs, default 0 (rg_observed p !! (n, lvs))
|}.

#[export] Instance Registry_Laws : PrometheusLaws Registry.
Proof.
  split; simpl.
  - done.
  - done.
  - intros n ls p Hc Hh. unfold register. rewrite Hc, Hh. eexists. split; [done|]. simpl.
    split_and!; try done; intros; by rewrite ?lookup_insert_eq, ?lookup_insert_ne.
  - intros n ls p Hc Hh. unfold register. rewrite Hc, Hh. eexists. split; [done|]. simpl.
    split_and!; try done; intros; by rewrite ?lookup_insert_eq, ?lookup_insert_ne.
  - intros n ls lvs p Hl Hn. unfold with_labels. rewrite Hl, (proj2 (Nat.eqb_eq _ _) Hn).
    eexists. split; [done|]. simpl. split_and!; try done; intros; by rewrite ?lookup_insert_eq, ?lookup_insert_ne.
  - intros n ls lvs v p Hl Hn. unfold with_labels. rewrite Hl, (proj2 (Nat.eqb_eq _ _) Hn).
    eexists. split; [done|]. simpl. split_and!; try done; intros; by rewrite ?lookup_insert_eq, ?lookup_insert_ne.
Qed.
