(* ===== verification/Writer.v ===== *)
(** * Response writers (internal/api/router.go, net/http)

    The response of net/http's server as far as the program uses it, and the
    [responseRecorder] that wraps a writer: a writer behind the interface is
    one or the other.  The methods of both, and the invariant that ties what a
    recorder says to what was sent. *)
From S2P Require Import Prelude GoStr.

(** ** net/http: the response of a connection *)
Record Response := mkWire {
  w_header : gmap string string;
  w_sent : option (Z * gmap string string);
  w_body : string;
  w_hijacked : bool;
  w_hijacker : bool;
  w_flusher : bool
}.

Definition fresh_response (hijacker flusher : bool) : Response :=
  mkWire ∅ None "" false hijacker flusher.

Definition ErrHijacked : error := ErrorsNew "http: connection has been hijacked".
Definition ErrBodyNotAllowed : error :=
  ErrorsNew "http: request method or response status code does not allow body".

Definition wire_status (w : Response) : option Z := fst <$> w_sent w.

Definition bodyAllowedForStatus (code : Z) : bool :=
  negb ((100 <=? code)%Z && (code <=? 199)%Z || bool_decide (code = 204%Z) || bool_decide (code = 304%Z)).

(** Only the first final status is sent; codes of 1xx other than 101 are
    informational and leave it open. *)
Definition response_WriteHeader (code : Z) (w : Response) : outcome unit * Response :=
  if w_hijacked w then (Ok tt, w)
  else match w_sent w with
  | Some _ => (Ok tt, w)
  | None =>
      if (code <? 100)%Z || (999 <? code)%Z then (Panic "invalid WriteHeader code", w)
      else if (100 <=? code)%Z && (code <=? 199)%Z && negb (bool_decide (code = 101%Z)) then (Ok tt, w)
      else (Ok tt, mkWire (w_header w) (Some (code, w_header w)) (w_body w) (w_hijacked w)
                     (w_hijacker w) (w_flusher w))
  end.

Definition response_Write (b : string) (w : Response) : outcome nat * Response :=
  if w_hijacked w then (Err ErrHijacked, w)
  else
    let '(_, w1) := match w_sent w with None => response_WriteHeader 200 w | Some _ => (Ok tt, w) end in
    if bool_decide (b = "") then (Ok 0, w1)
    else if negb (bodyAllowedForStatus (default 200%Z (wire_status w1))) then (Err ErrBodyNotAllowed, w1)
    else (Ok (String.length b),
          mkWire (w_header w1) (w_sent w1) (w_body w1 +:+ b) (w_hijacked w1) (w_hijacker w1) (w_flusher w1)).

Definition response_Set (k v : string) (w : Response) : Response :=
  mkWire (<[k := v]> (w_header w)) (w_sent w) (w_body w) (w_hijacked w) (w_hijacker w) (w_flusher w).

Definition response_Hijack (w : Response) : outcome unit * Response :=
  if w_hijacked w then (Err ErrHijacked, w)
  else (Ok tt, mkWire (w_header w) (w_sent w) (w_body w) true (w_hijacker w) (w_flusher w)).

(** A flush sends the header if it was not sent. *)
Definition response_Flush (w : Response) : Response :=
  if w_hijacked w then w
  else match w_sent w with None => (response_WriteHeader 200 w).2 | Some _ => w end.

(** ** A writer: the connection's, or a recorder around one *)
Inductive Writer :=
  | Conn (w : Response)
  | responseRecorder (ResponseWriter : Writer) (status : Z) (wroteHeader : bool).

Fixpoint wire (w : Writer) : Response :=
  match w with Conn r => r | responseRecorder w' _ _ => wire w' end.

(** The methods of a recorder's header are those of what it embeds. *)
Fixpoint Header_Set (k v : string) (w : Writer) : Writer :=
  match w with
  | Conn r => Conn (response_Set k v r)
  | responseRecorder w' st wh => responseRecorder (Header_Set k v w') st wh
  end.

Fixpoint WriteHeader (code : Z) (w : Writer) : outcome unit * Writer :=
  match w with
  | Conn r => let '(o, r') := response_WriteHeader code r in (o, Conn r')
  | responseRecorder w' st wh =>
      if wh then (Ok tt, w)
      else let '(o, w1) := WriteHeader code w' in (o, responseRecorder w1 code true)
  end.

(** The number of recorders bounds the recursion of [Write]. *)
Fixpoint depth (w : Writer) : nat :=
  match w with Conn _ => 0 | responseRecorder w' _ _ => S (depth w') end.

Fixpoint Write_at (n : nat) (b : string) (w : Writer) : outcome nat * Writer :=
  match w with
  | Conn r => let '(o, r') := response_Write b r in (o, Conn r')
  | responseRecorder w' st wh =>
      match n with
      | 0 => (NoFuel, w)
      | S n' =>
          let '(o, (w1, st1)) :=
            if wh then (Ok tt, (w', st))
            else let '(o, w1) := WriteHeader 200 w' in (o, (w1, 200%Z)) in
          match o with
          | Panic why => (Panic why, responseRecorder w1 st1 true)
          | _ => let '(o, w2) := Write_at n' b w1 in (o, responseRecorder w2 st1 true)
          end
      end
  end.

Definition Write (b : string) (w : Writer) : outcome nat * Writer := Write_at (depth w) b w.

(** The type assertions to http.Hijacker and http.Flusher: a recorder has
    both methods. *)
Definition is_Hijacker (w : Writer) : bool :=
  match w with Conn r => w_hijacker r | responseRecorder _ _ _ => true end.
Definition is_Flusher (w : Writer) : bool :=
  match w with Conn r => w_flusher r | responseRecorder _ _ _ => true end.

Fixpoint Hijack (w : Writer) : outcome unit * Writer :=
  match w with
  | Conn r => let '(o, r') := response_Hijack r in (o, Conn r')
  | responseRecorder w' st wh =>
      if is_Hijacker w' then let '(o, w1) := Hijack w' in (o, responseRecorder w1 st wh)
      else (Err (ErrorsNew "underlying ResponseWriter does not support hijacking"), w)
  end.

Fixpoint Flush (w : Writer) : Writer :=
  match w with
  | Conn r => Conn (response_Flush r)
  | responseRecorder w' st wh =>
      if is_Flusher w' then responseRecorder (Flush w') st wh else w
  end.

(** ** What a handler may do with a writer *)
Inductive wop :=
  | OpSet (k v : string)
  | OpWriteHeader (code : Z)
  | OpWrite (b : string)
  | OpHijack
  | OpFlush.

Definition apply_op (op : wop) (w : Writer) : Writer :=
  match op with
  | OpSet k v => Header_Set k v w
  | OpWriteHeader code => (WriteHeader code w).2
  | OpWrite b => (Write b w).2
  | OpHijack => (Hijack w).2
  | OpFlush => Flush w
  end.

Definition apply_ops (ops : list wop) (w : Writer) : Writer := foldl (λ w op, apply_op op w) w ops.

(** Final statuses, which the program's are. *)
Definition final_code (code : Z) : Prop := (200 ≤ code ≤ 999)%Z.
(** No flush: a flush passes a recorder by. *)
Definition plain_op (op : wop) : Prop :=
  match op with OpWriteHeader code => final_code code | OpFlush => False | _ => True end.

(** ** What a recorder knows

    Unless the connection was hijacked, a recorder has seen a status exactly
    when one was sent, and it is that one; until then it says 200. *)
Fixpoint knows (w : Writer) : Prop :=
  match w with
  | Conn _ => True
  | responseRecorder w' st wh =>
      knows w' ∧ (w_hijacked (wire w') = false → wire_status (wire w') = if wh then Some st else None) ∧
      (wh = false → st = 200%Z)
  end.

Definition recorded_status (w : Writer) : Z :=
  match w with responseRecorder _ st _ => st | Conn r => default 200%Z (wire_status r) end.

Lemma knows_status w : knows w → w_hijacked (wire w) = false →
  recorded_status w = default 200%Z (wire_status (wire w)).
Proof.
  destruct w as [r|w st wh]; [done|]. simpl. intros (_ & Hs & Hn) Hh. rewrite (Hs Hh).
  destruct wh; [done|by apply Hn].
Qed.

(** Hijacking and the header leave the status alone. *)
Lemma wire_Header_Set k v w : wire (Header_Set k v w) = response_Set k v (wire w).
Proof. by induction w. Qed.

Lemma knows_Header_Set k v w : knows w → knows (Header_Set k v w).
Proof. induction w as [r|w IH st wh]; simpl; [done|]. intros (H1 & H2 & H3). rewrite wire_Header_Set. auto. Qed.

Lemma response_WriteHeader_final code r :
  final_code code → ∃ r', response_WriteHeader code r = (Ok tt, r') ∧ w_hijacked r' = w_hijacked r ∧
    (w_hijacked r = false → wire_status r' = Some (default code (wire_status r))) ∧
    (w_hijacked r = true → r' = r).
Proof.
  intros Hc. unfold response_WriteHeader, wire_status, final_code in *. destruct (w_hijacked r) eqn:Hh.
  - exists r. naive_solver.
  - destruct (w_sent r) as [s|] eqn:Hs; [exists r; simpl; rewrite Hs; naive_solver|].
    rewrite (proj2 (Z.ltb_ge _ _)), (proj2 (Z.ltb_ge 999 _)), (proj2 (Z.leb_gt _ 199)) by lia.
    rewrite andb_false_r. simpl. eexists. split; [done|]. simpl. naive_solver.
Qed.

(** A first status reaches the wire through all the recorders. *)
Lemma WriteHeader_final code w :
  final_code code → knows w →
  ∃ w', WriteHeader code w = (Ok tt, w') ∧ knows w' ∧
    w_hijacked (wire w') = w_hijacked (wire w) ∧
    (w_hijacked (wire w) = false → wire_status (wire w') = Some (default code (wire_status (wire w)))).
Proof.
  intros Hc. induction w as [r|w IH st wh]; simpl.
  - intros _. destruct (response_WriteHeader_final code r Hc) as (r' & -> & Hh & Hs & _). by exists (Conn r').
  - intros (Hk & Hs & Hn). destruct wh.
    + eexists. split; [done|]. simpl. split_and!; try done. intros Hh. by rewrite (Hs Hh).
    + destruct (IH Hk) as (w' & -> & Hk' & Hh' & Hs'). eexists. split; [done|]. simpl.
      split_and!; try done. intros Hh. rewrite Hh' in Hh. by rewrite (Hs' Hh), (Hs Hh).
Qed.

Lemma response_Write_status b r :
  w_hijacked (response_Write b r).2 = w_hijacked r ∧
  (w_hijacked r = false → wire_status (response_Write b r).2 = Some (default 200%Z (wire_status r))).
Proof.
  unfold response_Write. destruct (w_hijacked r) eqn:Hh; [done|].
  destruct (w_sent r) as [s|] eqn:Hs.
  - unfold wire_status. repeat case_if; simpl; by rewrite ?Hs, ?Hh.
  - destruct (response_WriteHeader_final 200 r) as (r' & -> & Hh' & Hst & _); [done|].
    rewrite Hh in Hh'. specialize (Hst Hh). unfold wire_status in *. rewrite Hs in *.
    repeat case_if; simpl; by rewrite ?Hst, ?Hh'.
Qed.

Lemma response_Write_answers b r : (response_Write b r).1 ≠ NoFuel.
Proof.
  unfold response_Write. destruct (w_hijacked r); [done|].
  destruct (w_sent r); [|destruct (response_WriteHeader 200 r)]; by repeat case_if.
Qed.

Lemma WriteHeader_depth code w : depth (WriteHeader code w).2 = depth w.
Proof.
  induction w as [r|w IH st wh]; simpl; [by destruct (response_WriteHeader code r)|].
  destruct wh; [done|]. destruct (WriteHeader code w) as [o w1]. simpl in *. by rewrite IH.
Qed.

(** What a write leaves: never out of bounds, and the status is sent. *)
Lemma Write_status_at n b w : depth w ≤ n → knows w →
  (Write_at n b w).1 ≠ NoFuel ∧ depth (Write_at n b w).2 = depth w ∧
  knows (Write_at n b w).2 ∧ w_hijacked (wire (Write_at n b w).2) = w_hijacked (wire w) ∧
  (w_hijacked (wire w) = false →
   wire_status (wire (Write_at n b w).2) = Some (default 200%Z (wire_status (wire w)))).
Proof.
  revert w. induction n as [|n IH]; intros [r|w st wh] Hd; cbn [depth] in Hd; try lia; cbn [Write_at].
  1, 2: intros _; destruct (response_Write_status b r) as [Hh Hs]; pose proof (response_Write_answers b r);
    by destruct (response_Write b r).
  intros (Hk & Hs & Hn). destruct wh.
  - destruct (IH w) as (Ho & Hd' & Hk' & Hh' & Hs'); [lia|done|].
    destruct (Write_at n b w) as [o w2]. cbn in *. rewrite Hd'. split_and!; try done.
    intros Hh. rewrite Hh' in Hh. by rewrite (Hs' Hh), (Hs Hh).
  - destruct (WriteHeader_final 200 w) as (w1 & E & Hk1 & Hh1 & Hs1); [done..|].
    pose proof (WriteHeader_depth 200 w) as Hd1. rewrite E in *. cbn in Hd1.
    destruct (IH w1) as (Ho & Hd' & Hk' & Hh' & Hs'); [lia|done|].
    destruct (Write_at n b w1) as [o w2]. cbn in *. rewrite Hd', Hd1, Hh', Hh1. split_and!; try done.
    + intros Hh. rewrite Hh in Hh1. specialize (Hs1 Hh). rewrite Hh1 in Hs'. by rewrite (Hs' eq_refl), Hs1, (Hs Hh).
    + intros Hh. specialize (Hs1 Hh). rewrite Hh in Hh1. by rewrite (Hs' Hh1), Hs1, (Hs Hh).
Qed.

Lemma wire_Hijack w : knows w → knows (Hijack w).2 ∧
  (w_hijacked (wire (Hijack w).2) = false →
   w_hijacked (wire w) = false ∧ wire_status (wire (Hijack w).2) = wire_status (wire w)) ∧
  recorded_status (Hijack w).2 = recorded_status w.
Proof.
  induction w as [r|w IH st wh]; cbn [Hijack].
  - intros _. unfold response_Hijack. destruct (w_hijacked r) eqn:E; cbn; [by rewrite E|done].
  - intros (Hk & Hs & Hn). destruct (is_Hijacker w); [|cbn; split_and!; try done; auto].
    destruct (IH Hk) as (Hk' & Hh & _). destruct (Hijack w) as [o w1]. cbn in *.
    split_and!; try done. intros H0. destruct (Hh H0) as [H1 ->]. auto.
Qed.

(** Every plain operation keeps what the recorders know. *)
Lemma knows_apply_op op w : plain_op op → knows w → knows (apply_op op w).
Proof.
  destruct op as [k v|code|b| |]; cbn [apply_op plain_op]; intros Hp Hk; [|..].
  - by apply knows_Header_Set.
  - by destruct (WriteHeader_final code w Hp Hk) as (w' & -> & ? & _).
  - by apply (Write_status_at (depth w) b w).
  - by apply wire_Hijack.
  - done.
Qed.

Lemma knows_apply_ops ops w : Forall plain_op ops → knows w → knows (apply_ops ops w).
Proof.
  intros Hops. revert w. induction Hops as [|op ops Hop _ IH]; intros w Hk; [done|].
  apply IH. by apply knows_apply_op.
Qed.

(** Recorders stay where they are. *)
Lemma apply_op_depth op w : plain_op op → knows w → depth (apply_op op w) = depth w.
Proof.
  destruct op as [k v|code|b| |]; cbn [apply_op plain_op]; intros Hp Hk; [|..].
  - clear. induction w; simpl; congruence.
  - apply WriteHeader_depth.
  - by apply (Write_status_at (depth w) b w).
  - clear. induction w as [r|w IH st wh]; cbn [Hijack]; [by destruct (response_Hijack r)|].
    destruct (is_Hijacker w); [|done]. destruct (Hijack w). cbn in *. congruence.
  - done.
Qed.

Lemma apply_ops_depth ops w : Forall plain_op ops → knows w → depth (apply_ops ops w) = depth w.
Proof.
  intros Hops. revert w. induction Hops as [|op ops Hop _ IH]; intros w Hk; [done|].
  cbn [apply_ops foldl]. change (foldl _ _ ops) with (apply_ops ops (apply_op op w)).
  rewrite IH by (by apply knows_apply_op). by apply apply_op_depth.
Qed.

(** A handler that only sets headers and hijacks is recorded as 200. *)
Definition silent_op (op : wop) : Prop :=
  match op with OpSet _ _ | OpHijack => True | _ => False end.

Lemma silent_status ops w : knows w → Forall silent_op ops → recorded_status (apply_ops ops w) = recorded_status w ∨ depth w = 0.
Proof.
  intros Hk Hops. revert w Hk. induction Hops as [|op ops Hop _ IH]; intros w Hk; [by left|].
  cbn [apply_ops foldl]. change (foldl _ _ ops) with (apply_ops ops (apply_op op w)).
  assert (plain_op op) as Hp by (by destruct op).
  destruct (IH (apply_op op w)) as [->|Hd]; [by apply knows_apply_op| |right; by rewrite <- (apply_op_depth op w)].
  destruct op as [k v| | | |]; try done; cbn [apply_op].
  - destruct w; [by right|by left].
  - left. by apply wire_Hijack.
Qed.

(** A flush passes the recorder by: the client is sent 200, a later status is
    recorded and not sent. *)
Example flush_is_not_recorded :
  let w := apply_ops [OpFlush; OpWriteHeader 500] (responseRecorder (Conn (fresh_response true true)) 200 false) in
  wire_status (wire w) = Some 200%Z ∧ recorded_status w = 500%Z.
Proof. by vm_compute. Qed.

(** A write does not panic. *)
Lemma Write_no_panic b w : knows w → ∀ why, (Write b w).1 ≠ Panic why.
Proof.
  unfold Write. assert (H : ∀ n w, depth w ≤ n → knows w → ∀ why, (Write_at n b w).1 ≠ Panic why); [|by apply H].
  intros n. induction n as [|n IH]; intros [r|w' st wh] Hd; cbn [depth] in Hd; try lia; cbn [Write_at].
  1, 2: intros _ why; unfold response_Write; destruct (w_hijacked r); [done|];
    destruct (w_sent r); [|destruct (response_WriteHeader 200 r)]; by repeat case_if.
  intros (Hk & _) why. destruct wh.
  - specialize (IH w' ltac:(lia) Hk why). by destruct (Write_at n b w').
  - destruct (WriteHeader_final 200 w') as (w1 & E & Hk1 & _); [done..|].
    pose proof (WriteHeader_depth 200 w') as Hd1. rewrite E in *. cbn in Hd1.
    specialize (IH w1 ltac:(lia) Hk1 why). by destruct (Write_at n b w1).
Qed.
