(* ===== verification/Middleware.v ===== *)
(** * The middlewares of the router (internal/api/router.go)

    A handler is a computation over the front of the server: the state of the
    handlers below, the metrics, the access log, the supply of identifiers
    and clock readings, and the response writer of the request it serves.
    The three middlewares wrap a handler; chi's Recoverer, which the program
    puts around them, is a parameter. *)
From S2P Require Import Prelude GoStr Json Model Config Auth Api Metrics Writer.

Record LogRecord := mkLogRecord {
  log_request_id : string;
  log_method : string;
  log_path : string;
  log_status : Z;
  log_duration : Z
}.

(** A request as it arrives. *)
Record Incoming := mkIncoming {
  in_rq : Request;
  in_header : string → string;
  in_query : string → string;
  in_body : RawMessage
}.

Definition with_rq (r : Incoming) (q : Request) : Incoming :=
  mkIncoming q (in_header r) (in_query r) (in_body r).

Record Front (S P : Type) := mkFront {
  fr_state : S;
  fr_metrics : P;
  fr_log : list LogRecord;
  fr_clock : nat;
  fr_ids : nat;
  fr_writer : Writer
}.
Arguments mkFront {S P} _ _ _ _ _ _.
Arguments fr_state {S P} _.
Arguments fr_metrics {S P} _.
Arguments fr_log {S P} _.
Arguments fr_clock {S P} _.
Arguments fr_ids {S P} _.
Arguments fr_writer {S P} _.

Section Middleware.
Context {S P : Type} {prom : Prometheus P}.
Context (clock : nat → Time) (new_id : nat → string) (level : Level).
Abbreviation F := (Front S P).

Definition HandlerFunc : Type := Incoming → M F unit.

Definition set_writer (w : Writer) (f : F) : F :=
  mkFront (fr_state f) (fr_metrics f) (fr_log f) (fr_clock f) (fr_ids f) w.

Definition on_writer {A} (m : Writer → outcome A * Writer) : M F A := λ f,
  let '(o, w) := m (fr_writer f) in (o, set_writer w f).

Definition on_metrics {A} (m : M P A) : M F A := λ f,
  let '(o, p) := m (fr_metrics f) in
  (o, mkFront (fr_state f) p (fr_log f) (fr_clock f) (fr_ids f) (fr_writer f)).

Definition time_Now : M F Time := λ f,
  (Ok (clock (fr_clock f)),
   mkFront (fr_state f) (fr_metrics f) (fr_log f) (Datatypes.S (fr_clock f)) (fr_ids f) (fr_writer f)).

Definition uuid_NewString : M F string := λ f,
  (Ok (new_id (fr_ids f)),
   mkFront (fr_state f) (fr_metrics f) (fr_log f) (fr_clock f) (Datatypes.S (fr_ids f)) (fr_writer f)).

Definition set_header (k v : string) : M F unit := on_writer (λ w, (Ok tt, Header_Set k v w)).

(** [s.Logger.Info]: dropped when the logger's level is above it. *)
Definition Logger_Info (r : LogRecord) : M F unit := λ f,
  let kept := match level with LevelDebug | LevelInfo => [r] | LevelWarn | LevelError => [] end in
  (Ok tt, mkFront (fr_state f) (fr_metrics f) (fr_log f ++ kept) (fr_clock f) (fr_ids f) (fr_writer f)).

(** [rec := &responseRecorder{ResponseWriter: w, status: 200}], the call of
    [next] with it, and [rec.status]; the caller's writer is the one inside. *)
Definition recorded (next : M F unit) : M F Z := λ f,
  let '(o, f1) := next (set_writer (responseRecorder (fr_writer f) 200 false) f) in
  match fr_writer f1 with
  | responseRecorder w st _ =>
      (match o with Ok _ => Ok st | Err e => Err e | Panic why => Panic why | NoFuel => NoFuel end,
       set_writer w f1)
  | Conn _ => (NoFuel, f1)
  end.

Definition requestIDMiddleware (next : HandlerFunc) : HandlerFunc := λ r,
  let h := in_header r "X-Request-ID" in
  id ← (if bool_decide (h = "") then uuid_NewString else mret h);
  _ ← set_header "X-Request-ID" id;
  next (with_rq r (WithRequestID (in_rq r) id)).

Definition loggingMiddleware (next : HandlerFunc) : HandlerFunc := λ r,
  start ← time_Now;
  status ← recorded (next r);
  finish ← time_Now;
  Logger_Info (mkLogRecord (RequestIDFrom (in_rq r)) (Method (in_rq r)) (URL_Path (in_rq r))
                 status (finish - start)).

Definition metricsMiddleware (next : HandlerFunc) : HandlerFunc := λ r,
  start ← time_Now;
  code ← recorded (next r);
  _ ← on_metrics (counter_Inc HTTPRequestsTotal
        [Method (in_rq r); URL_Path (in_rq r); httpStatusLabel code]);
  finish ← time_Now;
  on_metrics (histogram_Observe HTTPDuration [Method (in_rq r); URL_Path (in_rq r)] (finish - start)).

(** The three, in the order of the calls of [Use]. *)
Definition chain (mux : HandlerFunc) : HandlerFunc :=
  requestIDMiddleware (loggingMiddleware (metricsMiddleware mux)).

(** ** chi's Recoverer *)

(** What it does with the writer after a panic. *)
Class Recovering := { recovered : Incoming → list wop }.

Definition Recoverer {rec : Recovering} (next : HandlerFunc) : HandlerFunc := λ r f,
  match next r f with
  | (Panic _, f') => (Ok tt, set_writer (apply_ops (recovered r) (fr_writer f')) f')
  | x => x
  end.

(** It answers 500, except on a connection that asks for an upgrade. *)
Class RecoveringLaws `{Recovering} := {
  recovered_500 r : in_header r "Connection" ≠ "Upgrade" → recovered r = [OpWriteHeader 500];
  recovered_upgrade r : in_header r "Connection" = "Upgrade" → recovered r = []
}.

(** The handler of the server, given the routes. *)
Definition front {rec : Recovering} (mux : HandlerFunc) : HandlerFunc := Recoverer (chain mux).

(** ** Handlers below the middlewares

    A handler uses its writer through the methods of the interface, with
    final statuses, and leaves the access log, the metrics of requests and
    the collectors to the middlewares. *)
Record polite_run (f f' : F) : Prop := {
  pl_log : fr_log f' = fr_log f;
  pl_collectors : same_collectors (fr_metrics f) (fr_metrics f');
  pl_requests lvs : counter_value (fr_metrics f') HTTPRequestsTotal lvs
                    = counter_value (fr_metrics f) HTTPRequestsTotal lvs;
  pl_durations lvs : observation_count (fr_metrics f') HTTPDuration lvs
                     = observation_count (fr_metrics f) HTTPDuration lvs;
  pl_writer : ∃ ops, Forall plain_op ops ∧ fr_writer f' = apply_ops ops (fr_writer f)
}.


(** ** One request *)
Definition request_id (r : Incoming) (f : F) : string :=
  let h := in_header r "X-Request-ID" in if bool_decide (h = "") then new_id (fr_ids f) else h.

(** The request and the state with which the routes are entered. *)
Definition routed (r : Incoming) (f : F) : Incoming := with_rq r (WithRequestID (in_rq r) (request_id r f)).

Definition entered (r : Incoming) (f : F) : F :=
  mkFront (fr_state f) (fr_metrics f) (fr_log f) (2 + fr_clock f)
    (if bool_decide (in_header r "X-Request-ID" = "") then Datatypes.S (fr_ids f) else fr_ids f)
    (responseRecorder (responseRecorder (Header_Set "X-Request-ID" (request_id r f) (fr_writer f)) 200 false) 200 false).

(** What is logged at the level of the logger. *)
Definition kept (l : LogRecord) : list LogRecord :=
  match level with LevelDebug | LevelInfo => [l] | LevelWarn | LevelError => [] end.

(** The middlewares around routes that return. *)
Lemma chain_Ok mux r f f2 w st1 wh1 st2 wh2 p1 p2 :
  mux (routed r f) (entered r f) = (Ok tt, f2) →
  fr_writer f2 = responseRecorder (responseRecorder w st1 wh1) st2 wh2 →
  counter_Inc HTTPRequestsTotal [Method (in_rq r); URL_Path (in_rq r); httpStatusLabel st2] (fr_metrics f2)
    = (Ok tt, p1) →
  histogram_Observe HTTPDuration [Method (in_rq r); URL_Path (in_rq r)]
    (clock (fr_clock f2) - clock (Datatypes.S (fr_clock f))) p1 = (Ok tt, p2) →
  chain mux r f =
    (Ok tt, mkFront (fr_state f2) p2
       (fr_log f2 ++ kept (mkLogRecord (request_id r f) (Method (in_rq r)) (URL_Path (in_rq r)) st1
          (clock (Datatypes.S (fr_clock f2)) - clock (fr_clock f))))
       (2 + fr_clock f2) (fr_ids f2) w).
Proof.
  intros Hmux Hw Hc Ho. unfold routed, entered, request_id in *.
  unfold chain, requestIDMiddleware, loggingMiddleware, metricsMiddleware, set_header, on_writer, recorded,
    time_Now, uuid_NewString, on_metrics, Logger_Info, set_writer.
  destruct (bool_decide (in_header r "X-Request-ID" = "")); unfold mbind, M_bind, mret, M_ret; simpl in *;
    rewrite Hmux, Hw; simpl; rewrite Hc; simpl; by rewrite Ho.
Qed.

(** The middlewares around routes that panic: nothing after them runs. *)
Lemma chain_fails mux r f f2 w st1 wh1 st2 wh2 (o : outcome unit) :
  mux (routed r f) (entered r f) = (o, f2) →
  fr_writer f2 = responseRecorder (responseRecorder w st1 wh1) st2 wh2 →
  match o with Ok _ => false | _ => true end = true → chain mux r f = (o, set_writer w f2).
Proof.
  intros Hmux Hw Ho. unfold routed, entered, request_id in *.
  unfold chain, requestIDMiddleware, loggingMiddleware, metricsMiddleware, set_header, on_writer, recorded,
    time_Now, uuid_NewString, on_metrics, Logger_Info, set_writer.
  destruct (bool_decide (in_header r "X-Request-ID" = "")); unfold mbind, M_bind, mret, M_ret; simpl in *;
    rewrite Hmux, Hw; by destruct o.
Qed.

(** The two recorders around a fresh response, after what a handler did. *)
Lemma recorders_after ops hj fl k v :
  Forall plain_op ops →
  ∃ r' st1 wh1 st2 wh2,
    apply_ops ops (responseRecorder (responseRecorder (Header_Set k v (Conn (fresh_response hj fl))) 200 false) 200 false)
      = responseRecorder (responseRecorder (Conn r') st1 wh1) st2 wh2 ∧
    (w_hijacked r' = false → st1 = default 200%Z (wire_status r') ∧ st2 = default 200%Z (wire_status r')).
Proof.
  intros Hops. set (w0 := responseRecorder _ 200 false).
  assert (Hk0 : knows w0) by (cbn; by split_and!).
  assert (Hk : knows (apply_ops ops w0)) by (by apply knows_apply_ops).
  assert (Hd : depth (apply_ops ops w0) = 2) by (by rewrite apply_ops_depth).
  destruct (apply_ops ops w0) as [|[|[r'|] st1 wh1] st2 wh2]; try done.
  exists r', st1, wh1, st2, wh2. split; [done|]. intros Hh. split.
  - apply (knows_status (responseRecorder (Conn r') st1 wh1)); [apply Hk|done].
  - by apply (knows_status _ Hk).
Qed.

(** What the metrics show of requests: [n] more with these labels. *)
Definition counted (p p' : P) (m path st : string) (n : nat) : Prop :=
  (∀ lvs, counter_value p' HTTPRequestsTotal lvs =
          (counter_value p HTTPRequestsTotal lvs + if decide (lvs = [m; path; st]) then Z.of_nat n else 0)%Z) ∧
  (∀ lvs, observation_count p' HTTPDuration lvs =
          observation_count p HTTPDuration lvs + if decide (lvs = [m; path]) then n else 0).

Lemma count_once `{!PrometheusLaws P} p m path st d :
  has_metrics p →
  ∃ p1 p2, counter_Inc HTTPRequestsTotal [m; path; st] p = (Ok tt, p1) ∧
    histogram_Observe HTTPDuration [m; path] d p1 = (Ok tt, p2) ∧ has_metrics p2 ∧ counted p p2 m path st 1.
Proof.
  intros Hm.
  destruct (counter_Inc_ok HTTPRequestsTotal _ [m; path; st] p (hm_requests _ Hm)) as (p1 & E1 & S1 & C1 & N1 & O1); [done|].
  pose proof (has_metrics_same _ _ S1 Hm) as Hm1.
  destruct (histogram_Observe_ok HTTPDuration _ [m; path] d p1 (hm_duration _ Hm1)) as (p2 & E2 & S2 & C2 & N2 & V2); [done|].
  exists p1, p2. split_and!; [done|done|by eapply has_metrics_same|]. split; intros lvs.
  - rewrite V2. case_decide as E; [by rewrite E, C1|]. rewrite N1 by congruence. lia.
  - case_decide as E; [rewrite E, C2, O1; lia|]. rewrite N2 by congruence. rewrite O1. lia.
Qed.

(** One request through the middlewares; [request_observed] is this. *)
Lemma request_run `{!PrometheusLaws P, rec : Recovering, !RecoveringLaws} mux r f hj fl :
  (∀ o1 f2, mux (routed r f) (entered r f) = (o1, f2) → polite_run (entered r f) f2) →
  has_metrics (fr_metrics f) → fr_writer f = Conn (fresh_response hj fl) →
  let '(o1, f2) := mux (routed r f) (entered r f) in
  let '(o, f') := front mux r f in
  let m := Method (in_rq r) in let path := URL_Path (in_rq r) in
  w_header (wire (fr_writer (entered r f))) !! "X-Request-ID" = Some (request_id r f) ∧
  RequestIDFrom (in_rq (routed r f)) = request_id r f ∧
  fr_state f' = fr_state f2 ∧ has_metrics (fr_metrics f') ∧
  match o1 with
  | Ok _ => o = Ok tt ∧
      wire (fr_writer f') = wire (fr_writer f2) ∧
      ∃ st1 st2 d,
        (w_hijacked (wire (fr_writer f')) = false →
           st1 = default 200%Z (wire_status (wire (fr_writer f'))) ∧ st2 = st1) ∧
        fr_log f' = fr_log f ++ kept (mkLogRecord (request_id r f) m path st1 d) ∧
        counted (fr_metrics f) (fr_metrics f') m path (httpStatusLabel st2) 1
  | Panic _ => o = Ok tt ∧
      fr_log f' = fr_log f ∧ counted (fr_metrics f) (fr_metrics f') m path "" 0 ∧
      (in_header r "Connection" ≠ "Upgrade" → w_hijacked (wire (fr_writer f2)) = false →
       wire_status (wire (fr_writer f')) = Some (default 500%Z (wire_status (wire (fr_writer f2)))))
  | Err _ | NoFuel => o = o1
  end.
Proof.
  intros Hpol Hm Hw. destruct (mux (routed r f) (entered r f)) as [o1 f2] eqn:E.
  destruct (Hpol _ _ eq_refl) as [Hlog Hcol Hreq Hdur (ops & Hops & Hw2)].
  assert (Hm2 : has_metrics (fr_metrics f2)) by (by eapply has_metrics_same, Hm).
  unfold entered in Hw2, Hlog, Hcol, Hreq, Hdur. cbn [fr_writer fr_log fr_metrics] in *. rewrite Hw in Hw2.
  destruct (recorders_after ops hj fl "X-Request-ID" (request_id r f) Hops) as (r' & st1 & wh1 & st2 & wh2 & Ew & Hst).
  rewrite Ew in Hw2. destruct (front mux r f) as [o f'] eqn:Ef. cbv zeta.
  split. { unfold entered. cbn. rewrite Hw. cbn. by rewrite lookup_insert_eq. }
  split; [done|]. unfold front, Recoverer in Ef. destruct o1 as [[]|e|why|].
  - destruct (count_once (fr_metrics f2) (Method (in_rq r)) (URL_Path (in_rq r)) (httpStatusLabel st2)
      (clock (fr_clock f2) - clock (Datatypes.S (fr_clock f))) Hm2) as (p1 & p2 & E1 & E2 & Hm3 & [Hc Hd]).
    rewrite (chain_Ok _ _ _ _ _ _ _ _ _ _ _ E Hw2 E1 E2) in Ef. injection Ef as <- <-. cbn.
    rewrite Hw2. cbn. split_and!; try done. exists st1, st2. eexists. split.
    { intros Hh. destruct (Hst Hh) as [H1 H2]. split; [exact H1|by rewrite H2]. }
    rewrite Hlog. split; [done|]. split; intros lvs; [by rewrite Hc, Hreq|by rewrite Hd, Hdur].
  - rewrite (chain_fails _ _ _ _ _ _ _ _ _ (Err e) E Hw2 eq_refl) in Ef. by injection Ef as <- <-.
  - rewrite (chain_fails _ _ _ _ _ _ _ _ _ (Panic why) E Hw2 eq_refl) in Ef. injection Ef as <- <-. cbn.
    split_and!; try done.
    + split; intros lvs; [rewrite Hreq|rewrite Hdur]; simpl; case_decide; by rewrite ?Z.add_0_r, ?Nat.add_0_r.
    + intros Hup Hh. rewrite Hw2 in *. cbn in *. rewrite (recovered_500 r Hup). cbn.
      destruct (response_WriteHeader_final 500 r') as (r'' & -> & _ & Hs & _); [done|]. by apply Hs.
  - rewrite (chain_fails _ _ _ _ _ _ _ _ _ NoFuel E Hw2 eq_refl) in Ef. by injection Ef as <- <-.
Qed.

(** C15: One request through the middlewares, over any routes that use the
    writer by its methods. Its id, taken from the request or made fresh, is
    in the response header and in the context of the routes. When the routes
    return, the state and the response are those they left; the request is
    counted once, under its method, its path and the class of its status, and
    timed once; one line with its id, method, path and status is logged
    unless the level drops it; and unless the connection was hijacked both
    statuses are the one that was sent, 200 when none was. When the routes
    panic the server goes on: the client gets a 500 unless a status was sent
    before, and the request is neither counted nor timed nor logged. *)
Theorem request_observed `{!PrometheusLaws P, rec : Recovering, !RecoveringLaws} mux r f hj fl :
  (∀ o1 f2, mux (routed r f) (entered r f) = (o1, f2) → polite_run (entered r f) f2) →
  has_metrics (fr_metrics f) → fr_writer f = Conn (fresh_response hj fl) →
  let '(o1, f2) := mux (routed r f) (entered r f) in
  let '(o, f') := front mux r f in
  let m := Method (in_rq r) in let path := URL_Path (in_rq r) in
  w_header (wire (fr_writer (entered r f))) !! "X-Request-ID" = Some (request_id r f) ∧
  RequestIDFrom (in_rq (routed r f)) = request_id r f ∧
  fr_state f' = fr_state f2 ∧ has_metrics (fr_metrics f') ∧
  match o1 with
  | Ok _ => o = Ok tt ∧
      wire (fr_writer f') = wire (fr_writer f2) ∧
      ∃ st1 st2 d,
        (w_hijacked (wire (fr_writer f')) = false →
           st1 = default 200%Z (wire_status (wire (fr_writer f'))) ∧ st2 = st1) ∧
        fr_log f' = fr_log f ++ kept (mkLogRecord (request_id r f) m path st1 d) ∧
        counted (fr_metrics f) (fr_metrics f') m path (httpStatusLabel st2) 1
  | Panic _ => o = Ok tt ∧
      fr_log f' = fr_log f ∧ counted (fr_metrics f) (fr_metrics f') m path "" 0 ∧
      (in_header r "Connection" ≠ "Upgrade" → w_hijacked (wire (fr_writer f2)) = false →
       wire_status (wire (fr_writer f')) = Some (default 500%Z (wire_status (wire (fr_writer f2)))))
  | Err _ | NoFuel => o = o1
  end.
Proof. apply request_run. Qed.
End Middleware.
