(* ===== verification/Routes.v ===== *)
(** * The routes (internal/api/router.go)

    The table of routes as [Router] builds it, with the group behind the two
    auth middlewares; the handler of every route as a handler of the front;
    and chi's matching as a parameter.  The handlers whose work is modelled
    elsewhere as a relation or over other state (the metrics page, the socket,
    creating a task, the dashboard) are parameters here. *)
From Stdlib Require Import Ascii.
From S2P Require Import Prelude GoStr Trim GoValue GoSort GoFmt Json Model Store StoreSpec Expr Graph SideEffects.
From S2P Require Import Mcp Engine Auth Hub Decomposer Threads Orchestrator Codec Config Api Encode ApiTypes Metrics Writer Middleware.

(** ** The table *)
Inductive target :=
  | THealthz | TReadyz | TMetrics
  | TLogin | TWS
  | TCreateTask | TDashboard | TDashboardHistory
  | TEndpoint (e : endpoint).

Record Route := mkRoute {
  rt_method : string;
  rt_pattern : string;
  rt_guarded : bool;
  rt_target : target
}.

(** [r.Get(pattern, h)] and its like, outside of the group. *)
Definition Get (pattern : string) (t : target) : Route := mkRoute "GET" pattern false t.
Definition Post (pattern : string) (t : target) : Route := mkRoute "POST" pattern false t.
Definition Put (pattern : string) (t : target) : Route := mkRoute "PUT" pattern false t.
Definition Delete (pattern : string) (t : target) : Route := mkRoute "DELETE" pattern false t.

(** [r.Route(prefix, ...)], and a [r.Group] that uses the two auth
    middlewares. *)
Definition mount (prefix : string) (l : list Route) : list Route :=
  (λ r, mkRoute (rt_method r) (prefix +:+ rt_pattern r) (rt_guarded r) (rt_target r)) <$> l.
Definition guarded_group (l : list Route) : list Route :=
  (λ r, mkRoute (rt_method r) (rt_pattern r) true (rt_target r)) <$> l.

Definition routes : list Route :=
  [ Get "/healthz" THealthz;
    Get "/readyz" TReadyz;
    Get "/metrics" TMetrics ] ++
  mount "/api/v1" (
    [ Post "/auth/login" TLogin;
      Get "/ws" TWS ] ++
    guarded_group [
      Get "/me" (TEndpoint EpMe);
      Get "/agents" (TEndpoint EpListAgents);
      Post "/agents" (TEndpoint EpCreateAgent);
      Get "/agents/{id}" (TEndpoint EpGetAgent);
      Put "/agents/{id}" (TEndpoint EpUpdateAgent);
      Delete "/agents/{id}" (TEndpoint EpDeleteAgent);
      Get "/mcp-servers" (TEndpoint EpListMcpServers);
      Post "/mcp-servers" (TEndpoint EpCreateMcpServer);
      Get "/mcp-servers/{id}" (TEndpoint EpGetMcpServer);
      Put "/mcp-servers/{id}" (TEndpoint EpUpdateMcpServer);
      Delete "/mcp-servers/{id}" (TEndpoint EpDeleteMcpServer);
      Post "/mcp-servers/{id}/test" (TEndpoint EpTestMcpServer);
      Get "/flows" (TEndpoint EpListFlows);
      Post "/flows" (TEndpoint EpCreateFlow);
      Get "/flows/{id}" (TEndpoint EpGetFlow);
      Put "/flows/{id}" (TEndpoint EpUpdateFlow);
      Delete "/flows/{id}" (TEndpoint EpDeleteFlow);
      Post "/flows/{id}/run" (TEndpoint EpRunFlow);
      Get "/flows/{id}/runs" (TEndpoint EpListFlowRuns);
      Get "/runs/{run_id}" (TEndpoint EpGetRun);
      Post "/tasks" TCreateTask;
      Get "/tasks/{id}" (TEndpoint EpGetTask);
      Get "/users" (TEndpoint EpListUsers);
      Post "/users" (TEndpoint EpCreateUser);
      Get "/users/{id}" (TEndpoint EpGetUser);
      Put "/users/{id}" (TEndpoint EpUpdateUser);
      Delete "/users/{id}" (TEndpoint EpDeleteUser);
      Get "/dashboard" TDashboard;
      Get "/dashboard/history" TDashboardHistory ]).

(** ** chi *)

(** A pattern is matched piece by piece; [{name}] stands for one piece. *)
Definition param_name (piece : string) : option string :=
  match piece with
  | String "{"%char s => Some (before_byte "}" s)
  | _ => None
  end.

Fixpoint match_pieces (pattern path : list string) : option (list (string * string)) :=
  match pattern, path with
  | [], [] => Some []
  | p :: ps, x :: xs =>
      match param_name p with
      | Some n => cons (n, x) <$> match_pieces ps xs
      | None => if bool_decide (p = x) then match_pieces ps xs else None
      end
  | _, _ => None
  end.

Definition matches (pattern path : string) : option (list (string * string)) :=
  match_pieces (split_byte "/" pattern) (split_byte "/" path).

(** The mux: the route of a method and a path with the values of its
    parameters, and the answer when there is none. *)
Class Chi := {
  find_route : list Route → string → string → option (Route * list (string * string));
  no_route : list Route → string → string → list wop
}.

(** A route that is found matches; a route that matches with parameters that
    are not empty is not missed; and the answer without a route is plain. *)
Class ChiLaws `{Chi} := {
  find_route_sound l m path rt ps :
    find_route l m path = Some (rt, ps) →
    rt ∈ l ∧ rt_method rt = m ∧ matches (rt_pattern rt) path = Some ps;
  find_route_complete l m path rt ps :
    rt ∈ l → rt_method rt = m → matches (rt_pattern rt) path = Some ps → Forall (λ p, p.2 ≠ "") ps →
    is_Some (find_route l m path);
  no_route_plain l m path : Forall plain_op (no_route l m path)
}.

(** [chi.URLParam(r, name)] *)
Definition chi_URLParam (ps : list (string * string)) (name : string) : string :=
  match list_find (λ p, p.1 = name) ps with Some (_, (_, v)) => v | None => "" end.

(** The parameter that the handler of an endpoint reads. *)
Definition reads_param (e : endpoint) : string := if decide (e = EpGetRun) then "run_id" else "id".

(** ** The handlers, in front *)
Section Serve.
Context {St Mc Se P : Type} {prom : Prometheus P}.
Context {st_ops : Store St} {mc_ops : Client Mc} {se_ops : SideEffectStore Se} {quoting : FmtQuote}.
Context {jwt : JWT} {bcrypt : Bcrypt} {nils : Nils} {chi : Chi}.
Context (now_at : nat → Time) (uuid_at : nat → string) (map_order : MapOrder).
Context (parse_time : string → outcome Time) (time_text : Time → string) (json_text : json → string).
Context (visit : gset nat → list nat).
Context (auth : Manager) (seed : SeedConfig).
Abbreviation A := (Api St Mc Se).
Abbreviation F := (Front A P).

Definition on_state {B} (m : M A B) : M F B := λ f,
  let '(o, a) := m (fr_state f) in
  (o, mkFront a (fr_metrics f) (fr_log f) (fr_clock f) (fr_ids f) (fr_writer f)).

(** [_ = json.NewEncoder(w).Encode(v)]: nothing after an error of the
    encoder; an error of the write is dropped. *)
Definition encode_to (j : option json) : M F unit :=
  match j with
  | None => mret tt
  | Some j => _ ← mtry (on_writer (Write (json_text j +:+ newline))); mret tt
  end.

Definition write_json (status : Z) (j : option json) : M F unit :=
  _ ← set_header "Content-Type" "application/json";
  _ ← on_writer (WriteHeader status);
  encode_to j.

(** [http.Error] *)
Definition http_Error (msg : string) (code : Z) : M F unit :=
  _ ← set_header "Content-Type" "text/plain; charset=utf-8";
  _ ← set_header "X-Content-Type-Options" "nosniff";
  _ ← on_writer (WriteHeader code);
  _ ← mtry (on_writer (Write (msg +:+ newline)));
  mret tt.

(** What a handler does with its answer: [w.WriteHeader] alone for one
    without a body. *)
Definition respond (resp : HttpResponse) : M F unit :=
  match Payload resp with
  | BNone => on_writer (WriteHeader (Status resp))
  | BText msg => http_Error msg (Status resp)
  | b => write_json (Status resp) (encode_Body time_text b)
  end.

(** [runFlow] with its counter: one more run of that status, after the run
    was stored and before it is told to the sockets. *)
Definition runFlow_counted (r : HttpRequest) : M F HttpResponse :=
  e ← on_state (call (OpGetFlow (tenantFrom r) (URLParam r)));
  match e with
  | inr err => mret (storeError err)
  | inl fl =>
      if negb (Flow_Enabled fl) then mret (writeError StatusBadRequest "flow is disabled")
      else
        started ← on_state (api_now now_at);
        id ← on_state (new_uuid uuid_at);
        c ← on_state (call (OpCreateRun (mkRun id (Flow_ID fl) (Flow_TenantID fl) RunStatusRunning started
                    None [] RawEmpty)));
        match c with
        | inr err => mret (writeError StatusInternalServerError (error_text err))
        | inl run =>
            res ← on_state (on_world (Execute now_at map_order fl));
            finished ← on_state (api_now now_at);
            u ← on_state (call (OpUpdateRun (mkRun (Run_ID run) (Run_FlowID run) (Run_TenantID run)
                        (Exec_Status res) (Run_StartedAt run) (Some finished) (Exec_Logs res)
                        (Exec_Result res))));
            match u with
            | inr err => mret (writeError StatusInternalServerError (error_text err))
            | inl run =>
                _ ← on_metrics (counter_Inc FlowRunsTotal [Exec_Status res]);
                _ ← on_state (broadcast now_at time_text visit (Flow_TenantID fl) "run_update"
                      (VMap {[ "run_id" := VString (Run_ID run); "flow_id" := VString (Flow_ID fl);
                               "status" := VString (Exec_Status res) ]}));
                mret (writeJSON StatusOK (BRunID (Run_ID run)))
            end
        end
  end.

Definition serve_counted (e : endpoint) (r : HttpRequest) : M F HttpResponse :=
  match e with
  | EpRunFlow => runFlow_counted r
  | _ => on_state (serve now_at uuid_at map_order parse_time time_text visit e r)
  end.

(** Whether the Store of the server is nil (NewServer sets it), and the
    handlers that are not modelled over this state. *)
Context (store_nil : bool) (other : target → list (string * string) → Incoming → M F unit).

(** The health checks write the answers that Dashboard gives them. *)
Definition serve_target (t : target) (ps : list (string * string)) (r : Incoming) : M F unit :=
  match t with
  | THealthz => write_json StatusOK (Some (JObj [("status", JStr "ok")]))
  | TReadyz =>
      if store_nil then write_json StatusServiceUnavailable (Some (JObj [("status", JStr "not ready")]))
      else write_json StatusOK (Some (JObj [("status", JStr "ready")]))
  | TLogin =>
      resp ← on_state (handleLogin now_at uuid_at auth seed (mkHttpRequest (in_rq r) "" (in_body r)));
      respond resp
  | TEndpoint e =>
      resp ← serve_counted e (mkHttpRequest (in_rq r) (chi_URLParam ps (reads_param e)) (in_body r));
      respond resp
  | TMetrics | TWS | TCreateTask | TDashboard | TDashboardHistory => other t ps r
  end.

(** The two auth middlewares around a handler. *)
Definition guarded (h : Incoming → M F unit) (r : Incoming) : M F unit :=
  match protected auth Served (in_rq r) with
  | HttpError msg status => http_Error msg status
  | Served q => h (with_rq r q)
  end.

Definition mux (r : Incoming) : M F unit :=
  match find_route routes (Method (in_rq r)) (URL_Path (in_rq r)) with
  | None => λ f, (Ok tt, set_writer (apply_ops (no_route routes (Method (in_rq r)) (URL_Path (in_rq r)))
                                       (fr_writer f)) f)
  | Some (rt, ps) =>
      if rt_guarded rt then guarded (serve_target (rt_target rt) ps) r
      else serve_target (rt_target rt) ps r
  end.
End Serve.
