(* ===== verification/RoutesProps.v ===== *)
(** * What the server does with a request

    The table of routes is unambiguous and guards what it should; a request
    for a route is served by its handler behind the auth middlewares; and the
    answer, the metrics and the log of the whole server are those of that
    handler. *)
From Stdlib Require Import Ascii.
From S2P Require Import Prelude GoStr Trim GoValue GoSort GoFmt Json Model Store StoreSpec Expr Graph SideEffects.
From S2P Require Import Mcp Engine Auth Hub Decomposer Threads Orchestrator Codec Config Api Encode ApiTypes Metrics Writer Middleware Routes.

#[export] Instance target_eq_dec : EqDecision target.
Proof. solve_decision. Defined.
#[export] Instance Route_eq_dec : EqDecision Route.
Proof. solve_decision. Defined.

(** ** The table *)

(** Whether some path may match both patterns. *)
Fixpoint may_overlap (ps qs : list string) : bool :=
  match ps, qs with
  | [], [] => true
  | p :: ps', q :: qs' =>
      (match param_name p, param_name q with
       | None, None => bool_decide (p = q)
       | _, _ => true
       end) && may_overlap ps' qs'
  | _, _ => false
  end.

Lemma may_overlap_spec ps qs xs a b :
  match_pieces ps xs = Some a → match_pieces qs xs = Some b → may_overlap ps qs = true.
Proof.
  revert qs xs a b. induction ps as [|p ps IH]; intros [|q qs] [|x xs] a b; simpl; try done.
  destruct (param_name p) as [n|].
  - intros (a' & Ha & _)%fmap_Some. destruct (param_name q); [intros (b' & Hb & _)%fmap_Some; by eapply IH|].
    case_bool_decide; [|done]. intros Hb. by eapply IH.
  - case_bool_decide as Hp; [|done]. intros Ha. destruct (param_name q).
    + intros (b' & Hb & _)%fmap_Some. by eapply IH.
    + case_bool_decide as Hq; [|done]. intros Hb. subst. rewrite bool_decide_eq_true_2 by done. by eapply IH.
Qed.

Definition conflict (r1 r2 : Route) : bool :=
  bool_decide (rt_method r1 = rt_method r2)
  && may_overlap (split_byte "/" (rt_pattern r1)) (split_byte "/" (rt_pattern r2)).

Fixpoint unambiguous (l : list Route) : bool :=
  match l with
  | [] => true
  | r :: l' => forallb (λ r', negb (conflict r r' || conflict r' r)) l' && unambiguous l'
  end.

Lemma unambiguous_spec l r1 r2 m path a b :
  unambiguous l = true → r1 ∈ l → r2 ∈ l → rt_method r1 = m → rt_method r2 = m →
  matches (rt_pattern r1) path = Some a → matches (rt_pattern r2) path = Some b → r1 = r2.
Proof.
  intros Hu H1 H2 <- Hm Ha Hb. unfold matches in *.
  assert (C : conflict r1 r2 = true).
  { unfold conflict. rewrite Hm, bool_decide_eq_true_2 by done. by eapply may_overlap_spec. }
  induction l as [|r l IH]; [by apply elem_of_nil in H1|]. simpl in Hu. apply andb_prop in Hu as [Hf Hu].
  rewrite forallb_forall in Hf.
  apply elem_of_cons in H1 as [->|H1], H2 as [->|H2]; [done| | |by apply IH].
  - apply list_elem_of_In, Hf in H2. by rewrite C in H2.
  - apply list_elem_of_In, Hf in H1. by rewrite C, orb_true_r in H1.
Qed.

Lemma routes_unambiguous : unambiguous routes = true.
Proof. by vm_compute. Qed.

(** The routes outside of the group. *)
Definition public_routes : list (string * string) :=
  [("GET", "/healthz"); ("GET", "/readyz"); ("GET", "/metrics");
   ("POST", "/api/v1/auth/login"); ("GET", "/api/v1/ws")].

Lemma literal_match ps xs a :
  forallb (λ p, match param_name p with None => true | _ => false end) ps = true →
  match_pieces ps xs = Some a → xs = ps.
Proof.
  revert xs a. induction ps as [|p ps IH]; intros [|x xs] a; simpl; try done.
  destruct (param_name p); [done|]. simpl. intros Hps. case_bool_decide; [|done]. intros Ha.
  subst. f_equal. by eapply IH.
Qed.

Lemma split_byte_inj sep s t : split_byte sep s = split_byte sep t → s = t.
Proof.
  intros E. rewrite <- (proj2 (split_byte_spec sep s)), <- (proj2 (split_byte_spec sep t)). by rewrite E.
Qed.

Lemma unguarded_public rt path ps :
  rt ∈ routes → rt_guarded rt = false → matches (rt_pattern rt) path = Some ps →
  (rt_method rt, path) ∈ public_routes.
Proof.
  intros Hin Hg Hm.
  assert (Hl : forallb (λ rt, rt_guarded rt ||
    forallb (λ p, match param_name p with None => true | _ => false end) (split_byte "/" (rt_pattern rt))
    && bool_decide ((rt_method rt, rt_pattern rt) ∈ public_routes)) routes = true) by (by vm_compute).
  rewrite forallb_forall in Hl. apply list_elem_of_In, Hl in Hin. rewrite Hg in Hin. simpl in Hin.
  apply andb_prop in Hin as [Hlit Hpub]. apply bool_decide_eq_true in Hpub.
  apply (literal_match _ _ _ Hlit), split_byte_inj in Hm as ->. done.
Qed.

(** The middlewares do not wave a guarded route through. *)
Lemma guarded_requires_auth rt path ps :
  rt ∈ routes → rt_guarded rt = true → matches (rt_pattern rt) path = Some ps → requiresAuth path = true.
Proof.
  intros Hin Hg Hm. apply not_false_is_true. intros Hr.
  assert (Hp : path ∈ ["/healthz"; "/readyz"; "/metrics"; "/api/v1/auth/login"]).
  { unfold requiresAuth in Hr. repeat case_bool_decide; set_solver. }
  assert (Hl : forallb (λ rt, negb (rt_guarded rt) || forallb (λ p,
    match matches (rt_pattern rt) p with None => true | Some _ => false end)
    ["/healthz"; "/readyz"; "/metrics"; "/api/v1/auth/login"]) routes = true) by (by vm_compute).
  rewrite forallb_forall in Hl. apply list_elem_of_In, Hl in Hin. rewrite Hg in Hin. simpl in Hin.
  change (forallb (λ p, match matches (rt_pattern rt) p with None => true | Some _ => false end)
    ["/healthz"; "/readyz"; "/metrics"; "/api/v1/auth/login"] = true) in Hin.
  rewrite forallb_forall in Hin. apply list_elem_of_In, Hin in Hp. by rewrite Hm in Hp.
Qed.

(** Whether the pattern of an endpoint has a parameter. *)
Definition takes_param (e : endpoint) : bool :=
  negb (bool_decide (e ∈ [EpMe; EpListAgents; EpCreateAgent; EpListMcpServers; EpCreateMcpServer;
                          EpListFlows; EpCreateFlow; EpListUsers; EpCreateUser])).

Definition endpoint_route (e : endpoint) : Route :=
  match filter (λ rt, rt_target rt = TEndpoint e) routes with rt :: _ => rt | [] => Get "" THealthz end.

(** The path of an endpoint: a text, with the parameter after it and perhaps
    one more piece. *)
Definition route_parts (e : endpoint) : string * option string :=
  let api := "/api/v1" in
  match e with
  | EpTestMcpServer => (api +:+ "/mcp-servers", Some "test")
  | EpRunFlow => (api +:+ "/flows", Some "run")
  | EpListFlowRuns => (api +:+ "/flows", Some "runs")
  | EpGetAgent | EpUpdateAgent | EpDeleteAgent => (api +:+ "/agents", None)
  | EpGetMcpServer | EpUpdateMcpServer | EpDeleteMcpServer => (api +:+ "/mcp-servers", None)
  | EpGetFlow | EpUpdateFlow | EpDeleteFlow => (api +:+ "/flows", None)
  | EpGetUser | EpUpdateUser | EpDeleteUser => (api +:+ "/users", None)
  | EpGetRun => (api +:+ "/runs", None)
  | EpGetTask => (api +:+ "/tasks", None)
  | _ => ((route e "").2, None)
  end.

Lemma route_pieces e id :
  has_byte "/" id = false →
  split_byte "/" (route e id).2 =
    split_byte "/" (route_parts e).1 ++
    if takes_param e then id :: match (route_parts e).2 with Some s => [s] | None => [] end else [].
Proof.
  intros Hid. destruct e; try (by vm_compute);
  match goal with
  | |- split_byte "/" (route ?e id).2 = _ =>
      lazymatch eval vm_compute in (route_parts e).2 with
      | Some ?s =>
          change (route e id).2 with ((route_parts e).1 +:+ String "/" (id +:+ String "/" s));
          rewrite split_byte_join, split_byte_app by done; f_equal; by vm_compute
      | None =>
          change (route e id).2 with ((route_parts e).1 +:+ String "/" id);
          rewrite split_byte_join, (split_byte_none _ id) by done; by vm_compute
      end
  end.
Qed.

Lemma endpoint_route_ok e id :
  endpoint_route e ∈ routes ∧ rt_target (endpoint_route e) = TEndpoint e ∧
  rt_guarded (endpoint_route e) = true ∧ rt_method (endpoint_route e) = (route e id).1.
Proof.
  split_and!; [refine (bool_decide_eq_true_1 _ _)|..]; destruct e; by vm_compute.
Qed.

(** The parameters with which the route of an endpoint is found. *)
Definition endpoint_params (e : endpoint) (id : string) : list (string * string) :=
  if takes_param e then [(reads_param e, id)] else [].

Lemma endpoint_matches e id :
  has_byte "/" id = false →
  matches (rt_pattern (endpoint_route e)) (route e id).2 = Some (endpoint_params e id).
Proof. intros Hid. unfold matches. rewrite route_pieces by done. destruct e; by vm_compute. Qed.

Lemma endpoint_URLParam e id :
  chi_URLParam (endpoint_params e id) (reads_param e) = if takes_param e then id else "".
Proof. destruct e; by vm_compute. Qed.

Section Found.
Context `{ChiLaws}.

Lemma find_endpoint e id :
  id ≠ "" → has_byte "/" id = false →
  find_route routes (route e id).1 (route e id).2 = Some (endpoint_route e, endpoint_params e id).
Proof.
  intros Hne Hid. destruct (endpoint_route_ok e id) as (Hin & _ & _ & Hmeth).
  pose proof (endpoint_matches e id Hid) as Hm.
  destruct (find_route_complete routes (route e id).1 (route e id).2 (endpoint_route e) (endpoint_params e id))
    as [[rt ps] E]; [done|done|done| |].
  { unfold endpoint_params. destruct (takes_param e); by repeat constructor. }
  rewrite E. apply find_route_sound in E as (Hin' & Hm' & Hps).
  assert (rt = endpoint_route e) as ->.
  { apply (unambiguous_spec routes _ _ (route e id).1 (route e id).2 ps (endpoint_params e id)); done. }
  rewrite Hm in Hps. by injection Hps as <-.
Qed.

(** C33: The table of routes. The request of every endpoint, with any
    identifier that is not empty and has no slash, is found: its route is the
    one of the endpoint's handler, the handler reads the identifier under the
    name the pattern gives it, and the route is in the guarded group. No
    method and path match two routes. What is found outside of the group are
    the two health checks, the metrics, the login and the socket, by their
    exact paths; and on the path of a guarded route the auth middlewares
    never take the exit for public paths. *)
Theorem routes_dispatch :
  (∀ e id, id ≠ "" → has_byte "/" id = false →
     ∃ rt ps, find_route routes (route e id).1 (route e id).2 = Some (rt, ps) ∧
       rt_target rt = TEndpoint e ∧ rt_guarded rt = true ∧
       chi_URLParam ps (reads_param e) = if takes_param e then id else "") ∧
  (∀ path rt1 rt2 a b, rt1 ∈ routes → rt2 ∈ routes → rt_method rt1 = rt_method rt2 →
     matches (rt_pattern rt1) path = Some a → matches (rt_pattern rt2) path = Some b → rt1 = rt2) ∧
  (∀ m path rt ps, find_route routes m path = Some (rt, ps) →
     if rt_guarded rt then requiresAuth path = true else (m, path) ∈ public_routes).
Proof.
  split; [|split].
  - intros e id Hne Hid. destruct (endpoint_route_ok e id) as (_ & Ht & Hg & _).
    exists (endpoint_route e), (endpoint_params e id).
    split_and!; [by apply find_endpoint|done|done|apply endpoint_URLParam].
  - intros path rt1 rt2 a b H1 H2 Hm Ha Hb.
    by apply (unambiguous_spec routes rt1 rt2 (rt_method rt2) path a b routes_unambiguous).
  - intros m path rt ps (Hin & <- & Hm)%find_route_sound. destruct (rt_guarded rt) eqn:Hg.
    + by eapply guarded_requires_auth.
    + by eapply unguarded_public.
Qed.
End Found.

(** A mux that tries the routes in order. *)
Fixpoint first_route (l : list Route) (m path : string) : option (Route * list (string * string)) :=
  match l with
  | [] => None
  | rt :: l' =>
      if bool_decide (rt_method rt = m) then
        match matches (rt_pattern rt) path with
        | Some ps => Some (rt, ps)
        | None => first_route l' m path
        end
      else first_route l' m path
  end.

Definition sample_chi : Chi := {|
  find_route := first_route;
  no_route := λ _ _ _, [OpWriteHeader 404; OpWrite "404 page not found"]
|}.

#[export] Instance sample_chi_laws : @ChiLaws sample_chi.
Proof.
  split; simpl.
  - intros l m path rt ps. induction l as [|r l IH]; simpl; [done|].
    case_bool_decide as Hm; [destruct (matches (rt_pattern r) path) eqn:E|];
      first [intros [= <- <-]; split_and!; [left|done|done] | intros (? & ? & ?)%IH; split_and!; [by right|done|done]].
  - intros l m path rt ps Hin Hm Hps _. induction Hin as [l|rt r l Hin IH]; simpl.
    + rewrite bool_decide_eq_true_2, Hps by done. by eexists.
    + case_bool_decide; [|by apply IH]. destruct (matches (rt_pattern r) path); [by eexists|by apply IH].
  - intros l m path. constructor; [split; lia|by repeat constructor].
Qed.

Lemma routes_dispatch_witness :
  ∃ rt ps, find_route (Chi := sample_chi) routes "GET" "/api/v1/runs/r1" = Some (rt, ps) ∧
    rt_target rt = TEndpoint EpGetRun ∧ chi_URLParam ps "run_id" = "r1".
Proof.
  destruct (proj1 (@routes_dispatch sample_chi sample_chi_laws) EpGetRun "r1" ltac:(done) eq_refl)
    as (rt & ps & E & Ht & _ & Hp).
  exists rt, ps. split; [exact E|]. split; [exact Ht|exact Hp].
Defined.
