(* ===== verification/ServerProps.v ===== *)
(** * The server as a whole

    Front, routes, auth and handlers together: what the metered handlers do
    to the state is what the handlers of Api do; the response that goes out
    is theirs; and nothing is done for a request outside of the public routes
    that was not authorized. *)
From Stdlib Require Import Ascii.
From S2P Require Import Prelude GoStr Trim GoValue GoSort GoFmt Json Model Store StoreSpec StoreProps Expr Graph SideEffects.
From S2P Require Import Mcp Engine EngineProps Auth Hub Decomposer Threads Orchestrator Codec Config Api ApiSamples Encode ApiTypes.
From S2P Require Import Metrics Writer Middleware Routes RoutesProps.

Section Server.
Context {St Mc Se P : Type} {prom : Prometheus P} {plaws : PrometheusLaws P}.
Context {st_ops : Store St} {mc_ops : Client Mc} {se_ops : SideEffectStore Se} {quoting : FmtQuote}.
Context {jwt : JWT} {bcrypt : Bcrypt} {nils : Nils} {chi : Chi}.
Context (now_at : nat → Time) (uuid_at : nat → string) (map_order : MapOrder).
Context (parse_time : string → outcome Time) (time_text : Time → string) (json_text : json → string).
Context (visit : gset nat → list nat).
Context (auth : Manager) (seed : SeedConfig).
Abbreviation A := (Api St Mc Se).
Abbreviation F := (Front A P).

(** ** Computations that only touch the state *)

(** Log, writer and the metrics of requests as they were. *)
Record quiet_run (f f' : F) : Prop := {
  qr_log : fr_log f' = fr_log f;
  qr_writer : fr_writer f' = fr_writer f;
  qr_collectors : same_collectors (fr_metrics f) (fr_metrics f');
  qr_requests lvs : counter_value (fr_metrics f') HTTPRequestsTotal lvs
                    = counter_value (fr_metrics f) HTTPRequestsTotal lvs;
  qr_durations lvs : observation_count (fr_metrics f') HTTPDuration lvs
                     = observation_count (fr_metrics f) HTTPDuration lvs
}.

Lemma quiet_refl f : quiet_run f f.
Proof. by split. Qed.

Lemma quiet_trans f g h : quiet_run f g → quiet_run g h → quiet_run f h.
Proof.
  intros [L1 W1 [C1 C1'] R1 D1] [L2 W2 [C2 C2'] R2 D2]. split; [congruence|congruence| | |].
  - split; intros n; [by rewrite C2|by rewrite C2'].
  - intros. by rewrite R2.
  - intros. by rewrite D2.
Qed.

(** [m] over the front does to the state what [m'] does. *)
Definition fronts {B} (m : M F B) (m' : M A B) : Prop := ∀ f, has_metrics (fr_metrics f) →
  let '(o, f') := m f in m' (fr_state f) = (o, fr_state f') ∧ quiet_run f f'.

Lemma fronts_metrics {B} (m : M F B) m' f o f' :
  fronts m m' → has_metrics (fr_metrics f) → m f = (o, f') →
  m' (fr_state f) = (o, fr_state f') ∧ quiet_run f f' ∧ has_metrics (fr_metrics f').
Proof.
  intros H Hm E. specialize (H f Hm). rewrite E in H. destruct H as [Hs Hq].
  split_and!; [done|done|]. eapply has_metrics_same; [apply Hq|done].
Qed.

Lemma fronts_ret {B} (b : B) : fronts (mret b) (mret b).
Proof. intros f _. split; [done|apply quiet_refl]. Qed.

Lemma fronts_on_state {B} (m : M A B) : fronts (on_state m) m.
Proof. intros f _. unfold on_state. destruct (m (fr_state f)) as [o a]. by split. Qed.

Lemma fronts_bind {B C} (m : M F B) m' (k : B → M F C) k' :
  fronts m m' → (∀ b, fronts (k b) (k' b)) → fronts (m ≫= k) (m' ≫= k').
Proof.
  intros Hm Hk f Hf. unfold mbind, M_bind. destruct (m f) as [o f1] eqn:E.
  destruct (fronts_metrics _ _ _ _ _ Hm Hf E) as (E' & Hq & Hf1). rewrite E'.
  destruct o as [b|e|w|]; try done. specialize (Hk b f1 Hf1).
  destruct (k b f1) as [o2 f2]. destruct Hk as [E2 Hq2]. split; [done|by eapply quiet_trans].
Qed.

Lemma fronts_count {B} st (k : unit → M F B) k' :
  fronts (k tt) k' → fronts (on_metrics (counter_Inc FlowRunsTotal [st]) ≫= k) k'.
Proof using plaws.
  intros Hk f Hf. unfold mbind, M_bind, on_metrics.
  destruct (counter_Inc_ok FlowRunsTotal _ [st] (fr_metrics f) (hm_runs _ Hf)) as (p & -> & Hs & Hv & Hn & Ho); [done|].
  set (f1 := mkFront _ _ _ _ _ _). specialize (Hk f1 (has_metrics_same _ _ Hs Hf)).
  destruct (k tt f1) as [o f2]. destruct Hk as [E Hq]. split; [done|]. eapply quiet_trans, Hq.
  split; try done. intros lvs. by apply Hn.
Qed.

(** The handlers with their counters are the handlers. *)
Lemma serve_counted_fronts e r :
  fronts (serve_counted now_at uuid_at map_order parse_time time_text visit e r)
    (serve now_at uuid_at map_order parse_time time_text visit e r).
Proof using plaws.
  destruct e; try apply fronts_on_state. cbn [serve_counted serve]. unfold runFlow_counted, runFlow.
  repeat first
    [ apply fronts_count
    | apply fronts_bind; [apply fronts_on_state|intros ?]
    | apply fronts_ret
    | match goal with |- fronts (match ?x with _ => _ end) _ => destruct x end ].
Qed.

(** ** Writing the answer *)

(** A fresh response: the recorders know, nothing is sent. *)
Definition unsent (w : Writer) : Prop :=
  knows w ∧ wire_status (wire w) = None ∧ w_hijacked (wire w) = false.

(** The status of an answer is the one that is sent. *)
Definition sends (st : Z) (m : M F unit) : Prop := ∀ f, unsent (fr_writer f) →
  ∃ w, m f = (Ok tt, set_writer w f) ∧ wire_status (wire w) = Some st ∧ w_hijacked (wire w) = false ∧
       ∃ ops, Forall plain_op ops ∧ w = apply_ops ops (fr_writer f).

Lemma sends_status st : final_code st → sends st (on_writer (WriteHeader st)).
Proof.
  intros Hc f (Hk & Hs & Hh). unfold on_writer.
  destruct (WriteHeader_final st (fr_writer f) Hc Hk) as (w & E & _ & Hh' & Hs'). rewrite E.
  exists w. split_and!; [done|by rewrite Hs', Hs|by rewrite Hh'|].
  exists [OpWriteHeader st]. split; [by apply Forall_singleton|]. cbn. by rewrite E.
Qed.

(** A header before, and text after, do not change it. *)
Lemma sends_header k v st (m : M F unit) :
  sends st m → sends st (set_header k v ≫= λ _, m).
Proof.
  intros Hm f (Hk & Hs & Hh). unfold set_header, on_writer, mbind, M_bind.
  destruct (Hm (set_writer (Header_Set k v (fr_writer f)) f)) as (w & E & Hw & Hh' & ops & Hops & Ew).
  { unfold unsent. cbn. rewrite wire_Header_Set. split_and!; [by apply knows_Header_Set|done|done]. }
  rewrite E. exists w. split_and!; [done..|]. exists (OpSet k v :: ops). split; [by constructor|done].
Qed.

Lemma sends_then_text st (m : M F unit) b :
  sends st m → sends st (m ≫= λ _, (_ ← mtry (on_writer (Write b)); mret tt)).
Proof.
  intros Hm f Hf. destruct (Hm f Hf) as (w & E & Hw & Hh & ops & Hops & Ew).
  assert (Hk : knows w). { subst w. apply knows_apply_ops; [done|apply Hf]. }
  rewrite (bind_ok _ _ _ _ _ E).
  destruct (Write_status_at (depth w) b w) as (Ho & _ & _ & Hh' & Hs'); [done|done|].
  pose proof (Write_no_panic b w Hk) as Hp. unfold mbind, M_bind, mtry, on_writer. cbn [fr_writer set_writer].
  unfold Write in *. destruct (Write_at (depth w) b w) as [o w'] eqn:Ewr. cbn in *.
  exists w'. split_and!.
  - destruct o as [n|e|why|]; try done. by destruct (Hp why).
  - rewrite (Hs' Hh), Hw. done.
  - by rewrite Hh'.
  - exists (ops ++ [OpWrite b]). split; [apply Forall_app; split; [done|by constructor]|].
    unfold apply_ops. rewrite foldl_app. fold (apply_ops ops (fr_writer f)). rewrite <- Ew. cbn.
    unfold Write. by rewrite Ewr.
Qed.

Lemma sends_json st j : final_code st → sends st (write_json json_text st j).
Proof.
  intros Hst. unfold write_json. apply sends_header. destruct j as [j|]; cbn [encode_to].
  - by apply sends_then_text, sends_status.
  - intros f Hf. destruct (sends_status st Hst f Hf) as (w & E & H). exists w. by rewrite (bind_ok _ _ _ _ _ E).
Qed.

Lemma sends_http_Error msg code : final_code code → sends code (http_Error msg code).
Proof. intros Hc. unfold http_Error. by apply sends_header, sends_header, sends_then_text, sends_status. Qed.

Lemma sends_respond resp : final_code (Status resp) → sends (Status resp) (respond time_text json_text resp).
Proof.
  intros Hst. unfold respond. destruct (Payload resp); [by apply sends_status|by apply sends_http_Error|by apply sends_json..].
Qed.

(** ** A request for an endpoint *)
Context (store_nil : bool) (other : target → list (string * string) → Incoming → M F unit).

Abbreviation the_mux := (mux now_at uuid_at map_order parse_time time_text json_text visit auth seed store_nil other).
Abbreviation the_handle := (handle now_at uuid_at map_order parse_time time_text visit auth).

Lemma table_final e st t : (st, t) ∈ answers_of e (failures e) → final_code st.
Proof.
  intros Hin. apply (list_elem_of_fmap_2 fst) in Hin. simpl in Hin.
  assert (Hall : Forall final_code (fst <$> answers_of e (failures e))).
  { destruct e; cbn; repeat constructor; done. }
  rewrite Forall_forall in Hall. by apply Hall.
Qed.

Lemma serve_final e r a resp a' :
  serve now_at uuid_at map_order parse_time time_text visit e r a = (Ok resp, a') → final_code (Status resp).
Proof.
  intros Hs. apply serve_answers in Hs. unfold in_table in Hs.
  destruct (Payload resp); try (by eapply table_final). destruct Hs as [_ ->]. done.
Qed.

(** The routes on the request of an endpoint, from a response that was not
    begun: the state of the handler, and its status on the wire. *)
Lemma mux_endpoint `{!ChiLaws} e id r f oh a' :
  id ≠ "" → has_byte "/" id = false → (Method (in_rq r), URL_Path (in_rq r)) = route e id →
  has_metrics (fr_metrics f) → unsent (fr_writer f) →
  the_handle e (mkHttpRequest (in_rq r) (if takes_param e then id else "") (in_body r)) (fr_state f) = (oh, a') →
  ∃ o f', the_mux r f = (o, f') ∧ fr_state f' = a' ∧ polite_run f f' ∧
    w_hijacked (wire (fr_writer f')) = false ∧
    match oh with
    | Ok resp => o = Ok tt ∧ wire_status (wire (fr_writer f')) = Some (Status resp)
    | Err err => o = Err err
    | Panic why => o = Panic why ∧ wire_status (wire (fr_writer f')) = None
    | NoFuel => o = NoFuel
    end.
Proof using plaws.
  intros Hne Hid Hr Hm Hf Hh. unfold mux. pose proof (find_endpoint e id Hne Hid) as Ef.
  rewrite <- Hr in Ef. cbn [fst snd] in Ef. rewrite Ef.
  destruct (endpoint_route_ok e id) as (_ & Ht & Hg & _). rewrite Hg, Ht.
  unfold guarded. unfold handle in Hh. cbn [rq URLParam rq_body] in Hh.
  destruct (protected auth Served (in_rq r)) as [msg st|q] eqn:Hp.
  - assert (Hst : final_code st) by (apply protected_refuses in Hp as [-> | ->]; done).
    injection Hh as <- <-. destruct (sends_http_Error msg st Hst f Hf) as (w & E & Hs & Hj & ops & Hops & Hw).
    exists (Ok tt), (set_writer w f). split_and!; try done. split; try done. by exists ops.
  - cbn [serve_target]. rewrite endpoint_URLParam. cbn [in_rq with_rq in_body].
    set (hr := mkHttpRequest q _ (in_body r)) in *.
    destruct (serve_counted now_at uuid_at map_order parse_time time_text visit e hr f) as [o1 f1] eqn:E1.
    destruct (fronts_metrics _ _ _ _ _ (serve_counted_fronts e hr) Hm E1) as (Es & Hq & Hm1).
    rewrite Es in Hh. injection Hh as <- <-. destruct Hq as [Ql Qw Qc Qr Qd].
    destruct o1 as [resp|err|why|].
    + rewrite (bind_ok _ _ _ _ _ E1). apply serve_final in Es. rewrite <- Qw in Hf.
      destruct (sends_respond resp Es f1 Hf) as (w & E & Hs & Hj & ops & Hops & Hw).
      exists (Ok tt), (set_writer w f1). split_and!; try done. split; try done. exists ops. by rewrite Hw, Qw.
    + rewrite (bind_err _ _ _ _ _ E1). exists (Err err), f1. rewrite Qw. split_and!; try done; [|apply Hf].
      split; try done. by exists [].
    + rewrite (bind_panic _ _ _ _ _ E1). exists (Panic why), f1. rewrite Qw. split_and!; try done; [|apply Hf..].
      split; try done. by exists [].
    + unfold mbind, M_bind. rewrite E1. exists NoFuel, f1. rewrite Qw. split_and!; try done; [|apply Hf].
      split; try done. by exists [].
Qed.

Context (clock : nat → Time) (new_id : nat → string) (level : Level).
Abbreviation the_front := (front clock new_id level the_mux).

Lemma entered_unsent r (f : F) hj fl :
  fr_writer f = Conn (fresh_response hj fl) → unsent (fr_writer (entered new_id r f)).
Proof. intros Hw. unfold entered, unsent. cbn. rewrite Hw. cbn. by split_and!. Qed.

(** C12: A request for an endpoint, from the first middleware to the response:
    the server does to its state what [handle] does for the request with its
    id in the context; the status of the handler's answer is the one that
    goes out, that is logged and that is counted, once, under the class of
    the status. If the handler panics, the client gets a 500 unless it asked
    for an upgrade, the request is not counted and not logged, and the server
    goes on. *)
Theorem request_served `{!ChiLaws, rec : Recovering, !RecoveringLaws} e id r f hj fl :
  id ≠ "" → has_byte "/" id = false → (Method (in_rq r), URL_Path (in_rq r)) = route e id →
  has_metrics (fr_metrics f) → fr_writer f = Conn (fresh_response hj fl) →
  let hr := mkHttpRequest (in_rq (routed new_id r f)) (if takes_param e then id else "") (in_body r) in
  let '(oh, a') := the_handle e hr (fr_state f) in
  let '(o, f') := the_front r f in
  let m := Method (in_rq r) in let path := URL_Path (in_rq r) in
  fr_state f' = a' ∧ has_metrics (fr_metrics f') ∧
  match oh with
  | Ok resp =>
      o = Ok tt ∧ wire_status (wire (fr_writer f')) = Some (Status resp) ∧
      (∃ d, fr_log f' = fr_log f ++ kept level (mkLogRecord (request_id new_id r f) m path (Status resp) d)) ∧
      counted (fr_metrics f) (fr_metrics f') m path (httpStatusLabel (Status resp)) 1
  | Panic _ =>
      o = Ok tt ∧ fr_log f' = fr_log f ∧ counted (fr_metrics f) (fr_metrics f') m path "" 0 ∧
      (in_header r "Connection" ≠ "Upgrade" → wire_status (wire (fr_writer f')) = Some 500%Z)
  | Err err => o = Err err
  | NoFuel => o = NoFuel
  end.
Proof using plaws.
  intros Hne Hid Hr Hm Hw hr. destruct (the_handle e hr (fr_state f)) as [oh a'] eqn:Eh.
  destruct (mux_endpoint e id (routed new_id r f) (entered new_id r f) oh a' Hne Hid Hr Hm
    (entered_unsent r f hj fl Hw) Eh) as (o1 & f2 & E & Hs & Hpol & Hj & Ho).
  pose proof (request_run clock new_id level the_mux r f hj fl) as Hrun.
  rewrite E in Hrun. specialize (Hrun ltac:(by intros ? ? [= <- <-]) Hm Hw).
  destruct (the_front r f) as [o f']. destruct Hrun as (_ & _ & Hs' & Hm' & Hrun).
  cbv zeta. split; [by rewrite Hs'|]. split; [done|].
  destruct oh as [resp|err|why|].
  - destruct Ho as [-> Hst]. destruct Hrun as (-> & Hwire & st1 & st2 & d & H1 & Hl & Hc).
    rewrite Hwire in H1. destruct (H1 Hj) as [-> ->]. rewrite Hwire, Hst in *. simpl in *.
    split_and!; [done|done|by exists d|done].
  - subst o1. apply Hrun.
  - destruct Ho as [-> Hst]. destruct Hrun as (-> & Hl & Hc & Hup). split_and!; [done..|].
    intros Hno. by rewrite (Hup Hno Hj), Hst.
  - subst o1. apply Hrun.
Qed.

(** Computations that leave the state alone. *)
Definition keeps {B} (m : M F B) : Prop := ∀ f, fr_state (m f).2 = fr_state f.

Lemma keeps_on_writer {B} (m : Writer → outcome B * Writer) : keeps (on_writer m).
Proof. intros f. unfold on_writer. by destruct (m (fr_writer f)). Qed.

Lemma keeps_bind {B C} (m : M F B) (k : B → M F C) : keeps m → (∀ b, keeps (k b)) → keeps (m ≫= k).
Proof.
  intros Hm Hk f. specialize (Hm f). unfold mbind, M_bind. destruct (m f) as [[b|e|w|] f1]; simpl in *; try done.
  by rewrite Hk.
Qed.

Lemma keeps_mtry {B} (m : M F B) : keeps m → keeps (mtry m).
Proof. intros Hm f. specialize (Hm f). unfold mtry. by destruct (m f) as [[] ?]. Qed.

Lemma http_Error_state msg code : keeps (http_Error msg code).
Proof.
  unfold http_Error, set_header.
  repeat (apply keeps_bind; [solve [apply keeps_on_writer|apply keeps_mtry, keeps_on_writer]|intros _]).
  by intros f.
Qed.

(** C11: Outside of the five public routes nothing is done without
    authorization: if the routes change the state of the server for a request
    that is not for a public route, then the request carries a bearer token
    that verifies, for a tenant, and the role in the token is allowed the
    method and the path. A path that is not in the table changes nothing. *)
Theorem effects_authorized `{!ChiLaws} r f :
  let '(o, f') := the_mux r f in
  fr_state f' ≠ fr_state f →
  (Method (in_rq r), URL_Path (in_rq r)) ∈ public_routes ∨
  ∃ rt ps c, find_route routes (Method (in_rq r)) (URL_Path (in_rq r)) = Some (rt, ps) ∧ rt_guarded rt = true ∧
    Verify auth (bearerToken (in_rq r)) = Ok c ∧ Claims_TenantID c ≠ "" ∧
    Allowed (Method (in_rq r)) (URL_Path (in_rq r)) (Claims_Role c) = true.
Proof.
  destruct (the_mux r f) as [o f'] eqn:E. intros Hch. unfold mux in E.
  destruct (find_route routes _ _) as [[rt ps]|] eqn:Ef; [|by injection E as <- <-].
  pose proof (find_route_sound _ _ _ _ _ Ef) as (Hin & Hmeth & Hmatch).
  destruct (rt_guarded rt) eqn:Hg.
  - right. unfold guarded in E. pose proof (guarded_requires_auth _ _ _ Hin Hg Hmatch) as Hreq.
    destruct (protected auth Served (in_rq r)) as [msg st|q] eqn:Hp.
    + destruct Hch. by rewrite <- (http_Error_state msg st f), E.
    + apply protected_Served in Hp as (_ & c & Hv & Ha & _); [|done].
      destruct (Verify_Ok auth _ _ Hv) as (Ht & _). exists rt, ps, c. by split_and!.
  - left. rewrite <- Hmeth. by eapply unguarded_public.
Qed.
End Server.

(** ** A sample server *)
Definition sample_recovering : Recovering := {|
  recovered := λ r, if bool_decide (in_header r "Connection" = "Upgrade") then [] else [OpWriteHeader 500]
|}.

#[export] Instance sample_recovering_laws : @RecoveringLaws sample_recovering.
Proof. split; intros r Hr; simpl; by case_bool_decide. Qed.

Definition sample_registry : Registry := (metrics_New (P := Registry)).2.

Lemma sample_registry_ok : has_metrics sample_registry.
Proof. split; by vm_compute. Qed.

Definition sample_front : Front (Api Memory MockClient MemorySideEffectStore) Registry :=
  mkFront sample_api sample_registry [] 0 0 (Conn (fresh_response true true)).

Definition sample_incoming (method path : string) : Incoming :=
  mkIncoming (sample_request method path) (λ _, "") (λ _, "") RawEmpty.

(** The handlers that are parameters do nothing here. *)
Definition sample_other : target → list (string * string) → Incoming →
    M (Front (Api Memory MockClient MemorySideEffectStore) Registry) unit := λ _ _ _, mret tt.

Abbreviation sample_mux := (mux (jwt := sample_jwt RoleViewer) (bcrypt := sample_bcrypt) (nils := sample_nils)
  (chi := sample_chi) Z.of_nat sample_uuid sorted_order sample_parse_time sample_time_text (λ _, "doc")
  sample_visit (NewManager "k" 1%Z) sample_seed false sample_other).

Lemma request_served_witness :
  ∃ f', front (rec := sample_recovering) Z.of_nat sample_uuid LevelInfo sample_mux
          (sample_incoming "GET" "/api/v1/agents/a9") sample_front = (Ok tt, f') ∧
    wire_status (wire (fr_writer f')) = Some 404%Z ∧ length (fr_log f') = 1 ∧
    counted sample_registry (fr_metrics f') "GET" "/api/v1/agents/a9" "4xx" 1.
Proof.
  pose proof (request_served (jwt := sample_jwt RoleViewer) (bcrypt := sample_bcrypt) (nils := sample_nils)
    (chi := sample_chi) Z.of_nat sample_uuid sorted_order sample_parse_time sample_time_text (λ _, "doc")
    sample_visit (NewManager "k" 1%Z) sample_seed false sample_other Z.of_nat sample_uuid LevelInfo
    (rec := sample_recovering) EpGetAgent "a9" (sample_incoming "GET" "/api/v1/agents/a9") sample_front true true
    ltac:(done) eq_refl eq_refl sample_registry_ok eq_refl) as H.
  cbv zeta in H. destruct (handle _ _ _ _ _ _ _ _ _ _) as [oh a'] eqn:Eh.
  assert (Eo : oh = Ok (writeError StatusNotFound "not found")).
  { transitivity (fst (oh, a')); [done|]. rewrite <- Eh. vm_compute. reflexivity. }
  destruct (front _ _ _ _ _ _) as [o f'] eqn:Ef. subst oh.
  destruct H as (_ & _ & -> & Hst & [d Hl] & Hc). exists f'.
  split; [done|]. split; [exact Hst|]. split; [by rewrite Hl|exact Hc].
Defined.

(** Routes that answer 204 to everything. *)
Definition quiet_mux : HandlerFunc (S := Api Memory MockClient MemorySideEffectStore) (P := Registry) := λ _, on_writer (WriteHeader 204).
Definition quiet_front (p : Registry) : Front (Api Memory MockClient MemorySideEffectStore) Registry :=
  mkFront sample_api p [] 0 0 (Conn (fresh_response true true)).

Lemma quiet_polite p o1 f2 :
  let r := sample_incoming "GET" "/x" in
  quiet_mux (routed sample_uuid r (quiet_front p)) (entered sample_uuid r (quiet_front p)) = (o1, f2) →
  o1 = Ok tt ∧ polite_run (entered sample_uuid r (quiet_front p)) f2 ∧
  wire_status (wire (fr_writer f2)) = Some 204%Z ∧ w_hijacked (wire (fr_writer f2)) = false.
Proof.
  cbv zeta. unfold quiet_mux, on_writer.
  assert (Hk : unsent (fr_writer (entered sample_uuid (sample_incoming "GET" "/x") (quiet_front p)))).
  { apply (entered_unsent sample_uuid _ _ true true). reflexivity. }
  destruct (sends_status 204 ltac:(done) (entered sample_uuid (sample_incoming "GET" "/x") (quiet_front p)) Hk)
    as (w & E & Hs & Hj & Hops).
  unfold on_writer in E. rewrite E. intros [= <- <-]. by split_and!.
Qed.

Lemma request_observed_witness :
  ∃ f', front (rec := sample_recovering) Z.of_nat sample_uuid LevelInfo quiet_mux
          (sample_incoming "GET" "/x") (quiet_front sample_registry) = (Ok tt, f') ∧
    counted sample_registry (fr_metrics f') "GET" "/x" "2xx" 1.
Proof.
  pose proof (request_observed Z.of_nat sample_uuid LevelInfo (rec := sample_recovering)
    quiet_mux (sample_incoming "GET" "/x") (quiet_front sample_registry) true true) as H.
  destruct (quiet_mux _ _) as [o1 f2] eqn:E1. apply quiet_polite in E1 as (-> & Hp & Hs & Hj).
  specialize (H ltac:(by intros ? ? [= <- <-]) sample_registry_ok eq_refl).
  destruct (front _ _ _ _ _ _) as [o f'] eqn:Ef. cbv zeta in H.
  destruct H as (_ & _ & _ & _ & -> & Hw & st1 & st2 & d & Hst & _ & Hc).
  exists f'. split; [done|]. rewrite Hw in Hst. destruct (Hst Hj) as [-> ->].
  rewrite Hs in Hc. exact Hc.
Defined.

(** An owner creates an agent. *)
Definition create_incoming : Incoming :=
  mkIncoming (sample_request "POST" "/api/v1/agents") (λ _, "") (λ _, "") (RawDoc (JObj [("name", JStr "ada")])).

Lemma effects_authorized_witness :
  let '(o, f') := mux (jwt := sample_jwt RoleOwner) (bcrypt := sample_bcrypt) (nils := sample_nils)
    (chi := sample_chi) Z.of_nat sample_uuid sorted_order sample_parse_time sample_time_text (λ _, "doc")
    sample_visit (NewManager "k" 1%Z) sample_seed false sample_other create_incoming sample_front in
  api_uuids (fr_state f') = 1 ∧
  ∃ c, Verify (H := sample_jwt RoleOwner) (NewManager "k" 1%Z) "token-k" = Ok c ∧
       Allowed "POST" "/api/v1/agents" (Claims_Role c) = true.
Proof.
  pose proof (effects_authorized (jwt := sample_jwt RoleOwner) (bcrypt := sample_bcrypt) (nils := sample_nils)
    (chi := sample_chi) Z.of_nat sample_uuid sorted_order sample_parse_time sample_time_text (λ _, "doc")
    sample_visit (NewManager "k" 1%Z) sample_seed false sample_other create_incoming sample_front) as H.
  destruct (mux _ _ _ _ _ _ _ _ _ _ _ _ _) as [o f'] eqn:E.
  assert (E1 : api_uuids (fr_state f') = 1).
  { change f' with (snd (o, f')). rewrite <- E. vm_compute. reflexivity. }
  split; [exact E1|]. destruct H as [Hp|(rt & ps & c & _ & _ & Hv & _ & Ha)].
  - intros Ef. rewrite Ef in E1. discriminate E1.
  - exfalso. revert Hp. apply (bool_decide_eq_false_1 _). vm_compute. reflexivity.
  - exists c. split; [exact Hv|exact Ha].
Defined.
