(* ===== verification/Main.v ===== *)
(** * The program (cmd/hub/main.go)

    [main] as an interleaving: the main goroutine, from the configuration to
    the exit; the goroutine that serves HTTP; the sampler of the dashboard,
    whose steps are those of Sampler; and the signals.  The store is built
    over pgxpool (Migrations); what net/http's server does is the steps of
    its goroutine and the outcome of Shutdown. *)
From S2P Require Import Prelude GoStr GoValue History Auth Config Traces Migrations Sampler.
From stdpp Require Import pretty.

Inductive signal := SIGINT | SIGTERM.

(** What main logs, and the line on stderr. *)
Inductive log_line :=
  | ConfigError (e : error)
  | StoreFailed (e : error)
  | HubListening (addr : string)
  | SignalReceived (sig : signal)
  | ServerError (e : error)
  | ShutdownFailed (e : error)
  | ShutdownComplete
  | Panicked (why : string). (** what the runtime prints of a panic *)

(** The settings of the HTTP server; durations in nanoseconds. *)
Record HttpServer := mkHttpServer {
  Addr : string;
  ReadHeaderTimeout : Z;
  ReadTimeout : Z;
  WriteTimeout : Z;
  IdleTimeout : Z
}.

Definition httpServer (cfg : Config) : HttpServer := {|
  Addr := Host cfg +:+ ":" +:+ pretty (Port cfg);
  ReadHeaderTimeout := 10 * Second;
  ReadTimeout := 30 * Second;
  WriteTimeout := 60 * Second;
  IdleTimeout := 120 * Second
|}.

(** Where main is. *)
Inductive program_pc :=
  | AtConfig          (** before [Validate] *)
  | AtStore           (** before [buildStore] *)
  | AtServer          (** before [api.NewServer] *)
  | AtHistory         (** in [srv.History.Start()] *)
  | AtSpawn           (** before the go statement *)
  | AtNotify          (** before [signal.Notify] *)
  | AtSelect          (** in the select *)
  | AtShutdown        (** before [httpServer.Shutdown] *)
  | AwaitShutdown     (** in it *)
  | AtStop            (** returning: before the deferred [History.Stop] *)
  | AwaitStop (i : nat) (** in it, the call number [i] *)
  | AtClose           (** before the deferred [st.Close] *)
  | Exited_with (code : Z)
  | Killed.           (** by a signal before [signal.Notify] *)

(** Where the goroutine of [ListenAndServe] is. *)
Inductive server_pc :=
  | SrvNotSpawned
  | SrvStarting      (** before the line that says it listens *)
  | SrvListening
  | SrvServing
  | SrvSending (e : error) (** before [errCh <- err] *)
  | SrvDone.

Section Main.
Context {N : Type} {pp : PgxPool N} {fs : MigrationFS}.
Context (cfg : Config).
Abbreviation W := (N * Loaded)%type.

Inductive Storage := StMemory | StPG (pg : PG N).

Definition buildStore : M W Storage :=
  if UseMemoryStore cfg then mret StMemory
  else pg ← NewPGWithMigrations (DatabaseURL cfg); mret (StPG pg).

(** [Close] of either store; the one in memory has nothing to close. *)
Definition Storage_Close (st : Storage) : M W unit :=
  match st with StMemory => mret tt | StPG pg => Migrations.Close pg end.

Record Proc := mkProc {
  p_pc : program_pc;
  p_world : W;
  p_store : option Storage;
  p_sampler : Sampler;
  p_server : server_pc;
  p_shutdown : bool;
  p_err : list error;
  p_sig : list signal;
  p_said : list log_line
}.

Definition init (w : W) : Proc :=
  mkProc AtConfig w None
    (NewSampler (DashboardHistoryCapacity cfg) (DashboardHistoryInterval cfg))
    SrvNotSpawned false [] [] [].

Definition go_to (p : program_pc) (s : Proc) : Proc :=
  mkProc p (p_world s) (p_store s) (p_sampler s) (p_server s) (p_shutdown s) (p_err s) (p_sig s) (p_said s).
Definition say (l : log_line) (s : Proc) : Proc :=
  mkProc (p_pc s) (p_world s) (p_store s) (p_sampler s) (p_server s) (p_shutdown s) (p_err s) (p_sig s)
    (p_said s ++ [l]).
Definition set_world (w : W) (st : option Storage) (s : Proc) : Proc :=
  mkProc (p_pc s) w st (p_sampler s) (p_server s) (p_shutdown s) (p_err s) (p_sig s) (p_said s).
Definition set_sampler (x : Sampler) (s : Proc) : Proc :=
  mkProc (p_pc s) (p_world s) (p_store s) x (p_server s) (p_shutdown s) (p_err s) (p_sig s) (p_said s).
Definition set_server (v : server_pc) (s : Proc) : Proc :=
  mkProc (p_pc s) (p_world s) (p_store s) (p_sampler s) v (p_shutdown s) (p_err s) (p_sig s) (p_said s).
Definition set_channels (errs : list error) (sigs : list signal) (s : Proc) : Proc :=
  mkProc (p_pc s) (p_world s) (p_store s) (p_sampler s) (p_server s) (p_shutdown s) errs sigs (p_said s).
Definition begin_shutdown (s : Proc) : Proc :=
  mkProc (p_pc s) (p_world s) (p_store s) (p_sampler s) (p_server s) true (p_err s) (p_sig s) (p_said s).

(** The main goroutine. [os.Exit] runs no deferred call; a panic of NewServer
    runs the deferred [st.Close] and ends the process with 2. *)
Inductive main_goroutine : Proc → Proc → Prop :=
  | main_invalid e s :
      p_pc s = AtConfig → Config_Validate cfg = Some e →
      main_goroutine s (go_to (Exited_with 1) (say (ConfigError e) s))
  | main_valid s :
      p_pc s = AtConfig → Config_Validate cfg = None → main_goroutine s (go_to AtStore s)
  | main_no_store e w s :
      p_pc s = AtStore → buildStore (p_world s) = (Err e, w) →
      main_goroutine s (go_to (Exited_with 1) (say (StoreFailed e) (set_world w None s)))
  | main_store st w s :
      p_pc s = AtStore → buildStore (p_world s) = (Ok st, w) →
      main_goroutine s (go_to AtServer (set_world w (Some st) s))
  | main_server sv s :
      p_pc s = AtServer → NewServer cfg = Ok sv → main_goroutine s (go_to AtHistory s)
  | main_server_panics why st s :
      p_pc s = AtServer → NewServer cfg = Panic why → p_store s = Some st →
      main_goroutine s (go_to (Exited_with 2)
                     (say (Panicked why) (set_world (Storage_Close st (p_world s)).2 (Some st) s)))
  | main_start x s :
      p_pc s = AtHistory → start_step (p_sampler s) x → main_goroutine s (set_sampler x s)
  | main_started s :
      p_pc s = AtHistory → starter (p_sampler s) = StartDone → main_goroutine s (go_to AtSpawn s)
  | main_spawn s :
      p_pc s = AtSpawn → main_goroutine s (go_to AtNotify (set_server SrvStarting s))
  | main_notify s :
      p_pc s = AtNotify → main_goroutine s (go_to AtSelect s)
  | main_signal sig sigs s :
      p_pc s = AtSelect → p_sig s = sig :: sigs →
      main_goroutine s (go_to AtShutdown (say (SignalReceived sig) (set_channels (p_err s) sigs s)))
  | main_server_error e errs s :
      p_pc s = AtSelect → p_err s = e :: errs →
      main_goroutine s (go_to AtShutdown (say (ServerError e) (set_channels errs (p_sig s) s)))
  | main_shutdown s :
      p_pc s = AtShutdown → main_goroutine s (go_to AwaitShutdown (begin_shutdown s))
  | main_shutdown_failed e s :
      p_pc s = AwaitShutdown → main_goroutine s (go_to (Exited_with 1) (say (ShutdownFailed e) s))
  | main_shutdown_done s :
      p_pc s = AwaitShutdown → main_goroutine s (go_to AtStop (say ShutdownComplete s))
  | main_stop s :
      p_pc s = AtStop →
      main_goroutine s (go_to (AwaitStop (length (stoppers (p_sampler s))))
                     (set_sampler (set_stoppers (stoppers (p_sampler s) ++ [Stopping]) (p_sampler s)) s))
  | main_stopped i w s :
      p_pc s = AwaitStop i → stoppers (p_sampler s) !! i = Some (Returned w) → main_goroutine s (go_to AtClose s)
  | main_close st s :
      p_pc s = AtClose → p_store s = Some st →
      main_goroutine s (go_to (Exited_with 0) (set_world (Storage_Close st (p_world s)).2 (Some st) s)).

Definition ends (p : program_pc) : bool :=
  match p with Exited_with _ | Killed => true | _ => false end.

(** The goroutine that serves: an error that is not ErrServerClosed is sent
    on the channel, which holds one. *)
Inductive server_step : Proc → Proc → Prop :=
  | srv_starts s :
      p_server s = SrvStarting →
      server_step s (set_server SrvListening (say (HubListening (Addr (httpServer cfg))) s))
  | srv_listens s :
      p_server s = SrvListening → p_shutdown s = false → server_step s (set_server SrvServing s)
  | srv_fails e s :
      p_server s = SrvListening ∨ p_server s = SrvServing → p_shutdown s = false →
      server_step s (set_server (SrvSending e) s)
  | srv_closed s :
      p_server s = SrvListening ∨ p_server s = SrvServing → p_shutdown s = true →
      server_step s (set_server SrvDone s)
  | srv_send e s :
      p_server s = SrvSending e → length (p_err s) < 1 →
      server_step s (set_server SrvDone (set_channels (p_err s ++ [e]) (p_sig s) s)).

(** The sampler below: its goroutine, the call of Stop, and the captures of
    the dashboard. *)
Inductive below_step : Proc → Proc → Prop :=
  | below_run x s : run_step (p_sampler s) x → below_step s (set_sampler x s)
  | below_stop i x s : stop_step i (p_sampler s) x → below_step s (set_sampler x s)
  | below_capture reading s :
      p_server s ≠ SrvNotSpawned → below_step s (set_sampler (capture reading (p_sampler s)) s).

(** Signals: kept in a channel of one after [signal.Notify], dropped when it
    is full; before it they end the process. *)
Inductive signal_step : Proc → Proc → Prop :=
  | sig_kept sig s :
      p_server s ≠ SrvNotSpawned → p_pc s ≠ AtNotify →
      signal_step s (if length (p_sig s) <? 1 then set_channels (p_err s) (p_sig s ++ [sig]) s else s)
  | sig_kills s :
      p_server s = SrvNotSpawned ∨ p_pc s = AtNotify → signal_step s (go_to Killed s).

(** A step of the program, and one of the whole; nothing moves after the end. *)
Inductive prog_step : Proc → Proc → Prop :=
  | prog_main s s' : main_goroutine s s' → prog_step s s'
  | prog_server s s' : ends (p_pc s) = false → server_step s s' → prog_step s s'
  | prog_below s s' : ends (p_pc s) = false → below_step s s' → prog_step s s'.

Inductive proc_step : Proc → Proc → Prop :=
  | proc_prog s s' : prog_step s s' → proc_step s s'
  | proc_signal s s' : ends (p_pc s) = false → signal_step s s' → proc_step s s'.
End Main.

(** ** The invariant *)
Section Invariant.
Context {N : Type} {pp : PgxPool N} {answers : PoolAnswers N} {fs : MigrationFS}.
Context (cfg : Config) (n0 : N) (ld0 : Loaded).
Abbreviation TN := (N * list (pool_event (@pool N pp)))%type.
Abbreviation PTN := (Proc (N := TN)).
Abbreviation start := (init (N := TN) cfg ((n0, []), ld0)).

Definition trace_of (s : PTN) : list (pool_event pool) := (p_world s).1.2.

(** What building the store leaves in the trace of the pools. *)
Definition built (o : outcome (Storage (N := TN))) (tr : list (pool_event pool)) : Prop :=
  match o with
  | Ok StMemory => UseMemoryStore cfg = true ∧ tr = []
  | Ok (StPG pg) => startup_ok ld0 (Ok pg) tr
  | Err e => startup_ok ld0 (Err e) tr
  | _ => False
  end.

Lemma buildStore_built o w :
  buildStore (N := TN) cfg ((n0, []), ld0) = (o, w) → built o w.1.2.
Proof using answers.
  unfold buildStore. destruct (UseMemoryStore cfg) eqn:Hm; [by intros [= <- <-]|].
  unfold mbind, M_bind. destruct (NewPGWithMigrations (N := TN) (DatabaseURL cfg) ((n0, []), ld0)) as [o1 [[n1 tr1] ld1]] eqn:E.
  pose proof (startup_trace (DatabaseURL cfg) n0 ld0 _ _ _ _ E) as Hs.
  destruct o1 as [pg|e|w'|]; try done; intros [= <- <-]; exact Hs.
Qed.

(** The store that is open, by the trace. *)
Definition opened (s : PTN) : Prop := ∃ st, p_store s = Some st ∧ built (Ok st) (trace_of s).

(** It was opened and is closed. *)
Definition closed (s : PTN) : Prop := ∃ st, p_store s = Some st ∧
  match st with
  | StMemory => built (Ok st) (trace_of s)
  | StPG pg => ∃ tr, built (Ok st) tr ∧ trace_of s = tr ++ [EvClose (pg_pool pg)]
  end.

(** A signal or an error of the server was received: what main waits for. *)
Definition asked (s : PTN) : Prop :=
  (∃ sig, SignalReceived sig ∈ p_said s) ∨ (∃ e, ServerError e ∈ p_said s).

(** It was, and the shutdown that follows has been called. *)
Definition shutting_down (s : PTN) : Prop := asked s ∧ p_shutdown s = true.

(** The shutdown came back without an error. *)
Definition shut_down (s : PTN) : Prop := shutting_down s ∧ ShutdownComplete ∈ p_said s.

(** What an exit code means: 0 after a shutdown that was asked for and came
    back, with the sampler over and the store closed; 1 for a configuration
    that is not valid, with nothing opened, for a store that could not be
    built, or for a shutdown that failed, which leaves the store open; 2 for
    a panic of NewServer, with the store closed and nothing started. *)
Definition exit_ok (code : Z) (s : PTN) : Prop :=
  (code = 0%Z ∧ shut_down s ∧ closed s ∧ loop (p_sampler s) = Exited) ∨
  (code = 1%Z ∧
   ((∃ e, Config_Validate cfg = Some e ∧ p_said s = [ConfigError e] ∧ trace_of s = []) ∨
    (∃ e, p_said s = [StoreFailed e] ∧ built (Err e) (trace_of s)) ∨
    (∃ e, last (p_said s) = Some (ShutdownFailed e) ∧ shutting_down s ∧ opened s))) ∨
  (code = 2%Z ∧ closed s ∧ p_server s = SrvNotSpawned ∧ starter (p_sampler s) = NotStarted ∧
   ∃ why, NewServer cfg = Panic why ∧ p_said s = [Panicked why]).

Definition not_begun (s : PTN) : Prop :=
  p_server s = SrvNotSpawned ∧ p_said s = [] ∧ starter (p_sampler s) = NotStarted.

(** The goroutines run. *)
Definition running (s : PTN) : Prop :=
  opened s ∧ p_server s ≠ SrvNotSpawned ∧ starter (p_sampler s) = StartDone.

(** What holds at each place of the main goroutine. *)
Definition at_pc (s : PTN) : Prop :=
  match p_pc s with
  | AtConfig => not_begun s ∧ p_world s = ((n0, []), ld0)
  | AtStore => not_begun s ∧ p_world s = ((n0, []), ld0) ∧ Config_Validate cfg = None
  | AtServer => not_begun s ∧ opened s
  | AtHistory => opened s ∧ p_server s = SrvNotSpawned
  | AtSpawn => opened s ∧ p_server s = SrvNotSpawned ∧ starter (p_sampler s) = StartDone
  | AtNotify | AtSelect => running s
  | AtShutdown => running s ∧ asked s
  | AwaitShutdown => running s ∧ shutting_down s
  | AtStop => running s ∧ shut_down s
  | AwaitStop i => running s ∧ shut_down s ∧ ∃ p, stoppers (p_sampler s) !! i = Some p ∧ p ≠ Returned false
  | AtClose => opened s ∧ shut_down s ∧ loop (p_sampler s) = Exited
  | Exited_with code => exit_ok code s
  | Killed => True
  end.

Record main_ok (s : PTN) : Prop := {
  mo_sampler : sampler_ok (p_sampler s);
  mo_errs : p_server s ≠ SrvDone → p_err s = [];
  mo_pc : at_pc s
}.

Lemma init_ok : main_ok start.
Proof using Type. constructor; [apply NewSampler_ok|done|done]. Qed.

(** What the steps below main leave of the sampler. *)
Definition goes_on (x y : Sampler) : Prop :=
  sampler_ok y ∧ starter y = starter x ∧ (loop x = Exited → loop y = Exited) ∧
  (stoppers x = [] → stoppers y = []) ∧
  ∀ i p, starter x = StartDone → stoppers x !! i = Some p → p ≠ Returned false →
    ∃ q, stoppers y !! i = Some q ∧ q ≠ Returned false.

Lemma goes_on_refl x : sampler_ok x → goes_on x x.
Proof using Type. intros H. split_and!; eauto. Qed.

Lemma run_goes_on x y : sampler_ok x → run_step x y → goes_on x y.
Proof using Type.
  intros Hx Hs. pose proof (run_step_ok _ _ Hs Hx) as Hy.
  destruct Hs as [r s E|s E|s E ?|s E]; (split_and!; [done|..]); simpl; try done; try congruence; eauto.
  all: destruct (capture_eq r s Hx) as (c & _ & Ec); rewrite Ec; simpl; try done; eauto.
Qed.

Lemma capture_goes_on r x : sampler_ok x → goes_on x (capture r x).
Proof using Type.
  intros Hx. pose proof (capture_ok r _ Hx) as Hy. destruct (capture_eq r x Hx) as (c & _ & Ec).
  rewrite Ec in *. split_and!; simpl; eauto.
Qed.

Lemma stop_goes_on i x y : sampler_ok x → stop_step i x y → goes_on x y.
Proof using Type.
  intros Hx Hs. pose proof (stop_step_ok _ _ _ Hs Hx) as Hy.
  assert (Hl : ∃ q, stoppers y = <[i := q]> (stoppers x) ∧ (q = Returned false → started x = false) ∧
    starter y = starter x ∧ loop y = loop x).
  { destruct Hs; eexists; (split_and!; [reflexivity|..]); done. }
  destruct Hl as (q & El & Hq & Est & Elo). split_and!; [done|done|congruence| |].
  - rewrite El. intros ->. done.
  - intros j p Hst Hj Hp. rewrite El. destruct (decide (i = j)) as [<-|Hij].
    + exists q. split; [apply list_lookup_insert_eq; by eapply lookup_lt_Some|]. intros Hf%Hq.
      assert (started x = true) by (apply (so_started _ Hx); auto). congruence.
    + exists p. by rewrite list_lookup_insert_ne.
Qed.

(** What is logged stays logged. *)
Definition said_on (s s' : PTN) : Prop := ∀ l, l ∈ p_said s → l ∈ p_said s'.

Lemma shutting_down_on (s s' : PTN) :
  said_on s s' → p_shutdown s' = p_shutdown s →
  (asked s → asked s') ∧ (shutting_down s → shutting_down s') ∧ (shut_down s → shut_down s').
Proof using Type.
  intros Hl Hs. unfold shut_down, shutting_down, asked, said_on in *. rewrite Hs. naive_solver.
Qed.

Lemma said_on_say l (s : PTN) : said_on s (say l s).
Proof using Type. intros x Hx. simpl. apply elem_of_app. by left. Qed.

(** What does not touch main's own part keeps what holds at its place. *)
Lemma at_pc_frame (s s' : PTN) :
  ends (p_pc s) = false → p_pc s' = p_pc s → p_world s' = p_world s → p_store s' = p_store s →
  (p_server s = SrvNotSpawned ↔ p_server s' = SrvNotSpawned) →
  (p_server s = SrvNotSpawned → p_said s' = p_said s) → said_on s s' → p_shutdown s' = p_shutdown s →
  goes_on (p_sampler s) (p_sampler s') →
  at_pc s → at_pc s'.
Proof using Type.
  intros Hends Hpc Hw Hst Hsrv Hsaid Hon Hsh (_ & Estart & Hloop & Hnil & Hstop).
  destruct (shutting_down_on _ _ Hon Hsh) as (Ha & Hd & Hdn).
  assert (Ho : opened s → opened s') by (unfold opened, trace_of; by rewrite Hw, Hst).
  assert (Hr : running s → running s').
  { intros (? & ? & ?). split_and!; [auto|by rewrite <- Hsrv|congruence]. }
  assert (Hn : not_begun s → not_begun s').
  { intros (? & ? & ?). split_and!; [by apply Hsrv|rewrite Hsaid by done; done|congruence]. }
  unfold at_pc. rewrite Hpc. destruct (p_pc s); try done; try (by auto).
  - intros [? ?]. split; [auto|congruence].
  - intros (? & ? & ?). split_and!; [auto|congruence|done].
  - intros [? ?]. auto.
  - intros [? ?]. split; [auto|by apply Hsrv].
  - intros (? & ? & ?). split_and!; [auto|by apply Hsrv|congruence].
  - intros [? ?]. auto.
  - intros [? ?]. auto.
  - intros [? ?]. auto.
  - intros (Hrun & Hsd & p & Hi & Hp). split_and!; [auto..|]. destruct Hrun as (? & ? & ?). eauto.
  - intros (? & ? & ?). auto.
Qed.

Lemma server_step_ok (s s' : PTN) :
  ends (p_pc s) = false → server_step cfg s s' → main_ok s → main_ok s'.
Proof using Type.
  intros Hends Hs [Hx He Hp]. constructor.
  - by destruct Hs.
  - destruct Hs as [s E|s E ?|e s E ?|s E ?|e s E ?]; simpl; try done; intros _; apply He;
      try (destruct E as [E|E]); congruence.
  - revert Hp. assert (Hw : p_server s ≠ SrvNotSpawned ∧ p_server s' ≠ SrvNotSpawned).
    { destruct Hs as [s E|s E ?|e s E ?|s E ?|e s E ?]; simpl; try destruct E as [E|E]; by rewrite E. }
    destruct Hw as [Hw Hw']. apply at_pc_frame; try done; try (by destruct Hs).
    + destruct Hs; try (by intros ?). by apply (said_on_say (HubListening (Addr (httpServer cfg)))).
    + destruct Hs; by apply goes_on_refl.
Qed.

Lemma below_step_ok (s s' : PTN) :
  ends (p_pc s) = false → below_step s s' → main_ok s → main_ok s'.
Proof using Type.
  intros Hends Hs [Hx He Hp].
  assert (Hg : goes_on (p_sampler s) (p_sampler s')).
  { destruct Hs; simpl; [by apply run_goes_on|by eapply stop_goes_on|by apply capture_goes_on]. }
  constructor; [apply Hg|by destruct Hs|]. revert Hp.
  apply at_pc_frame; destruct Hs; first [done|by intros ?].
Qed.

Lemma signal_step_ok (s s' : PTN) :
  ends (p_pc s) = false → signal_step s s' → main_ok s → main_ok s'.
Proof using Type.
  intros Hends Hs [Hx He Hp].
  destruct Hs as [sig s _ _|s _]; [|by split].
  destruct (length (p_sig s) <? 1); [|by split].
  split; [done|done|]. revert Hp. apply at_pc_frame; try done; [by intros ?|by apply goes_on_refl].
Qed.

Lemma start_step_frame (x y : Sampler) : start_step x y → starter x ≠ StartDone.
Proof using Type. intros [? E|? E|? E]; congruence. Qed.

(** Closing the store leaves its pool closed. *)
Lemma close_closed (s : PTN) st :
  p_store s = Some st → built (Ok st) (trace_of s) →
  closed (set_world (Storage_Close st (p_world s)).2 (Some st) s).
Proof using Type.
  intros Est Hb. exists st. split; [done|]. unfold trace_of in *. simpl.
  destruct st as [|pg]; simpl; [done|]. exists (p_world s).1.2. split; [done|].
  by destruct (p_world s) as [[n tr] ld].
Qed.

(** The steps of main up to its select. *)
Lemma main_begins_ok (s s' : PTN) :
  p_pc s = AtConfig ∨ p_pc s = AtStore ∨ p_pc s = AtServer ∨ p_pc s = AtHistory → main_goroutine cfg s s' → main_ok s → main_ok s'.
Proof using answers.
  intros Hpc Hs [Hx He Hp]. unfold at_pc in Hp.
  destruct Hs as [e s E Hv|s E Hv|e w s E Hb|st w s E Hb|sv s E Hv|why st s E Hv Est|x s E Hst|s E Hst|s E|s E
    |sig sigs s E Es|e errs s E Es|s E|e s E|s E|s E|i w s E Hw|st s E Est]; rewrite E in Hpc, Hp;
    try (by destruct Hpc as [|[|[]]]).
  - destruct Hp as ((Hn & Hsaid & _) & Hw). split; [done|done|]. right. left. split; [done|]. left. exists e.
    unfold trace_of. simpl. by rewrite Hsaid, Hw.
  - destruct Hp as [Hn Hw]. by split; [| |split_and!].
  - destruct Hp as ((Hn & Hsaid & _) & Hw & _). rewrite Hw in Hb. apply buildStore_built in Hb.
    split; [done|done|]. right. left. split; [done|]. right. left. exists e. simpl. rewrite Hsaid. done.
  - destruct Hp as (Hn & Hw & _). rewrite Hw in Hb. apply buildStore_built in Hb.
    split; [done|done|]. split; [done|]. by exists st.
  - destruct Hp as ((Hn & _) & Ho). by split.
  - destruct Hp as ((Hn & Hsaid & Hst) & st' & Est' & Hb). assert (st' = st) as -> by congruence.
    split; [done|done|]. right. right. split; [done|]. split; [by apply close_closed|]. split_and!; [done..|].
    exists why. simpl. by rewrite Hsaid.
  - split; [by eapply start_step_ok|done|]. unfold at_pc. simpl. by rewrite E.
  - split; [done|done|]. by destruct Hp.
Qed.

Lemma main_goroutine_ok (s s' : PTN) : main_goroutine cfg s s' → main_ok s → main_ok s'.
Proof using answers.
  intros Hs Hm. destruct (p_pc s) eqn:Epc; try (by eapply main_begins_ok; eauto).
  all: destruct Hm as [Hx He Hp]; unfold at_pc in Hp; rewrite Epc in Hp; destruct Hs; try congruence.
  - destruct Hp as (Ho & Hn & Hst). split; [done|intros _; apply He; congruence|done].
  - by split; [| |exact Hp].
  - split; [done|done|]. split; [exact Hp|]. left. exists sig. apply elem_of_app. right. by left.
  - split; [done| |].
    + intros Hd. specialize (He Hd). simpl. congruence.
    + split; [exact Hp|]. right. exists e. apply elem_of_app. right. by left.
  - split; [done|done|]. by destruct Hp.
  - destruct Hp as [(Ho & _) [Ha Hsh]]. destruct (shutting_down_on s (say (ShutdownFailed e) s)) as (Ha' & _); [apply said_on_say|done|].
    split; [done|done|]. right. left. split; [done|]. right. right. exists e. simpl. rewrite last_snoc.
    split; [done|]. split; [|exact Ho]. split; [by apply Ha'|exact Hsh].
  - destruct Hp as [Hr [Ha Hsh]]. destruct (shutting_down_on s (say ShutdownComplete s)) as (Ha' & _); [apply said_on_say|done|].
    split; [done|done|]. split; [exact Hr|]. split; [split; [by apply Ha'|done]|]. apply elem_of_app. right. by left.
  - destruct Hp as [Hr Hd]. split; [|done|].
    + apply set_stoppers_ok; [done|]. apply Forall_app. split; [apply Hx|by repeat constructor].
    + split; [done|]. split; [done|]. exists Stopping. simpl. by rewrite list_lookup_middle.
  - destruct Hp as [(Ho & _) (Hd & p & Hi & Hp)]. split; [done|done|]. split; [exact Ho|]. split; [exact Hd|]. simpl.
    assert (w = true ∧ i = i0) as [-> ->].
    { assert (i = i0) as <- by congruence. split; [|done]. destruct w; congruence. }
    apply (so_done _ Hx), (Forall_lookup_1 _ _ _ _ (so_stoppers _ Hx) H0).
  - destruct Hp as [(st' & Est & Hb) Hl]. assert (st' = st) as -> by congruence.
    split; [done|done|]. left. split; [done|]. destruct Hl as [Hd Hl]. split; [exact Hd|]. split; [by apply close_closed|done].
Qed.

Lemma proc_step_ok (s s' : PTN) : proc_step cfg s s' → main_ok s → main_ok s'.
Proof using answers.
  intros [? ? [? ? H|? ? ? H|? ? ? H]|? ? ? H]; eauto using main_goroutine_ok, server_step_ok, below_step_ok, signal_step_ok.
Qed.

(** ** Ending *)

Definition can_exit (s : PTN) : Prop := ∃ s' code, rtc (proc_step cfg) s s' ∧ p_pc s' = Exited_with code.

Lemma can_exit_after (s s' : PTN) :
  rtc (proc_step cfg) s s' → main_ok s → (main_ok s' → can_exit s') → can_exit s.
Proof using answers.
  intros Hr Hok Hc. destruct Hc as (t & c & Ht & Et).
  - revert Hok. induction Hr as [|x y z Hxy _ IH]; [done|]. intros Hx. apply IH. by eapply proc_step_ok.
  - exists t, c. split; [by etrans|done].
Qed.

Lemma main_proc (s s' : PTN) : main_goroutine cfg s s' → rtc (proc_step cfg) s s'.
Proof using Type. intros H. by apply rtc_once, proc_prog, prog_main. Qed.

(** The steps of Stop and of the sampler, in the program. *)
Lemma inner_steps_proc (s : PTN) y :
  ends (p_pc s) = false → starter (p_sampler s) = StartDone → sampler_ok (p_sampler s) →
  rtc inner_step (p_sampler s) y → rtc (proc_step cfg) s (set_sampler y s).
Proof using Type.
  intros Hends Hst Hx Hr. remember (p_sampler s) as x eqn:Ex. revert s Ex Hends.
  induction Hr as [x|x z y Hxz Hzy IH]; intros s -> Hends.
  - by destruct s.
  - assert (Hstep : below_step s (set_sampler z s) ∧ goes_on (p_sampler s) z).
    { inversion Hxz as [? ? H|? ? H|i ? ? H]; subst.
      - split; [by constructor|by apply run_goes_on].
      - by apply start_step_frame in H.
      - split; [by eapply below_stop|by eapply stop_goes_on]. }
    destruct Hstep as [Hb (Hz & Ez & _)]. eapply rtc_l; [by apply proc_prog, prog_below|].
    apply (IH (eq_trans Ez Hst) Hz (set_sampler z s) eq_refl Hends).
Qed.

Lemma exit_from_close (s : PTN) : p_pc s = AtClose → main_ok s → can_exit s.
Proof using Type.
  intros E [_ _ Hp]. unfold at_pc in Hp. rewrite E in Hp. destruct Hp as [(st & Est & _) _].
  eexists _, 0%Z. split; [by apply main_proc, (main_close _ st)|done].
Qed.

Lemma exit_from_await (s : PTN) i : p_pc s = AwaitStop i → main_ok s → can_exit s.
Proof using answers.
  intros E Hm. pose proof Hm as [Hx _ Hp]. unfold at_pc in Hp. rewrite E in Hp.
  destruct Hp as [(_ & _ & Hst) (_ & p & Hi & _)]. destruct (stop_ends i p _ Hx Hi) as (y & w & Hy & Hw).
  eapply can_exit_after; [|exact Hm|intros Hm'].
  - etrans; [apply (inner_steps_proc s y); [by rewrite E|done..]|].
    by apply main_proc, (main_stopped _ i w).
  - by apply exit_from_close.
Qed.

Lemma exit_from_shutdown (s : PTN) :
  p_pc s = AtShutdown ∨ p_pc s = AwaitShutdown ∨ p_pc s = AtStop → main_ok s → can_exit s.
Proof using answers.
  assert (H1 : ∀ s : PTN, p_pc s = AtStop → main_ok s → can_exit s).
  { intros x E Hm. eapply can_exit_after; [by apply main_proc, main_stop|done|]. by eapply exit_from_await. }
  assert (H2 : ∀ s : PTN, p_pc s = AwaitShutdown → main_ok s → can_exit s).
  { intros x E Hm. eapply can_exit_after; [by apply main_proc, main_shutdown_done|done|]. by apply H1. }
  intros [E|[E|E]] Hm; [|by apply H2|by apply H1].
  eapply can_exit_after; [by apply main_proc, main_shutdown|done|]. by apply H2.
Qed.

Lemma exit_from_select (s : PTN) : p_pc s = AtSelect → main_ok s → can_exit s.
Proof using answers.
  intros E Hm. pose proof Hm as [_ _ Hp]. unfold at_pc in Hp. rewrite E in Hp. destruct Hp as (_ & Hn & _).
  assert (H : ∀ x : PTN, p_pc x = AtSelect → p_sig x ≠ [] → main_ok x → can_exit x).
  { intros x Ex Hs Hx. destruct (p_sig x) as [|sig sigs] eqn:Es; [done|].
    eapply can_exit_after; [by apply main_proc, (main_signal _ sig sigs)|done|].
    apply exit_from_shutdown. by left. }
  destruct (p_sig s) as [|sig sigs] eqn:Es; [|apply H; by rewrite ?Es].
  eapply can_exit_after; [apply rtc_once, proc_signal, (sig_kept SIGTERM); first [done|by rewrite E]|done|].
  rewrite Es. apply H; done.
Qed.

Lemma exit_from_spawn (s : PTN) : p_pc s = AtSpawn ∨ p_pc s = AtNotify → main_ok s → can_exit s.
Proof using answers.
  assert (H : ∀ s : PTN, p_pc s = AtNotify → main_ok s → can_exit s).
  { intros x E Hm. eapply can_exit_after; [by apply main_proc, main_notify|done|]. by apply exit_from_select. }
  intros [E|E] Hm; [|by apply H]. eapply can_exit_after; [by apply main_proc, main_spawn|done|]. by apply H.
Qed.

Lemma exit_from_history (s : PTN) : p_pc s = AtHistory → main_ok s → can_exit s.
Proof using answers.
  assert (H1 : ∀ s : PTN, p_pc s = AtHistory → starter (p_sampler s) = StartDone → main_ok s → can_exit s).
  { intros x E Es Hm. eapply can_exit_after; [by apply main_proc, main_started|done|].
    apply exit_from_spawn. by left. }
  assert (H2 : ∀ s : PTN, p_pc s = AtHistory → starter (p_sampler s) = Spawning → main_ok s → can_exit s).
  { intros x E Es Hm. eapply can_exit_after; [by apply main_proc, main_start, start_spawn|done|]. by apply H1. }
  assert (H3 : ∀ s : PTN, p_pc s = AtHistory → starter (p_sampler s) = Storing → main_ok s → can_exit s).
  { intros x E Es Hm. eapply can_exit_after; [by apply main_proc, main_start, start_store|done|]. by apply H2. }
  intros E Hm. destruct (starter (p_sampler s)) eqn:Es; eauto.
  eapply can_exit_after; [by apply main_proc, main_start, start_enter|done|]. by apply H3.
Qed.

Lemma exit_from_server (s : PTN) : p_pc s = AtServer → main_ok s → can_exit s.
Proof using answers.
  intros E Hm. pose proof Hm as [_ _ Hp]. unfold at_pc in Hp. rewrite E in Hp. destruct Hp as [_ (st & Est & _)].
  destruct (NewServer_outcome cfg) as [[sv Hv]|Hv].
  - eapply can_exit_after; [by apply main_proc, (main_server _ sv)|done|]. by apply exit_from_history.
  - eexists _, 2%Z. split; [by apply main_proc, (main_server_panics _ makeslice_panic st)|done].
Qed.

Lemma exit_from_config (s : PTN) : p_pc s = AtConfig ∨ p_pc s = AtStore → main_ok s → can_exit s.
Proof using answers.
  assert (H : ∀ s : PTN, p_pc s = AtStore → main_ok s → can_exit s).
  { intros x E Hm. destruct (buildStore cfg (p_world x)) as [o w] eqn:Eb.
    pose proof Hm as [_ _ Hp]. unfold at_pc in Hp. rewrite E in Hp. destruct Hp as (_ & Ew & _).
    rewrite Ew in Eb. pose proof (buildStore_built _ _ Eb) as Hb. rewrite <- Ew in Eb.
    destruct o as [st|e|p|]; simpl in Hb; try done.
    - eapply can_exit_after; [by apply main_proc, (main_store _ st w)|done|]. by apply exit_from_server.
    - eexists _, 1%Z. split; [by apply main_proc, (main_no_store _ e w)|done]. }
  intros [E|E] Hm; [|by apply H]. destruct (Config_Validate cfg) as [e|] eqn:Ev.
  - eexists _, 1%Z. split; [by apply main_proc, (main_invalid _ e)|done].
  - eapply can_exit_after; [by apply main_proc, main_valid|done|]. by apply H.
Qed.

Lemma exits (s : PTN) : p_pc s ≠ Killed → main_ok s → can_exit s.
Proof using answers.
  intros Hk Hm. destruct (p_pc s) as [| | | | | | | | | |i| |code|] eqn:E; try done.
  all: try solve [apply exit_from_config; auto|by apply exit_from_server|apply exit_from_history; auto|apply exit_from_spawn; auto
    |apply exit_from_select; auto|apply exit_from_shutdown; auto|by apply (exit_from_await _ i)
    |apply exit_from_close; auto].
  by exists s, code.
Qed.

(** C14: However the goroutines of the program, its signals and the requests
    interleave: it exits with 0 only after a signal or an error of the server
    was received and [httpServer.Shutdown] was called and came back without
    an error, with the sampler over and the store closed, the pool of
    PostgreSQL once and as the last of its calls; it exits with 1 for a
    configuration that is not valid, before anything is opened, for a store
    that could not be built, with whatever was opened closed again, or for a
    shutdown that was called and failed, and then the pool is left open; it
    ends with 2 only when NewServer panics, before anything is started, and
    then the store is closed; no other code is used. The serving goroutine is
    never blocked on the error it sends, and no channel is closed twice. From
    every state that is no kill the program can still exit. *)
Theorem process_exits (s : PTN) :
  rtc (proc_step cfg) start s →
  (∀ code, p_pc s = Exited_with code → exit_ok code s) ∧
  (∀ e, p_server s = SrvSending e → p_err s = []) ∧
  crashed (p_sampler s) = false ∧
  (p_pc s ≠ Killed → can_exit s).
Proof using answers.
  intros Hr. assert (Hm : main_ok s).
  { revert Hr. apply (rtc_ind_r main_ok); [apply init_ok|]. intros x y _ Hxy. by apply proc_step_ok. }
  pose proof Hm as [Hx He Hp]. split_and!.
  - intros code E. unfold at_pc in Hp. by rewrite E in Hp.
  - intros e E. apply He. congruence.
  - apply Hx.
  - intros Hk. by apply exits.
Qed.
End Invariant.

(** ** A port that is taken: the error is logged and the exit code is 0 *)
Definition memory_env : env := λ k, if bool_decide (k = "USE_MEMORY_STORE") then Some "true" else None.

Definition memory_config : Config := Eval vm_compute in Load_config memory_env.

Definition in_use : error := ErrorsNew "listen tcp 0.0.0.0:8080: bind: address already in use".

Section Run.
Abbreviation TN := (nat * list (pool_event (@pool nat sample_pool)))%type.
Abbreviation step := (@proc_step TN traced_pool sample_fs memory_config).
Abbreviation start := (@init TN traced_pool memory_config ((0, []), not_loaded)).

(** A step, and its state evaluated. *)
Ltac step_by t :=
  eapply rtc_l; [t|match goal with |- rtc _ ?s _ => let s' := eval vm_compute in s in change s with s' end].

Lemma server_error_exits_0 :
  ∃ s, rtc step start s ∧ p_pc s = Exited_with 0 ∧
    p_said s = [HubListening "0.0.0.0:8080"; ServerError in_use; ShutdownComplete].
Proof.
  eexists. split.
  - step_by ltac:(apply proc_prog, prog_main, main_valid; reflexivity).
    step_by ltac:(apply proc_prog, prog_main, (main_store _ StMemory); reflexivity).
    step_by ltac:(eapply proc_prog, prog_main, main_server; reflexivity).
    step_by ltac:(eapply proc_prog, prog_main, main_start, start_enter; reflexivity).
    step_by ltac:(eapply proc_prog, prog_main, main_start, start_store; reflexivity).
    step_by ltac:(eapply proc_prog, prog_main, main_start, start_spawn; reflexivity).
    step_by ltac:(apply proc_prog, prog_main, main_started; reflexivity).
    step_by ltac:(apply proc_prog, prog_main, main_spawn; reflexivity).
    step_by ltac:(apply proc_prog, prog_main, main_notify; reflexivity).
    step_by ltac:(apply proc_prog, prog_server, srv_starts; reflexivity).
    step_by ltac:(apply proc_prog, prog_server, (srv_fails _ in_use); [reflexivity|left; reflexivity|reflexivity]).
    step_by ltac:(apply proc_prog, prog_server, (srv_send _ in_use); [reflexivity..|apply le_n]).
    step_by ltac:(apply proc_prog, prog_main, (main_server_error _ in_use []); reflexivity).
    step_by ltac:(apply proc_prog, prog_main, main_shutdown; reflexivity).
    step_by ltac:(apply proc_prog, prog_main, main_shutdown_done; reflexivity).
    step_by ltac:(apply proc_prog, prog_main, main_stop; reflexivity).
    step_by ltac:(eapply proc_prog, prog_below, (below_stop 0), stop_first; reflexivity).
    step_by ltac:(eapply proc_prog, prog_below, (below_stop 0), stop_started; reflexivity).
    step_by ltac:(eapply proc_prog, prog_below, below_run, (run_capture zero_Sample); reflexivity).
    step_by ltac:(eapply proc_prog, prog_below, below_run, run_stop; reflexivity).
    step_by ltac:(eapply proc_prog, prog_below, below_run, run_leave; reflexivity).
    step_by ltac:(eapply proc_prog, prog_below, (below_stop 0), stop_done; reflexivity).
    step_by ltac:(apply proc_prog, prog_main, (main_stopped _ 0 true); reflexivity).
    step_by ltac:(apply proc_prog, prog_main, (main_close _ StMemory); reflexivity). apply rtc_refl.
  - split; vm_compute; reflexivity.
Qed.

Lemma process_exits_witness :
  ∃ s, rtc step start s ∧ p_pc s = Exited_with 0 ∧ exit_ok (pp := sample_pool) (fs := sample_fs) memory_config not_loaded 0 s.
Proof.
  destruct server_error_exits_0 as (s & Hr & E & _). exists s. split; [exact Hr|]. split; [exact E|].
  destruct (process_exits (pp := sample_pool) (fs := sample_fs) (answers := sample_pool_answers) memory_config 0 not_loaded s Hr) as (H & _).
  exact (H _ E).
Defined.
End Run.
